(** * Multi-provider OAuth 2.1 authorization core: a shallow embedding

    The development follows the TypeScript sources of the gateway:
    the per-provider handlers under [src/auth/] (Google, Auth0, Keycloak and
    the generic OAuth 2.1 server), and the two entry points [index.ts] and
    [index_sentry.ts] that mount them on a router.

    JavaScript strings are sequences of UTF-16 code units; they are modelled
    as [list N], and numbers as the doubles their literals round to.
    Platform functions the handlers call ([btoa], [atob], [JSON.stringify],
    [JSON.parse], the conversion of a value to a string, [TextEncoder],
    [crypto.subtle.digest], [URLSearchParams], [encodeURIComponent]) are
    modelled after their standards, next to the handler code that uses
    them. *)

From Stdlib Require Import String Ascii NArith ZArith List Bool Lia.
Import ListNotations.

Local Open Scope N_scope.
Set Warnings "-register-all".

(* ===================================================================== *)
(** ** JavaScript strings *)
(* ===================================================================== *)

(** A JavaScript string: its UTF-16 code units, in order. *)
Definition jsstring := list N.

(** String literals of the source, written as Rocq strings. *)
Fixpoint js (s : string) : jsstring :=
  match s with
  | EmptyString => []
  | String a r => N_of_ascii a :: js r
  end.

Definition jseqb (a b : jsstring) : bool :=
  if list_eq_dec N.eq_dec a b then true else false.

(** A literal in which ['] stands for the double quote. *)
Definition jq (s : string) : jsstring :=
  map (fun c => if c =? 39 then 34 else c) (js s).

(** [s.replace(/c/g, r)] for a one-character pattern [c]. *)
Fixpoint replaceAll (c : N) (r : jsstring) (s : jsstring) : jsstring :=
  match s with
  | [] => []
  | x :: rest => if x =? c then r ++ replaceAll c r rest else x :: replaceAll c r rest
  end.

(** [s.includes(c)] for a one-character needle. *)
Definition includesChar (c : N) (s : jsstring) : bool := existsb (N.eqb c) s.

(** [s.split(c)] for a one-character separator: the pieces between the
    occurrences of [c]; never empty. *)
Fixpoint split (c : N) (s : jsstring) : list jsstring :=
  match s with
  | [] => [[]]
  | x :: rest =>
      if x =? c then [] :: split c rest
      else match split c rest with
           | [] => [[x]]
           | p :: ps => (x :: p) :: ps
           end
  end.

(** [needle] is a prefix of [s]. *)
Fixpoint startsWith (needle s : jsstring) : bool :=
  match needle, s with
  | [], _ => true
  | _ :: _, [] => false
  | a :: n', b :: s' => (a =? b) && startsWith n' s'
  end.

(** [s.includes(needle)]. *)
Fixpoint includes (needle s : jsstring) : bool :=
  startsWith needle s ||
  match s with
  | [] => false
  | _ :: rest => includes needle rest
  end.

(** Exceptions the modelled platform functions and handlers can raise. *)
Inductive JsError : Type :=
| InvalidCharacterError   (* DOMException of btoa / atob *)
| SyntaxError             (* JSON.parse *)
| TypeError               (* property access on undefined, call of a non-function *)
| URIError                (* encodeURIComponent on a lone surrogate *)
| GenericError (message : jsstring)        (* throw new Error(message) *)
| Rejected (name message : jsstring).      (* an error the environment raises:
                                              a rejected fetch, a body that
                                              cannot be read or parsed *)

(* ===================================================================== *)
(** ** Base64: [btoa] and [atob] *)
(* ===================================================================== *)

(** The base64 alphabet of RFC 4648 section 4: value [0..63] to character. *)
Definition b64char (n : N) : N :=
  if n <? 26 then 65 + n
  else if n <? 52 then 97 + (n - 26)
  else if n <? 62 then 48 + (n - 52)
  else if n =? 62 then 43 (* + *)
  else 47 (* / *).

(** Encoding of a byte sequence, three bytes to four characters, with
    [=] padding. *)
Fixpoint b64enc (bs : list N) : jsstring :=
  match bs with
  | [] => []
  | [a] => [b64char (a / 4); b64char ((a mod 4) * 16); 61; 61]
  | [a; b] =>
      [b64char (a / 4); b64char ((a mod 4) * 16 + b / 16);
       b64char ((b mod 16) * 4); 61]
  | a :: b :: c :: rest =>
      b64char (a / 4) :: b64char ((a mod 4) * 16 + b / 16)
      :: b64char ((b mod 16) * 4 + c / 64) :: b64char (c mod 64)
      :: b64enc rest
  end.

(** [btoa(s)]: every code unit must be at most U+00FF, else the call
    throws [InvalidCharacterError]. *)
Definition btoa (s : jsstring) : JsError + jsstring :=
  if forallb (fun c => c <=? 255) s then inr (b64enc s)
  else inl InvalidCharacterError.

(** Character to base64 value; [None] outside the alphabet. *)
Definition b64val (c : N) : option N :=
  if (65 <=? c) && (c <=? 90) then Some (c - 65)
  else if (97 <=? c) && (c <=? 122) then Some (c - 97 + 26)
  else if (48 <=? c) && (c <=? 57) then Some (c - 48 + 52)
  else if c =? 43 then Some 62
  else if c =? 47 then Some 63
  else None.

Fixpoint b64vals (s : jsstring) : option (list N) :=
  match s with
  | [] => Some []
  | c :: rest =>
      match b64val c, b64vals rest with
      | Some v, Some vs => Some (v :: vs)
      | _, _ => None
      end
  end.

(** Four 6-bit values to three bytes; a final group of two or three values
    gives one or two bytes, the left-over bits being dropped. *)
Fixpoint b64dec (vs : list N) : list N :=
  match vs with
  | a :: b :: c :: d :: rest =>
      (a * 4 + b / 16) :: ((b mod 16) * 16 + c / 4) :: ((c mod 4) * 64 + d)
      :: b64dec rest
  | [a; b; c] => [a * 4 + b / 16; (b mod 16) * 16 + c / 4]
  | [a; b] => [a * 4 + b / 16]
  | _ => []
  end.

Definition isAsciiWhitespace (c : N) : bool :=
  (c =? 9) || (c =? 10) || (c =? 12) || (c =? 13) || (c =? 32).

(** Removes one or two [=] signs that end the string. *)
Fixpoint stripPadding (s : jsstring) : jsstring :=
  match s with
  | [] => []
  | c :: rest =>
      if (c =? 61)
         && match rest with
            | [] => true
            | [d] => d =? 61
            | _ => false
            end
      then []
      else c :: stripPadding rest
  end.

(** [atob(s)], the forgiving-base64 decode of the HTML standard: ASCII
    whitespace is removed; when the length is a multiple of four, up to two
    trailing [=] are removed; a length of 1 modulo 4, or a character outside
    the alphabet, throws [InvalidCharacterError]. *)
Definition atob (s : jsstring) : JsError + jsstring :=
  let d := filter (fun c => negb (isAsciiWhitespace c)) s in
  let d := if N.of_nat (length d) mod 4 =? 0 then stripPadding d else d in
  if N.of_nat (length d) mod 4 =? 1 then inl InvalidCharacterError
  else match b64vals d with
       | Some vs => inr (b64dec vs)
       | None => inl InvalidCharacterError
       end.

(* ===================================================================== *)
(** ** [TextEncoder]: UTF-8 *)
(* ===================================================================== *)

Definition isHighSurrogate (c : N) : bool := (0xD800 <=? c) && (c <=? 0xDBFF).
Definition isLowSurrogate (c : N) : bool := (0xDC00 <=? c) && (c <=? 0xDFFF).

(** UTF-8 bytes of one code point. *)
Definition utf8CodePoint (cp : N) : list N :=
  if cp <? 0x80 then [cp]
  else if cp <? 0x800 then [0xC0 + cp / 64; 0x80 + cp mod 64]
  else if cp <? 0x10000 then
    [0xE0 + cp / 4096; 0x80 + (cp / 64) mod 64; 0x80 + cp mod 64]
  else
    [0xF0 + cp / 262144; 0x80 + (cp / 4096) mod 64;
     0x80 + (cp / 64) mod 64; 0x80 + cp mod 64].

(** [new TextEncoder().encode(s)]: surrogate pairs are combined, a lone
    surrogate is replaced by U+FFFD. *)
Fixpoint TextEncoder_encode (s : jsstring) : list N :=
  match s with
  | [] => []
  | c :: rest =>
      if isHighSurrogate c then
        match rest with
        | lo :: rest' =>
            if isLowSurrogate lo then
              utf8CodePoint (0x10000 + (c - 0xD800) * 1024 + (lo - 0xDC00))
              ++ TextEncoder_encode rest'
            else utf8CodePoint 0xFFFD ++ TextEncoder_encode rest
        | [] => utf8CodePoint 0xFFFD
        end
      else if isLowSurrogate c then utf8CodePoint 0xFFFD ++ TextEncoder_encode rest
      else utf8CodePoint c ++ TextEncoder_encode rest
  end.

(* ===================================================================== *)
(** ** [crypto.subtle.digest('SHA-256', data)] (FIPS 180-4) *)
(* ===================================================================== *)

Module SHA256.

Definition w32 (x : N) : N := x mod 4294967296.
Definition add32 (x y : N) : N := w32 (x + y).
Definition rotr (n x : N) : N := w32 (N.lor (N.shiftr x n) (N.shiftl x (32 - n))).
Definition not32 (x : N) : N := 4294967295 - x.

Definition Ch (x y z : N) : N := N.lxor (N.land x y) (N.land (not32 x) z).
Definition Maj (x y z : N) : N :=
  N.lxor (N.lxor (N.land x y) (N.land x z)) (N.land y z).
Definition Sigma0 (x : N) : N := N.lxor (N.lxor (rotr 2 x) (rotr 13 x)) (rotr 22 x).
Definition Sigma1 (x : N) : N := N.lxor (N.lxor (rotr 6 x) (rotr 11 x)) (rotr 25 x).
Definition sigma0 (x : N) : N := N.lxor (N.lxor (rotr 7 x) (rotr 18 x)) (N.shiftr x 3).
Definition sigma1 (x : N) : N := N.lxor (N.lxor (rotr 17 x) (rotr 19 x)) (N.shiftr x 10).

(** Trial division. *)
Definition isPrime (n : N) : bool :=
  (2 <=? n)
  && forallb (fun d => negb (n mod N.of_nat d =? 0) || (n <=? N.of_nat d)) (seq 2 18).

(** The first sixty-four primes, from 2 to 311. *)
Definition primes : list N :=
  Eval vm_compute in filter isPrime (map N.of_nat (seq 2 310)).

(** The integer cube root, one bit at a time from bit [n - 1] down. *)
Fixpoint cbrtBits (n : nat) (x r : N) : N :=
  match n with
  | O => r
  | S k =>
      let r' := r + 2 ^ N.of_nat k in
      if r' * r' * r' <=? x then cbrtBits k x r' else cbrtBits k x r
  end.

(** The round constants: the first thirty-two bits of the fractional parts
    of the cube roots of the primes. *)
Definition K : list N :=
  Eval vm_compute in map (fun p => w32 (cbrtBits 36 (p * 2 ^ 96) 0)) primes.

(** The initial hash value: the first thirty-two bits of the fractional
    parts of the square roots of the first eight primes. *)
Definition H0 : list N :=
  Eval vm_compute in map (fun p => w32 (N.sqrt (p * 2 ^ 64))) (firstn 8 primes).

(** Big-endian bytes of a number, [n] of them. *)
Fixpoint be_bytes (n : nat) (x : N) : list N :=
  match n with
  | O => []
  | S k => (x / 256 ^ N.of_nat k) mod 256 :: be_bytes k x
  end.

(** Message padding: a one bit, zero bits up to 56 modulo 64 bytes, then the
    bit length on eight bytes. *)
Definition pad (msg : list N) : list N :=
  let len := N.of_nat (length msg) in
  let zeros := N.to_nat ((64 - (len + 9) mod 64) mod 64) in
  msg ++ [0x80] ++ repeat 0 zeros ++ be_bytes 8 (len * 8).

(** Big-endian 32-bit words of a byte sequence. *)
Fixpoint words (bs : list N) : list N :=
  match bs with
  | a :: b :: c :: d :: rest => (((a * 256 + b) * 256 + c) * 256 + d) :: words rest
  | _ => []
  end.

(** Sixteen-word blocks; [n] bounds their number. *)
Fixpoint blocks (n : nat) (ws : list N) : list (list N) :=
  match n, ws with
  | S k, _ :: _ => firstn 16 ws :: blocks k (skipn 16 ws)
  | _, _ => []
  end.

(** The message schedule, most recent word first: [n] further words. *)
Fixpoint schedule (n : nat) (rev_ws : list N) : list N :=
  match n with
  | O => rev_ws
  | S k =>
      let w :=
        add32 (add32 (sigma1 (nth 1 rev_ws 0)) (nth 6 rev_ws 0))
              (add32 (sigma0 (nth 14 rev_ws 0)) (nth 15 rev_ws 0)) in
      schedule k (w :: rev_ws)
  end.

Record regs := Regs { ra : N; rb : N; rc : N; rd : N; re : N; rf : N; rg : N; rh : N }.

Definition round (r : regs) (kw : N * N) : regs :=
  let t1 := add32 (add32 (add32 (rh r) (Sigma1 (re r)))
                         (add32 (Ch (re r) (rf r) (rg r)) (fst kw))) (snd kw) in
  let t2 := add32 (Sigma0 (ra r)) (Maj (ra r) (rb r) (rc r)) in
  Regs (add32 t1 t2) (ra r) (rb r) (rc r) (add32 (rd r) t1) (re r) (rf r) (rg r).

Definition regs_of (h : list N) : regs :=
  Regs (nth 0 h 0) (nth 1 h 0) (nth 2 h 0) (nth 3 h 0)
       (nth 4 h 0) (nth 5 h 0) (nth 6 h 0) (nth 7 h 0).

Definition compress (h : list N) (block : list N) : list N :=
  let w := rev (schedule 48 (rev block)) in
  let r0 := regs_of h in
  let r := fold_left round (combine K w) r0 in
  [add32 (ra r0) (ra r); add32 (rb r0) (rb r); add32 (rc r0) (rc r);
   add32 (rd r0) (rd r); add32 (re r0) (re r); add32 (rf r0) (rf r);
   add32 (rg r0) (rg r); add32 (rh r0) (rh r)].

(** The digest: thirty-two bytes. *)
Definition digest (msg : list N) : list N :=
  let ws := words (pad msg) in
  let h := fold_left compress (blocks (length ws) ws) H0 in
  flat_map (be_bytes 4) h.

End SHA256.

(* ===================================================================== *)
(** ** PKCE helpers (identical copies in every handler file) *)
(* ===================================================================== *)

(** [new Uint8Array(n)] after [crypto.getRandomValues]: [random i] stands
    for the value drawn for index [i]; an element holds it modulo 256. *)
Definition Uint8Array (n : nat) (random : nat -> N) : list N :=
  map (fun i => random i mod 256) (seq 0 n).

(** [generateCodeVerifier()]. *)
Definition generateCodeVerifier (random : nat -> N) : JsError + jsstring :=
  let array := Uint8Array 32 random in
  match btoa array with
  | inr s => inr (replaceAll 61 [] (replaceAll 47 (js "_") (replaceAll 43 (js "-") s)))
  | inl e => inl e
  end.

(** [generateCodeChallenge(verifier)]: [String.fromCharCode] of digest bytes
    is a string of code units below 256, on which [btoa] does not throw. *)
Definition generateCodeChallenge (verifier : jsstring) : JsError + jsstring :=
  let data := TextEncoder_encode verifier in
  let digest := SHA256.digest data in
  match btoa digest with
  | inr s => inr (replaceAll 61 [] (replaceAll 47 (js "_") (replaceAll 43 (js "-") s)))
  | inl e => inl e
  end.

(** Base64url without padding, as RFC 4648 section 5 defines it: the
    alphabet ends in [-] and [_], and no [=] is appended. *)
Definition b64urlchar (n : N) : N :=
  if n <? 26 then 65 + n
  else if n <? 52 then 97 + (n - 26)
  else if n <? 62 then 48 + (n - 52)
  else if n =? 62 then 45 (* - *)
  else 95 (* _ *).

Fixpoint base64url_nopad (bs : list N) : jsstring :=
  match bs with
  | [] => []
  | [a] => [b64urlchar (a / 4); b64urlchar ((a mod 4) * 16)]
  | [a; b] =>
      [b64urlchar (a / 4); b64urlchar ((a mod 4) * 16 + b / 16);
       b64urlchar ((b mod 16) * 4)]
  | a :: b :: c :: rest =>
      b64urlchar (a / 4) :: b64urlchar ((a mod 4) * 16 + b / 16)
      :: b64urlchar ((b mod 16) * 4 + c / 64) :: b64urlchar (c mod 64)
      :: base64url_nopad rest
  end.

Definition hexdigit (n : N) : N := if n <? 10 then 48 + n else 87 + n.
Definition hex (bs : list N) : jsstring :=
  flat_map (fun b => [hexdigit (b / 16); hexdigit (b mod 16)]) bs.


(* ===================================================================== *)
(** ** JSON values, [JSON.stringify] and [JSON.parse] *)
(* ===================================================================== *)

(** A parsed JSON document.  A number is kept as the decimal [m * 10^e] its
    literal denotes, and is read through [toDouble], the Number the engine
    makes of it; an object keeps its members in insertion order. *)
Inductive JsValue : Type :=
| JNull
| JBool (b : bool)
| JNum (m e : Z)
| JStr (s : jsstring)
| JArr (items : list JsValue)
| JObj (members : list (jsstring * JsValue)).

(** Own-property lookup in a member list; [None] is [undefined]. *)
Fixpoint lookup {A} (k : jsstring) (ms : list (jsstring * A)) : option A :=
  match ms with
  | [] => None
  | (k', v) :: rest => if jseqb k k' then Some v else lookup k rest
  end.

(** [obj[k] = v]: replaces the value of an existing key in place, appends a
    new key. *)
Fixpoint setMember {A} (k : jsstring) (v : A) (ms : list (jsstring * A))
  : list (jsstring * A) :=
  match ms with
  | [] => [(k, v)]
  | (k', v') :: rest =>
      if jseqb k k' then (k', v) :: rest else (k', v') :: setMember k v rest
  end.

(** *** Numbers

    [JSON.parse] turns a number literal into the double nearest to the
    decimal it denotes.  A literal denotes no NaN, and the two zeros test
    and print alike, so a Number here is a zero, a finite double
    [mantissa * 2^exponent] with [0 < mantissa < 2^53] and
    [-1074 <= exponent <= 971], or an infinity. *)
Inductive Double : Type :=
| DZero
| DFinite (negative : bool) (mantissa exponent : Z)
| DInfinity (negative : bool).

Definition Double_eqb (x y : Double) : bool :=
  match x, y with
  | DZero, DZero => true
  | DFinite s m p, DFinite s' m' p' =>
      Bool.eqb s s' && (m =? m')%Z && (p =? p')%Z
  | DInfinity s, DInfinity s' => Bool.eqb s s'
  | _, _ => false
  end.

(** [2^e <= a / b], for positive [a] and [b]. *)
Definition pow2Below (a b e : Z) : bool :=
  if (0 <=? e)%Z then (b * 2 ^ e <=? a)%Z else (b <=? a * 2 ^ (- e))%Z.

(** The exponent of the leading bit of [a / b]. *)
Definition binaryExponent (a b : Z) : Z :=
  let e := (Z.log2 a - Z.log2 b)%Z in
  if pow2Below a b e then e else (e - 1)%Z.

(** The double nearest to the positive ratio [a / b], ties to the even
    mantissa; below the normal range the exponent stays at -1074, and a
    value of [2^1024] or more is an infinity. *)
Definition roundToDouble (negative : bool) (a b : Z) : Double :=
  let p := Z.max (binaryExponent a b - 52) (-1074) in
  let num := if (p <? 0)%Z then (a * 2 ^ (- p))%Z else a in
  let den := if (p <? 0)%Z then b else (b * 2 ^ p)%Z in
  let q := (num / den)%Z in
  let r := (num mod den)%Z in
  let mant :=
    if (den <? 2 * r)%Z || ((den =? 2 * r)%Z && Z.odd q) then (q + 1)%Z else q in
  if (mant =? 0)%Z then DZero
  else
    let '(mant, p) :=
      if (mant =? 2 ^ 53)%Z then ((2 ^ 52)%Z, (p + 1)%Z) else (mant, p) in
    if (971 <? p)%Z then DInfinity negative else DFinite negative mant p.

(** The Number of the literal that denotes [m * 10^e]. *)
Definition toDouble (m e : Z) : Double :=
  if (m =? 0)%Z then DZero
  else if (0 <=? e)%Z then roundToDouble (m <? 0)%Z (Z.abs m * 10 ^ e) 1
  else roundToDouble (m <? 0)%Z (Z.abs m) (10 ^ (- e)).

(** Truthiness ([!x] is its negation); [None] is [undefined]. *)
Definition truthy (v : option JsValue) : bool :=
  match v with
  | None => false
  | Some JNull => false
  | Some (JBool b) => b
  | Some (JNum m e) => negb (Double_eqb (toDouble m e) DZero)
  | Some (JStr s) => match s with [] => false | _ => true end
  | Some (JArr _) => true
  | Some (JObj _) => true
  end.

(** Lower-case hexadecimal digit, and four of them. *)
Definition hex4 (c : N) : jsstring :=
  [hexdigit (c / 4096); hexdigit ((c / 256) mod 16);
   hexdigit ((c / 16) mod 16); hexdigit (c mod 16)].

(** The escape of one code unit inside a JSON string (QuoteJSONString). *)
Definition escapeUnit (c : N) : jsstring :=
  if c =? 8 then js "\b"
  else if c =? 9 then js "\t"
  else if c =? 10 then js "\n"
  else if c =? 12 then js "\f"
  else if c =? 13 then js "\r"
  else if c =? 34 then [92; 34]
  else if c =? 92 then [92; 92]
  else if c <? 32 then js "\u" ++ hex4 c
  else [c].

(** Body of a quoted string; a surrogate that is not part of a pair is
    written as a [\u] escape. *)
Fixpoint quoteBody (s : jsstring) : jsstring :=
  match s with
  | [] => []
  | c :: rest =>
      if isHighSurrogate c then
        match rest with
        | lo :: rest' =>
            if isLowSurrogate lo then c :: lo :: quoteBody rest'
            else js "\u" ++ hex4 c ++ quoteBody rest
        | [] => js "\u" ++ hex4 c
        end
      else if isLowSurrogate c then js "\u" ++ hex4 c ++ quoteBody rest
      else escapeUnit c ++ quoteBody rest
  end.

Definition quoteJSONString (s : jsstring) : jsstring :=
  [34] ++ quoteBody s ++ [34].

(** Decimal digits of a number. *)
Fixpoint digitsFuel (fuel : nat) (n : N) (acc : jsstring) : jsstring :=
  match fuel with
  | O => acc
  | S f =>
      if n <? 10 then (48 + n) :: acc
      else digitsFuel f (n / 10) ((48 + n mod 10) :: acc)
  end.

Definition decimal (n : N) : jsstring := digitsFuel (S (N.to_nat (N.log2 n))) n [].

Definition decimalZ (z : Z) : jsstring :=
  if (z <? 0)%Z then 45 :: decimal (Z.to_N (- z)) else decimal (Z.to_N z).

(** *** [Number::toString]

    The digits are the shortest decimal [s * 10^(n-k)], [s] of [k] digits,
    that reads back as the same double; among several of that length the
    one nearest to the double's value, and of two equally near the even
    one.  Ratios are pairs of a numerator and a positive denominator. *)
Definition times10 (n : Z) (x : Z * Z) : Z * Z :=
  if (0 <=? n)%Z then ((fst x * 10 ^ n)%Z, snd x) else (fst x, (snd x * 10 ^ (- n))%Z).

Definition distance (x y : Z * Z) : Z * Z :=
  (Z.abs (fst x * snd y - fst y * snd x), (snd x * snd y)%Z).

Definition ratio_ltb (x y : Z * Z) : bool :=
  (fst x * snd y <? fst y * snd x)%Z.

(** The [n] with [10^(n-1) <= a / b < 10^n], searched around the estimate
    that the binary exponent gives. *)
Definition inDecade (v : Z * Z) (n : Z) : bool :=
  let t := times10 (1 - n) v in
  (snd t <=? fst t)%Z && (fst t <? 10 * snd t)%Z.

Definition decimalExponent (v : Z * Z) : Z :=
  let n0 := ((Z.log2 (fst v) - Z.log2 (snd v)) * 30103 / 100000)%Z in
  match find (inDecade v) (map (fun i => (n0 - 2 + Z.of_nat i)%Z) (seq 0 7)) with
  | Some n => n
  | None => n0
  end.

(** A candidate is a pair [(s, n)]; it is admissible at length [k] when [s]
    has [k] digits and [s * 10^(n-k)] rounds to the double. *)
Definition denotes (mant p k : Z) (c : Z * Z) : bool :=
  (10 ^ (k - 1) <=? fst c)%Z && (fst c <? 10 ^ k)%Z
  && Double_eqb (toDouble (fst c) (snd c - k)) (DFinite false mant p).

(** The two multiples of [10^(n-k)] around the value, for the exponents a
    decimal that close to it can have. *)
Definition candidatesAt (v : Z * Z) (nv k : Z) : list (Z * Z) :=
  flat_map
    (fun n =>
       let t := times10 (k - n) v in
       let s := (fst t / snd t)%Z in
       [(s, n); ((s + 1)%Z, n)])
    [(nv - 1)%Z; nv; (nv + 1)%Z].

Definition closer (v : Z * Z) (k : Z) (c d : Z * Z) : Z * Z :=
  let dc := distance (times10 (snd c - k) (fst c, 1%Z)) v in
  let dd := distance (times10 (snd d - k) (fst d, 1%Z)) v in
  if ratio_ltb dd dc then d
  else if ratio_ltb dc dd then c
  else if Z.even (fst c) then c else d.

(** The digits [s], the exponent [n] and the length [k]; seventeen digits
    tell any two doubles apart, so the search ends within its fuel. *)
Fixpoint shortest (fuel : nat) (mant p : Z) (v : Z * Z) (nv k : Z) : Z * Z * Z :=
  match filter (denotes mant p k) (candidatesAt v nv k) with
  | c :: rest => (fold_left (closer v k) rest c, k)
  | [] =>
      match fuel with
      | O => ((mant, nv), k)
      | S f => shortest f mant p v nv (k + 1)%Z
      end
  end.

Definition Number_toString (x : Double) : jsstring :=
  match x with
  | DZero => js "0"
  | DInfinity negative => (if negative then js "-" else []) ++ js "Infinity"
  | DFinite negative mant p =>
      let v := if (0 <=? p)%Z then ((mant * 2 ^ p)%Z, 1%Z) else (mant, (2 ^ (- p))%Z) in
      let '(s, n, k) := shortest 17 mant p v (decimalExponent v) 1%Z in
      let d := decimalZ s in
      (if negative then js "-" else [])
      ++ (if (k <=? n)%Z && (n <=? 21)%Z then d ++ repeat 48 (Z.to_nat (n - k))
          else if (0 <? n)%Z && (n <=? 21)%Z then
            firstn (Z.to_nat n) d ++ js "." ++ skipn (Z.to_nat n) d
          else if (-6 <? n)%Z && (n <=? 0)%Z then
            js "0." ++ repeat 48 (Z.to_nat (- n)) ++ d
          else
            let e := (n - 1)%Z in
            let es := (if (e <? 0)%Z then js "-" else js "+") ++ decimalZ (Z.abs e) in
            if (k =? 1)%Z then d ++ js "e" ++ es
            else firstn 1 d ++ js "." ++ skipn 1 d ++ js "e" ++ es)
  end.

(** A finite Number serialises as it prints; [JSON.stringify] writes an
    infinity as [null]. *)
Definition stringifyNumber (x : Double) : jsstring :=
  match x with
  | DInfinity _ => js "null"
  | _ => Number_toString x
  end.

Section Stringify.

Variable stringify : JsValue -> jsstring.

Fixpoint joinItems (l : list JsValue) : jsstring :=
  match l with
  | [] => []
  | [v] => stringify v
  | v :: rest => stringify v ++ [44] ++ joinItems rest
  end.

Fixpoint joinMembers (l : list (jsstring * JsValue)) : jsstring :=
  match l with
  | [] => []
  | [(k, v)] => quoteJSONString k ++ [58] ++ stringify v
  | (k, v) :: rest =>
      quoteJSONString k ++ [58] ++ stringify v ++ [44] ++ joinMembers rest
  end.

End Stringify.

(** [JSON.stringify(v)] without indentation. *)
Fixpoint JSON_stringify (v : JsValue) : jsstring :=
  match v with
  | JNull => js "null"
  | JBool true => js "true"
  | JBool false => js "false"
  | JNum m e => stringifyNumber (toDouble m e)
  | JStr s => quoteJSONString s
  | JArr l => [91] ++ joinItems JSON_stringify l ++ [93]
  | JObj ms => [123] ++ joinMembers JSON_stringify ms ++ [125]
  end.

(** *** The parser *)

Definition isJsonWhitespace (c : N) : bool :=
  (c =? 32) || (c =? 9) || (c =? 10) || (c =? 13).

Fixpoint skipWs (s : jsstring) : jsstring :=
  match s with
  | c :: rest => if isJsonWhitespace c then skipWs rest else s
  | [] => []
  end.

Definition hexval (c : N) : option N :=
  if (48 <=? c) && (c <=? 57) then Some (c - 48)
  else if (97 <=? c) && (c <=? 102) then Some (c - 87)
  else if (65 <=? c) && (c <=? 70) then Some (c - 55)
  else None.

Definition hexval4 (a b c d : N) : option N :=
  match hexval a, hexval b, hexval c, hexval d with
  | Some x, Some y, Some z, Some w => Some (((x * 16 + y) * 16 + z) * 16 + w)
  | _, _, _, _ => None
  end.

Definition unescape (e : N) : option N :=
  if e =? 34 then Some 34
  else if e =? 92 then Some 92
  else if e =? 47 then Some 47
  else if e =? 98 then Some 8
  else if e =? 102 then Some 12
  else if e =? 110 then Some 10
  else if e =? 114 then Some 13
  else if e =? 116 then Some 9
  else None.

(** The characters after an opening quote, up to and including the closing
    one: the string they denote, and what follows. *)
Fixpoint parseStringBody (s : jsstring) : option (jsstring * jsstring) :=
  match s with
  | [] => None
  | c :: rest =>
      if c =? 34 then Some ([], rest)
      else if c =? 92 then
        match rest with
        | [] => None
        | e :: rest' =>
            if e =? 117 then
              match rest' with
              | h1 :: h2 :: h3 :: h4 :: rest'' =>
                  match hexval4 h1 h2 h3 h4, parseStringBody rest'' with
                  | Some u, Some (str, r) => Some (u :: str, r)
                  | _, _ => None
                  end
              | _ => None
              end
            else
              match unescape e, parseStringBody rest' with
              | Some u, Some (str, r) => Some (u :: str, r)
              | _, _ => None
              end
        end
      else if c <? 32 then None
      else
        match parseStringBody rest with
        | Some (str, r) => Some (c :: str, r)
        | None => None
        end
  end.

Definition isDigit (c : N) : bool := (48 <=? c) && (c <=? 57).

(** Leading decimal digits: their value, their number, and what follows. *)
Fixpoint takeDigits (s : jsstring) (acc : Z) (n : Z) : Z * Z * jsstring :=
  match s with
  | c :: rest =>
      if isDigit c then takeDigits rest (acc * 10 + Z.of_N (c - 48))%Z (n + 1)%Z
      else (acc, n, s)
  | [] => (acc, n, [])
  end.

(** A number literal: [-]? int frac? exp?, the integer part without a
    leading zero. *)
Definition parseNumber (s : jsstring) : option (JsValue * jsstring) :=
  let '(neg, s1) :=
    match s with
    | 45 :: r => (true, r)
    | _ => (false, s)
    end in
  let intPart :=
    match s1 with
    | 48 :: r => Some (0%Z, r)
    | c :: _ =>
        if isDigit c then
          let '(v, _, r) := takeDigits s1 0%Z 0%Z in Some (v, r)
        else None
    | [] => None
    end in
  match intPart with
  | None => None
  | Some (iv, s2) =>
      let fracPart :=
        match s2 with
        | 46 :: r =>
            let '(v, n, r') := takeDigits r iv 0%Z in
            if (n =? 0)%Z then None else Some (v, n, r')
        | _ => Some (iv, 0%Z, s2)
        end in
      match fracPart with
      | None => None
      | Some (mv, fn, s3) =>
          let expPart :=
            match s3 with
            | c :: r =>
                if (c =? 101) || (c =? 69) then
                  let '(eneg, r1) :=
                    match r with
                    | 45 :: r' => (true, r')
                    | 43 :: r' => (false, r')
                    | _ => (false, r)
                    end in
                  let '(v, n, r2) := takeDigits r1 0%Z 0%Z in
                  if (n =? 0)%Z then None
                  else Some ((if eneg then - v else v)%Z, r2)
                else Some (0%Z, s3)
            | [] => Some (0%Z, s3)
            end in
          match expPart with
          | None => None
          | Some (ev, s4) =>
              Some (JNum (if neg then - mv else mv)%Z (ev - fn)%Z, s4)
          end
      end
  end.

(** Recursive descent, bounded by [fuel]; [None] is a syntax error.
    A repeated key keeps its first position and its last value. *)
Fixpoint parseValue (fuel : nat) (s : jsstring) : option (JsValue * jsstring) :=
  match fuel with
  | O => None
  | S f =>
      match skipWs s with
      | [] => None
      | c :: rest =>
          if c =? 34 then
            match parseStringBody rest with
            | Some (str, r) => Some (JStr str, r)
            | None => None
            end
          else if c =? 91 then
            match skipWs rest with
            | 93 :: r => Some (JArr [], r)
            | _ =>
                match parseItems f rest with
                | Some (l, r) => Some (JArr l, r)
                | None => None
                end
            end
          else if c =? 123 then
            match skipWs rest with
            | 125 :: r => Some (JObj [], r)
            | _ =>
                match parseMembers f rest [] with
                | Some (ms, r) => Some (JObj ms, r)
                | None => None
                end
            end
          else if startsWith (js "true") (c :: rest) then
            Some (JBool true, skipn 4 (c :: rest))
          else if startsWith (js "false") (c :: rest) then
            Some (JBool false, skipn 5 (c :: rest))
          else if startsWith (js "null") (c :: rest) then
            Some (JNull, skipn 4 (c :: rest))
          else parseNumber (c :: rest)
      end
  end

with parseItems (fuel : nat) (s : jsstring) : option (list JsValue * jsstring) :=
  match fuel with
  | O => None
  | S f =>
      match parseValue f s with
      | None => None
      | Some (v, r) =>
          match skipWs r with
          | 44 :: r' =>
              match parseItems f r' with
              | Some (l, r'') => Some (v :: l, r'')
              | None => None
              end
          | 93 :: r' => Some ([v], r')
          | _ => None
          end
      end
  end

with parseMembers (fuel : nat) (s : jsstring) (acc : list (jsstring * JsValue))
  : option (list (jsstring * JsValue) * jsstring) :=
  match fuel with
  | O => None
  | S f =>
      match skipWs s with
      | 34 :: r0 =>
          match parseStringBody r0 with
          | None => None
          | Some (k, r1) =>
              match skipWs r1 with
              | 58 :: r2 =>
                  match parseValue f r2 with
                  | None => None
                  | Some (v, r3) =>
                      match skipWs r3 with
                      | 44 :: r4 => parseMembers f r4 (setMember k v acc)
                      | 125 :: r4 => Some (setMember k v acc, r4)
                      | _ => None
                      end
                  end
              | _ => None
              end
          end
      | _ => None
      end
  end.

(** [JSON.parse(text)]: one value, then only white space. *)
Definition JSON_parse (text : jsstring) : JsError + JsValue :=
  match parseValue (2 * List.length text + 2) text with
  | Some (v, r) => match skipWs r with [] => inr v | _ => inl SyntaxError end
  | None => inl SyntaxError
  end.

(** [Array.prototype.join]: the elements are converted from left to right,
    [null] is written as the empty string, and the first conversion that
    throws ends the call. *)
Section Join.

Variable convert : JsValue -> JsError + jsstring.
Variable separator : jsstring.

Fixpoint joinWith (l : list JsValue) : JsError + jsstring :=
  match l with
  | [] => inr []
  | x :: rest =>
      match (match x with JNull => inr [] | _ => convert x end) with
      | inl e => inl e
      | inr s =>
          match rest with
          | [] => inr s
          | _ =>
              match joinWith rest with
              | inl e => inl e
              | inr t => inr (s ++ separator ++ t)
              end
          end
      end
  end.

End Join.

(** [ToString(v)] as template literals, [URLSearchParams] and [join] apply
    it to a value that came out of [JSON.parse]; [None] is [undefined].  An
    array prints its elements joined by commas.  An object has no callable
    member of its own: with a member named [toString] neither conversion
    method yields a primitive and the conversion throws, without one
    [Object.prototype.toString] answers. *)
Fixpoint toStr (v : JsValue) : JsError + jsstring :=
  match v with
  | JNull => inr (js "null")
  | JBool true => inr (js "true")
  | JBool false => inr (js "false")
  | JNum m e => inr (Number_toString (toDouble m e))
  | JStr s => inr s
  | JArr l => joinWith toStr [44] l
  | JObj ms =>
      match lookup (js "toString") ms with
      | Some _ => inl TypeError
      | None => inr (js "[object Object]")
      end
  end.

Definition ToString (v : option JsValue) : JsError + jsstring :=
  match v with
  | None => inr (js "undefined")
  | Some x => toStr x
  end.

(** [v[k]] for a value that came out of [JSON.parse]: reading a property of
    [null] throws; an object gives its own member.  Members inherited from a
    prototype are not modelled, so any other value gives [undefined]: of the
    names the handlers and the tools read, one is such a member, [sub] on a
    string, and the properties of the identity are stated for payloads that
    are objects. *)
Definition getProp (k : jsstring) (v : JsValue) : JsError + option JsValue :=
  match v with
  | JNull => inl TypeError
  | JObj ms => inr (lookup k ms)
  | _ => inr None
  end.

(** [a || b] on values. *)
Definition orElse (a b : option JsValue) : option JsValue :=
  if truthy a then a else b.

(** White space that [String.prototype.trim] removes. *)
Definition isTrimSpace (c : N) : bool :=
  ((9 <=? c) && (c <=? 13)) || (c =? 32) || (c =? 0xA0) || (c =? 0x1680)
  || ((0x2000 <=? c) && (c <=? 0x200A)) || (c =? 0x2028) || (c =? 0x2029)
  || (c =? 0x202F) || (c =? 0x205F) || (c =? 0x3000) || (c =? 0xFEFF).

Fixpoint trimStart (s : jsstring) : jsstring :=
  match s with
  | c :: rest => if isTrimSpace c then trimStart rest else s
  | [] => []
  end.

Definition trim (s : jsstring) : jsstring := rev (trimStart (rev (trimStart s))).

(* ===================================================================== *)
(** ** URL encoding *)
(* ===================================================================== *)

Definition isAlnum (c : N) : bool :=
  ((48 <=? c) && (c <=? 57)) || ((65 <=? c) && (c <=? 90)) || ((97 <=? c) && (c <=? 122)).

Definition HEXdigit (n : N) : N := if n <? 10 then 48 + n else 55 + n.

Definition percentByte (b : N) : jsstring := [37; HEXdigit (b / 16); HEXdigit (b mod 16)].

(** The byte serializer of [application/x-www-form-urlencoded], which
    [URLSearchParams] uses for names and values. *)
Definition formByte (b : N) : jsstring :=
  if b =? 32 then [43]
  else if isAlnum b || (b =? 42) || (b =? 45) || (b =? 46) || (b =? 95) then [b]
  else percentByte b.

Definition formEncode (s : jsstring) : jsstring :=
  flat_map formByte (TextEncoder_encode s).

(** [new URLSearchParams(pairs).toString()]. *)
Fixpoint URLSearchParams_toString (pairs : list (jsstring * jsstring)) : jsstring :=
  match pairs with
  | [] => []
  | [(k, v)] => formEncode k ++ [61] ++ formEncode v
  | (k, v) :: rest =>
      formEncode k ++ [61] ++ formEncode v ++ [38] ++ URLSearchParams_toString rest
  end.

(** A surrogate without its partner. *)
Fixpoint hasLoneSurrogate (s : jsstring) : bool :=
  match s with
  | [] => false
  | c :: rest =>
      if isHighSurrogate c then
        match rest with
        | lo :: rest' => if isLowSurrogate lo then hasLoneSurrogate rest' else true
        | [] => true
        end
      else if isLowSurrogate c then true
      else hasLoneSurrogate rest
  end.

Definition uriUnreserved (b : N) : bool :=
  isAlnum b || (b =? 45) || (b =? 95) || (b =? 46) || (b =? 33) || (b =? 126)
  || (b =? 42) || (b =? 39) || (b =? 40) || (b =? 41).

(** [encodeURIComponent(s)]; throws [URIError] on a lone surrogate. *)
Definition encodeURIComponent (s : jsstring) : JsError + jsstring :=
  if hasLoneSurrogate s then inl URIError
  else inr (flat_map (fun b => if uriUnreserved b then [b] else percentByte b)
                     (TextEncoder_encode s)).

(** Parameters of [getUpstreamAuthorizeUrl] ([UpstreamAuthorizeParams] in
    [types.ts]). *)
Record UpstreamAuthorizeParams := {
  upstream_url : jsstring;
  client_id : jsstring;
  scope : jsstring;
  redirect_uri : jsstring;
  state : option jsstring
}.

(** Modelled from the spec: [getUpstreamAuthorizeUrl] of [oauth-utils.ts],
    which is not among the sources.  "Build the upstream authorize URL:
    base endpoint + client id + redirect URI + scope + state"; the handlers
    note that it also adds [response_type], and append further parameters
    with [&].  The base endpoint is taken as given. *)
Definition getUpstreamAuthorizeUrl (p : UpstreamAuthorizeParams) : jsstring :=
  upstream_url p ++ js "?" ++
  URLSearchParams_toString
    ([(js "client_id", client_id p);
      (js "redirect_uri", redirect_uri p);
      (js "scope", scope p)]
     ++ match state p with
        | Some s => [(js "state", s)]
        | None => []
        end
     ++ [(js "response_type", js "code")]).

(* ===================================================================== *)
(** ** Environment, requests, responses *)
(* ===================================================================== *)

(** The bindings the handlers read from [env]; [None] is an unset binding. *)
Record Env := {
  GITHUB_CLIENT_ID : option jsstring;
  GOOGLE_CLIENT_ID : option jsstring;
  GOOGLE_CLIENT_SECRET : option jsstring;
  AUTH0_DOMAIN : option jsstring;
  AUTH0_CLIENT_ID : option jsstring;
  AUTH0_CLIENT_SECRET : option jsstring;
  AUTH0_AUDIENCE : option jsstring;
  KEYCLOAK_DOMAIN : option jsstring;
  KEYCLOAK_REALM : option jsstring;
  KEYCLOAK_CLIENT_ID : option jsstring;
  KEYCLOAK_CLIENT_SECRET : option jsstring;
  CUSTOM_OAUTH_URL : option jsstring;
  CUSTOM_OAUTH_CLIENT_ID : option jsstring
}.

(** Truthiness of a binding: set and not empty. *)
Definition isSet (v : option jsstring) : bool :=
  match v with
  | Some (_ :: _) => true
  | _ => false
  end.

(** A binding inside a template literal or handed to [URLSearchParams]. *)
Definition str (v : option jsstring) : jsstring :=
  match v with
  | Some s => s
  | None => js "undefined"
  end.

Definition envValue (v : option jsstring) : option JsValue :=
  match v with
  | Some s => Some (JStr s)
  | None => None
  end.

Inductive Method := GET | POST.

(** What a handler reads of the incoming request: [c.req.url] is
    [origin ++ path ++ search], [c.req.query(k)] looks [k] up in [query],
    the framework's decoding of [search]. *)
Record Request := {
  method : Method;
  origin : jsstring;
  path : jsstring;
  search : jsstring;
  query : list (jsstring * jsstring)
}.

Definition req_url (r : Request) : jsstring := origin r ++ path r ++ search r.

(** [new URL(p, c.req.url).href] for an absolute path [p]. *)
Definition URL_href (p : jsstring) (r : Request) : jsstring := origin r ++ p.

Definition req_query (k : jsstring) (r : Request) : option jsstring := lookup k (query r).

(** A response: [c.text(body, status)]; a redirect (status 302) with its
    [location] and further headers; the provider-selection page, kept by its
    links ([href] and label) without the surrounding markup. *)
Inductive Response :=
| Text (body : jsstring) (status : N)
| Redirect (location : jsstring) (headers : list (jsstring * jsstring))
| SelectionPage (links : list (jsstring * jsstring)).

(** The caller's request as [parseAuthRequest] returns it: the
    [AuthRequest] interface of the OAuth provider library. *)
Record AuthRequest := {
  responseType : jsstring;
  clientId : jsstring;
  redirectUri : jsstring;
  reqScope : list jsstring;
  reqState : jsstring;
  codeChallenge : option jsstring;
  codeChallengeMethod : option jsstring
}.

Definition optMember (k : jsstring) (v : option jsstring) : list (jsstring * JsValue) :=
  match v with
  | Some s => [(k, JStr s)]
  | None => []
  end.

(** The members of the object; a field that is [undefined] does not reach
    the JSON text and is left out. *)
Definition AuthRequest_members (r : AuthRequest) : list (jsstring * JsValue) :=
  [(js "responseType", JStr (responseType r));
   (js "clientId", JStr (clientId r));
   (js "redirectUri", JStr (redirectUri r));
   (js "scope", JArr (map JStr (reqScope r)));
   (js "state", JStr (reqState r))]
  ++ optMember (js "codeChallenge") (codeChallenge r)
  ++ optMember (js "codeChallengeMethod") (codeChallengeMethod r).

(** Sequencing of calls that can throw. *)
Definition bindE {A B} (m : JsError + A) (f : A -> JsError + B) : JsError + B :=
  match m with
  | inl e => inl e
  | inr a => f a
  end.

Notation "'try!' x <- m ; f" := (bindE m (fun x => f))
  (at level 10, x name, m at level 100, f at level 200).

(** [btoa(JSON.stringify({ ...oauthReqInfo, codeVerifier }))]. *)
Definition encodeState (oauthReqInfo : AuthRequest) (codeVerifier : jsstring)
  : JsError + jsstring :=
  btoa (JSON_stringify
          (JObj (setMember (js "codeVerifier") (JStr codeVerifier)
                           (AuthRequest_members oauthReqInfo)))).

(** [JSON.parse(atob(state))]. *)
Definition decodeState (state : jsstring) : JsError + JsValue :=
  try! text <- atob state ; JSON_parse text.

(* ===================================================================== *)
(** ** Outbound calls and the handler monad *)
(* ===================================================================== *)

Record FetchRequest := {
  fetch_url : jsstring;
  fetch_method : Method;
  fetch_headers : list (jsstring * jsstring);
  fetch_body : option jsstring
}.

(** The upstream's answer as the handlers read it. *)
Record HttpResponse := {
  status : N;
  statusText : jsstring;
  text : JsError + jsstring;   (* await response.text() *)
  json : JsError + JsValue     (* await response.json() *)
}.

(** [response.ok]. *)
Definition ok (r : HttpResponse) : bool := (200 <=? status r) && (status r <=? 299).

(** The argument of [OAUTH_PROVIDER.completeAuthorization]. *)
Record CompleteAuthorizationOptions := {
  metadata_label : option JsValue;
  props : list (jsstring * option JsValue);
  request : JsValue;
  scope_granted : option JsValue;
  userId : option JsValue
}.

(** What a handler does to the outside, in order. *)
Inductive Effect :=
| Fetch (r : FetchRequest)
| CompleteAuthorization (o : CompleteAuthorizationOptions).

(** The collaborators: the network, the session issuer, the URL parser of
    the platform (the serialisation of the absolute URL a string denotes,
    [None] for a string that denotes none), and the wording the engine gives
    to the errors it raises itself. *)
Record World := {
  fetch : FetchRequest -> JsError + HttpResponse;
  completeAuthorization : CompleteAuthorizationOptions -> JsError + jsstring;
  parseURL : jsstring -> option jsstring;
  engineMessage : JsError -> jsstring
}.

Definition errName (e : JsError) : jsstring :=
  match e with
  | InvalidCharacterError => js "InvalidCharacterError"
  | SyntaxError => js "SyntaxError"
  | TypeError => js "TypeError"
  | URIError => js "URIError"
  | GenericError _ => js "Error"
  | Rejected n _ => n
  end.

Definition errMessage (w : World) (e : JsError) : jsstring :=
  match e with
  | GenericError m => m
  | Rejected _ m => m
  | _ => engineMessage w e
  end.

(** One step of a handler body: go on with a value, [return] a response, or
    throw. *)
Inductive Step (A : Type) : Type :=
| Next (a : A)
| Return (r : Response)
| Throw (e : JsError).
Arguments Next {A} a.
Arguments Return {A} r.
Arguments Throw {A} e.

(** A handler body threads the trace of its effects. *)
Definition M (A : Type) : Type := list Effect -> Step A * list Effect.

Definition ret {A} (a : A) : M A := fun tr => (Next a, tr).
Definition return_ {A} (r : Response) : M A := fun tr => (Return r, tr).
Definition throw {A} (e : JsError) : M A := fun tr => (Throw e, tr).

Definition bind {A B} (m : M A) (f : A -> M B) : M B :=
  fun tr =>
    match m tr with
    | (Next a, tr') => f a tr'
    | (Return r, tr') => (Return r, tr')
    | (Throw e, tr') => (Throw e, tr')
    end.

Notation "x <- m ;; f" := (bind m (fun x => f))
  (at level 61, m at next level, right associativity).

(** A call that can throw. *)
Definition lift {A} (m : JsError + A) : M A :=
  match m with
  | inl e => throw e
  | inr a => ret a
  end.

(** [try { body } catch (error) { handler }]. *)
Definition tryCatch {A} (body : M A) (handler : JsError -> M A) : M A :=
  fun tr =>
    match body tr with
    | (Throw e, tr') => handler e tr'
    | other => other
    end.

(** [await fetch(...)]. *)
Definition doFetch (w : World) (r : FetchRequest) : M HttpResponse :=
  fun tr =>
    match fetch w r with
    | inl e => (Throw e, tr ++ [Fetch r])
    | inr resp => (Next resp, tr ++ [Fetch r])
    end.

(** [await c.env.OAUTH_PROVIDER.completeAuthorization(...)]. *)
Definition doComplete (w : World) (o : CompleteAuthorizationOptions) : M jsstring :=
  fun tr =>
    match completeAuthorization w o with
    | inl e => (Throw e, tr ++ [CompleteAuthorization o])
    | inr redirectTo => (Next redirectTo, tr ++ [CompleteAuthorization o])
    end.

(** How a request ends. *)
Inductive Outcome :=
| Responds (r : Response)
| Uncaught (e : JsError).

Definition run (h : M Response) : Outcome * list Effect :=
  match h [] with
  | (Next r, tr) => (Responds r, tr)
  | (Return r, tr) => (Responds r, tr)
  | (Throw e, tr) => (Uncaught e, tr)
  end.

(** [email?.split('@')[0]] and [email.split('@')[0]]: [split] exists on
    strings only. *)
Definition splitFirst (sep : N) (v : option JsValue) : JsError + option JsValue :=
  match v with
  | Some (JStr s) => inr (Some (JStr (hd [] (split sep s))))
  | _ => inl TypeError
  end.

Definition optSplitFirst (sep : N) (v : option JsValue) : JsError + option JsValue :=
  match v with
  | None | Some JNull => inr None
  | _ => splitFirst sep v
  end.

(** [sub.split('|')[1]]. *)
Definition splitSecond (sep : N) (v : option JsValue) : JsError + option JsValue :=
  match v with
  | Some (JStr s) =>
      inr (match split sep s with
           | _ :: p :: _ => Some (JStr p)
           | _ => None
           end)
  | _ => inl TypeError
  end.

(** [new URLSearchParams(data).toString()]: the values of the record are
    converted to strings in the order of its keys. *)
Fixpoint recordStrings (data : list (jsstring * option JsValue))
  : JsError + list (jsstring * jsstring) :=
  match data with
  | [] => inr []
  | (k, v) :: rest =>
      try! s <- ToString v ;
      try! fields <- recordStrings rest ;
      inr ((k, s) :: fields)
  end.

Definition formBody (data : list (jsstring * option JsValue)) : JsError + jsstring :=
  try! fields <- recordStrings data ;
  inr (URLSearchParams_toString fields).

(** [`Bearer ${accessToken}`]. *)
Definition bearer (accessToken : option JsValue) : JsError + jsstring :=
  try! token <- ToString accessToken ;
  inr (js "Bearer " ++ token).

(** [Response.redirect(url)]: a 302 whose [Location] is the serialisation of
    the URL; a string that is no absolute URL is a [TypeError]. *)
Definition Response_redirect (w : World) (url : jsstring) : JsError + Response :=
  match parseURL w url with
  | Some href => inr (Redirect href [])
  | None => inl TypeError
  end.

Definition strV (s : string) : option JsValue := Some (JStr (js s)).

(* ===================================================================== *)
(** ** [src/auth/google-handler.ts] *)
(* ===================================================================== *)

Module GoogleHandler.

(** [redirectToGoogle(request, oauthReqInfo, env, headers)]; [random] is
    the source [generateCodeVerifier] draws from. *)
Definition redirectToGoogle (random : nat -> N) (request : Request)
    (oauthReqInfo : AuthRequest) (env : Env)
    (headers : list (jsstring * jsstring)) : JsError + Response :=
  try! codeVerifier <- generateCodeVerifier random ;
  try! codeChallenge <- generateCodeChallenge codeVerifier ;
  try! state <- encodeState oauthReqInfo codeVerifier ;
  inr (Redirect
         (getUpstreamAuthorizeUrl
            {| client_id := str (GOOGLE_CLIENT_ID env);
               redirect_uri := URL_href (js "/google/callback") request;
               scope := js "openid profile email https://www.googleapis.com/auth/gmail.send https://www.googleapis.com/auth/gmail.readonly";
               state := Some state;
               upstream_url := js "https://accounts.google.com/o/oauth2/v2/auth" |}
          ++ js "&code_challenge=" ++ codeChallenge
          ++ js "&code_challenge_method=S256")
         headers).

(** [email.split('@')[0]], the login of the callback below. *)
Definition loginOf (email : option JsValue) : JsError + option JsValue :=
  splitFirst 64 email.

(** [app.get("/callback", ...)]. *)
Definition callback (w : World) (env : Env) (c : Request) : M Response :=
  stateData <- lift (decodeState (str (req_query (js "state") c))) ;;
  let oauthReqInfo := stateData in
  clientId <- lift (getProp (js "clientId") oauthReqInfo) ;;
  if negb (truthy clientId) then return_ (Text (js "Invalid state") 400) else
  let authCode := req_query (js "code") c in
  if negb (isSet authCode) then
    return_ (Text (js "Missing authorization code. Please try again.") 400)
  else
  let redirectUri := URL_href (js "/google/callback") c in
  codeVerifier <- lift (getProp (js "codeVerifier") oauthReqInfo) ;;
  let tokenRequestData :=
    [(js "grant_type", strV "authorization_code");
     (js "client_id", envValue (GOOGLE_CLIENT_ID env));
     (js "client_secret", envValue (GOOGLE_CLIENT_SECRET env));
     (js "code", envValue authCode);
     (js "redirect_uri", Some (JStr redirectUri));
     (js "code_verifier", codeVerifier)] in
  tokenData <-
    tryCatch
      (body <- lift (formBody tokenRequestData) ;;
       tokenResponse <-
         doFetch w {| fetch_url := js "https://oauth2.googleapis.com/token";
                      fetch_method := POST;
                      fetch_headers :=
                        [(js "Content-Type", js "application/x-www-form-urlencoded")];
                      fetch_body := Some body |} ;;
       if negb (ok tokenResponse) then
         errorText <- lift (text tokenResponse) ;;
         return_ (Text (js "Failed to fetch access token: "
                        ++ decimal (status tokenResponse)) 500)
       else lift (json tokenResponse))
      (fun error =>
         return_ (Text (js "Network error during authentication. Please try again.") 500)) ;;
  accessToken <- lift (getProp (js "access_token") tokenData) ;;
  if negb (truthy accessToken) then return_ (Text (js "Missing access token") 400) else
  userData <-
    tryCatch
      (authorization <- lift (bearer accessToken) ;;
       userResponse <-
         doFetch w {| fetch_url := js "https://www.googleapis.com/oauth2/v2/userinfo";
                      fetch_method := GET;
                      fetch_headers := [(js "Authorization", authorization)];
                      fetch_body := None |} ;;
       if negb (ok userResponse) then
         errorText <- lift (text userResponse) ;;
         return_ (Text (js "Failed to fetch user info: "
                        ++ decimal (status userResponse)) 500)
       else lift (json userResponse))
      (fun error =>
         return_ (Text (js "Network error while fetching user information. Please try again.") 500)) ;;
  email <- lift (getProp (js "email") userData) ;;
  verified_email <- lift (getProp (js "verified_email") userData) ;;
  name <- lift (getProp (js "name") userData) ;;
  picture <- lift (getProp (js "picture") userData) ;;
  login <- lift (loginOf email) ;;
  reqScope <- lift (getProp (js "scope") oauthReqInfo) ;;
  redirectTo <-
    doComplete w {| metadata_label := name;
                    props := [(js "accessToken", accessToken);
                              (js "email", email);
                              (js "login", login);
                              (js "name", name);
                              (js "picture", picture);
                              (js "verified_email", verified_email)];
                    request := oauthReqInfo;
                    scope_granted := reqScope;
                    userId := login |} ;;
  lift (Response_redirect w redirectTo).

End GoogleHandler.

(* ===================================================================== *)
(** ** [src/auth/keycloak-handler.ts] *)
(* ===================================================================== *)

Module KeycloakHandler.

Definition redirectToKeycloak (random : nat -> N) (request : Request)
    (oauthReqInfo : AuthRequest) (env : Env)
    (headers : list (jsstring * jsstring)) : JsError + Response :=
  try! codeVerifier <- generateCodeVerifier random ;
  try! codeChallenge <- generateCodeChallenge codeVerifier ;
  try! state <- encodeState oauthReqInfo codeVerifier ;
  let keycloakDomain := KEYCLOAK_DOMAIN env in
  let keycloakRealm := KEYCLOAK_REALM env in
  if negb (isSet keycloakDomain) then
    inl (GenericError (js "KEYCLOAK_DOMAIN environment variable is required"))
  else if negb (isSet keycloakRealm) then
    inl (GenericError (js "KEYCLOAK_REALM environment variable is required"))
  else
  try! encodedRealm <- encodeURIComponent (str keycloakRealm) ;
  let keycloakAuthUrl :=
    str keycloakDomain ++ js "/realms/" ++ encodedRealm
    ++ js "/protocol/openid-connect/auth" in
  let authUrl :=
    getUpstreamAuthorizeUrl
      {| client_id := str (KEYCLOAK_CLIENT_ID env);
         redirect_uri := URL_href (js "/keycloak/callback") request;
         scope := js "openid profile email";
         state := Some state;
         upstream_url := keycloakAuthUrl |} in
  try! encodedChallenge <- encodeURIComponent codeChallenge ;
  let finalAuthUrl :=
    authUrl ++ js "&code_challenge=" ++ encodedChallenge
    ++ js "&code_challenge_method=S256" in
  inr (Redirect finalAuthUrl headers).

(** The [catch] block shared by the token exchange and the userinfo fetch. *)
Definition onError {A} (w : World) (error : JsError) : M A :=
  if includes (js "Network connection lost") (errMessage w error)
     || includes (js "fetch failed") (errMessage w error)
     || jseqb (errName error) (js "TypeError")
  then
    return_ (Text (js "Network connectivity issue. Please check your internet connection and try again. If using a proxy, ensure it allows connections to Keycloak.") 500)
  else
    return_ (Text (js "Keycloak integration error: " ++ errMessage w error) 500).

(** [preferred_username || email?.split('@')[0] || sub || 'unknown'], the
    login of the callback below. *)
Definition loginOf (preferred_username email sub : option JsValue)
  : JsError + option JsValue :=
  if truthy preferred_username then inr preferred_username
  else
    try! local <- optSplitFirst 64 email ;
    inr (orElse local (orElse sub (strV "unknown"))).

(** [name || `${given_name || ''} ${family_name || ''}`.trim()
    || preferred_username || 'Unknown User'], the [name] of the props; the
    template is evaluated when [name] does not serve. *)
Definition displayName (name given_name family_name preferred_username : option JsValue)
  : JsError + option JsValue :=
  if truthy name then inr name
  else
    try! given <- ToString (orElse given_name (strV "")) ;
    try! family <- ToString (orElse family_name (strV "")) ;
    inr (orElse (Some (JStr (trim (given ++ js " " ++ family))))
           (orElse preferred_username (strV "Unknown User"))).

(** [app.get("/callback", ...)].  The [try] block yields [userData] and
    [accessToken] together. *)
Definition callback (w : World) (env : Env) (c : Request) : M Response :=
  stateData <- lift (decodeState (str (req_query (js "state") c))) ;;
  let oauthReqInfo := stateData in
  clientId <- lift (getProp (js "clientId") oauthReqInfo) ;;
  if negb (truthy clientId) then return_ (Text (js "Invalid state") 400) else
  let keycloakDomain := KEYCLOAK_DOMAIN env in
  let keycloakRealm := KEYCLOAK_REALM env in
  let code := req_query (js "code") c in
  codeVerifier <- lift (getProp (js "codeVerifier") oauthReqInfo) ;;
  if negb (isSet code) then return_ (Text (js "Missing authorization code") 400) else
  fetched <-
    tryCatch
      (encodedRealm <- lift (encodeURIComponent (str keycloakRealm)) ;;
       let tokenEndpoint :=
         str keycloakDomain ++ js "/realms/" ++ encodedRealm
         ++ js "/protocol/openid-connect/token" in
       let tokenRequestData :=
         [(js "grant_type", strV "authorization_code");
          (js "client_id", envValue (KEYCLOAK_CLIENT_ID env));
          (js "code", envValue code);
          (js "redirect_uri", Some (JStr (URL_href (js "/keycloak/callback") c)));
          (js "code_verifier", codeVerifier)]
         ++ (if isSet (KEYCLOAK_CLIENT_SECRET env)
             then [(js "client_secret", envValue (KEYCLOAK_CLIENT_SECRET env))]
             else []) in
       body <- lift (formBody tokenRequestData) ;;
       tokenResponse <-
         doFetch w {| fetch_url := tokenEndpoint;
                      fetch_method := POST;
                      fetch_headers :=
                        [(js "Content-Type", js "application/x-www-form-urlencoded");
                         (js "User-Agent", js "Cloudflare-Worker/1.0")];
                      fetch_body := Some body |} ;;
       if negb (ok tokenResponse) then
         errorText <- lift (text tokenResponse) ;;
         return_ (Text (js "Failed to fetch access token: "
                        ++ decimal (status tokenResponse) ++ js " "
                        ++ statusText tokenResponse) 500)
       else
       tokenData <- lift (json tokenResponse) ;;
       accessToken <- lift (getProp (js "access_token") tokenData) ;;
       if negb (truthy accessToken) then
         return_ (Text (js "Missing access token in response") 400)
       else
       let userinfoEndpoint :=
         str keycloakDomain ++ js "/realms/" ++ encodedRealm
         ++ js "/protocol/openid-connect/userinfo" in
       authorization <- lift (bearer accessToken) ;;
       userResponse <-
         doFetch w {| fetch_url := userinfoEndpoint;
                      fetch_method := GET;
                      fetch_headers :=
                        [(js "Authorization", authorization);
                         (js "User-Agent", js "Cloudflare-Worker/1.0")];
                      fetch_body := None |} ;;
       if negb (ok userResponse) then
         errorText <- lift (text userResponse) ;;
         return_ (Text (js "Failed to fetch user info: "
                        ++ decimal (status userResponse) ++ js " "
                        ++ statusText userResponse) 500)
       else
       userData <- lift (json userResponse) ;;
       ret (userData, accessToken))
      (onError w) ;;
  let userData := fst fetched in
  let accessToken := snd fetched in
  sub <- lift (getProp (js "sub") userData) ;;
  email <- lift (getProp (js "email") userData) ;;
  email_verified <- lift (getProp (js "email_verified") userData) ;;
  name <- lift (getProp (js "name") userData) ;;
  preferred_username <- lift (getProp (js "preferred_username") userData) ;;
  given_name <- lift (getProp (js "given_name") userData) ;;
  family_name <- lift (getProp (js "family_name") userData) ;;
  picture <- lift (getProp (js "picture") userData) ;;
  updated_at <- lift (getProp (js "updated_at") userData) ;;
  login <- lift (loginOf preferred_username email sub) ;;
  shownName <- lift (displayName name given_name family_name preferred_username) ;;
  reqScope <- lift (getProp (js "scope") oauthReqInfo) ;;
  redirectTo <-
    doComplete w
      {| metadata_label := orElse name (orElse preferred_username email);
         props := [(js "accessToken", accessToken);
                   (js "email", email);
                   (js "login", login);
                   (js "name", shownName);
                   (js "picture", picture);
                   (js "verified_email", email_verified);
                   (js "sub", sub);
                   (js "updated_at", updated_at);
                   (js "preferred_username", preferred_username);
                   (js "given_name", given_name);
                   (js "family_name", family_name)];
         request := oauthReqInfo;
         scope_granted := reqScope;
         userId := login |} ;;
  lift (Response_redirect w redirectTo).

End KeycloakHandler.

(* ===================================================================== *)
(** ** [src/auth/custom-oauth-handler.ts] *)
(* ===================================================================== *)

Module CustomOAuthHandler.

(** [env.CUSTOM_OAUTH_URL || 'http://localhost:3000'] and the like. *)
Definition orDefault (v : option jsstring) (d : string) : jsstring :=
  if isSet v then str v else js d.

Definition redirectToCustomOAuth (random : nat -> N) (request : Request)
    (oauthReqInfo : AuthRequest) (env : Env)
    (headers : list (jsstring * jsstring)) : JsError + Response :=
  try! codeVerifier <- generateCodeVerifier random ;
  try! codeChallenge <- generateCodeChallenge codeVerifier ;
  try! state <- encodeState oauthReqInfo codeVerifier ;
  let customOAuthUrl := orDefault (CUSTOM_OAUTH_URL env) "http://localhost:3000" in
  let authUrl :=
    getUpstreamAuthorizeUrl
      {| client_id := orDefault (CUSTOM_OAUTH_CLIENT_ID env) "demo-client";
         redirect_uri := URL_href (js "/custom/callback") request;
         scope := js "read write";
         state := Some state;
         upstream_url := customOAuthUrl ++ js "/oauth/authorize" |} in
  try! encodedChallenge <- encodeURIComponent codeChallenge ;
  let finalAuthUrl :=
    authUrl ++ js "&code_challenge=" ++ encodedChallenge
    ++ js "&code_challenge_method=S256" in
  inr (Redirect finalAuthUrl headers).

Definition onError {A} (w : World) (error : JsError) : M A :=
  if includes (js "Network connection lost") (errMessage w error)
     || includes (js "fetch failed") (errMessage w error)
     || jseqb (errName error) (js "TypeError")
  then
    return_ (Text (js "Network connectivity issue. Please check your internet connection and try again. If using a proxy, ensure it allows connections to the custom OAuth server.") 500)
  else
    return_ (Text (js "Custom OAuth integration error: " ++ errMessage w error) 500).

(** [Array.isArray(scope) ? scope.join(' ') : scope]. *)
Definition scopeProp (scope : option JsValue) : JsError + option JsValue :=
  match scope with
  | Some (JArr l) =>
      try! joined <- joinWith toStr [32] l ;
      inr (Some (JStr joined))
  | other => inr other
  end.

(** [`${login}@custom-oauth.local`]. *)
Definition localEmail (login : option JsValue) : JsError + option JsValue :=
  try! local <- ToString login ;
  inr (Some (JStr (local ++ js "@custom-oauth.local"))).

(** [app.get("/callback", ...)]. *)
Definition callback (w : World) (env : Env) (c : Request) : M Response :=
  stateData <- lift (decodeState (str (req_query (js "state") c))) ;;
  let oauthReqInfo := stateData in
  clientId <- lift (getProp (js "clientId") oauthReqInfo) ;;
  if negb (truthy clientId) then return_ (Text (js "Invalid state") 400) else
  let customOAuthUrl := orDefault (CUSTOM_OAUTH_URL env) "http://localhost:3000" in
  let code := req_query (js "code") c in
  codeVerifier <- lift (getProp (js "codeVerifier") oauthReqInfo) ;;
  if negb (isSet code) then return_ (Text (js "Missing authorization code") 400) else
  fetched <-
    tryCatch
      (let tokenRequestData :=
         [(js "grant_type", strV "authorization_code");
          (js "client_id",
           Some (JStr (orDefault (CUSTOM_OAUTH_CLIENT_ID env) "demo-client")));
          (js "code", envValue code);
          (js "redirect_uri", Some (JStr (URL_href (js "/custom/callback") c)));
          (js "code_verifier", codeVerifier)] in
       body <- lift (formBody tokenRequestData) ;;
       tokenResponse <-
         doFetch w {| fetch_url := customOAuthUrl ++ js "/oauth/token";
                      fetch_method := POST;
                      fetch_headers :=
                        [(js "Content-Type", js "application/x-www-form-urlencoded");
                         (js "User-Agent", js "Cloudflare-Worker/1.0")];
                      fetch_body := Some body |} ;;
       if negb (ok tokenResponse) then
         errorText <- lift (text tokenResponse) ;;
         return_ (Text (js "Failed to fetch access token: "
                        ++ decimal (status tokenResponse) ++ js " "
                        ++ statusText tokenResponse) 500)
       else
       tokenData <- lift (json tokenResponse) ;;
       accessToken <- lift (getProp (js "access_token") tokenData) ;;
       if negb (truthy accessToken) then
         return_ (Text (js "Missing access token in response") 400)
       else
       authorization <- lift (bearer accessToken) ;;
       userResponse <-
         doFetch w {| fetch_url := customOAuthUrl ++ js "/api/userinfo";
                      fetch_method := GET;
                      fetch_headers :=
                        [(js "Authorization", authorization);
                         (js "User-Agent", js "Cloudflare-Worker/1.0")];
                      fetch_body := None |} ;;
       if negb (ok userResponse) then
         errorText <- lift (text userResponse) ;;
         return_ (Text (js "Failed to fetch user info: "
                        ++ decimal (status userResponse) ++ js " "
                        ++ statusText userResponse) 500)
       else
       userData <- lift (json userResponse) ;;
       ret (userData, accessToken))
      (onError w) ;;
  let userData := fst fetched in
  let accessToken := snd fetched in
  user_id <- lift (getProp (js "user_id") userData) ;;
  username <- lift (getProp (js "username") userData) ;;
  scope <- lift (getProp (js "scope") userData) ;;
  client_id <- lift (getProp (js "client_id") userData) ;;
  let login := orElse username (orElse user_id (strV "demo_user")) in
  let name := orElse username (orElse user_id (strV "Demo User")) in
  email <- lift (localEmail login) ;;
  joinedScope <- lift (scopeProp scope) ;;
  reqScope <- lift (getProp (js "scope") oauthReqInfo) ;;
  redirectTo <-
    doComplete w
      {| metadata_label := name;
         props := [(js "accessToken", accessToken);
                   (js "email", email);
                   (js "login", login);
                   (js "name", name);
                   (js "user_id", user_id);
                   (js "scope", joinedScope);
                   (js "client_id", client_id);
                   (js "provider", strV "custom-oauth")];
         request := oauthReqInfo;
         scope_granted := reqScope;
         userId := login |} ;;
  lift (Response_redirect w redirectTo).

End CustomOAuthHandler.

(* ===================================================================== *)
(** ** [src/auth/auth0-handler.ts] *)
(* ===================================================================== *)

Module Auth0Handler.

Definition redirectToAuth0 (random : nat -> N) (request : Request)
    (oauthReqInfo : AuthRequest) (env : Env)
    (headers : list (jsstring * jsstring)) : JsError + Response :=
  try! codeVerifier <- generateCodeVerifier random ;
  try! codeChallenge <- generateCodeChallenge codeVerifier ;
  try! state <- encodeState oauthReqInfo codeVerifier ;
  let auth0Domain := AUTH0_DOMAIN env in
  if negb (isSet auth0Domain) then
    inl (GenericError (js "AUTH0_DOMAIN environment variable is required"))
  else
  let authUrl :=
    getUpstreamAuthorizeUrl
      {| client_id := str (AUTH0_CLIENT_ID env);
         redirect_uri := URL_href (js "/auth0/callback") request;
         scope := js "openid profile email";
         state := Some state;
         upstream_url := js "https://" ++ str auth0Domain ++ js "/authorize" |} in
  try! encodedChallenge <- encodeURIComponent codeChallenge ;
  let finalAuthUrl :=
    authUrl ++ js "&code_challenge=" ++ encodedChallenge
    ++ js "&code_challenge_method=S256" in
  let audience := AUTH0_AUDIENCE env in
  if isSet audience then
    try! encodedAudience <- encodeURIComponent (str audience) ;
    let urlWithAudience := finalAuthUrl ++ js "&audience=" ++ encodedAudience in
    inr (Redirect urlWithAudience headers)
  else inr (Redirect finalAuthUrl headers).

Definition onError {A} (w : World) (error : JsError) : M A :=
  if includes (js "Network connection lost") (errMessage w error)
     || includes (js "fetch failed") (errMessage w error)
     || jseqb (errName error) (js "TypeError")
  then
    return_ (Text (js "Network connectivity issue. Please check your internet connection and try again. If using a proxy, ensure it allows connections to Auth0.") 500)
  else
    return_ (Text (js "Auth0 integration error: " ++ errMessage w error) 500).

(** [nickname || email?.split('@')[0] || sub.split('|')[1] || 'unknown'],
    the login of the callback below. *)
Definition loginOf (nickname email sub : option JsValue)
  : JsError + option JsValue :=
  if truthy nickname then inr nickname
  else
    try! local <- optSplitFirst 64 email ;
    if truthy local then inr local
    else
      try! tail <- splitSecond 124 sub ;
      inr (orElse tail (strV "unknown")).

(** [app.get("/callback", ...)]. *)
Definition callback (w : World) (env : Env) (c : Request) : M Response :=
  stateData <- lift (decodeState (str (req_query (js "state") c))) ;;
  let oauthReqInfo := stateData in
  clientId <- lift (getProp (js "clientId") oauthReqInfo) ;;
  if negb (truthy clientId) then return_ (Text (js "Invalid state") 400) else
  let auth0Domain := AUTH0_DOMAIN env in
  let code := req_query (js "code") c in
  codeVerifier <- lift (getProp (js "codeVerifier") oauthReqInfo) ;;
  if negb (isSet code) then return_ (Text (js "Missing authorization code") 400) else
  fetched <-
    tryCatch
      (let tokenRequestData :=
         [(js "grant_type", strV "authorization_code");
          (js "client_id", envValue (AUTH0_CLIENT_ID env));
          (js "client_secret", envValue (AUTH0_CLIENT_SECRET env));
          (js "code", envValue code);
          (js "redirect_uri", Some (JStr (URL_href (js "/auth0/callback") c)));
          (js "code_verifier", codeVerifier)] in
       body <- lift (formBody tokenRequestData) ;;
       tokenResponse <-
         doFetch w {| fetch_url := js "https://" ++ str auth0Domain ++ js "/oauth/token";
                      fetch_method := POST;
                      fetch_headers :=
                        [(js "Content-Type", js "application/x-www-form-urlencoded");
                         (js "User-Agent", js "Cloudflare-Worker/1.0")];
                      fetch_body := Some body |} ;;
       if negb (ok tokenResponse) then
         errorText <- lift (text tokenResponse) ;;
         return_ (Text (js "Failed to fetch access token: "
                        ++ decimal (status tokenResponse) ++ js " "
                        ++ statusText tokenResponse) 500)
       else
       tokenData <- lift (json tokenResponse) ;;
       accessToken <- lift (getProp (js "access_token") tokenData) ;;
       if negb (truthy accessToken) then
         return_ (Text (js "Missing access token in response") 400)
       else
       authorization <- lift (bearer accessToken) ;;
       userResponse <-
         doFetch w {| fetch_url := js "https://" ++ str auth0Domain ++ js "/userinfo";
                      fetch_method := GET;
                      fetch_headers :=
                        [(js "Authorization", authorization);
                         (js "User-Agent", js "Cloudflare-Worker/1.0")];
                      fetch_body := None |} ;;
       if negb (ok userResponse) then
         errorText <- lift (text userResponse) ;;
         return_ (Text (js "Failed to fetch user info: "
                        ++ decimal (status userResponse) ++ js " "
                        ++ statusText userResponse) 500)
       else
       userData <- lift (json userResponse) ;;
       ret (userData, accessToken))
      (onError w) ;;
  let userData := fst fetched in
  let accessToken := snd fetched in
  sub <- lift (getProp (js "sub") userData) ;;
  email <- lift (getProp (js "email") userData) ;;
  email_verified <- lift (getProp (js "email_verified") userData) ;;
  name <- lift (getProp (js "name") userData) ;;
  nickname <- lift (getProp (js "nickname") userData) ;;
  picture <- lift (getProp (js "picture") userData) ;;
  updated_at <- lift (getProp (js "updated_at") userData) ;;
  login <- lift (loginOf nickname email sub) ;;
  reqScope <- lift (getProp (js "scope") oauthReqInfo) ;;
  redirectTo <-
    doComplete w
      {| metadata_label := orElse name email;
         props := [(js "accessToken", accessToken);
                   (js "email", email);
                   (js "login", login);
                   (js "name", orElse name (orElse nickname (strV "Unknown User")));
                   (js "picture", picture);
                   (js "verified_email", email_verified);
                   (js "sub", sub);
                   (js "updated_at", updated_at)];
         request := oauthReqInfo;
         scope_granted := reqScope;
         userId := login |} ;;
  lift (Response_redirect w redirectTo).

End Auth0Handler.

(* ===================================================================== *)
(** ** The routers of [src/index.ts] and [src/index_sentry.ts] *)
(* ===================================================================== *)

Inductive Provider := GitHub | Google | Auth0 | Keycloak | Custom.

(** The handlers a request can reach. *)
Inductive Endpoint :=
| ProviderAuthorize (p : Provider)   (* GET  /<p>/authorize *)
| ProviderApproval (p : Provider)    (* POST /<p>/authorize *)
| ProviderCallback (p : Provider)    (* GET  /<p>/callback  *)
| RootAuthorize                      (* GET  /authorize     *)
| RootCallback.                      (* GET  /callback      *)

Definition Route : Type := Method * jsstring * Endpoint.

(** Modelled from the spec: the routes of [github-handler.ts], which is not
    among the sources, are those of the HTTP surface, [GET] and [POST
    /<p>/authorize] and [GET /<p>/callback].  The four handler files at hand
    register exactly these three routes on their [app]. *)
Definition providerApp (p : Provider) : list Route :=
  [(GET, js "/authorize", ProviderAuthorize p);
   (POST, js "/authorize", ProviderApproval p);
   (GET, js "/callback", ProviderCallback p)].

(** [authRouter.route(prefix, app)]. *)
Definition route (prefix : string) (app : list Route) : list Route :=
  map (fun r => match r with (m, p, e) => (m, js prefix ++ p, e) end) app.

Module Index.

(** [authRouter] of [src/index.ts]. *)
Definition authRouter : list Route :=
  route "/github" (providerApp GitHub)
  ++ route "/google" (providerApp Google)
  ++ route "/auth0" (providerApp Auth0)
  ++ route "/keycloak" (providerApp Keycloak)
  ++ route "/custom" (providerApp Custom)
  ++ [(GET, js "/authorize", RootAuthorize);
      (GET, js "/callback", RootCallback)].

End Index.

Module IndexSentry.

(** [authRouter] of [src/index_sentry.ts]: "Generic callback handler
    removed - each provider now handles its own callbacks directly". *)
Definition authRouter : list Route :=
  route "/github" (providerApp GitHub)
  ++ route "/google" (providerApp Google)
  ++ route "/auth0" (providerApp Auth0)
  ++ route "/keycloak" (providerApp Keycloak)
  ++ route "/custom" (providerApp Custom)
  ++ [(GET, js "/authorize", RootAuthorize)].

End IndexSentry.

Definition method_eqb (a b : Method) : bool :=
  match a, b with
  | GET, GET | POST, POST => true
  | _, _ => false
  end.

(** The first route whose method and path are those of the request. *)
Fixpoint dispatch (routes : list Route) (r : Request) : option Endpoint :=
  match routes with
  | [] => None
  | (m, p, e) :: rest =>
      if method_eqb m (method r) && jseqb p (path r) then Some e
      else dispatch rest r
  end.

(** The providers whose bindings are present, as both root handlers
    enumerate them: display name and path. *)
Definition configuredProviders (env : Env) : list (jsstring * jsstring) :=
  (if isSet (GITHUB_CLIENT_ID env) then [(js "GitHub", js "/github")] else [])
  ++ (if isSet (GOOGLE_CLIENT_ID env) then [(js "Google", js "/google")] else [])
  ++ (if isSet (AUTH0_DOMAIN env) && isSet (AUTH0_CLIENT_ID env)
      then [(js "Auth0", js "/auth0")] else [])
  ++ (if isSet (KEYCLOAK_DOMAIN env) && isSet (KEYCLOAK_CLIENT_ID env)
      then [(js "Keycloak", js "/keycloak")] else [])
  ++ (if isSet (CUSTOM_OAUTH_URL env) then [(js "Custom OAuth", js "/custom")] else []).

(** [c.req.url.includes('?') ? c.req.url.split('?')[1] : '']. *)
Definition queryStringOf (url : jsstring) : jsstring :=
  if includesChar 63 url then nth 1 (split 63 url) [] else [].

(** [authRouter.get("/authorize", ...)], the same text in both entry
    points. *)
Definition rootAuthorize (env : Env) (c : Request) : Response :=
  let providers := configuredProviders env in
  match providers with
  | [p] =>
      let queryString := queryStringOf (req_url c) in
      let redirectUrl :=
        snd p ++ js "/authorize"
        ++ (match queryString with [] => [] | _ => js "?" ++ queryString end) in
      Redirect redirectUrl []
  | _ :: _ :: _ =>
      let queryString := queryStringOf (req_url c) in
      SelectionPage
        (map (fun p => (snd p ++ js "/authorize?" ++ queryString, fst p)) providers)
  | [] =>
      Text (js "No OAuth providers configured. Please check your environment variables.") 500
  end.

(** [url.search] of [new URL(c.req.url)]: empty for an empty query. *)
Definition URL_search (c : Request) : jsstring :=
  match search c with
  | [63] => []
  | s => s
  end.

(** [authRouter.get("/callback", ...)] of [src/index.ts]: the provider is
    guessed from the callback parameters and the environment. *)
Definition rootCallback (env : Env) (c : Request) : Response :=
  let code := req_query (js "code") c in
  let scope := req_query (js "scope") c in
  let sessionState := req_query (js "session_state") c in
  let iss := req_query (js "iss") c in
  let authuser := req_query (js "authuser") c in
  if negb (isSet code) then Text (js "Missing authorization code") 400 else
  let providerPath :=
    if isSet iss && (includes (js "keycloak") (str iss)
                     || includes (js "localhost:8080") (str iss))
    then js "/keycloak"
    else if isSet sessionState && isSet iss then js "/keycloak"
    else if isSet scope && includes (js "googleapis.com") (str scope) then js "/google"
    else if match authuser with Some _ => true | None => false end then js "/google"
    else if isSet scope && includes (js "openid") (str scope) && isSet (AUTH0_DOMAIN env)
    then js "/auth0"
    else if isSet (AUTH0_DOMAIN env) && isSet (AUTH0_CLIENT_ID env) then js "/auth0"
    else if (60 <? N.of_nat (List.length (str code))) && isSet (CUSTOM_OAUTH_URL env)
    then js "/custom"
    else if isSet (GITHUB_CLIENT_ID env) then js "/github"
    else [] in
  let providerPath :=
    match providerPath with
    | [] =>
        match map snd (configuredProviders env) with
        | [p] => p
        | _ => []
        end
    | _ => providerPath
    end in
  match providerPath with
  | [] =>
      Text (js "Unable to determine OAuth provider from callback. Please check your configuration.") 400
  | _ => Redirect (origin c ++ providerPath ++ js "/callback" ++ URL_search c) []
  end.

(* ===================================================================== *)
(** ** The [/authorize] routes of the handler files *)
(* ===================================================================== *)

(** What a route tells the approval dialog about the gateway. *)
Record ServerInfo := {
  server_description : jsstring;
  server_logo : jsstring;
  server_name : jsstring
}.

(** What the routes ask of the OAuth provider library ([parseAuthRequest],
    [lookupClient]) and of [oauth-utils.ts], which is not among the sources
    ([clientIdAlreadyApproved], [renderApprovalDialog],
    [parseRedirectApproval]): their answers are taken as given.
    [COOKIE_ENCRYPTION_KEY] is the binding of that name;
    [parseRedirectApproval] answers [state.oauthReqInfo], [None] when it is
    missing, and [headers]. *)
Record Consent := {
  COOKIE_ENCRYPTION_KEY : option jsstring;
  parseAuthRequest : Request -> JsError + AuthRequest;
  lookupClient : jsstring -> JsError + option JsValue;
  clientIdAlreadyApproved : Request -> jsstring -> option jsstring -> JsError + bool;
  renderApprovalDialog :
    Request -> option JsValue -> ServerInfo -> AuthRequest -> JsError + Response;
  parseRedirectApproval :
    Request -> option jsstring
    -> JsError + (option AuthRequest * list (jsstring * jsstring))
}.

Section AuthorizeRoutes.

(** The two routes have the same text in the four handler files, up to the
    [redirectTo...] function they call and the [server] they describe. *)
Variable redirectTo :
  (nat -> N) -> Request -> AuthRequest -> Env -> list (jsstring * jsstring)
  -> JsError + Response.
Variable server : ServerInfo.

(** [app.get("/authorize", ...)]. *)
Definition getAuthorize (k : Consent) (random : nat -> N) (env : Env) (c : Request)
  : JsError + Response :=
  try! oauthReqInfo <- parseAuthRequest k c ;
  match clientId oauthReqInfo with
  | [] => inr (Text (js "Invalid request") 400)
  | _ =>
      try! approved <-
        clientIdAlreadyApproved k c (clientId oauthReqInfo) (COOKIE_ENCRYPTION_KEY k) ;
      if approved : bool then redirectTo random c oauthReqInfo env []
      else
        try! client <- lookupClient k (clientId oauthReqInfo) ;
        renderApprovalDialog k c client server oauthReqInfo
  end.

(** [app.post("/authorize", ...)]. *)
Definition postAuthorize (k : Consent) (random : nat -> N) (env : Env) (c : Request)
  : JsError + Response :=
  try! approval <- parseRedirectApproval k c (COOKIE_ENCRYPTION_KEY k) ;
  match fst approval with
  | None => inr (Text (js "Invalid request") 400)
  | Some oauthReqInfo => redirectTo random c oauthReqInfo env (snd approval)
  end.

End AuthorizeRoutes.

(** The [server] of each handler file. *)
Definition serverOf (p : Provider) : option ServerInfo :=
  match p with
  | Google =>
      Some {| server_description :=
                js "This is a demo MCP Remote Server using Google for authentication.";
              server_logo := js "https://developers.google.com/identity/images/g-logo.png";
              server_name := js "Cloudflare Google MCP Server" |}
  | Auth0 =>
      Some {| server_description :=
                js "This is a demo MCP Remote Server using Auth0 for authentication.";
              server_logo := js "https://cdn.auth0.com/website/new-homepage/dark-favicon.png";
              server_name := js "Cloudflare Auth0 MCP Server" |}
  | Keycloak =>
      Some {| server_description :=
                js "This is a demo MCP Remote Server using Keycloak for authentication.";
              server_logo :=
                js "https://www.keycloak.org/resources/images/keycloak_logo_480x108.png";
              server_name := js "Cloudflare Keycloak MCP Server" |}
  | Custom =>
      Some {| server_description :=
                js "This is a demo MCP Remote Server using Custom OAuth 2.1 server for authentication.";
              server_logo := js "https://oauth.net/images/oauth-2-sm.png";
              server_name := js "Custom OAuth 2.1 MCP Server" |}
  | GitHub => None
  end.

(* ===================================================================== *)
(** ** Regular expressions of the language, without the [u] flag *)
(* ===================================================================== *)

Module RegExp.

(** The patterns of the sources, after parsing: a class of code units, a
    sequence, an alternative, the quantifiers [*] and [*?], the greedy
    quantifier [{0,n}], and the assertions [^], [$] (without the [m] flag)
    and [\b].  A literal character is a class of one; with the [i] flag a
    class holds both cases of its letters. *)
Inductive Re : Type :=
| Empty
| Chars (member : N -> bool)
| Seq (a b : Re)
| Or (a b : Re)
| Star (greedy : bool) (a : Re)
| Upto (n : nat) (a : Re)
| Bos
| Eos
| WordBoundary.

(** A position in the input: the code unit before it, if any, and what
    follows. *)
Definition Position : Type := option N * jsstring.

Definition samePlace (x y : Position) : bool :=
  Nat.eqb (List.length (snd x)) (List.length (snd y)).

(** [\w]. *)
Definition isWordChar (c : N) : bool :=
  ((48 <=? c) && (c <=? 57)) || ((65 <=? c) && (c <=? 90))
  || ((97 <=? c) && (c <=? 122)) || (c =? 95).

Definition wordAt (c : option N) : bool :=
  match c with
  | Some x => isWordChar x
  | None => false
  end.

(** The matcher of a pattern, in the continuation style of the language
    specification: [matcher r x c] is the end of the first way, in
    backtracking order, to match [r] at [x] and then satisfy [c].  An
    iteration of a quantifier that consumes nothing is refused, as the
    specification has it. *)
Fixpoint matcher (r : Re) (x : Position) (c : Position -> option Position)
    {struct r} : option Position :=
  match r with
  | Empty => c x
  | Chars member =>
      match snd x with
      | ch :: rest => if member ch then c (Some ch, rest) else None
      | [] => None
      end
  | Seq a b => matcher a x (fun y => matcher b y c)
  | Or a b =>
      match matcher a x c with
      | Some z => Some z
      | None => matcher b x c
      end
  | Star greedy a =>
      (fix loop (fuel : nat) (x : Position) {struct fuel} : option Position :=
         match fuel with
         | O => c x
         | S fuel' =>
             if greedy then
               match matcher a x (fun y => if samePlace x y then None else loop fuel' y) with
               | Some z => Some z
               | None => c x
               end
             else
               match c x with
               | Some z => Some z
               | None =>
                   matcher a x (fun y => if samePlace x y then None else loop fuel' y)
               end
         end) (List.length (snd x)) x
  | Upto n a =>
      (fix loop (n : nat) (x : Position) {struct n} : option Position :=
         match n with
         | O => c x
         | S n' =>
             match matcher a x (fun y => if samePlace x y then None else loop n' y) with
             | Some z => Some z
             | None => c x
             end
         end) n x
  | Bos =>
      match fst x with
      | None => c x
      | Some _ => None
      end
  | Eos =>
      match snd x with
      | [] => c x
      | _ :: _ => None
      end
  | WordBoundary =>
      if xorb (wordAt (fst x)) (wordAt (hd_error (snd x))) then c x else None
  end.

(** The first match at or after a position: what is skipped before it, the
    text it matched is what lies between, and its end. *)
Fixpoint search (r : Re) (prev : option N) (s : jsstring)
  : option (jsstring * Position) :=
  match matcher r (prev, s) Some with
  | Some e => Some ([], e)
  | None =>
      match s with
      | [] => None
      | ch :: rest =>
          match search r (Some ch) rest with
          | Some (skipped, e) => Some (ch :: skipped, e)
          | None => None
          end
      end
  end.

(** [r.test(s)] for a pattern whose [lastIndex] is 0. *)
Definition test (r : Re) (s : jsstring) : bool :=
  match search r None s with
  | Some _ => true
  | None => false
  end.

(** [s.replace(r, by)] for a pattern with the [g] flag and a replacement
    text without [$]: every match, from left to right, none overlapping an
    earlier one; after an empty match the search moves one code unit on. *)
Fixpoint replaceFrom (fuel : nat) (r : Re) (by_ : jsstring) (prev : option N)
    (s : jsstring) : jsstring :=
  match fuel with
  | O => s
  | S fuel' =>
      match matcher r (prev, s) Some with
      | Some e =>
          if samePlace (prev, s) e then
            by_ ++ match s with
                   | [] => []
                   | ch :: rest => ch :: replaceFrom fuel' r by_ (Some ch) rest
                   end
          else by_ ++ replaceFrom fuel' r by_ (fst e) (snd e)
      | None =>
          match s with
          | [] => []
          | ch :: rest => ch :: replaceFrom fuel' r by_ (Some ch) rest
          end
      end
  end.

Definition replaceGlobal (r : Re) (by_ : jsstring) (s : jsstring) : jsstring :=
  replaceFrom (S (List.length s)) r by_ None s.

(** [s.replace(r, by)] for a pattern without the [g] flag: the first match
    only. *)
Definition replaceFirst (r : Re) (by_ : jsstring) (s : jsstring) : jsstring :=
  match search r None s with
  | Some (skipped, e) => skipped ++ by_ ++ snd e
  | None => s
  end.

(** *** Writing patterns *)

Definition char (c : N) : Re := Chars (N.eqb c).

(** A letter under the [i] flag: either case of it; any other character:
    itself.  (Canonicalize maps no character beyond U+007F to an ASCII
    one.) *)
Definition lowerAscii (c : N) : N := if (65 <=? c) && (c <=? 90) then c + 32 else c.

Definition charI (c : N) : Re := Chars (fun x => lowerAscii x =? lowerAscii c).

Fixpoint seq (l : list Re) : Re :=
  match l with
  | [] => Empty
  | [r] => r
  | r :: rest => Seq r (seq rest)
  end.

Fixpoint alt (l : list Re) : Re :=
  match l with
  | [] => Empty
  | [r] => r
  | r :: rest => Or r (alt rest)
  end.

(** A literal text, and the same under the [i] flag. *)
Definition lit (s : string) : Re := seq (map char (js s)).
Definition litI (s : string) : Re := seq (map charI (js s)).

Definition plus (a : Re) : Re := Seq a (Star true a).
Definition opt (a : Re) : Re := Upto 1 a.

(** [\s], [\d], [.] and [.] under the [s] flag. *)
Definition space : Re := Chars isTrimSpace.
Definition digit : Re := Chars (fun c => (48 <=? c) && (c <=? 57)).
Definition isLineTerminator (c : N) : bool :=
  (c =? 10) || (c =? 13) || (c =? 0x2028) || (c =? 0x2029).
Definition dot : Re := Chars (fun c => negb (isLineTerminator c)).
Definition any : Re := Chars (fun _ => true).
Definition word : Re := Chars isWordChar.
Definition notChar (c : N) : Re := Chars (fun x => negb (x =? c)).

(** *** The matches of a pattern *)

(** The position reached from one whose last code unit is [p] by reading
    [m]. *)
Definition after (p : option N) (m : jsstring) : option N :=
  fold_left (fun _ ch => Some ch) m p.

(** The ways of a pattern to match between two positions. *)
Inductive Match : Re -> Position -> Position -> Prop :=
| MEmpty x : Match Empty x x
| MChars member p ch rest :
    member ch = true -> Match (Chars member) (p, ch :: rest) (Some ch, rest)
| MSeq a b x y z : Match a x y -> Match b y z -> Match (Seq a b) x z
| MOrL a b x y : Match a x y -> Match (Or a b) x y
| MOrR a b x y : Match b x y -> Match (Or a b) x y
| MStar0 g a x : Match (Star g a) x x
| MStarS g a x y z :
    Match a x y -> samePlace x y = false -> Match (Star g a) y z ->
    Match (Star g a) x z
| MUpto0 n a x : Match (Upto n a) x x
| MUptoS n a x y z :
    Match a x y -> samePlace x y = false -> Match (Upto n a) y z ->
    Match (Upto (S n) a) x z
| MBos s : Match Bos (None, s) (None, s)
| MEos p : Match Eos (p, []) (p, [])
| MWordBoundary x :
    xorb (wordAt (fst x)) (wordAt (hd_error (snd x))) = true ->
    Match WordBoundary x x.

(** A pattern whose matches depend on the text they read only: the texts
    it reads are those of [P]. *)
Definition Spans (a : Re) (P : jsstring -> Prop) : Prop :=
  forall x y, Match a x y <->
              exists m, P m /\ snd x = m ++ snd y /\ fst y = after (fst x) m.

(** A pattern that reads to the end of the input: the texts it reads. *)
Definition SpansToEnd (a : Re) (P : jsstring -> Prop) : Prop :=
  forall x y, Match a x y <->
              snd y = [] /\ P (snd x) /\ fst y = after (fst x) (snd x).

(** The loops of the two quantifiers, as [matcher] runs them. *)
Definition starLoop (greedy : bool) (a : Re) (c : Position -> option Position) :=
  fix loop (fuel : nat) (x : Position) {struct fuel} : option Position :=
    match fuel with
    | O => c x
    | S fuel' =>
        if greedy then
          match matcher a x (fun y => if samePlace x y then None else loop fuel' y) with
          | Some z => Some z
          | None => c x
          end
        else
          match c x with
          | Some z => Some z
          | None =>
              matcher a x (fun y => if samePlace x y then None else loop fuel' y)
          end
    end.

Definition uptoLoop (a : Re) (c : Position -> option Position) :=
  fix loop (n : nat) (x : Position) {struct n} : option Position :=
    match n with
    | O => c x
    | S n' =>
        match matcher a x (fun y => if samePlace x y then None else loop n' y) with
        | Some z => Some z
        | None => c x
        end
    end.

End RegExp.

(* ===================================================================== *)
(** ** [JSON.stringify(value, null, 2)] *)
(* ===================================================================== *)

Section StringifyIndented.

Variable stringify : jsstring -> JsValue -> jsstring.
Variable indent : jsstring.

Fixpoint joinItemsIndented (l : list JsValue) : jsstring :=
  match l with
  | [] => []
  | [v] => stringify indent v
  | v :: rest => stringify indent v ++ js "," ++ [10] ++ indent ++ joinItemsIndented rest
  end.

Fixpoint joinMembersIndented (l : list (jsstring * JsValue)) : jsstring :=
  match l with
  | [] => []
  | [(k, v)] => quoteJSONString k ++ js ": " ++ stringify indent v
  | (k, v) :: rest =>
      quoteJSONString k ++ js ": " ++ stringify indent v ++ js "," ++ [10] ++ indent
      ++ joinMembersIndented rest
  end.

End StringifyIndented.

(** The text of [v] written at indentation [stepback], two spaces a
    level. *)
Fixpoint stringifyIndented (stepback : jsstring) (v : JsValue) : jsstring :=
  match v with
  | JArr [] => js "[]"
  | JArr l =>
      js "[" ++ [10] ++ (stepback ++ js "  ")
      ++ joinItemsIndented stringifyIndented (stepback ++ js "  ") l
      ++ [10] ++ stepback ++ js "]"
  | JObj [] => js "{}"
  | JObj ms =>
      js "{" ++ [10] ++ (stepback ++ js "  ")
      ++ joinMembersIndented stringifyIndented (stepback ++ js "  ") ms
      ++ [10] ++ stepback ++ js "}"
  | other => JSON_stringify other
  end.

Definition JSON_stringify_2 (v : JsValue) : jsstring := stringifyIndented [] v.

(* ===================================================================== *)
(** ** [src/types.ts]: tool responses *)
(* ===================================================================== *)

Module Types.

(** [McpTextContent]; a response holds a list of them. *)
Record McpTextContent := {
  content_text : jsstring;
  content_isError : option bool
}.

Definition McpResponse : Type := list McpTextContent.

(** The fence around a JSON text in an answer. *)
Definition jsonBlock (data : JsValue) : jsstring :=
  js "```json" ++ [10] ++ JSON_stringify_2 data ++ [10] ++ js "```".

(** [createSuccessResponse(message, data)]. *)
Definition createSuccessResponse (message : jsstring) (data : option JsValue)
  : McpResponse :=
  [{| content_text :=
        js "**Success**" ++ [10; 10] ++ message
        ++ match data with
           | Some d => [10; 10] ++ js "**Result:**" ++ [10] ++ jsonBlock d
           | None => []
           end;
      content_isError := None |}].

(** [createErrorResponse(message, details)]. *)
Definition createErrorResponse (message : jsstring) (details : option JsValue)
  : McpResponse :=
  [{| content_text :=
        js "**Error**" ++ [10; 10] ++ message
        ++ match details with
           | Some d => [10; 10] ++ js "**Details:**" ++ [10] ++ jsonBlock d
           | None => []
           end;
      content_isError := Some true |}].

(** The user context of a tool: [Props]. *)
Record Props := {
  login : jsstring;
  name : jsstring;
  email : jsstring;
  accessToken : jsstring
}.

End Types.

(** The result of a check: [{ isValid, error }]. *)
Record Validation := {
  isValid : bool;
  error : option jsstring
}.

Definition valid : Validation := {| isValid := true; error := None |}.
Definition invalid (message : jsstring) : Validation :=
  {| isValid := false; error := Some message |}.

(** [a.join(', ')]. *)
Fixpoint joinCommaSpace (parts : list jsstring) : jsstring :=
  match parts with
  | [] => []
  | [p] => p
  | p :: rest => p ++ js ", " ++ joinCommaSpace rest
  end.

Definition lengthN (s : jsstring) : N := N.of_nat (List.length s).

(** [!s || s.trim().length === 0]. *)
Definition blank (s : jsstring) : bool :=
  match s with
  | [] => true
  | _ => match trim s with [] => true | _ => false end
  end.

(** [[\x00-\x1f\x7f]]. *)
Definition isControl (c : N) : bool := (c <=? 0x1f) || (c =? 0x7f).

(** [[\x00-\x08\x0B\x0C\x0E-\x1F\x7F]]: the control characters but TAB,
    LF and CR. *)
Definition isStripped (c : N) : bool :=
  (c <=? 0x08) || (c =? 0x0B) || (c =? 0x0C) || ((0x0E <=? c) && (c <=? 0x1F))
  || (c =? 0x7F).

(* ===================================================================== *)
(** ** [src/gmail/security.ts] *)
(* ===================================================================== *)

Module GmailSecurity.
Import RegExp.

(** [<name[^>]*>] under the [i] flag. *)
Definition openTag (name : string) : Re :=
  seq [litI ("<" ++ name); Star true (notChar 62); char 62].

(** [on\w+=] and [on\w+\s*=] under the [i] flag. *)
Definition eventHandler : Re := seq [litI "on"; plus word; char 61].
Definition eventHandlerSpaced : Re :=
  seq [litI "on"; plus word; Star true space; char 61].

(** The patterns of [validateEmailSubject], in its order. *)
Definition maliciousPatterns : list Re :=
  [ Chars isControl;            (* /[\x00-\x1f\x7f]/ *)
    litI "javascript:";         (* /javascript:/i *)
    litI "data:";               (* /data:/i *)
    litI "vbscript:";           (* /vbscript:/i *)
    litI "<script";             (* /<script/i *)
    litI "<iframe";             (* /<iframe/i *)
    eventHandler ].             (* /on\w+=/i *)

(** [validateEmailSubject(subject)]. *)
Definition validateEmailSubject (subject : jsstring) : Validation :=
  if blank subject then invalid (js "Email subject cannot be empty")
  else if existsb (fun pattern => test pattern subject) maliciousPatterns then
    invalid (js "Subject contains potentially dangerous content")
  else if 998 <? lengthN subject then
    invalid (js "Subject too long (max 998 characters)")
  else valid.

(** The patterns of [validateEmailBody], in its order. *)
Definition suspiciousPatterns : list Re :=
  [ seq [litI "<script"; Star true (notChar 62); char 62; Star true any;
         litI "</script>"];     (* /<script[^>]*>.*<\/script>/is *)
    openTag "iframe";           (* /<iframe[^>]*>/i *)
    litI "javascript:";         (* /javascript:/gi *)
    seq [litI "data:"; Star true space; litI "text/html"];
                                (* /data:\s*text\/html/gi *)
    litI "vbscript:";           (* /vbscript:/gi *)
    openTag "object";           (* /<object[^>]*>/i *)
    openTag "embed";            (* /<embed[^>]*>/i *)
    openTag "applet";           (* /<applet[^>]*>/i *)
    openTag "form" ].           (* /<form[^>]*>/i *)

Definition spamIndicators : list Re :=
  [ alt [litI "URGENT"; litI "IMMEDIATE"; litI "ACT NOW"; litI "LIMITED TIME"];
    alt [lit "$$$";
         seq [char 36; plus digit;
              Star true (Chars (fun c => (c =? 44) || ((48 <=? c) && (c <=? 57))))];
         seq [WordBoundary; litI "money"; WordBoundary; Star true dot;
              WordBoundary; litI "fast"; WordBoundary]];
                                (* /\$\$\$|\$\d+[,\d]*|\bmoney\b.*\bfast\b/gi *)
    alt [litI "click here"; litI "click now"; litI "click below"];
    alt [seq [litI "congratulations"; Star true dot; litI "won"];
         litI "winner";
         seq [litI "prize"; Star true dot; litI "claim"]];
                                (* /congratulations.*won|winner|prize.*claim/gi *)
    alt [litI "viagra"; litI "cialis"; litI "pharmacy"; litI "prescription"] ].

(** [validateEmailBody(body)]. *)
Definition validateEmailBody (body : jsstring) : Validation :=
  if blank body then invalid (js "Email body cannot be empty")
  else if existsb (fun pattern => test pattern body) suspiciousPatterns then
    invalid (js "Email body contains potentially dangerous content")
  else if 10485760 <? lengthN body then invalid (js "Email body too large (max 10MB)")
  else
    let spamScore := List.length (filter (fun pattern => test pattern body) spamIndicators) in
    if (3 <=? spamScore)%nat then invalid (js "Email content appears to be spam-like")
    else valid.

(** The replacements of [sanitizeEmailContent], in its order. *)
Definition sanitizers : list (Re * jsstring) :=
  [ (Chars isStripped, []);
    (litI "javascript:", js "javascript_");
    (litI "data:", js "data_");
    (litI "vbscript:", js "vbscript_");
    (seq [litI "<script"; Star true (notChar 62); char 62; Star false any;
          litI "</script>"],
     js "[SCRIPT_REMOVED]");    (* /<script[^>]*>.*?<\/script>/gis *)
    (openTag "iframe", js "[IFRAME_REMOVED]");
    (eventHandlerSpaced, js "on_event_removed=") ].
                                (* /on\w+\s*=/gi *)

(** [sanitizeEmailContent(content)]. *)
Definition sanitizeEmailContent (content : jsstring) : jsstring :=
  fold_left (fun s step => replaceGlobal (fst step) (snd step) s) sanitizers content.

(** [cc?.length || 0]. *)
Definition lengthOr0 (l : option (list jsstring)) : nat :=
  match l with
  | Some l => List.length l
  | None => 0%nat
  end.

(** [validateRecipientLimits(to, cc, bcc)]. *)
Definition validateRecipientLimits (to : list jsstring) (cc bcc : option (list jsstring))
  : Validation :=
  let totalRecipients := (List.length to + lengthOr0 cc + lengthOr0 bcc)%nat in
  if (50 <? totalRecipients)%nat then invalid (js "Too many recipients (max 50 total)")
  else if (List.length to =? 0)%nat then
    invalid (js "At least one 'To' recipient is required")
  else if (25 <? List.length to)%nat then invalid (js "Too many 'To' recipients (max 25)")
  else if (25 <? lengthOr0 cc)%nat then invalid (js "Too many 'CC' recipients (max 25)")
  else if (25 <? lengthOr0 bcc)%nat then invalid (js "Too many 'BCC' recipients (max 25)")
  else valid.

(** [a.*b.*c] under the [i] flag. *)
Definition threeWords (a b c : string) : Re :=
  seq [litI a; Star true dot; litI b; Star true dot; litI c].

Definition phishingPatterns : list (Re * jsstring) :=
  [ (threeWords "urgent" "action" "required", js "Urgent action required language");
    (threeWords "verify" "account" "suspended", js "Account suspension threat");
    (threeWords "click" "here" "immediately", js "Suspicious call-to-action");
    (threeWords "limited" "time" "expires", js "False urgency");
    (threeWords "congratulations" "winner" "prize", js "Prize/winner scam language");
    (threeWords "confirm" "identity" "details", js "Identity confirmation request");
    (threeWords "security" "alert" "unauthorized", js "Security alert spoofing") ].

(** [detectPhishingIndicators(subject, body)]; [toLowerCase] is the
    engine's method of that name, taken as given. *)
Definition detectPhishingIndicators (toLowerCase : jsstring -> jsstring)
    (subject body : jsstring) : list jsstring :=
  let combinedText := toLowerCase (subject ++ js " " ++ body) in
  map snd (filter (fun p => test (fst p) combinedText) phishingPatterns).

End GmailSecurity.

(* ===================================================================== *)
(** ** [src/gmail/utils.ts] *)
(* ===================================================================== *)

Module GmailUtils.
Import RegExp.

(** [GmailMessage], without attachments: the tool sends none. *)
Record GmailMessage := {
  to : list jsstring;
  cc : option (list jsstring);
  bcc : option (list jsstring);
  subject : jsstring;
  body : jsstring;
  isHtml : bool
}.

(** What an operation on the Gmail API throws: an exception of the engine,
    or the object [{ status, message, details }] of a refused request. *)
Inductive Thrown :=
| Exception (e : JsError)
| ApiFailure (status : N) (message : option JsValue) (details : JsValue).

(** [formatGmailError(error)]; every exception of the engine is an
    [Error] and has no [status].  The message of a refusal is whatever the
    answer of the API held under that name, and the template converts it. *)
Definition formatGmailError (w : World) (error : Thrown) : JsError + jsstring :=
  match error with
  | ApiFailure status message _ =>
      if status =? 401 then
        inr (js "Gmail authentication failed. Please check your access token or re-authenticate.")
      else if status =? 403 then
        inr (js "Gmail API access denied. Please check your OAuth scopes and permissions.")
      else if status =? 404 then
        inr (js "Gmail resource not found. Please check the message ID or mailbox.")
      else if status =? 429 then
        inr (js "Gmail API rate limit exceeded. Please try again later.")
      else if status =? 400 then
        inr (js "Gmail API request invalid. Please check your email parameters.")
      else
        try! text <- ToString (orElse message (strV "Unknown error")) ;
        inr (js "Gmail API error (" ++ decimal status ++ js "): " ++ text)
  | Exception e => inr (js "Gmail operation failed: " ++ errMessage w e)
  end.

(** [[a-zA-Z0-9.!#$%&'*+/=?^_`{|}~-]]. *)
Definition isLocalChar (c : N) : bool :=
  isAlnum c || existsb (N.eqb c) (js ".!#$%&'*+/=?^_`{|}~-").

(** [[a-zA-Z0-9](?:[a-zA-Z0-9-]{0,61}[a-zA-Z0-9])?]. *)
Definition label : Re :=
  Seq (Chars isAlnum)
      (opt (Seq (Upto 61 (Chars (fun c => isAlnum c || (c =? 45)))) (Chars isAlnum))).

Definition emailPattern : Re :=
  seq [Bos; plus (Chars isLocalChar); char 64; label; Star true (Seq (char 46) label); Eos].

(** [validateEmailAddress(email)]. *)
Definition validateEmailAddress (email : jsstring) : Validation :=
  if blank email then invalid (js "Email address cannot be empty")
  else if negb (test emailPattern (trim email)) then
    invalid (js "Invalid email address format")
  else if 254 <? lengthN email then
    invalid (js "Email address too long (max 254 characters)")
  else valid.

(** The first address of a list that fails, with its verdict. *)
Fixpoint firstInvalid (emails : list jsstring) : option (jsstring * Validation) :=
  match emails with
  | [] => None
  | email :: rest =>
      let validation := validateEmailAddress email in
      if isValid validation then firstInvalid rest else Some (email, validation)
  end.

(** [validateEmailAddresses(emails)]. *)
Definition validateEmailAddresses (emails : list jsstring) : Validation :=
  match emails with
  | [] => invalid (js "At least one email address is required")
  | _ =>
      if (100 <? List.length emails)%nat then invalid (js "Too many recipients (max 100)")
      else
        match firstInvalid emails with
        | Some (email, validation) =>
            invalid (jq "Invalid email '" ++ email ++ jq "': "
                     ++ str (error validation))
        | None => valid
        end
  end.

Definition CRLF : jsstring := [13; 10].

(** [lines.filter(Boolean).join('\r\n')] of lines that are not empty. *)
Fixpoint joinCRLF (lines : list jsstring) : jsstring :=
  match lines with
  | [] => []
  | [l] => l
  | l :: rest => l ++ CRLF ++ joinCRLF rest
  end.

(** What [createGmailMessage] draws from outside: [Date.now()], and the
    digits [Math.random().toString(36).substr(2, 9)], nine at most. *)
Record Draw := {
  now : N;
  digits : jsstring
}.

(** The MIME text [createGmailMessage] builds. *)
Definition mimeText (draw : Draw) (message : GmailMessage) : jsstring :=
  let boundary := js "boundary_" ++ decimal (now draw) ++ js "_" ++ digits draw in
  let headers :=
    joinCRLF
      ([js "To: " ++ joinCommaSpace (to message)]
       ++ match cc message with
          | Some ((_ :: _) as l) => [js "Cc: " ++ joinCommaSpace l]
          | _ => []
          end
       ++ match bcc message with
          | Some ((_ :: _) as l) => [js "Bcc: " ++ joinCommaSpace l]
          | _ => []
          end
       ++ [js "Subject: " ++ subject message;
           js "MIME-Version: 1.0";
           jq "Content-Type: multipart/mixed; boundary='" ++ boundary ++ jq "'"]) in
  headers ++ CRLF ++ CRLF
  ++ js "--" ++ boundary ++ CRLF
  ++ js "Content-Type: " ++ (if isHtml message then js "text/html" else js "text/plain")
  ++ js "; charset=UTF-8" ++ CRLF
  ++ js "Content-Transfer-Encoding: quoted-printable" ++ CRLF ++ CRLF
  ++ body message ++ CRLF ++ CRLF
  ++ js "--" ++ boundary ++ js "--".

(** [Buffer.from(s).toString('base64')]: the base64 of the UTF-8 bytes. *)
Definition Buffer_base64 (s : jsstring) : jsstring := b64enc (TextEncoder_encode s).

(** [createGmailMessage(message)]. *)
Definition createGmailMessage (draw : Draw) (message : GmailMessage) : jsstring :=
  replaceFirst (seq [plus (char 61); Eos]) []
    (replaceGlobal (char 47) (js "_")
       (replaceGlobal (char 43) (js "-") (Buffer_base64 (mimeText draw message)))).

(** [errorData.error?.message || response.statusText]. *)
Definition failureMessage (errorData : JsValue) (statusText : jsstring)
  : JsError + option JsValue :=
  try! err <- getProp (js "error") errorData ;
  try! message <-
    match err with
    | None | Some JNull => inr None
    | Some e => getProp (js "message") e
    end ;
  inr (orElse message (Some (JStr statusText))).

(** The headers [withGmail] hands to its operation. *)
Definition gmailHeaders (accessToken : jsstring) : list (jsstring * jsstring) :=
  [(js "Authorization", js "Bearer " ++ accessToken);
   (js "Content-Type", js "application/json")].

(** The lines that follow a [fetch] in [sendGmailMessage] and in the
    profile request of the tools: a refusal is thrown as an object, an
    answer is parsed. *)
Definition answerOf (response : HttpResponse) : Thrown + JsValue :=
  if negb (ok response) then
    let errorData :=
      match json response with
      | inr data => data
      | inl _ => JObj []
      end in
    match failureMessage errorData (statusText response) with
    | inr message => inl (ApiFailure (status response) message errorData)
    | inl e => inl (Exception e)
    end
  else
    match json response with
    | inr result => inr result
    | inl e => inl (Exception e)
    end.

(** The request of [sendGmailMessage]. *)
Definition sendRequest (draw : Draw) (accessToken : jsstring) (message : GmailMessage)
  : FetchRequest :=
  {| fetch_url := js "https://gmail.googleapis.com/gmail/v1/users/me/messages/send";
     fetch_method := POST;
     fetch_headers := gmailHeaders accessToken;
     fetch_body :=
       Some (JSON_stringify
               (JObj [(js "raw", JStr (createGmailMessage draw message))])) |}.

(** [sendGmailMessage(accessToken, message)] inside [withGmail], which
    passes the result and the exception of its operation on: what it
    returns or throws, and the request it made. *)
Definition sendGmailMessage (w : World) (draw : Draw) (accessToken : jsstring)
    (message : GmailMessage) : (Thrown + JsValue) * list Effect :=
  let request := sendRequest draw accessToken message in
  (match fetch w request with
   | inl e => inl (Exception e)
   | inr response => answerOf response
   end,
   [Fetch request]).

End GmailUtils.

(* ===================================================================== *)
(** ** [src/tools/gmail-tools-sentry.ts]: the [sendEmail] tool *)
(* ===================================================================== *)

Module GmailTools.
Import Types GmailUtils.

(** The arguments of the tool, as its schema hands them over. *)
Record SendEmailArgs := {
  arg_to : list jsstring;
  arg_cc : option (list jsstring);
  arg_bcc : option (list jsstring);
  arg_subject : jsstring;
  arg_body : jsstring;
  arg_isHtml : option bool
}.

Definition num (n : nat) : JsValue := JNum (Z.of_nat n) 0.

(** [securitySummary]. *)
Definition securitySummary (a : SendEmailArgs) (sanitizedSubject sanitizedBody : jsstring)
    (phishingIndicators : list jsstring) : JsValue :=
  let isHtml := match arg_isHtml a with Some b => b | None => false end in
  JObj
    [(js "recipients",
      JObj [(js "to", num (List.length (arg_to a)));
            (js "cc", num (GmailSecurity.lengthOr0 (arg_cc a)));
            (js "bcc", num (GmailSecurity.lengthOr0 (arg_bcc a)));
            (js "total",
             num (List.length (arg_to a) + GmailSecurity.lengthOr0 (arg_cc a)
                  + GmailSecurity.lengthOr0 (arg_bcc a)))]);
     (js "content",
      JObj [(js "subject_length", num (List.length (arg_subject a)));
            (js "body_length", num (List.length (arg_body a)));
            (js "format", JStr (if isHtml then js "HTML" else js "Plain Text"));
            (js "sanitized",
             JBool (negb (jseqb sanitizedSubject (arg_subject a))
                    || negb (jseqb sanitizedBody (arg_body a))))]);
     (js "security",
      JObj [(js "phishing_indicators", num (List.length phishingIndicators));
            (js "validation_passed", JBool true)])].

(** The text of the answer to an email that was sent, [id] and [threadId]
    being the texts of [result.id] and [result.threadId]. *)
Definition sentText (props : Props) (a : SendEmailArgs)
    (id threadId : jsstring) (sanitizedSubject sanitizedBody : jsstring)
    (phishingIndicators : list jsstring) : jsstring :=
  js "**Email Sent Successfully**" ++ [10; 10]
  ++ js "**Message ID:** " ++ id ++ [10]
  ++ js "**Thread ID:** " ++ threadId ++ [10; 10]
  ++ js "**Recipients:**" ++ [10]
  ++ js "- To: " ++ joinCommaSpace (arg_to a) ++ [10]
  ++ match arg_cc a with
     | Some l => js "- CC: " ++ joinCommaSpace l ++ [10]
     | None => []
     end
  ++ match arg_bcc a with
     | Some l => js "- BCC: " ++ joinCommaSpace l ++ [10]
     | None => []
     end
  ++ [10] ++ js "**Subject:** " ++ sanitizedSubject ++ [10; 10]
  ++ js "**Security Summary:**" ++ [10]
  ++ jsonBlock (securitySummary a sanitizedSubject sanitizedBody phishingIndicators)
  ++ [10; 10]
  ++ js "**Sent by:** " ++ login props ++ js " (" ++ name props ++ js ")" ++ [10; 10]
  ++ match phishingIndicators with
     | [] => [0x2705] ++ js " **Security Check:** All validations passed"
     | _ =>
         [0x26A0; 0xFE0F]
         ++ js "  **Warning:** Detected potential phishing indicators: "
         ++ joinCommaSpace phishingIndicators
     end.

(** [`${result.id}`] and [`${result.threadId}`], read and converted in
    this order. *)
Definition sentIds (result : JsValue) : JsError + jsstring * jsstring :=
  try! id <- getProp (js "id") result ;
  try! idText <- ToString id ;
  try! threadId <- getProp (js "threadId") result ;
  try! threadText <- ToString threadId ;
  inr (idText, threadText).

(** The body of the [try] block of the tool. *)
Definition trySendEmail (w : World) (toLowerCase : jsstring -> jsstring)
    (draw : Draw) (props : Props) (a : SendEmailArgs)
  : (Thrown + McpResponse) * list Effect :=
  let recipientValidation :=
    GmailSecurity.validateRecipientLimits (arg_to a) (arg_cc a) (arg_bcc a) in
  if negb (isValid recipientValidation) then
    (inr (createErrorResponse
            (js "Recipient validation failed: "
             ++ str (error recipientValidation))
            None), [])
  else
  let allEmails :=
    arg_to a ++ match arg_cc a with Some l => l | None => [] end
    ++ match arg_bcc a with Some l => l | None => [] end in
  let emailValidation := validateEmailAddresses allEmails in
  if negb (isValid emailValidation) then
    (inr (createErrorResponse
            (js "Email validation failed: "
             ++ str (error emailValidation))
            None), [])
  else
  let subjectValidation := GmailSecurity.validateEmailSubject (arg_subject a) in
  if negb (isValid subjectValidation) then
    (inr (createErrorResponse
            (js "Subject validation failed: "
             ++ str (error subjectValidation))
            None), [])
  else
  let bodyValidation := GmailSecurity.validateEmailBody (arg_body a) in
  if negb (isValid bodyValidation) then
    (inr (createErrorResponse
            (js "Body validation failed: "
             ++ str (error bodyValidation))
            None), [])
  else
  let phishingIndicators :=
    GmailSecurity.detectPhishingIndicators toLowerCase (arg_subject a) (arg_body a) in
  if (2 <? List.length phishingIndicators)%nat then
    (inr (createErrorResponse
            (js "Email appears to contain suspicious content. Detected indicators: "
             ++ joinCommaSpace phishingIndicators)
            None), [])
  else
  let sanitizedSubject := GmailSecurity.sanitizeEmailContent (arg_subject a) in
  let sanitizedBody := GmailSecurity.sanitizeEmailContent (arg_body a) in
  let gmailMessage :=
    {| to := arg_to a; cc := arg_cc a; bcc := arg_bcc a;
       subject := sanitizedSubject; body := sanitizedBody;
       isHtml := match arg_isHtml a with Some b => b | None => false end |} in
  match sendGmailMessage w draw (accessToken props) gmailMessage with
  | (inl thrown, tr) => (inl thrown, tr)
  | (inr result, tr) =>
      (match sentIds result with
       | inr (id, threadId) =>
           inr [{| content_text :=
                     sentText props a id threadId sanitizedSubject sanitizedBody
                       phishingIndicators;
                   content_isError := None |}]
       | inl e => inl (Exception e)
       end, tr)
  end.

(** The [sendEmail] tool: the [try] block, and the [catch] that turns
    what it throws into an answer, unless formatting the error throws in
    its turn.  The Sentry wrappers call their callback and pass its result
    and its exception on. *)
Definition sendEmail (w : World) (toLowerCase : jsstring -> jsstring)
    (draw : Draw) (props : Props) (a : SendEmailArgs)
  : (Thrown + McpResponse) * list Effect :=
  match trySendEmail w toLowerCase draw props a with
  | (inl error, tr) =>
      (match formatGmailError w error with
       | inr formattedError =>
           inr (createErrorResponse
                  (js "Failed to send email: " ++ formattedError) None)
       | inl e => inl (Exception e)
       end,
       tr)
  | done => done
  end.

(** The two requests of the [getEmailProfile] tool. *)
Definition profileRequest (accessToken : jsstring) : FetchRequest :=
  {| fetch_url := js "https://gmail.googleapis.com/gmail/v1/users/me/profile";
     fetch_method := GET;
     fetch_headers := gmailHeaders accessToken;
     fetch_body := None |}.

Definition userInfoRequest (accessToken : jsstring) : FetchRequest :=
  {| fetch_url := js "https://www.googleapis.com/oauth2/v2/userinfo";
     fetch_method := GET;
     fetch_headers := gmailHeaders accessToken;
     fetch_body := None |}.

(** The second operation, with its [.catch(() => null)]. *)
Definition userInfoOrNull (w : World) (accessToken : jsstring) : JsValue :=
  match fetch w (userInfoRequest accessToken) with
  | inr response =>
      if ok response then
        match json response with
        | inr data => data
        | inl _ => JNull
        end
      else JNull
  | inl _ => JNull
  end.

(** The members of an object literal that [JSON.stringify] writes: those
    that are not [undefined]. *)
Fixpoint written (members : list (jsstring * option JsValue))
  : list (jsstring * JsValue) :=
  match members with
  | [] => []
  | (k, Some v) :: rest => (k, v) :: written rest
  | (_, None) :: rest => written rest
  end.

(** [profileInfo], as [JSON.stringify] sees it. *)
Definition profileInfo (props : Props) (profileData userInfoData : JsValue)
  : JsError + JsValue :=
  try! emailAddress <- getProp (js "emailAddress") profileData ;
  try! messagesTotal <- getProp (js "messagesTotal") profileData ;
  try! threadsTotal <- getProp (js "threadsTotal") profileData ;
  try! historyId <- getProp (js "historyId") profileData ;
  try! user_info <-
    (if truthy (Some userInfoData) then
       try! name <- getProp (js "name") userInfoData ;
       try! given_name <- getProp (js "given_name") userInfoData ;
       try! family_name <- getProp (js "family_name") userInfoData ;
       try! picture <- getProp (js "picture") userInfoData ;
       try! verified_email <- getProp (js "verified_email") userInfoData ;
       inr (JObj (written [(js "name", name);
                           (js "given_name", given_name);
                           (js "family_name", family_name);
                           (js "picture", picture);
                           (js "verified_email", verified_email)]))
     else inr JNull) ;
  inr (JObj (written
          [(js "email", emailAddress);
           (js "messages_total", messagesTotal);
           (js "threads_total", threadsTotal);
           (js "history_id", historyId);
           (js "user_info", Some user_info);
           (js "oauth_user",
            Some (JObj [(js "login", JStr (login props));
                        (js "name", JStr (name props));
                        (js "email", JStr (email props))]))])).

(** The text of the answer that holds a profile. *)
Definition profileText (props : Props) (info : JsValue) : jsstring :=
  js "**Gmail Profile Information**" ++ [10; 10]
  ++ js "**Account Details:**" ++ [10] ++ jsonBlock info ++ [10; 10]
  ++ js "**Retrieved by:** " ++ login props ++ js " (" ++ name props ++ js ")".

(** The body of the [try] block of the [getEmailProfile] tool. *)
Definition tryGetEmailProfile (w : World) (props : Props)
  : (Thrown + McpResponse) * list Effect :=
  let first := Fetch (profileRequest (accessToken props)) in
  match match fetch w (profileRequest (accessToken props)) with
        | inl e => inl (Exception e)
        | inr response => answerOf response
        end with
  | inl thrown => (inl thrown, [first])
  | inr profileData =>
      let userInfoData := userInfoOrNull w (accessToken props) in
      (match profileInfo props profileData userInfoData with
       | inr info =>
           inr [{| content_text := profileText props info;
                   content_isError := None |}]
       | inl e => inl (Exception e)
       end,
       [first; Fetch (userInfoRequest (accessToken props))])
  end.

(** The [getEmailProfile] tool, with its [catch]. *)
Definition getEmailProfile (w : World) (props : Props)
  : (Thrown + McpResponse) * list Effect :=
  match tryGetEmailProfile w props with
  | (inl error, tr) =>
      (match formatGmailError w error with
       | inr formattedError =>
           inr (createErrorResponse
                  (js "Failed to get email profile: " ++ formattedError) None)
       | inl e => inl (Exception e)
       end,
       tr)
  | done => done
  end.

End GmailTools.

(* ===================================================================== *)
(** ** [src/github/security.ts] and [src/github/utils.ts] *)
(* ===================================================================== *)

Module GitHubSecurity.
Import RegExp.

(** The patterns of [validateSearchQuery], in its order. *)
Definition maliciousPatterns : list Re :=
  [ Chars isControl;            (* /[\x00-\x1f\x7f]/ *)
    Chars (fun c => (c =? 60) || (c =? 62));
                                (* /[<>]/ *)
    litI "javascript:";         (* /javascript:/i *)
    litI "data:";               (* /data:/i *)
    litI "vbscript:" ].         (* /vbscript:/i *)

(** [validateSearchQuery(query)]. *)
Definition validateSearchQuery (query : jsstring) : Validation :=
  if blank query then invalid (js "Search query cannot be empty")
  else if existsb (fun pattern => test pattern query) maliciousPatterns then
    invalid (js "Search query contains invalid characters")
  else if 256 <? lengthN query then
    invalid (js "Search query too long (max 256 characters)")
  else valid.

(** The replacements of [sanitizeGitHubContent], in its order. *)
Definition sanitizers : list (Re * jsstring) :=
  [ (Chars isStripped, []);
    (litI "javascript:", js "javascript_");
    (litI "data:", js "data_");
    (litI "vbscript:", js "vbscript_") ].

(** [sanitizeGitHubContent(content)]. *)
Definition sanitizeGitHubContent (content : jsstring) : jsstring :=
  fold_left (fun s step => replaceGlobal (fst step) (snd step) s) sanitizers content.

End GitHubSecurity.

Module GitHubUtils.
Import RegExp.

(** [[a-zA-Z0-9._-]]. *)
Definition isRepoChar (c : N) : bool :=
  isAlnum c || (c =? 46) || (c =? 95) || (c =? 45).

(** [/^[a-zA-Z0-9._-]+\/[a-zA-Z0-9._-]+$/]. *)
Definition repoPattern : Re :=
  seq [Bos; plus (Chars isRepoChar); char 47; plus (Chars isRepoChar); Eos].

(** [validateRepositoryFormat(repo)]. *)
Definition validateRepositoryFormat (repo : jsstring) : Validation :=
  if blank repo then invalid (js "Repository cannot be empty")
  else if negb (test repoPattern (trim repo)) then
    invalid (js "Repository must be in format 'owner/repo'")
  else
    match split 47 repo with
    | [owner; repoName] =>
        if (List.length owner =? 0)%nat || (List.length repoName =? 0)%nat then
          invalid (js "Both owner and repository name must be non-empty")
        else valid
    | _ => invalid (js "Repository must contain exactly one '/' separator")
    end.

(** [/^[a-zA-Z0-9]([a-zA-Z0-9-])*[a-zA-Z0-9]$|^[a-zA-Z0-9]$/]. *)
Definition usernamePattern : Re :=
  Or (seq [Bos; Chars isAlnum; Star true (Chars (fun c => isAlnum c || (c =? 45)));
           Chars isAlnum; Eos])
     (seq [Bos; Chars isAlnum; Eos]).

(** [validateUsernameFormat(username)]. *)
Definition validateUsernameFormat (username : jsstring) : Validation :=
  if blank username then invalid (js "Username cannot be empty")
  else if 39 <? lengthN username then
    invalid (js "Username cannot be longer than 39 characters")
  else if negb (test usernamePattern username) then
    invalid (js "Username can only contain alphanumeric characters and hyphens, and cannot start or end with a hyphen")
  else valid.

End GitHubUtils.

(* ===================================================================== *)
(** ** Notions used in the statements, and sample data *)
(* ===================================================================== *)

(** The three [replace] calls of the PKCE helpers, together. *)
Definition urlsafe (s : jsstring) : jsstring :=
  replaceAll 61 [] (replaceAll 47 (js "_") (replaceAll 43 (js "-") s)).

(** A character of the URL-safe alphabet: a letter, a digit, [-] or [_]. *)
Definition isUrlSafeChar (c : N) : bool := isAlnum c || (c =? 45) || (c =? 95).

(** The callback handler of a provider, for the four handler files at
    hand. *)
Definition callbackOf (p : Provider) : option (World -> Env -> Request -> M Response) :=
  match p with
  | Google => Some GoogleHandler.callback
  | Auth0 => Some Auth0Handler.callback
  | Keycloak => Some KeycloakHandler.callback
  | Custom => Some CustomOAuthHandler.callback
  | GitHub => None
  end.

(** The text of the 400 answer to a callback without [code]. *)
Definition missingCodeText (p : Provider) : jsstring :=
  match p with
  | Google => js "Missing authorization code. Please try again."
  | _ => js "Missing authorization code"
  end.

(** The token endpoint a callback addresses; [None] when the realm of a
    Keycloak endpoint cannot be encoded. *)
Definition tokenEndpoint (p : Provider) (env : Env) : option jsstring :=
  match p with
  | Google => Some (js "https://oauth2.googleapis.com/token")
  | Auth0 => Some (js "https://" ++ str (AUTH0_DOMAIN env) ++ js "/oauth/token")
  | Keycloak =>
      match encodeURIComponent (str (KEYCLOAK_REALM env)) with
      | inr realm =>
          Some (str (KEYCLOAK_DOMAIN env) ++ js "/realms/" ++ realm
                ++ js "/protocol/openid-connect/token")
      | inl _ => None
      end
  | Custom =>
      Some (CustomOAuthHandler.orDefault (CUSTOM_OAUTH_URL env) "http://localhost:3000"
            ++ js "/oauth/token")
  | GitHub => None
  end.

(** The userinfo endpoint a callback addresses. *)
Definition userinfoEndpoint (p : Provider) (env : Env) : option jsstring :=
  match p with
  | Google => Some (js "https://www.googleapis.com/oauth2/v2/userinfo")
  | Auth0 => Some (js "https://" ++ str (AUTH0_DOMAIN env) ++ js "/userinfo")
  | Keycloak =>
      match encodeURIComponent (str (KEYCLOAK_REALM env)) with
      | inr realm =>
          Some (str (KEYCLOAK_DOMAIN env) ++ js "/realms/" ++ realm
                ++ js "/protocol/openid-connect/userinfo")
      | inl _ => None
      end
  | Custom =>
      Some (CustomOAuthHandler.orDefault (CUSTOM_OAUTH_URL env) "http://localhost:3000"
            ++ js "/api/userinfo")
  | GitHub => None
  end.

(** A [state] that decodes to an object with a truthy [clientId]. *)
Definition validState (c : Request) (members : list (jsstring * JsValue)) : Prop :=
  decodeState (str (req_query (js "state") c)) = inr (JObj members)
  /\ truthy (lookup (js "clientId") members) = true.

(** A [state] a callback can redeem: it is valid, and the form of the token
    request can carry its [codeVerifier], whose conversion to a string does
    not throw. *)
Definition redeemableState (c : Request) (members : list (jsstring * JsValue)) : Prop :=
  validState c members
  /\ exists verifier, ToString (lookup (js "codeVerifier") members) = inr verifier.

(** The part of an address before its first [@]. *)
Definition localPart (email : jsstring) : jsstring := hd [] (split 64 email).

(** A string that is present and not empty. *)
Definition nonEmpty (s : option jsstring) : option jsstring :=
  match s with
  | Some (_ :: _) => s
  | _ => None
  end.

(** The Keycloak login as the claim words it: [preferred_username] when
    present and non-empty, else the local part of [email] when [email] is
    present, else [sub] when present, else "unknown". *)
Definition claimedKeycloakLogin (preferred_username email sub : option jsstring)
  : jsstring :=
  match nonEmpty preferred_username with
  | Some s => s
  | None =>
      match email with
      | Some e => localPart e
      | None =>
          match sub with
          | Some s => s
          | None => js "unknown"
          end
      end
  end.

(** The Keycloak login as the amended claim words it, for fields of any
    kind.  A field serves when it is truthy: present, and neither [null],
    [false], zero nor the empty string.  The login is [preferred_username]
    when it serves; else the local part of [email] when [email] is a string
    and that part is not empty; else, [email] being absent, [null] or a
    string, [sub] when it serves and "unknown" when not.  [None]: the
    derivation throws, [email] being of another kind. *)
Definition amendedKeycloakLogin (preferred_username email sub : option JsValue)
  : option (option JsValue) :=
  let fallback := if truthy sub then sub else strV "unknown" in
  if truthy preferred_username then Some preferred_username
  else
    match email with
    | None | Some JNull => Some fallback
    | Some (JStr e) =>
        match localPart e with
        | [] => Some fallback
        | l => Some (Some (JStr l))
        end
    | Some _ => None
    end.

(** The Google login as the claim's last clause has it: there is one
    exactly when the payload holds a non-empty [email] string. *)
Definition claimedGoogleLoginDefined (email : option JsValue) : bool :=
  match email with
  | Some (JStr (_ :: _)) => true
  | _ => false
  end.

(** The hypotheses under which a callback reaches the userinfo payload:
    both upstream calls succeed, the token response carries a truthy
    [access_token] that the [Authorization] header can carry, the userinfo
    response is the JSON object [payload]. *)
Definition upstreamSucceeds (w : World) (payload : list (jsstring * JsValue)) : Prop :=
  exists tresp tokenData tok authorization uresp,
    (forall r, fetch_method r = POST -> fetch w r = inr tresp)
    /\ ok tresp = true /\ json tresp = inr tokenData
    /\ getProp (js "access_token") tokenData = inr tok /\ truthy tok = true
    /\ bearer tok = inr authorization
    /\ (forall r, fetch_method r = GET -> fetch w r = inr uresp)
    /\ ok uresp = true /\ json uresp = inr (JObj payload).

(** How a callback ends once the authorization is completed with [o]:
    with the exception of the completion, or with [Response.redirect] on
    the address it returned. *)
Definition afterCompletion (w : World) (o : CompleteAuthorizationOptions) : Outcome :=
  match completeAuthorization w o with
  | inl e => Uncaught e
  | inr redirectTo =>
      match Response_redirect w redirectTo with
      | inl e => Uncaught e
      | inr response => Responds response
      end
  end.

(** Sample data: a request, a verifier, the state that encodes them, and
    the members that state decodes to. *)
Definition sampleAuthRequest : AuthRequest :=
  {| responseType := js "code";
     clientId := js "client-1";
     redirectUri := js "https://app.example/cb";
     reqScope := [js "read"; js "write"];
     reqState := js "xyz";
     codeChallenge := None;
     codeChallengeMethod := None |}.

Definition sampleVerifier : jsstring := js "dBjftJeZ4CVP-mB92K27uhbUJU1p1r_wW1gFWFOEjXk".

Definition sampleMembers : list (jsstring * JsValue) :=
  AuthRequest_members sampleAuthRequest ++ [(js "codeVerifier", JStr sampleVerifier)].

Definition sampleState : jsstring :=
  match encodeState sampleAuthRequest sampleVerifier with
  | inr s => s
  | inl _ => []
  end.

(** Environments: nothing configured; Keycloak alone; GitHub alone. *)
Definition noEnv : Env :=
  {| GITHUB_CLIENT_ID := None; GOOGLE_CLIENT_ID := None; GOOGLE_CLIENT_SECRET := None;
     AUTH0_DOMAIN := None; AUTH0_CLIENT_ID := None; AUTH0_CLIENT_SECRET := None;
     AUTH0_AUDIENCE := None; KEYCLOAK_DOMAIN := None; KEYCLOAK_REALM := None;
     KEYCLOAK_CLIENT_ID := None; KEYCLOAK_CLIENT_SECRET := None;
     CUSTOM_OAUTH_URL := None; CUSTOM_OAUTH_CLIENT_ID := None |}.

Definition keycloakEnv : Env :=
  {| GITHUB_CLIENT_ID := None; GOOGLE_CLIENT_ID := None; GOOGLE_CLIENT_SECRET := None;
     AUTH0_DOMAIN := None; AUTH0_CLIENT_ID := None; AUTH0_CLIENT_SECRET := None;
     AUTH0_AUDIENCE := None;
     KEYCLOAK_DOMAIN := Some (js "https://kc.example");
     KEYCLOAK_REALM := Some (js "main realm");
     KEYCLOAK_CLIENT_ID := Some (js "gateway"); KEYCLOAK_CLIENT_SECRET := None;
     CUSTOM_OAUTH_URL := None; CUSTOM_OAUTH_CLIENT_ID := None |}.

(** A [GET] request to the gateway with the given path and decoded query. *)
Definition getRequest (p : string) (rawQuery : jsstring) (q : list (jsstring * jsstring))
  : Request :=
  {| method := GET; origin := js "https://gateway.example"; path := js p;
     search := rawQuery; query := q |}.

(** An upstream answer with a JSON body. *)
Definition httpResponse (st : N) (stText : string) (body : JsValue) : HttpResponse :=
  {| status := st; statusText := js stText;
     text := inr (JSON_stringify body); json := inr body |}.

(** The URL parser of the sample worlds, on the one address they hand out:
    it is an absolute URL and its own serialisation. *)
Definition knownURL (url : jsstring) : option jsstring :=
  if jseqb url (js "https://app.example/cb?code=minted") then Some url else None.

(** A world whose token endpoint answers [tokenResp] and whose userinfo
    endpoint answers 200 with [payload]. *)
Definition scriptedWorld (tokenResp : HttpResponse) (payload : JsValue) : World :=
  {| fetch := fun r =>
       match fetch_method r with
       | POST => inr tokenResp
       | GET => inr (httpResponse 200 "OK" payload)
       end;
     completeAuthorization := fun _ => inr (js "https://app.example/cb?code=minted");
     parseURL := knownURL;
     engineMessage := fun _ => [] |}.

(** A world in which every upstream request gets the same answer. *)
Definition constWorld (resp : HttpResponse) : World :=
  {| fetch := fun _ => inr resp;
     completeAuthorization := fun _ => inr (js "https://app.example/cb?code=minted");
     parseURL := knownURL;
     engineMessage := fun _ => [] |}.

(** Token answers: a grant, and a refusal. *)
Definition tokenOk : HttpResponse :=
  httpResponse 200 "OK" (JObj [(js "access_token", JStr (js "tok-1"))]).

Definition tokenDenied : HttpResponse :=
  httpResponse 401 "Unauthorized" (JObj [(js "error", JStr (js "invalid_grant"))]).

Definition githubOnly : Env :=
  {| GITHUB_CLIENT_ID := Some (js "Iv1.abc"); GOOGLE_CLIENT_ID := None;
     GOOGLE_CLIENT_SECRET := None;
     AUTH0_DOMAIN := None; AUTH0_CLIENT_ID := None; AUTH0_CLIENT_SECRET := None;
     AUTH0_AUDIENCE := None; KEYCLOAK_DOMAIN := None; KEYCLOAK_REALM := None;
     KEYCLOAK_CLIENT_ID := None; KEYCLOAK_CLIENT_SECRET := None;
     CUSTOM_OAUTH_URL := None; CUSTOM_OAUTH_CLIENT_ID := None |}.

(** The path segment of a provider. *)
Definition providerPrefix (p : Provider) : string :=
  match p with
  | GitHub => "/github"
  | Google => "/google"
  | Auth0 => "/auth0"
  | Keycloak => "/keycloak"
  | Custom => "/custom"
  end.

(** Documents without numbers, and without a repeated key in any object:
    strings, arrays of strings and the objects the handlers build are such
    documents. *)
Fixpoint plainJson (v : JsValue) : Prop :=
  match v with
  | JNum _ _ => False
  | JArr l =>
      (fix all (l : list JsValue) : Prop :=
         match l with
         | [] => True
         | x :: r => plainJson x /\ all r
         end) l
  | JObj ms =>
      NoDup (map fst ms)
      /\ (fix all (ms : list (jsstring * JsValue)) : Prop :=
            match ms with
            | [] => True
            | kv :: r => plainJson (snd kv) /\ all r
            end) ms
  | _ => True
  end.

Definition allPlain (l : list JsValue) : Prop := Forall plainJson l.

Definition allPlainMembers (ms : list (jsstring * JsValue)) : Prop :=
  Forall (fun kv => plainJson (snd kv)) ms.

(** A serialised document starts with a character that is neither white
    space nor a closing bracket. *)
Definition opensValue (s : jsstring) : Prop :=
  exists c t, s = c :: t /\ (c = 34 \/ c = 91 \/ c = 123 \/ c = 116 \/ c = 102 \/ c = 110).

(** The statement proved of each document: with fuel beyond the length of
    its text, the parser reads it back and leaves what follows. *)
Definition readsBack (v : JsValue) : Prop :=
  forall rest f, (List.length (JSON_stringify v) < f)%nat ->
    parseValue f (JSON_stringify v ++ rest) = Some (v, rest).

(** The encoding without its padding. *)
Fixpoint b64encNopad (bs : list N) : jsstring :=
  match bs with
  | [] => []
  | [a] => [b64char (a / 4); b64char ((a mod 4) * 16)]
  | [a; b] =>
      [b64char (a / 4); b64char ((a mod 4) * 16 + b / 16);
       b64char ((b mod 16) * 4)]
  | a :: b :: c :: rest =>
      b64char (a / 4) :: b64char ((a mod 4) * 16 + b / 16)
      :: b64char ((b mod 16) * 4 + c / 64) :: b64char (c mod 64)
      :: b64encNopad rest
  end.

(** Bytes: code units up to U+00FF. *)
Definition isBytes (s : jsstring) : bool := forallb (fun c => c <=? 255) s.

(** The object a state decodes to: the request's members, then the
    verifier. *)
Definition stateObject (oauthReqInfo : AuthRequest) (codeVerifier : jsstring) : JsValue :=
  JObj (AuthRequest_members oauthReqInfo ++ [(js "codeVerifier", JStr codeVerifier)]).

(** A request whose [state] is the check mark U+2713, as a client may send
    it (percent-encoded) to [/authorize]. *)
Definition checkMarkRequest : AuthRequest :=
  {| responseType := js "code";
     clientId := js "client-1";
     redirectUri := js "https://app.example/cb";
     reqScope := [js "read"];
     reqState := [0x2713];
     codeChallenge := None;
     codeChallengeMethod := None |}.

(** What precedes, and what follows, the first occurrence of [c]. *)
Fixpoint beforeFirst (c : N) (s : jsstring) : jsstring :=
  match s with
  | [] => []
  | x :: rest => if x =? c then [] else x :: beforeFirst c rest
  end.

Fixpoint afterFirst (c : N) (s : jsstring) : jsstring :=
  match s with
  | [] => []
  | x :: rest => if x =? c then rest else afterFirst c rest
  end.

(** Decoding of a form-urlencoded name or value into bytes: [+] is a space,
    [%XX] a byte, a [%] without two hexadecimal digits stays. *)
Fixpoint percentDecode (s : jsstring) : list N :=
  match s with
  | [] => []
  | c :: rest =>
      if c =? 37 then
        match rest with
        | h1 :: h2 :: rest' =>
            match hexval h1, hexval h2 with
            | Some a, Some b => (a * 16 + b) :: percentDecode rest'
            | _, _ => c :: percentDecode rest
            end
        | _ => c :: percentDecode rest
        end
      else if c =? 43 then 32 :: percentDecode rest
      else c :: percentDecode rest
  end.

(** A piece [name=value] of a query, decoded. *)
Definition parsePair (piece : jsstring) : jsstring * jsstring :=
  (percentDecode (beforeFirst 61 piece), percentDecode (afterFirst 61 piece)).

(** The query of a URL as its receiver parses it (the form-urlencoded
    parser of the URL standard): what follows the first [?], cut at [&],
    each piece cut at its first [=], names and values decoded to bytes. *)
Definition parseQuery (url : jsstring) : list (jsstring * jsstring) :=
  map parsePair
      (filter (fun p => match p with [] => false | _ => true end)
              (split 38 (afterFirst 63 url))).

(** A parameter value reveals the verifier when the verifier occurs in it,
    as it stands or after base64 decoding. *)
Definition revealsVerifier (verifier value : jsstring) : bool :=
  includes verifier value
  || match atob value with
     | inr text => includes verifier text
     | inl _ => false
     end.

(** The claim's reading of "transmitted": some query parameter of the URL
    reveals the verifier. *)
Definition transmitsVerifier (url verifier : jsstring) : bool :=
  existsb (fun kv => revealsVerifier verifier (snd kv)) (parseQuery url).

(** The [redirectTo...] function of a provider, for the four handler files
    among the sources. *)
Definition redirectOf (p : Provider)
  : option ((nat -> N) -> Request -> AuthRequest -> Env
            -> list (jsstring * jsstring) -> JsError + Response) :=
  match p with
  | Google => Some GoogleHandler.redirectToGoogle
  | Auth0 => Some Auth0Handler.redirectToAuth0
  | Keycloak => Some KeycloakHandler.redirectToKeycloak
  | Custom => Some CustomOAuthHandler.redirectToCustomOAuth
  | GitHub => None
  end.

(** The part of the upstream endpoint that comes from the environment. *)
Definition upstreamHost (p : Provider) (env : Env) : jsstring :=
  match p with
  | Auth0 => str (AUTH0_DOMAIN env)
  | Keycloak => str (KEYCLOAK_DOMAIN env)
  | Custom => CustomOAuthHandler.orDefault (CUSTOM_OAUTH_URL env) "http://localhost:3000"
  | _ => []
  end.

(** The names of the query parameters of the upstream authorize URL. *)
Definition authorizeParameters (p : Provider) (env : Env) : list jsstring :=
  [js "client_id"; js "redirect_uri"; js "scope"; js "state"; js "response_type";
   js "code_challenge"; js "code_challenge_method"]
  ++ match p with
     | Auth0 => if isSet (AUTH0_AUDIENCE env) then [js "audience"] else []
     | _ => []
     end.

(** Pieces joined by [&]; a piece [name=value]. *)
Fixpoint joinAmp (pieces : list jsstring) : jsstring :=
  match pieces with
  | [] => []
  | [p] => p
  | p :: rest => p ++ 38 :: joinAmp rest
  end.

Definition piece (kv : jsstring * jsstring) : jsstring := fst kv ++ 61 :: snd kv.

(** Characters that do not delimit anything in a query. *)
Definition querySafe (c : N) : bool :=
  negb ((c =? 38) || (c =? 61) || (c =? 63)).

(** Code units below U+0080 only. *)
Definition isAscii (s : jsstring) : bool := forallb (fun c => c <? 128) s.

(** The encoded pairs of an upstream authorize URL. *)
Definition authorizePairs (cid ruri scope st ch : jsstring)
    (extra : list (jsstring * jsstring)) : list (jsstring * jsstring) :=
  [(js "client_id", formEncode cid);
   (js "redirect_uri", formEncode ruri);
   (js "scope", formEncode scope);
   (js "state", formEncode st);
   (js "response_type", js "code");
   (js "code_challenge", ch);
   (js "code_challenge_method", js "S256")] ++ extra.

(** What the upstream reads in the [location] of a redirect: the seven
    parameters, then [extra] (the audience of Auth0). *)
Definition readsAuthorizeQuery (p : Provider) (env : Env) (oauthReqInfo : AuthRequest)
    (verifier challenge location : jsstring) : Prop :=
  exists st extra a b c,
    encodeState oauthReqInfo verifier = inr st
    /\ map fst extra = match p with
                       | Auth0 => if isSet (AUTH0_AUDIENCE env) then [js "audience"] else []
                       | _ => []
                       end
    /\ parseQuery location
       = [(js "client_id", a); (js "redirect_uri", b); (js "scope", c);
          (js "state", st);
          (js "response_type", js "code");
          (js "code_challenge", challenge);
          (js "code_challenge_method", js "S256")] ++ extra.

(** A fixed draw for the verifier, and the [location] the Google redirect
    then answers for the sample request. *)
Definition sampleRandom (i : nat) : N := N.of_nat (7 * i + 3).

Definition sampleLocation : jsstring :=
  match GoogleHandler.redirectToGoogle sampleRandom
          (getRequest "/google/authorize" [] []) sampleAuthRequest noEnv [] with
  | inr (Redirect location _) => location
  | _ => []
  end.

(** *** Notions for the further properties *)

(** The token request and the userinfo request of a provider's callback. *)
Definition tokenRequest (p : Provider) (env : Env) (r : FetchRequest) : Prop :=
  fetch_method r = POST /\ tokenEndpoint p env = Some (fetch_url r).

Definition userinfoRequest (p : Provider) (env : Env) (r : FetchRequest) : Prop :=
  fetch_method r = GET /\ userinfoEndpoint p env = Some (fetch_url r)
  /\ fetch_body r = None.

(** What a callback may have done to the outside when it ends: nothing; the
    token request; the token request, then the userinfo request; both, then
    one completion of the authorization. *)
Definition callbackTrace (p : Provider) (env : Env) (tr : list Effect) : Prop :=
  match tr with
  | [] => True
  | [Fetch r1] => tokenRequest p env r1
  | [Fetch r1; Fetch r2] => tokenRequest p env r1 /\ userinfoRequest p env r2
  | [Fetch r1; Fetch r2; CompleteAuthorization o] =>
      tokenRequest p env r1 /\ userinfoRequest p env r2
  | _ => False
  end.

(** What a callback may answer: a text with status 400 or 500, or a
    redirect without further headers to the serialisation of the absolute
    URL that the completion of the authorization gave. *)
Definition handlerResponse (w : World) (r : Response) (tr : list Effect) : Prop :=
  match r with
  | Text _ st => st = 400 \/ st = 500
  | Redirect location headers =>
      headers = []
      /\ exists r1 r2 o redirectTo,
           tr = [Fetch r1; Fetch r2; CompleteAuthorization o]
           /\ completeAuthorization w o = inr redirectTo
           /\ parseURL w redirectTo = Some location
  | SelectionPage _ => False
  end.


(** The body of a form post as its receiver parses it: cut at [&], each
    piece cut at its first [=], names and values decoded. *)
Definition parseForm (body : jsstring) : list (jsstring * jsstring) :=
  map parsePair
      (filter (fun p => match p with [] => false | _ => true end) (split 38 body)).

(** The second of the segments of [sub] cut at [|], when there is one and
    it is not empty. *)
Definition subTail (sub : jsstring) : option jsstring :=
  match split 124 sub with
  | _ :: ((_ :: _) as t) :: _ => Some t
  | _ => None
  end.

(** The Auth0 login as the [||] chain computes it: [nickname], else the
    local part of [email], each when present and not empty, else the tail
    of [sub], else "unknown"; [None] when the chain throws, which it does
    on reaching [sub.split] without a [sub]. *)
Definition auth0Login (nickname email sub : option jsstring) : option jsstring :=
  match nonEmpty nickname with
  | Some s => Some s
  | None =>
      match nonEmpty (option_map localPart email) with
      | Some l => Some l
      | None =>
          match sub with
          | None => None
          | Some s =>
              match subTail s with
              | Some t => Some t
              | None => Some (js "unknown")
              end
          end
      end
  end.

(** A userinfo payload whose [nickname], [email] and [sub] are absent or
    strings. *)
Definition auth0Fields (payload : list (jsstring * JsValue))
    (nickname email sub : option jsstring) : Prop :=
  lookup (js "nickname") payload = option_map JStr nickname
  /\ lookup (js "email") payload = option_map JStr email
  /\ lookup (js "sub") payload = option_map JStr sub.

(** The first of [username] and [user_id] that is present and not empty. *)
Definition customIdentity (username user_id : option jsstring) : option jsstring :=
  match nonEmpty username with
  | Some s => Some s
  | None => nonEmpty user_id
  end.

(** A userinfo payload whose [username] and [user_id] are absent or
    strings. *)
Definition customFields (payload : list (jsstring * JsValue))
    (username user_id : option jsstring) : Prop :=
  lookup (js "username") payload = option_map JStr username
  /\ lookup (js "user_id") payload = option_map JStr user_id.

Definition orString (v : option jsstring) (d : string) : jsstring :=
  match v with
  | Some s => s
  | None => js d
  end.

(** The name under which the root handlers list a provider. *)
Definition providerName (p : Provider) : string :=
  match p with
  | GitHub => "GitHub"
  | Google => "Google"
  | Auth0 => "Auth0"
  | Keycloak => "Keycloak"
  | Custom => "Custom OAuth"
  end.

(** The bindings that make the root handlers count a provider as
    configured. *)
Definition configured (env : Env) (p : Provider) : bool :=
  match p with
  | GitHub => isSet (GITHUB_CLIENT_ID env)
  | Google => isSet (GOOGLE_CLIENT_ID env)
  | Auth0 => isSet (AUTH0_DOMAIN env) && isSet (AUTH0_CLIENT_ID env)
  | Keycloak => isSet (KEYCLOAK_DOMAIN env) && isSet (KEYCLOAK_CLIENT_ID env)
  | Custom => isSet (CUSTOM_OAUTH_URL env)
  end.

(** The providers, in the order in which the root handlers look at them. *)
Definition allProviders : list Provider := [GitHub; Google; Auth0; Keycloak; Custom].

(** A [GET] request to a path of the gateway, without a query. *)
Definition getPath (origin path : jsstring) : Request :=
  {| method := GET; origin := origin; path := path; search := []; query := [] |}.

(** The links of the provider-selection page for a list of providers. *)
Definition selectionLinks (queryString : jsstring) (ps : list Provider)
  : list (jsstring * jsstring) :=
  map (fun p => (js (providerPrefix p) ++ js "/authorize?" ++ queryString,
                 js (providerName p))) ps.

(** A request whose strings hold code units up to U+00FF only. *)
Definition optBytes (v : option jsstring) : bool :=
  match v with
  | Some s => isBytes s
  | None => true
  end.

Definition latin1Request (r : AuthRequest) : bool :=
  isBytes (responseType r) && isBytes (clientId r) && isBytes (redirectUri r)
  && forallb isBytes (reqScope r) && isBytes (reqState r)
  && optBytes (codeChallenge r) && optBytes (codeChallengeMethod r).

(** What a [redirectTo...] function needs of the environment: the domain
    of Auth0, and an audience it can encode when one is set; the domain of
    Keycloak and a realm it can encode. *)
Definition redirectReady (p : Provider) (env : Env) : bool :=
  match p with
  | Auth0 =>
      isSet (AUTH0_DOMAIN env)
      && (negb (isSet (AUTH0_AUDIENCE env))
          || negb (hasLoneSurrogate (str (AUTH0_AUDIENCE env))))
  | Keycloak =>
      isSet (KEYCLOAK_DOMAIN env) && isSet (KEYCLOAK_REALM env)
      && negb (hasLoneSurrogate (str (KEYCLOAK_REALM env)))
  | _ => true
  end.

(** Further sample data: a world whose token endpoint and userinfo endpoint
    give fixed answers; a callback request that carries [sampleState]; the
    callback request that follows the sample redirect; a state that decodes
    to the empty object; collaborators of the [/authorize] routes that
    accept the sample request. *)
Definition answeringWorld (tokenAnswer userinfoAnswer : JsError + HttpResponse) : World :=
  {| fetch := fun r =>
       match fetch_method r with
       | POST => tokenAnswer
       | GET => userinfoAnswer
       end;
     completeAuthorization := fun _ => inr (js "https://app.example/cb?code=minted");
     parseURL := knownURL;
     engineMessage := fun _ => [] |}.

Definition sampleCallback (p : string) : Request :=
  getRequest p (js "?code=abc&state=" ++ sampleState)
    [(js "code", js "abc"); (js "state", sampleState)].

Definition returnedState : jsstring :=
  match lookup (js "state") (parseQuery sampleLocation) with
  | Some s => s
  | None => []
  end.

Definition returningCallback : Request :=
  getRequest "/google/callback" (js "?code=abc&state=" ++ returnedState)
    [(js "code", js "abc"); (js "state", returnedState)].

Definition emptyObjectState : jsstring := js "e30=".

(** States a client can forge: one whose [clientId] is a number too small
    for a double, one whose [codeVerifier] is an object with a member
    [toString]. *)
Definition encodedState (text : jsstring) : jsstring :=
  match btoa text with
  | inr s => s
  | inl _ => []
  end.

Definition tinyClientState : jsstring := encodedState (jq "{'clientId':1e-400}").

Definition stubbornVerifierState : jsstring :=
  encodedState (jq "{'clientId':'client-1','codeVerifier':{'toString':1}}").

Definition forgedCallback (p : string) (state : jsstring) : Request :=
  getRequest p (js "?code=abc&state=" ++ state) [(js "code", js "abc"); (js "state", state)].

Definition sampleConsent (approved : bool) : Consent :=
  {| COOKIE_ENCRYPTION_KEY := Some (js "cookie-key");
     parseAuthRequest := fun _ => inr sampleAuthRequest;
     lookupClient := fun _ => inr None;
     clientIdAlreadyApproved := fun _ _ _ => inr approved;
     renderApprovalDialog := fun _ _ _ _ => inr (Text (js "approval dialog") 200);
     parseRedirectApproval := fun _ _ =>
       inr (Some sampleAuthRequest, [(js "Set-Cookie", js "approved=1")]) |}.

(* ===================================================================== *)
(** ** Notions for the properties of the Gmail tool *)
(* ===================================================================== *)

(** [s] holds [w], the case of ASCII letters apart. *)
Definition includesI (w s : jsstring) : bool :=
  includes (map RegExp.lowerAscii w) (map RegExp.lowerAscii s).

(** [on], a word and [=] in a row, in either case of the two letters. *)
Definition hasEventHandler (s : jsstring) : Prop :=
  exists pre o n w post,
    s = pre ++ o :: n :: w ++ 61 :: post
    /\ RegExp.lowerAscii o = 111 /\ RegExp.lowerAscii n = 110
    /\ w <> [] /\ forallb RegExp.isWordChar w = true.

(** A label of a host name: one to 63 letters, digits and hyphens, the
    first and the last of them no hyphen. *)
Definition isLabelChar (c : N) : bool := isAlnum c || (c =? 45).

Definition isLabel (l : jsstring) : bool :=
  match l with
  | [] => false
  | first :: _ =>
      isAlnum first && isAlnum (last l first) && forallb isLabelChar l
      && (List.length l <=? 63)%nat
  end.

(** Labels with a dot between them. *)
Fixpoint joinDots (labels : list jsstring) : jsstring :=
  match labels with
  | [] => []
  | [l] => l
  | l :: rest => l ++ [46] ++ joinDots rest
  end.

(** [[...to, ...(cc || []), ...(bcc || [])]]. *)
Definition allRecipients (to : list jsstring) (cc bcc : option (list jsstring))
  : list jsstring :=
  to ++ match cc with Some l => l | None => [] end
  ++ match bcc with Some l => l | None => [] end.

(** The message [sendEmail] hands to [sendGmailMessage]: the arguments,
    with the subject and the body sanitized. *)
Definition sentMessage (a : GmailTools.SendEmailArgs) : GmailUtils.GmailMessage :=
  {| GmailUtils.to := GmailTools.arg_to a;
     GmailUtils.cc := GmailTools.arg_cc a;
     GmailUtils.bcc := GmailTools.arg_bcc a;
     GmailUtils.subject := GmailSecurity.sanitizeEmailContent (GmailTools.arg_subject a);
     GmailUtils.body := GmailSecurity.sanitizeEmailContent (GmailTools.arg_body a);
     GmailUtils.isHtml := match GmailTools.arg_isHtml a with Some b => b | None => false end |}.

(** The five checks of [sendEmail], in its order. *)
Definition checksPass (toLowerCase : jsstring -> jsstring) (a : GmailTools.SendEmailArgs)
  : bool :=
  isValid (GmailSecurity.validateRecipientLimits
             (GmailTools.arg_to a) (GmailTools.arg_cc a) (GmailTools.arg_bcc a))
  && isValid (GmailUtils.validateEmailAddresses
                (allRecipients (GmailTools.arg_to a) (GmailTools.arg_cc a)
                   (GmailTools.arg_bcc a)))
  && isValid (GmailSecurity.validateEmailSubject (GmailTools.arg_subject a))
  && isValid (GmailSecurity.validateEmailBody (GmailTools.arg_body a))
  && (List.length (GmailSecurity.detectPhishingIndicators toLowerCase
                     (GmailTools.arg_subject a) (GmailTools.arg_body a)) <=? 2)%nat.


(** Gmail acknowledged a message: it answered with a status from 200 to
    299 and a JSON text whose [id] and [threadId] can be read and written
    into the answer of the tool. *)
Definition acknowledged (w : World) (request : FetchRequest) : Prop :=
  exists response data ids,
    fetch w request = inr response /\ ok response = true
    /\ json response = inr data /\ GmailTools.sentIds data = inr ids.

(** A refusal that [formatGmailError] cannot word: its status is none of
    the five that have a text of their own, and its message does not
    convert to a string. *)
Definition unworded (thrown : GmailUtils.Thrown) : bool :=
  match thrown with
  | GmailUtils.ApiFailure status message _ =>
      negb (existsb (N.eqb status) [400; 401; 403; 404; 429])
      && match ToString (orElse message (strV "Unknown error")) with
         | inl _ => true
         | inr _ => false
         end
  | GmailUtils.Exception _ => false
  end.

(** The upstream refuses a request in such a way. *)
Definition refusedUnworded (w : World) (request : FetchRequest) : bool :=
  match fetch w request with
  | inr response =>
      match GmailUtils.answerOf response with
      | inl thrown => unworded thrown
      | inr _ => false
      end
  | inl _ => false
  end.

(** What [sendEmail] returns or throws once its [catch] has formatted
    what the request threw. *)
Definition caught (w : World) (thrown : GmailUtils.Thrown)
  : GmailUtils.Thrown + Types.McpResponse :=
  match GmailUtils.formatGmailError w thrown with
  | inr text =>
      inr (Types.createErrorResponse (js "Failed to send email: " ++ text) None)
  | inl e => inl (GmailUtils.Exception e)
  end.

(** An answer of a tool that is flagged as an error. *)
Definition isErrorAnswer (answer : Types.McpResponse) : Prop :=
  exists message, answer = Types.createErrorResponse message None.

(** An answer of a tool that is not flagged. *)
Definition isPlainAnswer (answer : Types.McpResponse) : Prop :=
  exists text,
    answer = [{| Types.content_text := text; Types.content_isError := None |}].

(** The two global replacements of [createGmailMessage], together. *)
Definition swapped (s : jsstring) : jsstring :=
  replaceAll 47 (js "_") (replaceAll 43 (js "-") s).

(** A mail to one recipient, and one whose subject the sanitizer
    rewrites. *)
Definition sampleMail : GmailTools.SendEmailArgs :=
  {| GmailTools.arg_to := [js "ada@example.org"];
     GmailTools.arg_cc := None;
     GmailTools.arg_bcc := None;
     GmailTools.arg_subject := js "Minutes of the meeting";
     GmailTools.arg_body := js "The minutes are attached below.";
     GmailTools.arg_isHtml := None |}.

Definition sampleSubject : jsstring := js "Section one = done".

(** The words occur in [s] in this order, none overlapping another, the
    case of ASCII letters apart. *)
Fixpoint occurInOrder (words : list jsstring) (s : jsstring) : Prop :=
  match words with
  | [] => True
  | w :: rest =>
      exists pre m post,
        s = pre ++ m ++ post
        /\ map RegExp.lowerAscii m = map RegExp.lowerAscii w
        /\ occurInOrder rest post
  end.

(** [data:], white space or none, and [text/html]. *)
Definition hasDataHtml (s : jsstring) : Prop :=
  exists pre m1 ws m2 post,
    s = pre ++ m1 ++ ws ++ m2 ++ post
    /\ map RegExp.lowerAscii m1 = map RegExp.lowerAscii (js "data:")
    /\ forallb isTrimSpace ws = true
    /\ map RegExp.lowerAscii m2 = map RegExp.lowerAscii (js "text/html").

(** An upstream that refuses every request with the status 401 and a body
    that is no JSON text. *)
Definition refusingWorld : World :=
  {| fetch := fun _ =>
       inr {| status := 401;
              statusText := js "Unauthorized";
              text := inr (js "no");
              json := inl SyntaxError |};
     completeAuthorization := fun _ => inl TypeError;
     parseURL := knownURL;
     engineMessage := fun _ => js "failure" |}.

(** A world in which Gmail refuses every request with a status that has
    no text of its own and a message that is an object with a member
    [toString]. *)
Definition garblingWorld : World :=
  {| fetch := fun _ =>
       inr (httpResponse 500 "Internal Server Error"
              (JObj [(js "error",
                      JObj [(js "message", JObj [(js "toString", JNum 1 0)])])]));
     completeAuthorization := fun _ => inl TypeError;
     parseURL := knownURL;
     engineMessage := fun _ => js "failure" |}.

Definition sampleDraw : GmailUtils.Draw :=
  {| GmailUtils.now := 1700000000000; GmailUtils.digits := js "k3j9x0q1z" |}.

Definition sampleProps : Types.Props :=
  {| Types.login := js "ada";
     Types.name := js "Ada";
     Types.email := js "ada@example.org";
     Types.accessToken := js "token" |}.

(* ===================================================================== *)
(** * Properties *)
(* ===================================================================== *)

(** ** Test vectors for the platform models *)

Example sha256_abc :
  hex (SHA256.digest (js "abc"))
  = js "ba7816bf8f01cfea414140de5dae2223b00361a396177a9cb410ff61f20015ad".
Proof. vm_compute. reflexivity. Qed.

(** The example of RFC 7636, appendix B. *)
Example challenge_rfc7636 :
  generateCodeChallenge (js "dBjftJeZ4CVP-mB92K27uhbUJU1p1r_wW1gFWFOEjXk")
  = inr (js "E9Melhoa2OwvFrEMTJguCHaoeK1t8URWbuGJSstw-cM").
Proof. vm_compute. reflexivity. Qed.

Example parse_sample :
  JSON_parse (jq "{ 'a' : [1.5e3, true, null, 'x\nA'], 'a': 'z', 'b':{} }")
  = inr (JObj [(js "a", JStr (js "z")); (js "b", JObj [])]).
Proof. vm_compute. reflexivity. Qed.

Example stringify_sample :
  JSON_stringify (JObj [(js "k", JArr [JStr (jq "a'b"); JStr [10; 955]]); (js "n", JNull)])
  = jq "{'k':['a\'b','\n" ++ [955] ++ jq "'],'n':null}".
Proof. vm_compute. reflexivity. Qed.

Example atob_undefined : atob (js "undefined") = inl InvalidCharacterError.
Proof. reflexivity. Qed.

(** Numbers are doubles: a literal below the smallest one is zero, one
    beyond the largest is an infinity, and printing gives the shortest
    digits that read back. *)
Example numbers_are_doubles :
  toDouble 1 (-400) = DZero
  /\ truthy (Some (JNum 1 (-400))) = false
  /\ truthy (Some (JNum 5 (-324))) = true
  /\ toDouble 15 (-1) = DFinite false 6755399441055744 (-52)
  /\ toDouble 1 400 = DInfinity false
  /\ toDouble 9007199254740993 0 = DFinite false 4503599627370496 1.
Proof. vm_compute. repeat split. Qed.

Example numbers_print :
  map (fun c => Number_toString (toDouble (fst c) (snd c)))
      [(15, -1); (-25, -2); (1234567890123456789, 0); (1, 21); (123456789012345680000, 0);
       (1, -6); (1, -7); (5, -324); (1, 400); (0, 3); (100, 0)]%Z
  = [js "1.5"; js "-0.25"; js "1234567890123456800"; js "1e+21"; js "123456789012345680000";
     js "0.000001"; js "1e-7"; js "5e-324"; js "Infinity"; js "0"; js "100"].
Proof. vm_compute. reflexivity. Qed.

Example stringify_numbers :
  JSON_stringify (JArr [JNum 15 (-1); JNum 1 400; JNum 120 (-1)]) = js "[1.5,null,12]".
Proof. vm_compute. reflexivity. Qed.

(** Conversions to strings: an array joins its elements, [null] among them
    as the empty string; an object with a member [toString] throws. *)
Example toStr_vectors :
  toStr (JArr [JNum 1 0; JNull; JArr [JStr (js "a"); JBool true]; JObj []])
  = inr (js "1,,a,true,[object Object]")
  /\ toStr (JObj [(js "toString", JNum 1 0)]) = inl TypeError
  /\ toStr (JArr [JStr (js "a"); JObj [(js "toString", JNull)]]) = inl TypeError
  /\ ToString None = inr (js "undefined").
Proof. vm_compute. repeat split. Qed.

Example atob_forgiving : atob (js "aGk = ") = inr (js "hi").
Proof. vm_compute. reflexivity. Qed.

(** ** Base64 and the URL-safe alphabet *)

Lemma urlsafe_nil : urlsafe [] = [].
Proof. reflexivity. Qed.

Lemma urlsafe_pad (s : jsstring) : urlsafe (61 :: s) = urlsafe s.
Proof. reflexivity. Qed.

Lemma urlsafe_b64char (n : N) (s : jsstring) :
  urlsafe (b64char n :: s) = b64urlchar n :: urlsafe s.
Proof.
  unfold urlsafe, b64char, b64urlchar.
  destruct (n <? 26) eqn:H1; [apply N.ltb_lt in H1 | apply N.ltb_ge in H1].
  - cbn [replaceAll].
    replace (65 + n =? 43) with false by (symmetry; apply N.eqb_neq; lia).
    cbn [replaceAll].
    replace (65 + n =? 47) with false by (symmetry; apply N.eqb_neq; lia).
    cbn [replaceAll].
    replace (65 + n =? 61) with false by (symmetry; apply N.eqb_neq; lia).
    reflexivity.
  - destruct (n <? 52) eqn:H2; [apply N.ltb_lt in H2 | apply N.ltb_ge in H2].
    + cbn [replaceAll].
      replace (97 + (n - 26) =? 43) with false by (symmetry; apply N.eqb_neq; lia).
      cbn [replaceAll].
      replace (97 + (n - 26) =? 47) with false by (symmetry; apply N.eqb_neq; lia).
      cbn [replaceAll].
      replace (97 + (n - 26) =? 61) with false by (symmetry; apply N.eqb_neq; lia).
      reflexivity.
    + destruct (n <? 62) eqn:H3; [apply N.ltb_lt in H3 | apply N.ltb_ge in H3].
      * cbn [replaceAll].
        replace (48 + (n - 52) =? 43) with false by (symmetry; apply N.eqb_neq; lia).
        cbn [replaceAll].
        replace (48 + (n - 52) =? 47) with false by (symmetry; apply N.eqb_neq; lia).
        cbn [replaceAll].
        replace (48 + (n - 52) =? 61) with false by (symmetry; apply N.eqb_neq; lia).
        reflexivity.
      * destruct (n =? 62); reflexivity.
Qed.

(** Induction three elements at a time, as the encoders recurse. *)
Lemma list_ind3 {A} (P : list A -> Prop) :
  P [] -> (forall a, P [a]) -> (forall a b, P [a; b]) ->
  (forall a b c l, P l -> P (a :: b :: c :: l)) ->
  forall l, P l.
Proof.
  intros H0 H1 H2 H3.
  fix IH 1. intros [|a [|b [|c l]]].
  - exact H0.
  - apply H1.
  - apply H2.
  - apply H3, IH.
Qed.

Lemma urlsafe_b64enc (bs : list N) : urlsafe (b64enc bs) = base64url_nopad bs.
Proof.
  induction bs as [|a|a b|a b c l IH] using list_ind3; cbn [b64enc base64url_nopad].
  - reflexivity.
  - now rewrite !urlsafe_b64char, !urlsafe_pad.
  - now rewrite !urlsafe_b64char, !urlsafe_pad.
  - now rewrite !urlsafe_b64char, IH.
Qed.

Lemma b64urlchar_safe (n : N) : isUrlSafeChar (b64urlchar n) = true.
Proof.
  unfold isUrlSafeChar, isAlnum, b64urlchar.
  destruct (n <? 26) eqn:H1; [apply N.ltb_lt in H1 | apply N.ltb_ge in H1].
  - replace (65 <=? 65 + n) with true by (symmetry; apply N.leb_le; lia).
    replace (65 + n <=? 90) with true by (symmetry; apply N.leb_le; lia).
    cbn. now rewrite !orb_true_r.
  - destruct (n <? 52) eqn:H2; [apply N.ltb_lt in H2 | apply N.ltb_ge in H2].
    + replace (97 <=? 97 + (n - 26)) with true by (symmetry; apply N.leb_le; lia).
      replace (97 + (n - 26) <=? 122) with true by (symmetry; apply N.leb_le; lia).
      cbn. now rewrite !orb_true_r.
    + destruct (n <? 62) eqn:H3; [apply N.ltb_lt in H3 | apply N.ltb_ge in H3].
      * replace (48 <=? 48 + (n - 52)) with true by (symmetry; apply N.leb_le; lia).
        replace (48 + (n - 52) <=? 57) with true by (symmetry; apply N.leb_le; lia).
        reflexivity.
      * destruct (n =? 62); reflexivity.
Qed.

Lemma base64url_nopad_safe (bs : list N) :
  forallb isUrlSafeChar (base64url_nopad bs) = true.
Proof.
  induction bs as [|a|a b|a b c l IH] using list_ind3; cbn [base64url_nopad forallb];
    rewrite ?b64urlchar_safe; auto.
Qed.

(** Length of the unpadded encoding. *)
Lemma base64url_nopad_length (bs : list N) :
  List.length (base64url_nopad bs) = ((4 * List.length bs + 2) / 3)%nat.
Proof.
  induction bs as [|a|a b|a b c l IH] using list_ind3; try reflexivity.
  cbn [base64url_nopad List.length]. rewrite IH.
  replace (4 * S (S (S (List.length l))) + 2)%nat
    with ((4 * List.length l + 2) + 4 * 3)%nat by lia.
  rewrite Nat.div_add by lia. lia.
Qed.

(** ** SHA-256: shape of the digest *)

Lemma be_bytes_byte (n : nat) (x : N) : forallb (fun c => c <=? 255) (SHA256.be_bytes n x) = true.
Proof.
  induction n as [|n IH]; cbn [SHA256.be_bytes forallb]; [reflexivity|].
  rewrite IH, andb_true_r. apply N.leb_le.
  pose proof (N.mod_lt (x / 256 ^ N.of_nat n) 256). lia.
Qed.

Lemma digest_bytes (msg : list N) : forallb (fun c => c <=? 255) (SHA256.digest msg) = true.
Proof.
  unfold SHA256.digest.
  generalize (fold_left SHA256.compress
                (SHA256.blocks (List.length (SHA256.words (SHA256.pad msg)))
                   (SHA256.words (SHA256.pad msg))) SHA256.H0).
  intros h. induction h as [|x h IH]; [reflexivity|].
  cbn [flat_map]. rewrite forallb_app, IH, be_bytes_byte. reflexivity.
Qed.

Lemma fold_compress_length (bl : list (list N)) (h : list N) :
  List.length h = 8%nat -> List.length (fold_left SHA256.compress bl h) = 8%nat.
Proof.
  revert h. induction bl as [|b bl IH]; intros h Hh; [exact Hh|].
  cbn [fold_left]. apply IH. reflexivity.
Qed.

Lemma digest_length (msg : list N) : List.length (SHA256.digest msg) = 32%nat.
Proof.
  unfold SHA256.digest.
  pose proof (fold_compress_length
                (SHA256.blocks (List.length (SHA256.words (SHA256.pad msg)))
                   (SHA256.words (SHA256.pad msg))) SHA256.H0 eq_refl) as H.
  destruct (fold_left SHA256.compress _ SHA256.H0)
    as [|a [|b [|c [|d [|e [|f [|g [|h [|i l]]]]]]]]]; try discriminate H.
  reflexivity.
Qed.

(** ** The PKCE challenge *)

Lemma generateCodeChallenge_eq (verifier : jsstring) :
  generateCodeChallenge verifier
  = inr (base64url_nopad (SHA256.digest (TextEncoder_encode verifier))).
Proof.
  unfold generateCodeChallenge, btoa.
  rewrite digest_bytes. fold (urlsafe (b64enc (SHA256.digest (TextEncoder_encode verifier)))).
  now rewrite urlsafe_b64enc.
Qed.

(** C4.  [generateCodeChallenge] is a function of its argument alone (it is
    a total function here, so two evaluations agree): its result is the
    SHA-256 digest of the verifier's UTF-8 bytes in base64url without
    padding; every character is a letter, a digit, [-] or [_], so none is
    [=], [+] or [/]; and there are 43 of them. *)
Theorem C4_generateCodeChallenge_spec (verifier : jsstring) :
  let challenge := base64url_nopad (SHA256.digest (TextEncoder_encode verifier)) in
  generateCodeChallenge verifier = inr challenge
  /\ forallb isUrlSafeChar challenge = true
  /\ forallb (fun c => negb ((c =? 61) || (c =? 43) || (c =? 47))) challenge = true
  /\ List.length challenge = 43%nat.
Proof.
  cbv zeta. split; [apply generateCodeChallenge_eq|].
  split; [apply base64url_nopad_safe|]. split.
  - pose proof (base64url_nopad_safe (SHA256.digest (TextEncoder_encode verifier))) as H.
    rewrite forallb_forall in *. intros c Hc. specialize (H c Hc).
    unfold isUrlSafeChar, isAlnum in H.
    destruct (c =? 61) eqn:E1; [apply N.eqb_eq in E1; subst c; discriminate H|].
    destruct (c =? 43) eqn:E2; [apply N.eqb_eq in E2; subst c; discriminate H|].
    destruct (c =? 47) eqn:E3; [apply N.eqb_eq in E3; subst c; discriminate H|].
    reflexivity.
  - rewrite base64url_nopad_length, digest_length. reflexivity.
Qed.

(** ** Callbacks *)

Ltac open_callback :=
  cbv beta iota zeta delta
    [run GoogleHandler.callback Auth0Handler.callback KeycloakHandler.callback
     CustomOAuthHandler.callback bind lift ret return_ throw tryCatch].

Ltac pass_state Hst Hid :=
  open_callback; rewrite Hst; cbn [getProp]; rewrite Hid; cbn [negb].

Lemma decodeState_undefined : decodeState (str None) = inl InvalidCharacterError.
Proof. reflexivity. Qed.

Lemma doFetch_resolves (w : World) (r : FetchRequest) (resp : HttpResponse) tr :
  fetch w r = inr resp -> doFetch w r tr = (Next resp, tr ++ [Fetch r]).
Proof. intros H. unfold doFetch. now rewrite H. Qed.

(** C5 (the code departs from it).  A callback whose [state] does not
    decode ends in an uncaught exception before any check: [atob] or
    [JSON.parse] throws outside every [try].  A missing [state] is such a
    case, since [atob(undefined)] decodes the text "undefined", whose length
    is 1 modulo 4. *)
Theorem C5_undecodable_state_is_uncaught (p : Provider) h (w : World) (env : Env)
    (c : Request) (e : JsError) :
  callbackOf p = Some h ->
  decodeState (str (req_query (js "state") c)) = inl e ->
  run (h w env c) = (Uncaught e, [])
  /\ decodeState (str None) = inl InvalidCharacterError.
Proof.
  intros Hh Hst. split; [|reflexivity].
  destruct p; inversion Hh; subst h; open_callback; rewrite Hst; reflexivity.
Qed.

(** C6.  A callback with a valid [state] and no (or an empty) [code]
    answers 400 with a plain text, and has made no outbound call. *)
Theorem C6_callback_without_code (p : Provider) h (w : World) (env : Env)
    (c : Request) (members : list (jsstring * JsValue)) :
  callbackOf p = Some h ->
  validState c members ->
  isSet (req_query (js "code") c) = false ->
  run (h w env c) = (Responds (Text (missingCodeText p) 400), []).
Proof.
  intros Hh [Hst Hid] Hcode.
  destruct p; inversion Hh; subst h; pass_state Hst Hid;
    rewrite Hcode; reflexivity.
Qed.

(** Conversions to strings: what they give on the values the handlers
    build themselves, and the one exception they throw. *)
Lemma ToString_envValue (v : option jsstring) : ToString (envValue v) = inr (str v).
Proof. destruct v; reflexivity. Qed.

Lemma ToString_strV (s : string) : ToString (strV s) = inr (js s).
Proof. reflexivity. Qed.

Lemma ToString_string (s : jsstring) : ToString (Some (JStr s)) = inr s.
Proof. reflexivity. Qed.

Lemma joinWith_TypeError (convert : JsValue -> JsError + jsstring) (sep : jsstring)
    (l : list JsValue) :
  Forall (fun x => forall e, convert x = inl e -> e = TypeError) l ->
  forall e, joinWith convert sep l = inl e -> e = TypeError.
Proof.
  induction 1 as [|x l Hx _ IH]; intros e; cbn [joinWith]; [discriminate|].
  assert (Hhead : forall e', match x with JNull => inr [] | _ => convert x end = inl e'
                             -> e' = TypeError).
  { destruct x; try exact Hx. discriminate. }
  destruct (match x with JNull => inr [] | _ => convert x end) as [e'|s].
  - intros Heq. inversion Heq. subst. now apply Hhead.
  - destruct l as [|y l]; [discriminate|].
    destruct (joinWith convert sep (y :: l)) as [e'|t].
    + intros Heq. inversion Heq. subst. now apply IH.
    + discriminate.
Qed.

Lemma toStr_TypeError (v : JsValue) (e : JsError) : toStr v = inl e -> e = TypeError.
Proof.
  revert e.
  induction v as [| b | m x | s | l IH | ms] using
    (fix ind (P : JsValue -> Prop) (h1 : P JNull) (h2 : forall b, P (JBool b))
         (h3 : forall m x, P (JNum m x)) (h4 : forall s, P (JStr s))
         (h5 : forall l, Forall P l -> P (JArr l)) (h6 : forall ms, P (JObj ms))
         (v : JsValue) {struct v} : P v :=
       match v with
       | JNull => h1
       | JBool b => h2 b
       | JNum m x => h3 m x
       | JStr s => h4 s
       | JArr l =>
           h5 l ((fix all (l : list JsValue) : Forall P l :=
                    match l with
                    | [] => Forall_nil P
                    | x :: r => Forall_cons x (ind P h1 h2 h3 h4 h5 h6 x) (all r)
                    end) l)
       | JObj ms => h6 ms
       end);
    intros e; cbn [toStr]; try discriminate.
  - destruct b; discriminate.
  - apply joinWith_TypeError. exact IH.
  - destruct (lookup _ ms); [intros H; now inversion H|discriminate].
Qed.

Lemma ToString_TypeError (v : option JsValue) (e : JsError) :
  ToString v = inl e -> e = TypeError.
Proof. destruct v; [apply toStr_TypeError|discriminate]. Qed.

(** The steps of a callback around its token request. *)
Ltac write_form Hver :=
  unfold formBody; cbn [recordStrings app];
  rewrite ?ToString_envValue, ?ToString_strV, ?ToString_string, ?Hver;
  cbn [bindE].

Ltac token_refused Hw Hok :=
  erewrite doFetch_resolves by (apply Hw; reflexivity);
  rewrite Hok; cbn [negb].

(** C7.  When the token endpoint answers outside 200..299, the callback
    ends with a 500 text response, and the only outbound call it has made
    is the one [POST] to the token endpoint: no userinfo fetch, no second
    token request, no session completion.  The form of that request holds
    the [codeVerifier] of the state as a string; a state whose
    [codeVerifier] does not convert (an object with a member [toString])
    ends the callback in the 500 text of its [catch] before any call. *)
Theorem C7_token_failure_stops (p : Provider) h (w : World) (env : Env)
    (c : Request) (members : list (jsstring * JsValue))
    (url : jsstring) (resp : HttpResponse) :
  callbackOf p = Some h ->
  validState c members ->
  isSet (req_query (js "code") c) = true ->
  tokenEndpoint p env = Some url ->
  (forall r, fetch_url r = url -> fetch w r = inr resp) ->
  ok resp = false ->
  exists body,
    fst (run (h w env c)) = Responds (Text body 500)
    /\ match ToString (lookup (js "codeVerifier") members) with
       | inr verifier =>
           exists r, snd (run (h w env c)) = [Fetch r]
                     /\ fetch_url r = url /\ fetch_method r = POST
       | inl _ => snd (run (h w env c)) = []
       end.
Proof.
  intros Hh [Hst Hid] Hcode Hurl Hw Hok.
  destruct (ToString (lookup (js "codeVerifier") members)) as [e|verifier] eqn:Hver.
  { (* the form cannot be written *)
    apply ToString_TypeError in Hver as He. subst e.
    destruct p; inversion Hh; subst h; cbn [tokenEndpoint] in Hurl;
      try (destruct (encodeURIComponent (str (KEYCLOAK_REALM env))) as [e|realm] eqn:Hrealm;
           [discriminate Hurl|]);
      pass_state Hst Hid; rewrite Hcode; cbn [negb]; rewrite ?Hrealm;
      try (destruct (isSet (KEYCLOAK_CLIENT_SECRET env)));
      write_form Hver;
      unfold Auth0Handler.onError, KeycloakHandler.onError, CustomOAuthHandler.onError;
      change (jseqb (errName TypeError) (js "TypeError")) with true;
      rewrite ?orb_true_r; cbv [return_];
      eexists; split; reflexivity. }
  destruct p; inversion Hh; subst h; cbn [tokenEndpoint] in Hurl.
  - (* Google *)
    inversion Hurl; subst url. pass_state Hst Hid. rewrite Hcode. cbn [negb].
    write_form Hver. token_refused Hw Hok.
    destruct (text resp); cbn; eexists; (split; [reflexivity|]);
      eexists; (split; [reflexivity|split; reflexivity]).
  - (* Auth0 *)
    inversion Hurl; subst url. pass_state Hst Hid. rewrite Hcode. cbn [negb].
    write_form Hver. token_refused Hw Hok.
    destruct (text resp) as [e|t]; cbn [app].
    + unfold Auth0Handler.onError.
      destruct (_ || _ || _); cbv [return_];
        eexists; (split; [reflexivity|]);
        eexists; (split; [reflexivity|split; reflexivity]).
    + eexists; (split; [reflexivity|]);
        eexists; (split; [reflexivity|split; reflexivity]).
  - (* Keycloak *)
    destruct (encodeURIComponent (str (KEYCLOAK_REALM env))) as [e|realm] eqn:Hrealm;
      [discriminate Hurl|].
    inversion Hurl; subst url. pass_state Hst Hid. rewrite Hcode. cbn [negb].
    rewrite Hrealm.
    destruct (isSet (KEYCLOAK_CLIENT_SECRET env));
      write_form Hver; token_refused Hw Hok;
      (destruct (text resp) as [e|t]; cbn [app];
       [ unfold KeycloakHandler.onError;
         destruct (_ || _ || _); cbv [return_];
         eexists; (split; [reflexivity|]);
         eexists; (split; [reflexivity|split; reflexivity])
       | eexists; (split; [reflexivity|]);
         eexists; (split; [reflexivity|split; reflexivity]) ]).
  - (* Custom *)
    inversion Hurl; subst url. pass_state Hst Hid. rewrite Hcode. cbn [negb].
    write_form Hver. token_refused Hw Hok.
    destruct (text resp) as [e|t]; cbn [app].
    + unfold CustomOAuthHandler.onError.
      destruct (_ || _ || _); cbv [return_];
        eexists; (split; [reflexivity|]);
        eexists; (split; [reflexivity|split; reflexivity]).
    + eexists; (split; [reflexivity|]);
        eexists; (split; [reflexivity|split; reflexivity]).
Qed.

(** ** Login derivation *)

(** C9, as stated, fails: with [email] present but its local part empty the
    chain falls through to [sub]. *)
Lemma C9_counterexample :
  KeycloakHandler.loginOf None (Some (JStr (js "@example.com"))) (Some (JStr (js "uuid-1")))
  = inr (Some (JStr (js "uuid-1")))
  /\ claimedKeycloakLogin None (Some (js "@example.com")) (Some (js "uuid-1")) = []
  /\ ~ (forall pu email sub,
          KeycloakHandler.loginOf (option_map JStr pu) (option_map JStr email)
            (option_map JStr sub)
          = inr (Some (JStr (claimedKeycloakLogin pu email sub)))).
Proof.
  split; [reflexivity|]. split; [reflexivity|].
  intros H. specialize (H None (Some (js "@example.com")) (Some (js "uuid-1"))).
  vm_compute in H. discriminate H.
Qed.

Lemma doComplete_run (w : World) (o : CompleteAuthorizationOptions) tr :
  doComplete w o tr
  = (match completeAuthorization w o with
     | inl e => Throw e
     | inr redirectTo => Next redirectTo
     end, tr ++ [CompleteAuthorization o]).
Proof. unfold doComplete. destruct (completeAuthorization w o); reflexivity. Qed.

(** The source's chain and the amended wording agree on every triple of
    fields. *)
Lemma keycloak_loginOf_amended (pu email sub : option JsValue) :
  KeycloakHandler.loginOf pu email sub
  = match amendedKeycloakLogin pu email sub with
    | Some login => inr login
    | None => inl TypeError
    end.
Proof.
  unfold KeycloakHandler.loginOf, amendedKeycloakLogin, localPart, orElse.
  destruct (truthy pu); [reflexivity|].
  destruct email as [[| b | m x | e | l | ms]|];
    cbn [optSplitFirst splitFirst bindE truthy]; try reflexivity.
  destruct (hd [] (split 64 e)); reflexivity.
Qed.

(** The requests of a callback up to the userinfo payload. *)
Ltac reach_payload Hst Hid Hcode Hver Hpost Hok1 Hj1 Htok Htruthy Hbearer Hget Hok2 Hj2 :=
  pass_state Hst Hid; rewrite Hcode; cbn [negb];
  write_form Hver;
  erewrite doFetch_resolves by (apply Hpost; reflexivity);
  rewrite Hok1; cbn [negb]; rewrite Hj1, Htok, Htruthy; cbn [negb];
  rewrite Hbearer;
  erewrite doFetch_resolves by (apply Hget; reflexivity);
  rewrite Hok2; cbn [negb]; rewrite Hj2; cbn [fst snd getProp].

(** C9, amended.  For every Keycloak userinfo payload the login is the
    value of [preferred_username] when that field is truthy; else the local
    part of [email] before [@] when [email] is a string and that part is not
    empty; else, when [email] is absent, [null] or a string, [sub] when it
    is truthy and the string "unknown" when not.  That login is handed to
    the session issuer as [userId] and as [props.login].  With a
    [preferred_username] that does not serve and an [email] of another kind
    there is no login: the callback ends in an uncaught [TypeError] after
    its two upstream calls. *)
Theorem C9_keycloak_login (w : World) (env : Env) (c : Request)
    (members payload : list (jsstring * JsValue)) (realm : jsstring) :
  redeemableState c members ->
  isSet (req_query (js "code") c) = true ->
  encodeURIComponent (str (KEYCLOAK_REALM env)) = inr realm ->
  upstreamSucceeds w payload ->
  let preferred_username := lookup (js "preferred_username") payload in
  let email := lookup (js "email") payload in
  let sub := lookup (js "sub") payload in
  KeycloakHandler.loginOf preferred_username email sub
  = match amendedKeycloakLogin preferred_username email sub with
    | Some login => inr login
    | None => inl TypeError
    end
  /\ match amendedKeycloakLogin preferred_username email sub with
     | Some login =>
         forall shownName,
           KeycloakHandler.displayName (lookup (js "name") payload)
             (lookup (js "given_name") payload) (lookup (js "family_name") payload)
             preferred_username = inr shownName ->
           exists r1 r2 o,
             snd (run (KeycloakHandler.callback w env c))
             = [Fetch r1; Fetch r2; CompleteAuthorization o]
             /\ userId o = login
             /\ lookup (js "login") (props o) = Some login
     | None =>
         exists r1 r2,
           run (KeycloakHandler.callback w env c)
           = (Uncaught TypeError, [Fetch r1; Fetch r2])
     end.
Proof.
  intros [[Hst Hid] [verifier Hver]] Hcode Hrealm
    (tresp & tokenData & tok & authorization & uresp
     & Hpost & Hok1 & Hj1 & Htok & Htruthy & Hbearer & Hget & Hok2 & Hj2).
  cbv zeta.
  pose proof (keycloak_loginOf_amended (lookup (js "preferred_username") payload)
                (lookup (js "email") payload) (lookup (js "sub") payload)) as Hlogin.
  split; [exact Hlogin|].
  destruct (amendedKeycloakLogin _ _ _) as [login|].
  - intros shownName Hname.
    pass_state Hst Hid. rewrite Hcode. cbn [negb]. rewrite Hrealm.
    destruct (isSet (KEYCLOAK_CLIENT_SECRET env));
      write_form Hver;
      (erewrite doFetch_resolves by (apply Hpost; reflexivity));
      rewrite Hok1; cbn [negb]; rewrite Hj1, Htok, Htruthy; cbn [negb];
      rewrite Hbearer;
      (erewrite doFetch_resolves by (apply Hget; reflexivity));
      rewrite Hok2; cbn [negb]; rewrite Hj2; cbn [fst snd getProp];
      rewrite Hlogin, Hname, doComplete_run;
      match goal with
      | |- context [completeAuthorization w ?o] =>
          destruct (completeAuthorization w o) as [err|target];
            [|destruct (Response_redirect w target)];
            (eexists; eexists; exists o; split; [reflexivity|split; reflexivity])
      end.
  - pass_state Hst Hid. rewrite Hcode. cbn [negb]. rewrite Hrealm.
    destruct (isSet (KEYCLOAK_CLIENT_SECRET env));
      write_form Hver;
      (erewrite doFetch_resolves by (apply Hpost; reflexivity));
      rewrite Hok1; cbn [negb]; rewrite Hj1, Htok, Htruthy; cbn [negb];
      rewrite Hbearer;
      (erewrite doFetch_resolves by (apply Hget; reflexivity));
      rewrite Hok2; cbn [negb]; rewrite Hj2; cbn [fst snd getProp];
      rewrite Hlogin; eexists; eexists; reflexivity.
Qed.

(** C10, as stated, fails in its last clause: an empty [email] string is
    split like any other, so the handler derives the (empty) login and goes
    on to complete the authorization, although the payload holds no
    non-empty [email] string. *)
Lemma C10_counterexample :
  GoogleHandler.loginOf (Some (JStr [])) = inr (Some (JStr []))
  /\ claimedGoogleLoginDefined (Some (JStr [])) = false
  /\ (exists r1 r2 o,
        run (GoogleHandler.callback
               (scriptedWorld tokenOk (JObj [(js "email", JStr [])])) noEnv
               (getRequest "/google/callback" (js "?code=abc&state=" ++ sampleState)
                  [(js "code", js "abc"); (js "state", sampleState)]))
        = (Responds (Redirect (js "https://app.example/cb?code=minted") []),
           [Fetch r1; Fetch r2; CompleteAuthorization o])
        /\ userId o = Some (JStr []))
  /\ ~ (forall email login,
          GoogleHandler.loginOf email = inr login ->
          claimedGoogleLoginDefined email = true).
Proof.
  split; [reflexivity|]. split; [reflexivity|]. split.
  - do 3 eexists. split; [vm_compute; reflexivity|reflexivity].
  - intros H. specialize (H (Some (JStr [])) (Some (JStr [])) eq_refl). discriminate H.
Qed.

(** C10, amended.  The Google callback derives the login by
    [email.split('@')[0]] with no guard and outside every [try]: there is a
    login exactly when the [email] of the userinfo payload is a string,
    empty or not, and it is the part before the first [@].  With a payload
    whose [email] is absent, [null] or of another kind, the request ends in
    an uncaught [TypeError] after the two upstream calls, without
    completing the authorization and without a response of the handler's
    own.  With an [email] string the handler goes on to complete the
    authorization under that login, and ends as the completion and
    [Response.redirect] on its address end. *)
Theorem C10_google_login_partial (w : World) (env : Env) (c : Request)
    (members payload : list (jsstring * JsValue)) :
  redeemableState c members ->
  isSet (req_query (js "code") c) = true ->
  upstreamSucceeds w payload ->
  GoogleHandler.loginOf (lookup (js "email") payload)
  = match lookup (js "email") payload with
    | Some (JStr e) => inr (Some (JStr (localPart e)))
    | _ => inl TypeError
    end
  /\ match lookup (js "email") payload with
     | Some (JStr e) =>
         exists r1 r2 o,
           run (GoogleHandler.callback w env c)
           = (afterCompletion w o, [Fetch r1; Fetch r2; CompleteAuthorization o])
           /\ userId o = Some (JStr (localPart e))
           /\ lookup (js "login") (props o) = Some (Some (JStr (localPart e)))
     | _ =>
         exists r1 r2,
           run (GoogleHandler.callback w env c) = (Uncaught TypeError, [Fetch r1; Fetch r2])
           /\ tokenEndpoint Google env = Some (fetch_url r1)
           /\ userinfoEndpoint Google env = Some (fetch_url r2)
     end.
Proof.
  intros [[Hst Hid] [verifier Hver]] Hcode
    (tresp & tokenData & tok & authorization & uresp
     & Hpost & Hok1 & Hj1 & Htok & Htruthy & Hbearer & Hget & Hok2 & Hj2).
  split.
  { destruct (lookup (js "email") payload) as [[| b | m x | e | l | ms]|]; reflexivity. }
  destruct (lookup (js "email") payload) as [[| b | m x | e | l | ms]|] eqn:Hem.
  4:{ reach_payload Hst Hid Hcode Hver Hpost Hok1 Hj1 Htok Htruthy Hbearer Hget Hok2 Hj2.
      rewrite Hem. cbn [GoogleHandler.loginOf splitFirst]. rewrite doComplete_run.
      unfold afterCompletion.
      match goal with
      | |- context [completeAuthorization w ?o] =>
          eexists; eexists; exists o;
          destruct (completeAuthorization w o) as [err|target];
          [|destruct (Response_redirect w target)];
          (split; [reflexivity|split; reflexivity])
      end. }
  all: reach_payload Hst Hid Hcode Hver Hpost Hok1 Hj1 Htok Htruthy Hbearer Hget Hok2 Hj2;
    rewrite Hem; cbn; eexists; eexists; repeat split.
Qed.

(** ** Concrete runs *)

Lemma sampleState_valid (p : string) (raw : jsstring) (rest : list (jsstring * jsstring)) :
  validState (getRequest p raw ((js "state", sampleState) :: rest)) sampleMembers.
Proof. split; vm_compute; reflexivity. Qed.

Lemma scripted_succeeds (payload : list (jsstring * JsValue)) :
  upstreamSucceeds (scriptedWorld tokenOk (JObj payload)) payload.
Proof.
  exists tokenOk, (JObj [(js "access_token", JStr (js "tok-1"))]),
    (Some (JStr (js "tok-1"))), (js "Bearer tok-1"), (httpResponse 200 "OK" (JObj payload)).
  repeat split; try reflexivity; intros r Hr; cbn; rewrite Hr; reflexivity.
Qed.

Lemma C5_witness :
  run (GoogleHandler.callback (scriptedWorld tokenOk JNull) noEnv
         (getRequest "/google/callback" (js "?code=abc") [(js "code", js "abc")]))
  = (Uncaught InvalidCharacterError, []).
Proof.
  apply (C5_undecodable_state_is_uncaught Google GoogleHandler.callback
           (scriptedWorld tokenOk JNull) noEnv
           (getRequest "/google/callback" (js "?code=abc") [(js "code", js "abc")])
           InvalidCharacterError); reflexivity.
Defined.

Lemma C6_witness :
  run (KeycloakHandler.callback (scriptedWorld tokenOk JNull) keycloakEnv
         (getRequest "/keycloak/callback" (js "?state=" ++ sampleState)
            [(js "state", sampleState)]))
  = (Responds (Text (js "Missing authorization code") 400), []).
Proof.
  apply (C6_callback_without_code Keycloak KeycloakHandler.callback
           (scriptedWorld tokenOk JNull) keycloakEnv
           (getRequest "/keycloak/callback" (js "?state=" ++ sampleState)
              [(js "state", sampleState)]) sampleMembers).
  - reflexivity.
  - apply sampleState_valid.
  - reflexivity.
Defined.

Lemma C7_witness :
  exists body,
    fst (run (KeycloakHandler.callback (constWorld tokenDenied) keycloakEnv
                (getRequest "/keycloak/callback" (js "?code=abc&state=" ++ sampleState)
                   [(js "code", js "abc"); (js "state", sampleState)])))
    = Responds (Text body 500)
    /\ exists r,
         snd (run (KeycloakHandler.callback (constWorld tokenDenied) keycloakEnv
                     (getRequest "/keycloak/callback" (js "?code=abc&state=" ++ sampleState)
                        [(js "code", js "abc"); (js "state", sampleState)])))
         = [Fetch r]
         /\ fetch_url r
            = js "https://kc.example/realms/main%20realm/protocol/openid-connect/token"
         /\ fetch_method r = POST.
Proof.
  apply (C7_token_failure_stops Keycloak KeycloakHandler.callback
           (constWorld tokenDenied) keycloakEnv
           (getRequest "/keycloak/callback" (js "?code=abc&state=" ++ sampleState)
              [(js "code", js "abc"); (js "state", sampleState)])
           sampleMembers _ tokenDenied).
  - reflexivity.
  - split; vm_compute; reflexivity.
  - reflexivity.
  - vm_compute. reflexivity.
  - intros r _. reflexivity.
  - reflexivity.
Defined.

(** The spec's example: userinfo [{sub: "uuid-1"}] gives the login
    "uuid-1". *)
Lemma C9_witness :
  KeycloakHandler.loginOf None None (Some (JStr (js "uuid-1")))
  = inr (Some (JStr (js "uuid-1")))
  /\ forall shownName,
       KeycloakHandler.displayName None None None None = inr shownName ->
       exists r1 r2 o,
         snd (run (KeycloakHandler.callback
                     (scriptedWorld tokenOk (JObj [(js "sub", JStr (js "uuid-1"))]))
                     keycloakEnv
                     (getRequest "/keycloak/callback" (js "?code=abc&state=" ++ sampleState)
                        [(js "code", js "abc"); (js "state", sampleState)])))
         = [Fetch r1; Fetch r2; CompleteAuthorization o]
         /\ userId o = Some (JStr (js "uuid-1"))
         /\ lookup (js "login") (props o) = Some (Some (JStr (js "uuid-1"))).
Proof.
  apply (C9_keycloak_login
           (scriptedWorld tokenOk (JObj [(js "sub", JStr (js "uuid-1"))]))
           keycloakEnv
           (getRequest "/keycloak/callback" (js "?code=abc&state=" ++ sampleState)
              [(js "code", js "abc"); (js "state", sampleState)])
           sampleMembers [(js "sub", JStr (js "uuid-1"))] (js "main%20realm")).
  - split; [split; vm_compute; reflexivity|].
    exists sampleVerifier. vm_compute. reflexivity.
  - reflexivity.
  - vm_compute. reflexivity.
  - apply scripted_succeeds.
Defined.

(** A Google userinfo payload without [email]: the request dies of a
    [TypeError]. *)
Lemma C10_witness :
  GoogleHandler.loginOf None = inl TypeError
  /\ exists r1 r2,
       run (GoogleHandler.callback
              (scriptedWorld tokenOk (JObj [(js "id", JStr (js "108"))])) noEnv
              (getRequest "/google/callback" (js "?code=abc&state=" ++ sampleState)
                 [(js "code", js "abc"); (js "state", sampleState)]))
       = (Uncaught TypeError, [Fetch r1; Fetch r2])
       /\ tokenEndpoint Google noEnv = Some (fetch_url r1)
       /\ userinfoEndpoint Google noEnv = Some (fetch_url r2).
Proof.
  apply (C10_google_login_partial
           (scriptedWorld tokenOk (JObj [(js "id", JStr (js "108"))])) noEnv
           (getRequest "/google/callback" (js "?code=abc&state=" ++ sampleState)
              [(js "code", js "abc"); (js "state", sampleState)])
           sampleMembers [(js "id", JStr (js "108"))]).
  - split; [split; vm_compute; reflexivity|].
    exists sampleVerifier. vm_compute. reflexivity.
  - reflexivity.
  - apply scripted_succeeds.
Defined.

(** The spec's examples of login derivation. *)
Example google_login_john :
  GoogleHandler.loginOf (Some (JStr (js "john.doe@gmail.com")))
  = inr (Some (JStr (js "john.doe"))).
Proof. reflexivity. Qed.

Example keycloak_login_jdoe :
  KeycloakHandler.loginOf (Some (JStr (js "jdoe"))) None (Some (JStr (js "uuid-1")))
  = inr (Some (JStr (js "jdoe"))).
Proof. reflexivity. Qed.

Example auth0_login_sub :
  Auth0Handler.loginOf None None (Some (JStr (js "auth0|abc123")))
  = inr (Some (JStr (js "abc123"))).
Proof. reflexivity. Qed.

(** An Auth0 payload without [nickname], [email] and [sub] does not reach
    "unknown": [sub.split] throws. *)
Example auth0_login_nothing : Auth0Handler.loginOf None None None = inl TypeError.
Proof. reflexivity. Qed.

(** ** The root handlers and the routers *)

(** The spec's example of the single-provider redirect. *)
Example rootAuthorize_github :
  rootAuthorize githubOnly
    (getRequest "/authorize" (js "?client_id=x&redirect_uri=y")
       [(js "client_id", js "x"); (js "redirect_uri", js "y")])
  = Redirect (js "/github/authorize?client_id=x&redirect_uri=y") [].
Proof. reflexivity. Qed.

Lemma split_no_sep (c : N) (s : jsstring) :
  includesChar c s = false -> split c s = [s].
Proof.
  induction s as [|x s IH]; intros H; [reflexivity|].
  cbn in H. apply orb_false_iff in H. destruct H as [Hx Hs].
  cbn [split]. rewrite N.eqb_sym, Hx, (IH Hs). reflexivity.
Qed.

Lemma split_at_sep (c : N) (a b : jsstring) :
  includesChar c a = false -> split c (a ++ c :: b) = a :: split c b.
Proof.
  induction a as [|x a IH]; intros H.
  - cbn. now rewrite N.eqb_refl.
  - cbn in H. apply orb_false_iff in H. destruct H as [Hx Ha].
    cbn [app split]. rewrite N.eqb_sym, Hx, (IH Ha). reflexivity.
Qed.

Lemma includesChar_app (c : N) (a b : jsstring) :
  includesChar c (a ++ b) = includesChar c a || includesChar c b.
Proof. apply existsb_app. Qed.

(** Where the root handler does preserve the query: exactly one provider,
    and a query string without a further [?]. *)
Lemma rootAuthorize_simple_query (env : Env) (c : Request) (name p q : jsstring) :
  configuredProviders env = [(name, p)] ->
  includesChar 63 (origin c ++ path c) = false ->
  search c = 63 :: q -> q <> [] -> includesChar 63 q = false ->
  rootAuthorize env c = Redirect (p ++ js "/authorize" ++ search c) [].
Proof.
  intros Hp Hbase Hs Hq Hno.
  unfold rootAuthorize, queryStringOf, req_url. rewrite Hp, Hs.
  replace (origin c ++ path c ++ 63 :: q) with ((origin c ++ path c) ++ 63 :: q)
    by (now rewrite <- app_assoc).
  rewrite includesChar_app, Hbase.
  cbn [includesChar existsb N.eqb Pos.eqb orb].
  rewrite split_at_sep by exact Hbase. rewrite split_no_sep by exact Hno.
  cbn [nth snd]. destruct q as [|x q]; [contradiction|]. reflexivity.
Qed.

(** C8 (the code departs from it).  With GitHub alone configured, a query
    string that itself contains a [?] is cut at that [?]: the redirect
    target is not the original query string. *)
Theorem C8_query_string_truncated :
  let c := getRequest "/authorize"
             (js "?client_id=x&redirect_uri=https://app.example/cb?next=1")
             [(js "client_id", js "x");
              (js "redirect_uri", js "https://app.example/cb?next=1")] in
  configuredProviders githubOnly = [(js "GitHub", js "/github")]
  /\ rootAuthorize githubOnly c
     = Redirect (js "/github/authorize?client_id=x&redirect_uri=https://app.example/cb") []
  /\ rootAuthorize githubOnly c
     <> Redirect (js "/github/authorize" ++ search c) [].
Proof.
  cbv zeta. split; [reflexivity|]. split; [reflexivity|].
  vm_compute. discriminate.
Qed.

(** Dispatch reads the method and the path of a request, nothing else. *)
Lemma dispatch_by_path (routes : list Route) (r r' : Request) :
  method r = method r' -> path r = path r' -> dispatch routes r = dispatch routes r'.
Proof.
  intros Hm Hp. induction routes as [|[[m p] e] routes IH]; [reflexivity|].
  cbn [dispatch]. now rewrite Hm, Hp, IH.
Qed.

Lemma jseqb_eq (a b : jsstring) : jseqb a b = true <-> a = b.
Proof.
  unfold jseqb. destruct (list_eq_dec N.eq_dec a b); split; intros; congruence.
Qed.

Lemma dispatch_In (routes : list Route) (r : Request) (e : Endpoint) :
  dispatch routes r = Some e -> In (method r, path r, e) routes.
Proof.
  induction routes as [|[[m p] e'] routes IH]; cbn [dispatch]; [discriminate|].
  destruct (method_eqb m (method r)) eqn:Hm; cbn [andb].
  - destruct (jseqb p (path r)) eqn:Hp.
    + intros H. inversion H; subst e'. apply jseqb_eq in Hp. subst p.
      left. destruct m, (method r); try discriminate Hm; reflexivity.
    + intros H. right. auto.
  - intros H. right. auto.
Qed.

(** In [index_sentry.ts] a callback is reached at [/<provider>/callback]
    only, and each provider has one such path. *)
Lemma sentry_callbacks (r : Request) (p : Provider) :
  dispatch IndexSentry.authRouter r = Some (ProviderCallback p)
  <-> method r = GET /\ path r = js (providerPrefix p) ++ js "/callback".
Proof.
  split.
  - intros H. apply dispatch_In in H.
    unfold IndexSentry.authRouter, route, providerApp in H. cbn [map app In] in H.
    repeat (destruct H as [H|H];
            [inversion H; (split; reflexivity)|]).
    contradiction.
  - intros [Hm Hp].
    unfold IndexSentry.authRouter, route, providerApp. cbn [map app dispatch].
    rewrite Hm, Hp. destruct p; vm_compute; reflexivity.
Qed.

Lemma sentry_no_root_callback (r : Request) :
  dispatch IndexSentry.authRouter r <> Some RootCallback.
Proof.
  unfold IndexSentry.authRouter, route, providerApp. cbn [map app dispatch].
  repeat match goal with
    | |- (if ?b then _ else _) <> _ => destruct b; [discriminate|]
    end.
  discriminate.
Qed.

(** C1 (the code of [index.ts] departs from it).  The router of
    [index.ts] still serves a shared [GET /callback]; two requests to that
    one path are sent on to different providers according to their query
    parameters ([scope], [iss]).  The router of [index_sentry.ts] has no
    such route. *)
Theorem C1_index_shared_callback :
  let c1 := getRequest "/callback"
              (js "?code=abc&scope=https://www.googleapis.com/auth/gmail.send")
              [(js "code", js "abc");
               (js "scope", js "https://www.googleapis.com/auth/gmail.send")] in
  let c2 := getRequest "/callback"
              (js "?code=abc&iss=https://keycloak.example/realms/main")
              [(js "code", js "abc");
               (js "iss", js "https://keycloak.example/realms/main")] in
  dispatch Index.authRouter c1 = Some RootCallback
  /\ dispatch Index.authRouter c2 = Some RootCallback
  /\ rootCallback noEnv c1
     = Redirect (js "https://gateway.example/google/callback?code=abc&scope=https://www.googleapis.com/auth/gmail.send") []
  /\ rootCallback noEnv c2
     = Redirect (js "https://gateway.example/keycloak/callback?code=abc&iss=https://keycloak.example/realms/main") []
  /\ dispatch IndexSentry.authRouter c1 = None
  /\ dispatch IndexSentry.authRouter c2 = None.
Proof. cbv zeta. repeat split; vm_compute; reflexivity. Qed.

(** ** JSON strings: parsing what [JSON.stringify] wrote *)

Ltac Zify.zify_post_hook ::= Z.to_euclidean_division_equations.

Lemma hexval_hexdigit (n : N) : n < 16 -> hexval (hexdigit n) = Some n.
Proof.
  intros Hn. unfold hexval, hexdigit.
  destruct (n <? 10) eqn:H10; [apply N.ltb_lt in H10 | apply N.ltb_ge in H10].
  - replace (48 <=? 48 + n) with true by (symmetry; apply N.leb_le; lia).
    replace (48 + n <=? 57) with true by (symmetry; apply N.leb_le; lia).
    cbn [andb]. f_equal. lia.
  - replace (48 <=? 87 + n) with true by (symmetry; apply N.leb_le; lia).
    replace (87 + n <=? 57) with false by (symmetry; apply N.leb_gt; lia).
    replace (97 <=? 87 + n) with true by (symmetry; apply N.leb_le; lia).
    replace (87 + n <=? 102) with true by (symmetry; apply N.leb_le; lia).
    cbn [andb]. f_equal. lia.
Qed.

Lemma hexval4_hex4 (c : N) :
  c < 65536 ->
  hexval4 (hexdigit (c / 4096)) (hexdigit ((c / 256) mod 16))
          (hexdigit ((c / 16) mod 16)) (hexdigit (c mod 16)) = Some c.
Proof.
  intros Hc. unfold hexval4.
  rewrite !hexval_hexdigit by lia. f_equal. lia.
Qed.

Lemma parse_raw (c : N) (r : jsstring) :
  c <> 34 -> c <> 92 -> 32 <= c ->
  parseStringBody (c :: r)
  = match parseStringBody r with
    | Some (str, r') => Some (c :: str, r')
    | None => None
    end.
Proof.
  intros H1 H2 H3. cbn [parseStringBody].
  apply N.eqb_neq in H1. apply N.eqb_neq in H2. apply N.ltb_ge in H3.
  now rewrite H1, H2, H3.
Qed.

Lemma parse_u (c : N) (r : jsstring) :
  c < 65536 ->
  parseStringBody (js "\u" ++ hex4 c ++ r)
  = match parseStringBody r with
    | Some (str, r') => Some (c :: str, r')
    | None => None
    end.
Proof.
  intros Hc. unfold hex4. cbn [js app N_of_ascii N.add N.mul Pos.add Pos.mul parseStringBody].
  change (N_of_ascii "\" =? 34) with false.
  change (N_of_ascii "\" =? 92) with true.
  change (N_of_ascii "u" =? 117) with true.
  cbv iota. rewrite hexval4_hex4 by exact Hc. reflexivity.
Qed.

Lemma parse_esc (e u : N) (r : jsstring) :
  e <> 117 -> unescape e = Some u ->
  parseStringBody (92 :: e :: r)
  = match parseStringBody r with
    | Some (str, r') => Some (u :: str, r')
    | None => None
    end.
Proof.
  intros He Hu. cbn [parseStringBody]. change (92 =? 34) with false.
  change (92 =? 92) with true. cbv iota.
  apply N.eqb_neq in He. rewrite He, Hu. reflexivity.
Qed.

Lemma parse_escapeUnit (c : N) (r : jsstring) :
  parseStringBody (escapeUnit c ++ r)
  = match parseStringBody r with
    | Some (str, r') => Some (c :: str, r')
    | None => None
    end.
Proof.
  unfold escapeUnit.
  destruct (c =? 8) eqn:E8; [apply N.eqb_eq in E8; subst c; now apply parse_esc|].
  destruct (c =? 9) eqn:E9; [apply N.eqb_eq in E9; subst c; now apply parse_esc|].
  destruct (c =? 10) eqn:E10; [apply N.eqb_eq in E10; subst c; now apply parse_esc|].
  destruct (c =? 12) eqn:E12; [apply N.eqb_eq in E12; subst c; now apply parse_esc|].
  destruct (c =? 13) eqn:E13; [apply N.eqb_eq in E13; subst c; now apply parse_esc|].
  destruct (c =? 34) eqn:E34; [apply N.eqb_eq in E34; subst c; now apply parse_esc|].
  destruct (c =? 92) eqn:E92; [apply N.eqb_eq in E92; subst c; now apply parse_esc|].
  destruct (c <? 32) eqn:E32; [apply N.ltb_lt in E32 | apply N.ltb_ge in E32].
  - apply parse_u. lia.
  - apply N.eqb_neq in E34. apply N.eqb_neq in E92. now apply parse_raw.
Qed.

Lemma surrogate_raw (c : N) :
  isHighSurrogate c = true \/ isLowSurrogate c = true ->
  c <> 34 /\ c <> 92 /\ 32 <= c /\ c < 65536.
Proof.
  unfold isHighSurrogate, isLowSurrogate.
  intros [H|H]; apply andb_true_iff in H; destruct H as [H1 H2];
    apply N.leb_le in H1; apply N.leb_le in H2; lia.
Qed.

Lemma parseStringBody_quoteBody_bounded (n : nat) :
  forall s rest, (List.length s <= n)%nat ->
    parseStringBody (quoteBody s ++ 34 :: rest) = Some (s, rest).
Proof.
  induction n as [|n IH]; intros s rest Hlen.
  - destruct s; [reflexivity|cbn in Hlen; lia].
  - destruct s as [|c t]; [reflexivity|].
    cbn [List.length] in Hlen. cbn [quoteBody].
    destruct (isHighSurrogate c) eqn:Hhi.
    + destruct (surrogate_raw c (or_introl Hhi)) as (A1 & A2 & A3 & A4).
      destruct t as [|lo t'].
      * rewrite <- app_assoc, parse_u by exact A4. reflexivity.
      * destruct (isLowSurrogate lo) eqn:Hlo.
        -- destruct (surrogate_raw lo (or_intror Hlo)) as (B1 & B2 & B3 & B4).
           cbn [app]. rewrite parse_raw by assumption. rewrite parse_raw by assumption.
           rewrite IH by (cbn [List.length] in Hlen; lia). reflexivity.
        -- rewrite <- !app_assoc, parse_u by exact A4.
           rewrite IH by lia. reflexivity.
    + destruct (isLowSurrogate c) eqn:Hlo.
      * destruct (surrogate_raw c (or_intror Hlo)) as (A1 & A2 & A3 & A4).
        rewrite <- !app_assoc, parse_u by exact A4.
        rewrite IH by lia. reflexivity.
      * rewrite <- app_assoc, parse_escapeUnit, IH by lia. reflexivity.
Qed.

Lemma parseStringBody_quoteBody (s rest : jsstring) :
  parseStringBody (quoteBody s ++ 34 :: rest) = Some (s, rest).
Proof. apply (parseStringBody_quoteBody_bounded (List.length s)). lia. Qed.

(** ** JSON documents: parsing what [JSON.stringify] wrote *)

Lemma plainJson_arr (l : list JsValue) : plainJson (JArr l) <-> allPlain l.
Proof.
  unfold allPlain. cbn [plainJson]. induction l as [|x r IH].
  - split; intros; [constructor|exact I].
  - split.
    + intros [Hx Hr]. constructor; [exact Hx|now apply IH].
    + intros H. inversion H; subst. split; [assumption|now apply IH].
Qed.

Lemma plainJson_obj (ms : list (jsstring * JsValue)) :
  plainJson (JObj ms) <-> NoDup (map fst ms) /\ allPlainMembers ms.
Proof.
  unfold allPlainMembers. cbn [plainJson].
  assert (H : forall ms : list (jsstring * JsValue),
             (fix all (ms : list (jsstring * JsValue)) : Prop :=
                match ms with
                | [] => True
                | kv :: r => plainJson (snd kv) /\ all r
                end) ms
             <-> Forall (fun kv => plainJson (snd kv)) ms).
  { clear ms. induction ms as [|kv r IH].
    - split; intros; [constructor|exact I].
    - split.
      + intros [Hx Hr]. constructor; [exact Hx|now apply IH].
      + intros H. inversion H; subst. split; [assumption|now apply IH]. }
  now rewrite H.
Qed.

(** Induction on documents, with the hypothesis available for every item
    of an array and every member of an object. *)
Lemma JsValue_nested_ind (P : JsValue -> Prop) :
  P JNull ->
  (forall b, P (JBool b)) ->
  (forall m e, P (JNum m e)) ->
  (forall s, P (JStr s)) ->
  (forall l, Forall P l -> P (JArr l)) ->
  (forall ms, Forall (fun kv => P (snd kv)) ms -> P (JObj ms)) ->
  forall v, P v.
Proof.
  intros Hnull Hbool Hnum Hstr Harr Hobj.
  fix IH 1. intros [|b|m e|s|l|ms].
  - exact Hnull.
  - apply Hbool.
  - apply Hnum.
  - apply Hstr.
  - apply Harr. induction l as [|x l IHl]; constructor; [apply IH|exact IHl].
  - apply Hobj. induction ms as [|kv ms IHms]; constructor; [apply IH|exact IHms].
Qed.

Lemma stringify_opens (v : JsValue) : plainJson v -> opensValue (JSON_stringify v).
Proof.
  destruct v as [|[|]|m e|s|l|ms]; cbn [plainJson]; intros H;
    try contradiction; eexists; eexists; (split; [reflexivity|]); auto 7.
Qed.

Lemma parseItems_join (l : list JsValue) :
  Forall readsBack l -> allPlain l -> l <> [] ->
  forall rest f, (List.length (joinItems JSON_stringify l) + 1 < f)%nat ->
    parseItems f (joinItems JSON_stringify l ++ 93 :: rest) = Some (l, rest).
Proof.
  induction l as [|x l IH]; intros Hrb Hpl Hne rest f Hf; [contradiction|].
  inversion Hrb as [|? ? Hx Hl]; subst. inversion Hpl as [|? ? Px Pl]; subst.
  destruct f as [|f]; [lia|]. cbn [parseItems].
  destruct l as [|y l'].
  - cbn [joinItems] in *. rewrite Hx by lia. reflexivity.
  - change (joinItems JSON_stringify (x :: y :: l'))
      with (JSON_stringify x ++ [44] ++ joinItems JSON_stringify (y :: l')) in *.
    rewrite !length_app in Hf. cbn [List.length] in Hf.
    rewrite <- !app_assoc. rewrite Hx by lia.
    cbn [app skipWs isJsonWhitespace N.eqb Pos.eqb orb].
    rewrite (IH Hl Pl) by (try discriminate; lia). reflexivity.
Qed.

Lemma jseqb_refl (a : jsstring) : jseqb a a = true.
Proof. now apply jseqb_eq. Qed.

Lemma jseqb_neq (a b : jsstring) : a <> b -> jseqb a b = false.
Proof.
  intros H. destruct (jseqb a b) eqn:E; [apply jseqb_eq in E; contradiction|reflexivity].
Qed.

Lemma setMember_fresh {A} (k : jsstring) (v : A) (acc : list (jsstring * A)) :
  ~ In k (map fst acc) -> setMember k v acc = acc ++ [(k, v)].
Proof.
  induction acc as [|[k' v'] acc IH]; intros H; [reflexivity|].
  cbn [setMember map fst In app] in *.
  rewrite jseqb_neq by (intros E; apply H; left; congruence).
  now rewrite IH by (intros E; apply H; right; exact E).
Qed.

Lemma joinMembers_one (k : jsstring) (v : JsValue) (R : jsstring) :
  joinMembers JSON_stringify [(k, v)] ++ R
  = 34 :: quoteBody k ++ 34 :: 58 :: JSON_stringify v ++ R.
Proof.
  cbn [joinMembers]. unfold quoteJSONString.
  now rewrite <- !app_assoc.
Qed.

Lemma joinMembers_more (k : jsstring) (v : JsValue) (kv : jsstring * JsValue)
    (ms : list (jsstring * JsValue)) (R : jsstring) :
  joinMembers JSON_stringify ((k, v) :: kv :: ms) ++ R
  = 34 :: quoteBody k ++ 34 :: 58 :: JSON_stringify v
       ++ 44 :: joinMembers JSON_stringify (kv :: ms) ++ R.
Proof.
  change (joinMembers JSON_stringify ((k, v) :: kv :: ms))
    with (quoteJSONString k ++ [58] ++ JSON_stringify v ++ [44]
          ++ joinMembers JSON_stringify (kv :: ms)).
  unfold quoteJSONString. now rewrite <- !app_assoc.
Qed.

Lemma joinMembers_length_more (k : jsstring) (v : JsValue) (kv : jsstring * JsValue)
    (ms : list (jsstring * JsValue)) :
  (List.length (JSON_stringify v) + List.length (joinMembers JSON_stringify (kv :: ms))
   < List.length (joinMembers JSON_stringify ((k, v) :: kv :: ms)))%nat.
Proof.
  change (joinMembers JSON_stringify ((k, v) :: kv :: ms))
    with (quoteJSONString k ++ [58] ++ JSON_stringify v ++ [44]
          ++ joinMembers JSON_stringify (kv :: ms)).
  rewrite !length_app. cbn [List.length]. lia.
Qed.

Lemma joinMembers_length_one (k : jsstring) (v : JsValue) :
  (List.length (JSON_stringify v)
   < List.length (joinMembers JSON_stringify [(k, v)]))%nat.
Proof.
  cbn [joinMembers]. rewrite !length_app. cbn [List.length]. lia.
Qed.

Lemma parseMembers_join (ms : list (jsstring * JsValue)) :
  Forall (fun kv => readsBack (snd kv)) ms -> ms <> [] ->
  forall acc rest f,
    NoDup (map fst (acc ++ ms)) ->
    (List.length (joinMembers JSON_stringify ms) + 1 < f)%nat ->
    parseMembers f (joinMembers JSON_stringify ms ++ 125 :: rest) acc
    = Some (acc ++ ms, rest).
Proof.
  induction ms as [|[k v] ms IH]; intros Hrb Hne acc rest f Hnd Hf; [contradiction|].
  inversion Hrb as [|? ? Hv Hms]; subst. cbn [snd] in Hv.
  assert (Hfresh : ~ In k (map fst acc)).
  { rewrite map_app in Hnd. cbn [map fst] in Hnd.
    apply NoDup_remove_2 in Hnd. intros Hin. apply Hnd.
    apply in_or_app. now left. }
  destruct f as [|f]; [lia|].
  destruct ms as [|kv ms'].
  - pose proof (joinMembers_length_one k v) as Hl.
    rewrite joinMembers_one. cbn [parseMembers skipWs isJsonWhitespace N.eqb Pos.eqb orb].
    rewrite parseStringBody_quoteBody.
    cbn [skipWs isJsonWhitespace N.eqb Pos.eqb orb].
    rewrite Hv by lia.
    cbn [skipWs isJsonWhitespace N.eqb Pos.eqb orb].
    now rewrite setMember_fresh.
  - pose proof (joinMembers_length_more k v kv ms') as Hl.
    rewrite joinMembers_more. cbn [parseMembers skipWs isJsonWhitespace N.eqb Pos.eqb orb].
    rewrite parseStringBody_quoteBody.
    cbn [skipWs isJsonWhitespace N.eqb Pos.eqb orb].
    rewrite Hv by lia.
    cbn [skipWs isJsonWhitespace N.eqb Pos.eqb orb].
    rewrite setMember_fresh by exact Hfresh.
    rewrite IH; try assumption; try discriminate; try lia.
    + now rewrite <- app_assoc.
    + now rewrite <- app_assoc.
Qed.

Lemma plain_readsBack (v : JsValue) : plainJson v -> readsBack v.
Proof.
  induction v as [|b|m e|s|l IH|ms IH] using JsValue_nested_ind; intros Hp rest f Hf;
    (destruct f as [|f]; [lia|]).
  - reflexivity.
  - destruct b; reflexivity.
  - contradiction.
  - cbn [JSON_stringify] in *. unfold quoteJSONString.
    cbn [app parseValue skipWs isJsonWhitespace N.eqb Pos.eqb orb].
    rewrite <- app_assoc. cbn [app]. now rewrite parseStringBody_quoteBody.
  - apply plainJson_arr in Hp.
    assert (Hrb : Forall readsBack l).
    { clear Hf. induction l as [|x l IHl]; constructor;
        inversion IH; inversion Hp; subst; auto. }
    cbn [JSON_stringify] in *. rewrite length_app in Hf. cbn [List.length] in Hf.
    rewrite length_app in Hf. cbn [List.length] in Hf.
    cbn [app parseValue skipWs isJsonWhitespace N.eqb Pos.eqb orb].
    destruct l as [|x l'].
    + reflexivity.
    + rewrite <- app_assoc. cbn [app].
      rewrite (parseItems_join (x :: l') Hrb Hp) by (try discriminate; lia).
      inversion Hp as [|? ? Px Pl]; subst.
      destruct (stringify_opens x Px) as (c & t & Hc & Hcase).
      cbn [joinItems]. destruct l'; rewrite Hc;
        destruct Hcase as [E|[E|[E|[E|[E|E]]]]]; subst c; reflexivity.
  - apply plainJson_obj in Hp. destruct Hp as [Hnd Hp].
    assert (Hrb : Forall (fun kv => readsBack (snd kv)) ms).
    { clear Hf Hnd. induction ms as [|x l IHl]; constructor;
        inversion IH; inversion Hp; subst; auto. }
    cbn [JSON_stringify] in *. rewrite length_app in Hf. cbn [List.length] in Hf.
    rewrite length_app in Hf. cbn [List.length] in Hf.
    cbn [app parseValue skipWs isJsonWhitespace N.eqb Pos.eqb orb].
    destruct ms as [|[k x] ms'].
    + reflexivity.
    + rewrite <- app_assoc. cbn [app].
      rewrite (parseMembers_join ((k, x) :: ms') Hrb) by (try discriminate; try exact Hnd; lia).
      cbn [app]. destruct ms' as [|kv ms''].
      * rewrite joinMembers_one. reflexivity.
      * rewrite joinMembers_more. reflexivity.
Qed.

(** [JSON.parse(JSON.stringify(v))] is [v], for every plain document. *)
Lemma JSON_parse_stringify (v : JsValue) :
  plainJson v -> JSON_parse (JSON_stringify v) = inr v.
Proof.
  intros Hp. unfold JSON_parse.
  pose proof (plain_readsBack v Hp [] (2 * List.length (JSON_stringify v) + 2)%nat) as H.
  rewrite app_nil_r in H. rewrite H by lia. reflexivity.
Qed.

(** ** Base64: [atob] undoes [btoa] *)

Lemma b64char_cases (n : N) :
  (65 <= b64char n <= 90) \/ (97 <= b64char n <= 122) \/ (48 <= b64char n <= 57)
  \/ b64char n = 43 \/ b64char n = 47.
Proof.
  unfold b64char.
  destruct (n <? 26) eqn:H1; [apply N.ltb_lt in H1; lia | apply N.ltb_ge in H1].
  destruct (n <? 52) eqn:H2; [apply N.ltb_lt in H2; lia | apply N.ltb_ge in H2].
  destruct (n <? 62) eqn:H3; [apply N.ltb_lt in H3; lia | apply N.ltb_ge in H3].
  destruct (n =? 62); lia.
Qed.

Lemma b64char_not_pad (n : N) : (b64char n =? 61) = false.
Proof. apply N.eqb_neq. pose proof (b64char_cases n). lia. Qed.

Lemma b64char_not_ws (n : N) : isAsciiWhitespace (b64char n) = false.
Proof.
  unfold isAsciiWhitespace. pose proof (b64char_cases n).
  repeat (apply orb_false_iff; split); apply N.eqb_neq; lia.
Qed.

Lemma b64char_ascii (n : N) : b64char n < 128.
Proof. pose proof (b64char_cases n). lia. Qed.

Lemma b64val_b64char (n : N) : n < 64 -> b64val (b64char n) = Some n.
Proof.
  intros Hn. unfold b64val, b64char.
  destruct (n <? 26) eqn:H1; [apply N.ltb_lt in H1 | apply N.ltb_ge in H1].
  { replace (65 <=? 65 + n) with true by (symmetry; apply N.leb_le; lia).
    replace (65 + n <=? 90) with true by (symmetry; apply N.leb_le; lia).
    cbn [andb]. f_equal. lia. }
  destruct (n <? 52) eqn:H2; [apply N.ltb_lt in H2 | apply N.ltb_ge in H2].
  { replace (65 + 0 <=? 97 + (n - 26)) with true by (symmetry; apply N.leb_le; lia).
    replace (65 <=? 97 + (n - 26)) with true by (symmetry; apply N.leb_le; lia).
    replace (97 + (n - 26) <=? 90) with false by (symmetry; apply N.leb_gt; lia).
    replace (97 <=? 97 + (n - 26)) with true by (symmetry; apply N.leb_le; lia).
    replace (97 + (n - 26) <=? 122) with true by (symmetry; apply N.leb_le; lia).
    cbn [andb]. f_equal. lia. }
  destruct (n <? 62) eqn:H3; [apply N.ltb_lt in H3 | apply N.ltb_ge in H3].
  { replace (65 <=? 48 + (n - 52)) with false by (symmetry; apply N.leb_gt; lia).
    replace (97 <=? 48 + (n - 52)) with false by (symmetry; apply N.leb_gt; lia).
    replace (48 <=? 48 + (n - 52)) with true by (symmetry; apply N.leb_le; lia).
    replace (48 + (n - 52) <=? 57) with true by (symmetry; apply N.leb_le; lia).
    cbn [andb]. f_equal. lia. }
  destruct (n =? 62) eqn:H4; [apply N.eqb_eq in H4; subst n; reflexivity|].
  apply N.eqb_neq in H4. assert (n = 63) by lia. subst n. reflexivity.
Qed.

Lemma b64enc_no_ws (bs : list N) :
  filter (fun c => negb (isAsciiWhitespace c)) (b64enc bs) = b64enc bs.
Proof.
  induction bs as [|a|a b|a b c l IH] using list_ind3;
    cbn [b64enc filter]; rewrite ?b64char_not_ws; cbn [negb isAsciiWhitespace N.eqb Pos.eqb orb];
    try reflexivity.
  now rewrite IH.
Qed.

Lemma b64enc_length (bs : list N) : exists k, List.length (b64enc bs) = (4 * k)%nat.
Proof.
  induction bs as [|a|a b|a b c l [k IH]] using list_ind3.
  - now exists 0%nat.
  - now exists 1%nat.
  - now exists 1%nat.
  - exists (S k). cbn [b64enc List.length]. rewrite IH. lia.
Qed.

Lemma b64encNopad_length (bs : list N) :
  exists k, List.length (b64encNopad bs) = (4 * k)%nat
            \/ List.length (b64encNopad bs) = (4 * k + 2)%nat
            \/ List.length (b64encNopad bs) = (4 * k + 3)%nat.
Proof.
  induction bs as [|a|a b|a b c l [k IH]] using list_ind3.
  - exists 0%nat. now left.
  - exists 0%nat. right. now left.
  - exists 0%nat. right. now right.
  - exists (S k). cbn [b64encNopad List.length]. lia.
Qed.

Lemma stripPadding_b64enc (bs : list N) : stripPadding (b64enc bs) = b64encNopad bs.
Proof.
  induction bs as [|a|a b|a b c l IH] using list_ind3;
    cbn [b64enc b64encNopad stripPadding]; rewrite ?b64char_not_pad;
    cbn [andb N.eqb Pos.eqb]; try reflexivity.
  now rewrite IH.
Qed.

Lemma b64dec_b64encNopad (bs : list N) :
  isBytes bs = true ->
  exists vs, b64vals (b64encNopad bs) = Some vs /\ b64dec vs = bs.
Proof.
  unfold isBytes.
  induction bs as [|a|a b|a b c l IH] using list_ind3; cbn [forallb]; intros H.
  - exists []. split; reflexivity.
  - apply andb_true_iff in H. destruct H as [Ha _]. apply N.leb_le in Ha.
    eexists. cbn [b64encNopad b64vals]. rewrite !b64val_b64char by lia.
    split; [reflexivity|]. cbn [b64dec]. f_equal. lia.
  - apply andb_true_iff in H. destruct H as [Ha H].
    apply andb_true_iff in H. destruct H as [Hb _].
    apply N.leb_le in Ha. apply N.leb_le in Hb.
    eexists. cbn [b64encNopad b64vals]. rewrite !b64val_b64char by lia.
    split; [reflexivity|]. cbn [b64dec]. f_equal; [lia|]. f_equal. lia.
  - apply andb_true_iff in H. destruct H as [Ha H].
    apply andb_true_iff in H. destruct H as [Hb H].
    apply andb_true_iff in H. destruct H as [Hc H].
    apply N.leb_le in Ha. apply N.leb_le in Hb. apply N.leb_le in Hc.
    destruct (IH H) as (vs & Hvs & Hdec).
    eexists. cbn [b64encNopad b64vals]. rewrite !b64val_b64char by lia.
    rewrite Hvs. split; [reflexivity|]. cbn [b64dec]. rewrite Hdec.
    f_equal; [lia|]. f_equal; [lia|]. f_equal. lia.
Qed.

(** [atob(btoa(s))] is [s]. *)
Lemma atob_btoa (s t : jsstring) : btoa s = inr t -> atob t = inr s.
Proof.
  unfold btoa. fold (isBytes s). destruct (isBytes s) eqn:Hb; [|discriminate].
  intros H. inversion H; subst t. unfold atob.
  rewrite b64enc_no_ws.
  destruct (b64enc_length s) as [k Hk]. rewrite Hk.
  replace (N.of_nat (4 * k) mod 4 =? 0) with true
    by (symmetry; apply N.eqb_eq; lia).
  rewrite stripPadding_b64enc.
  destruct (b64encNopad_length s) as [j Hj].
  replace (N.of_nat (List.length (b64encNopad s)) mod 4 =? 1) with false
    by (symmetry; apply N.eqb_neq; lia).
  destruct (b64dec_b64encNopad s Hb) as (vs & Hvs & Hdec).
  now rewrite Hvs, Hdec.
Qed.

(** ** The state codec *)

Lemma AuthRequest_keys (r : AuthRequest) :
  exists tail,
    map fst (AuthRequest_members r)
    = [js "responseType"; js "clientId"; js "redirectUri"; js "scope"; js "state"] ++ tail
    /\ (tail = [] \/ tail = [js "codeChallenge"] \/ tail = [js "codeChallengeMethod"]
        \/ tail = [js "codeChallenge"; js "codeChallengeMethod"]).
Proof.
  unfold AuthRequest_members.
  destruct (codeChallenge r), (codeChallengeMethod r); eexists; (split; [reflexivity|]); auto.
Qed.

Lemma stateObject_keys_NoDup (r : AuthRequest) :
  NoDup (map fst (AuthRequest_members r ++ [(js "codeVerifier", JStr [])])).
Proof.
  rewrite map_app. destruct (AuthRequest_keys r) as [tail [Heq Ht]]. rewrite Heq.
  destruct Ht as [Ht|[Ht|[Ht|Ht]]]; subst tail; cbn [map fst app];
    repeat (constructor; [cbn [In]; intros H;
                          repeat (destruct H as [H|H]; [discriminate H|]); exact H|]);
    constructor.
Qed.

Lemma setMember_codeVerifier (r : AuthRequest) (v : jsstring) :
  setMember (js "codeVerifier") (JStr v) (AuthRequest_members r)
  = AuthRequest_members r ++ [(js "codeVerifier", JStr v)].
Proof.
  apply setMember_fresh.
  pose proof (stateObject_keys_NoDup r) as H. rewrite map_app in H.
  cbn [map fst] in H. apply NoDup_remove_2 in H. rewrite app_nil_r in H. exact H.
Qed.

Lemma allPlain_strings (l : list jsstring) : allPlain (map JStr l).
Proof. induction l; constructor; [exact I|assumption]. Qed.

Lemma stateObject_plain (r : AuthRequest) (v : jsstring) : plainJson (stateObject r v).
Proof.
  unfold stateObject. apply plainJson_obj. split.
  - pose proof (stateObject_keys_NoDup r) as H. rewrite map_app in *. exact H.
  - unfold allPlainMembers, AuthRequest_members, optMember.
    destruct (codeChallenge r), (codeChallengeMethod r); cbn [app];
      repeat (constructor; [first [exact I | apply plainJson_arr, allPlain_strings]|]);
      constructor.
Qed.

(** Whenever the state is produced, decoding it gives back the request's
    members and the verifier. *)
Lemma state_roundtrip (r : AuthRequest) (v st : jsstring) :
  encodeState r v = inr st -> decodeState st = inr (stateObject r v).
Proof.
  unfold encodeState, decodeState. rewrite setMember_codeVerifier.
  fold (stateObject r v). intros H.
  rewrite (atob_btoa _ _ H). cbn [bindE].
  apply JSON_parse_stringify, stateObject_plain.
Qed.

Example state_roundtrip_sample : decodeState sampleState = inr (stateObject sampleAuthRequest sampleVerifier).
Proof. vm_compute. reflexivity. Qed.

(** C3 (the code departs from it).  For a request with a character above
    U+00FF no state is produced at all: [btoa] throws on the JSON text, and
    with it every [redirectTo...] function. *)
Lemma generateCodeVerifier_eq (random : nat -> N) :
  generateCodeVerifier random = inr (base64url_nopad (Uint8Array 32 random)).
Proof.
  assert (Hb : forallb (fun c => c <=? 255) (Uint8Array 32 random) = true).
  { apply forallb_forall. intros x Hx. unfold Uint8Array in Hx.
    apply in_map_iff in Hx. destruct Hx as [i [Hi _]]. subst x.
    apply N.leb_le. pose proof (N.mod_lt (random i) 256). lia. }
  unfold generateCodeVerifier. cbv zeta. revert Hb.
  generalize (Uint8Array 32 random) as array. intros array Hb.
  unfold btoa. rewrite Hb. f_equal. exact (urlsafe_b64enc array).
Qed.

Lemma checkMark_not_encodable (v : jsstring) :
  encodeState checkMarkRequest v = inl InvalidCharacterError.
Proof. vm_compute. reflexivity. Qed.

(** C3 (the code departs from it).  For a request with a character above
    U+00FF no state is produced at all: [btoa] throws on the JSON text, and
    with it every [redirectTo...] function, whatever the verifier. *)
Theorem C3_state_not_encodable (random : nat -> N) (request : Request) (env : Env)
    (headers : list (jsstring * jsstring)) (v : jsstring) :
  encodeState checkMarkRequest v = inl InvalidCharacterError
  /\ GoogleHandler.redirectToGoogle random request checkMarkRequest env headers
     = inl InvalidCharacterError
  /\ KeycloakHandler.redirectToKeycloak random request checkMarkRequest env headers
     = inl InvalidCharacterError
  /\ Auth0Handler.redirectToAuth0 random request checkMarkRequest env headers
     = inl InvalidCharacterError
  /\ CustomOAuthHandler.redirectToCustomOAuth random request checkMarkRequest env headers
     = inl InvalidCharacterError.
Proof.
  split; [apply checkMark_not_encodable|].
  unfold GoogleHandler.redirectToGoogle, KeycloakHandler.redirectToKeycloak,
    Auth0Handler.redirectToAuth0, CustomOAuthHandler.redirectToCustomOAuth.
  rewrite generateCodeVerifier_eq. cbn [bindE].
  rewrite generateCodeChallenge_eq. cbn [bindE].
  rewrite checkMark_not_encodable. cbn [bindE]. repeat split.
Qed.

(** ** The upstream authorize URL, as the upstream reads it *)

(** C2, as stated, fails: the [state] parameter of the upstream URL is the
    base64 of a JSON text that contains the verifier. *)
Lemma C2_counterexample :
  let random := fun i : nat => N.of_nat (7 * i + 3) in
  exists verifier location,
    generateCodeVerifier random = inr verifier
    /\ GoogleHandler.redirectToGoogle random
         (getRequest "/google/authorize" [] []) sampleAuthRequest noEnv []
       = inr (Redirect location [])
    /\ transmitsVerifier location verifier = true
    /\ (exists st, lookup (js "state") (parseQuery location) = Some st
                   /\ decodeState st = inr (stateObject sampleAuthRequest verifier)).
Proof.
  cbv zeta. eexists. eexists.
  split; [vm_compute; reflexivity|].
  split; [vm_compute; reflexivity|].
  split; [vm_compute; reflexivity|].
  eexists. split; vm_compute; reflexivity.
Qed.

Lemma joinAmp_cons2 (x y : jsstring) (l : list jsstring) :
  joinAmp (x :: y :: l) = x ++ 38 :: joinAmp (y :: l).
Proof. reflexivity. Qed.

Lemma URLSearchParams_joinAmp (pairs : list (jsstring * jsstring)) :
  URLSearchParams_toString pairs
  = joinAmp (map (fun kv => piece (formEncode (fst kv), formEncode (snd kv))) pairs).
Proof.
  induction pairs as [|[k v] pairs IH]; [reflexivity|].
  destruct pairs as [|kv pairs'].
  - reflexivity.
  - change (URLSearchParams_toString ((k, v) :: kv :: pairs'))
      with (formEncode k ++ [61] ++ formEncode v ++ [38]
            ++ URLSearchParams_toString (kv :: pairs')).
    rewrite IH. cbn [map]. rewrite (joinAmp_cons2 (piece (formEncode (fst (k, v)), formEncode (snd (k, v))))).
    unfold piece. cbn [fst snd app]. rewrite <- !app_assoc. reflexivity.
Qed.

Lemma joinAmp_app (a b : list jsstring) :
  a <> [] -> b <> [] -> joinAmp (a ++ b) = joinAmp a ++ 38 :: joinAmp b.
Proof.
  intros Ha Hb. induction a as [|x a IH]; [contradiction|].
  destruct a as [|y a'].
  - cbn [app]. destruct b; [contradiction|reflexivity].
  - change (joinAmp ((x :: y :: a') ++ b)) with (x ++ 38 :: joinAmp ((y :: a') ++ b)).
    rewrite IH by discriminate.
    change (joinAmp (x :: y :: a')) with (x ++ 38 :: joinAmp (y :: a')).
    now rewrite <- app_assoc.
Qed.

Lemma querySafe_no (c : N) (s : jsstring) :
  (c = 38 \/ c = 61 \/ c = 63) -> forallb querySafe s = true -> includesChar c s = false.
Proof.
  intros Hc Hs. unfold includesChar. induction s as [|x s IH]; [reflexivity|].
  cbn [forallb existsb] in *. apply andb_true_iff in Hs. destruct Hs as [Hx Hs].
  rewrite (IH Hs), orb_false_r. unfold querySafe in Hx.
  apply negb_true_iff in Hx. apply orb_false_iff in Hx. destruct Hx as [Hx H3].
  apply orb_false_iff in Hx. destruct Hx as [H1 H2].
  destruct Hc as [Hc|[Hc|Hc]]; subst c; rewrite N.eqb_sym; assumption.
Qed.

Lemma split_joinAmp (pieces : list jsstring) :
  pieces <> [] -> Forall (fun p => includesChar 38 p = false) pieces ->
  split 38 (joinAmp pieces) = pieces.
Proof.
  induction pieces as [|p pieces IH]; intros Hne Hall; [contradiction|].
  inversion Hall as [|? ? Hp Hrest]; subst.
  destruct pieces as [|q pieces'].
  - cbn [joinAmp]. now apply split_no_sep.
  - change (joinAmp (p :: q :: pieces')) with (p ++ 38 :: joinAmp (q :: pieces')).
    rewrite split_at_sep by exact Hp. rewrite IH by (try discriminate; assumption).
    reflexivity.
Qed.

Lemma afterFirst_app (c : N) (a b : jsstring) :
  includesChar c a = false -> afterFirst c (a ++ c :: b) = b.
Proof.
  induction a as [|x a IH]; intros H; cbn [app afterFirst].
  - now rewrite N.eqb_refl.
  - cbn in H. apply orb_false_iff in H. destruct H as [Hx Ha].
    rewrite N.eqb_sym, Hx. now apply IH.
Qed.

Lemma beforeFirst_app (c : N) (a b : jsstring) :
  includesChar c a = false -> beforeFirst c (a ++ c :: b) = a.
Proof.
  induction a as [|x a IH]; intros H; cbn [app beforeFirst].
  - now rewrite N.eqb_refl.
  - cbn in H. apply orb_false_iff in H. destruct H as [Hx Ha].
    rewrite N.eqb_sym, Hx. now rewrite IH.
Qed.

(** A query made of pieces [name=value] is read back piece by piece. *)
Lemma parseQuery_pieces (base : jsstring) (pairs : list (jsstring * jsstring)) :
  includesChar 63 base = false ->
  pairs <> [] ->
  Forall (fun kv => forallb querySafe (fst kv) = true
                    /\ forallb querySafe (snd kv) = true) pairs ->
  parseQuery (base ++ 63 :: joinAmp (map piece pairs))
  = map (fun kv => (percentDecode (fst kv), percentDecode (snd kv))) pairs.
Proof.
  intros Hbase Hne Hall. unfold parseQuery.
  rewrite afterFirst_app by exact Hbase.
  rewrite split_joinAmp.
  - induction pairs as [|[k v] pairs IH]; [contradiction|].
    inversion Hall as [|? ? [Hk Hv] Hrest]; subst. cbn [fst snd] in *.
    cbn [map]. unfold piece at 1. cbn [fst snd].
    replace (filter _ ((k ++ 61 :: v) :: map piece pairs))
      with ((k ++ 61 :: v)
            :: filter (fun p : jsstring => match p with [] => false | _ => true end)
                      (map piece pairs))
      by (cbn [filter]; destruct k; reflexivity).
    cbn [map]. unfold parsePair at 1.
    rewrite beforeFirst_app, afterFirst_app by (apply querySafe_no; auto).
    destruct pairs as [|kv pairs']; [reflexivity|].
    f_equal. apply IH; [discriminate|assumption].
  - destruct pairs; [contradiction|discriminate].
  - clear Hne. induction Hall as [|[k v] pairs [Hk Hv] _ IH]; constructor; [|exact IH].
    unfold piece. cbn [fst snd] in *. rewrite includesChar_app.
    rewrite (querySafe_no 38 k) by auto. cbn [includesChar existsb orb].
    change (38 =? 61) with false. cbn [orb].
    apply (querySafe_no 38 v); auto.
Qed.

Lemma HEXdigit_safe (n : N) : querySafe (HEXdigit n) = true.
Proof.
  unfold querySafe, HEXdigit. apply negb_true_iff.
  destruct (n <? 10) eqn:H; [apply N.ltb_lt in H | apply N.ltb_ge in H];
    repeat (apply orb_false_iff; split); apply N.eqb_neq; lia.
Qed.

Lemma isAlnum_safe (b : N) : isAlnum b = true -> querySafe b = true.
Proof.
  unfold isAlnum, querySafe. intros H. apply negb_true_iff.
  repeat (apply orb_false_iff; split); apply N.eqb_neq; intros ->; discriminate H.
Qed.

Lemma formByte_safe (b : N) : forallb querySafe (formByte b) = true.
Proof.
  unfold formByte, percentByte.
  destruct (b =? 32); [reflexivity|].
  destruct (isAlnum b) eqn:Ha.
  - cbn [orb forallb]. now rewrite isAlnum_safe.
  - cbn [orb].
    destruct (b =? 42) eqn:E1; [apply N.eqb_eq in E1; subst b; reflexivity|].
    destruct (b =? 45) eqn:E2; [apply N.eqb_eq in E2; subst b; reflexivity|].
    destruct (b =? 46) eqn:E3; [apply N.eqb_eq in E3; subst b; reflexivity|].
    destruct (b =? 95) eqn:E4; [apply N.eqb_eq in E4; subst b; reflexivity|].
    cbn [orb forallb]. now rewrite !HEXdigit_safe.
Qed.

Lemma forallb_flat_map {A B} (f : B -> bool) (g : A -> list B) (l : list A) :
  (forall a, forallb f (g a) = true) -> forallb f (flat_map g l) = true.
Proof.
  intros H. induction l as [|a l IH]; [reflexivity|].
  cbn [flat_map]. now rewrite forallb_app, H, IH.
Qed.

Lemma formEncode_safe (s : jsstring) : forallb querySafe (formEncode s) = true.
Proof. unfold formEncode. apply forallb_flat_map, formByte_safe. Qed.

Lemma encodeURIComponent_safe (s out : jsstring) :
  encodeURIComponent s = inr out -> forallb querySafe out = true.
Proof.
  unfold encodeURIComponent. destruct (hasLoneSurrogate s); [discriminate|].
  intros H. inversion H; subst out. apply forallb_flat_map. intros b.
  destruct (uriUnreserved b) eqn:Hu; cbn [forallb].
  - rewrite andb_true_r. unfold uriUnreserved in Hu. unfold querySafe.
    apply negb_true_iff. unfold isAlnum in Hu.
    repeat (apply orb_false_iff; split); apply N.eqb_neq; intros ->; discriminate Hu.
  - unfold percentByte. cbn [forallb]. now rewrite !HEXdigit_safe.
Qed.

Lemma hexval_HEXdigit (n : N) : n < 16 -> hexval (HEXdigit n) = Some n.
Proof.
  intros Hn. unfold hexval, HEXdigit.
  destruct (n <? 10) eqn:H10; [apply N.ltb_lt in H10 | apply N.ltb_ge in H10].
  - replace (48 <=? 48 + n) with true by (symmetry; apply N.leb_le; lia).
    replace (48 + n <=? 57) with true by (symmetry; apply N.leb_le; lia).
    cbn [andb]. f_equal. lia.
  - replace (48 <=? 55 + n) with true by (symmetry; apply N.leb_le; lia).
    replace (55 + n <=? 57) with false by (symmetry; apply N.leb_gt; lia).
    replace (97 <=? 55 + n) with false by (symmetry; apply N.leb_gt; lia).
    replace (65 <=? 55 + n) with true by (symmetry; apply N.leb_le; lia).
    replace (55 + n <=? 70) with true by (symmetry; apply N.leb_le; lia).
    cbn [andb]. f_equal. lia.
Qed.

(** Decoding undoes the form encoding, byte by byte. *)
Lemma percentDecode_formByte (b : N) (r : jsstring) :
  b <= 255 -> percentDecode (formByte b ++ r) = b :: percentDecode r.
Proof.
  intros Hb. unfold formByte.
  destruct (b =? 32) eqn:E32; [apply N.eqb_eq in E32; subst b; reflexivity|].
  apply N.eqb_neq in E32.
  destruct (isAlnum b || (b =? 42) || (b =? 45) || (b =? 46) || (b =? 95)) eqn:Hraw.
  - cbn [app percentDecode].
    assert (H37 : (b =? 37) = false).
    { apply N.eqb_neq. intros ->. discriminate Hraw. }
    assert (H43 : (b =? 43) = false).
    { apply N.eqb_neq. intros ->. discriminate Hraw. }
    now rewrite H37, H43.
  - unfold percentByte. cbn [app percentDecode]. change (37 =? 37) with true.
    cbv iota. rewrite !hexval_HEXdigit by lia. f_equal. lia.
Qed.

Lemma percentDecode_formBytes (bs : list N) :
  isBytes bs = true -> percentDecode (flat_map formByte bs) = bs.
Proof.
  unfold isBytes. induction bs as [|b bs IH]; intros H; [reflexivity|].
  cbn [forallb] in H. apply andb_true_iff in H. destruct H as [Hb Hbs].
  apply N.leb_le in Hb. cbn [flat_map].
  now rewrite percentDecode_formByte, IH.
Qed.

Lemma TextEncoder_ascii (s : jsstring) : isAscii s = true -> TextEncoder_encode s = s.
Proof.
  unfold isAscii. induction s as [|c s IH]; intros H; [reflexivity|].
  cbn [forallb] in H. apply andb_true_iff in H. destruct H as [Hc Hs].
  cbn [TextEncoder_encode]. specialize (IH Hs).
  assert (Hlt : c < 128) by (apply N.ltb_lt; exact Hc).
  replace (isHighSurrogate c) with false
    by (symmetry; unfold isHighSurrogate; apply andb_false_iff; left; apply N.leb_gt; lia).
  replace (isLowSurrogate c) with false
    by (symmetry; unfold isLowSurrogate; apply andb_false_iff; left; apply N.leb_gt; lia).
  unfold utf8CodePoint. change 0x80 with 128. rewrite Hc. cbn [app]. now rewrite IH.
Qed.

Lemma isAscii_bytes (s : jsstring) : isAscii s = true -> isBytes s = true.
Proof.
  unfold isAscii, isBytes. rewrite !forallb_forall. intros H c Hc.
  specialize (H c Hc). apply N.ltb_lt in H. apply N.leb_le. lia.
Qed.

Lemma percentDecode_formEncode_ascii (s : jsstring) :
  isAscii s = true -> percentDecode (formEncode s) = s.
Proof.
  intros H. unfold formEncode. rewrite TextEncoder_ascii by exact H.
  apply percentDecode_formBytes, isAscii_bytes, H.
Qed.

Lemma b64enc_ascii (bs : list N) : isAscii (b64enc bs) = true.
Proof.
  unfold isAscii.
  induction bs as [|a|a b|a b c l IH] using list_ind3; cbn [b64enc forallb];
    rewrite ?IH;
    repeat match goal with
      | |- context [b64char ?n <? 128] =>
          replace (b64char n <? 128) with true
            by (symmetry; apply N.ltb_lt, b64char_ascii)
      end; reflexivity.
Qed.

(** On the URL-safe alphabet every encoder and decoder is the identity. *)
Lemma urlSafe_facts (s : jsstring) :
  forallb isUrlSafeChar s = true ->
  encodeURIComponent s = inr s /\ percentDecode s = s /\ forallb querySafe s = true.
Proof.
  intros H.
  assert (Hc : forall c, isUrlSafeChar c = true ->
                 c < 128 /\ uriUnreserved c = true /\ (c =? 37) = false
                 /\ (c =? 43) = false /\ querySafe c = true).
  { intros c Hc. unfold isUrlSafeChar in Hc.
    assert (Hu : uriUnreserved c = true).
    { unfold uriUnreserved.
      destruct (isAlnum c); [reflexivity|]. cbn [orb] in *.
      destruct (c =? 45); [reflexivity|]. cbn [orb] in *.
      rewrite Hc. reflexivity. }
    repeat split; try exact Hu.
    - unfold isAlnum in Hc.
      destruct (c <? 128) eqn:E; [apply N.ltb_lt; exact E|].
      apply N.ltb_ge in E. exfalso.
      replace (c <=? 57) with false in Hc by (symmetry; apply N.leb_gt; lia).
      replace (c <=? 90) with false in Hc by (symmetry; apply N.leb_gt; lia).
      replace (c <=? 122) with false in Hc by (symmetry; apply N.leb_gt; lia).
      replace (c =? 45) with false in Hc by (symmetry; apply N.eqb_neq; lia).
      replace (c =? 95) with false in Hc by (symmetry; apply N.eqb_neq; lia).
      rewrite !andb_false_r in Hc. discriminate Hc.
    - apply N.eqb_neq. intros ->. discriminate Hc.
    - apply N.eqb_neq. intros ->. discriminate Hc.
    - unfold querySafe. apply negb_true_iff.
      repeat (apply orb_false_iff; split); apply N.eqb_neq; intros ->; discriminate Hc. }
  assert (Hascii : isAscii s = true).
  { unfold isAscii. rewrite forallb_forall in *. intros c Hin.
    apply N.ltb_lt. now apply Hc, H. }
  split; [|split].
  - unfold encodeURIComponent.
    assert (Hl : hasLoneSurrogate s = false).
    { clear H. induction s as [|c s IH]; [reflexivity|].
      unfold isAscii in Hascii. cbn [forallb] in Hascii.
      apply andb_true_iff in Hascii. destruct Hascii as [Hlt Hs].
      apply N.ltb_lt in Hlt. cbn [hasLoneSurrogate].
      replace (isHighSurrogate c) with false
        by (symmetry; unfold isHighSurrogate; apply andb_false_iff; left;
            apply N.leb_gt; lia).
      replace (isLowSurrogate c) with false
        by (symmetry; unfold isLowSurrogate; apply andb_false_iff; left;
            apply N.leb_gt; lia).
      now apply IH. }
    rewrite Hl, TextEncoder_ascii by exact Hascii. f_equal.
    clear Hascii Hl. induction s as [|c s IH]; [reflexivity|].
    cbn [forallb] in H. apply andb_true_iff in H. destruct H as [Hx Hs].
    cbn [flat_map]. destruct (Hc c Hx) as (_ & Hu & _). rewrite Hu.
    cbn [app]. now rewrite IH.
  - clear Hascii. induction s as [|c s IH]; [reflexivity|].
    cbn [forallb] in H. apply andb_true_iff in H. destruct H as [Hx Hs].
    destruct (Hc c Hx) as (_ & _ & H37 & H43 & _).
    cbn [percentDecode]. now rewrite H37, H43, IH.
  - rewrite forallb_forall in *. intros c Hin. now apply Hc, H.
Qed.

Lemma authorizeUrl_shape (base cid ruri sc st ch : jsstring) :
  getUpstreamAuthorizeUrl
    {| upstream_url := base; client_id := cid; scope := sc;
       redirect_uri := ruri; state := Some st |}
  ++ js "&code_challenge=" ++ ch ++ js "&code_challenge_method=S256"
  = base ++ 63 :: joinAmp (map piece (authorizePairs cid ruri sc st ch [])).
Proof.
  unfold getUpstreamAuthorizeUrl, authorizePairs.
  cbn [upstream_url client_id scope redirect_uri state app].
  rewrite URLSearchParams_joinAmp. cbn [map fst snd].
  change (formEncode (js "client_id")) with (js "client_id").
  change (formEncode (js "redirect_uri")) with (js "redirect_uri").
  change (formEncode (js "scope")) with (js "scope").
  change (formEncode (js "state")) with (js "state").
  change (formEncode (js "response_type")) with (js "response_type").
  change (formEncode (js "code")) with (js "code").
  unfold piece. cbn [fst snd joinAmp js].
  repeat (progress (rewrite <- ?app_assoc; cbn [app])). reflexivity.
Qed.

Lemma authorizeUrl_query (base cid ruri scope st ch : jsstring)
    (extra : list (jsstring * jsstring)) :
  includesChar 63 base = false ->
  isAscii st = true ->
  forallb isUrlSafeChar ch = true ->
  Forall (fun kv => forallb querySafe (fst kv) = true
                    /\ forallb querySafe (snd kv) = true) extra ->
  parseQuery (base ++ 63 :: joinAmp (map piece (authorizePairs cid ruri scope st ch extra)))
  = [(js "client_id", percentDecode (formEncode cid));
     (js "redirect_uri", percentDecode (formEncode ruri));
     (js "scope", percentDecode (formEncode scope));
     (js "state", st);
     (js "response_type", js "code");
     (js "code_challenge", ch);
     (js "code_challenge_method", js "S256")]
    ++ map (fun kv => (percentDecode (fst kv), percentDecode (snd kv))) extra.
Proof.
  intros Hbase Hst Hch Hextra.
  destruct (urlSafe_facts ch Hch) as (_ & Hdec & Hsafe).
  rewrite parseQuery_pieces; [|exact Hbase|discriminate|].
  - unfold authorizePairs. rewrite map_app. cbn [map fst snd app].
    rewrite (percentDecode_formEncode_ascii st Hst), Hdec. reflexivity.
  - unfold authorizePairs. apply Forall_app. split; [|exact Hextra].
    repeat (constructor;
            [cbn [fst snd]; split;
             first [apply formEncode_safe | exact Hsafe | reflexivity]|]).
    constructor.
Qed.

Lemma btoa_ascii (s t : jsstring) : btoa s = inr t -> isAscii t = true.
Proof.
  unfold btoa. destruct (forallb _ s); [|discriminate].
  intros H. inversion H. apply b64enc_ascii.
Qed.

Lemma encodeState_ascii (r : AuthRequest) (v st : jsstring) :
  encodeState r v = inr st -> isAscii st = true.
Proof. unfold encodeState. apply btoa_ascii. Qed.

Lemma Redirect_location (a c : jsstring) (b d : list (jsstring * jsstring)) :
  @inr JsError Response (Redirect a b) = inr (Redirect c d) -> a = c.
Proof. intros H. now inversion H. Qed.

Lemma authorizeUrl_shape_audience (base cid ruri sc st ch aud : jsstring) :
  (getUpstreamAuthorizeUrl
     {| upstream_url := base; client_id := cid; scope := sc;
        redirect_uri := ruri; state := Some st |}
   ++ js "&code_challenge=" ++ ch ++ js "&code_challenge_method=S256")
  ++ js "&audience=" ++ aud
  = base ++ 63 :: joinAmp (map piece (authorizePairs cid ruri sc st ch [(js "audience", aud)])).
Proof.
  rewrite authorizeUrl_shape. unfold authorizePairs. rewrite app_nil_r.
  rewrite map_app. rewrite joinAmp_app by (cbn [map]; discriminate).
  rewrite <- app_assoc. cbn [app]. reflexivity.
Qed.

Section RedirectQuery.

Variable random : nat -> N.
Variable request : Request.
Variable oauthReqInfo : AuthRequest.
Variable env : Env.
Variables headers hdrs : list (jsstring * jsstring).
Variables location verifier challenge : jsstring.
Hypothesis Hver : generateCodeVerifier random = inr verifier.
Hypothesis Hchal : generateCodeChallenge verifier = inr challenge.
Hypothesis Hch : forallb isUrlSafeChar challenge = true.

Lemma challenge_encoded : encodeURIComponent challenge = inr challenge.
Proof. now destruct (urlSafe_facts challenge Hch). Qed.

Lemma redirectToGoogle_query :
  GoogleHandler.redirectToGoogle random request oauthReqInfo env headers
  = inr (Redirect location hdrs) ->
  readsAuthorizeQuery Google env oauthReqInfo verifier challenge location.
Proof.
  intros Hred. unfold readsAuthorizeQuery.
  unfold GoogleHandler.redirectToGoogle in Hred.
  rewrite Hver in Hred. cbn [bindE] in Hred.
  rewrite Hchal in Hred. cbn [bindE] in Hred.
  destruct (encodeState oauthReqInfo verifier) as [e|st] eqn:Hst; [discriminate Hred|].
  cbn [bindE] in Hred. apply Redirect_location in Hred. rewrite <- Hred.
  exists st, []. do 3 eexists. split; [reflexivity|]. split; [reflexivity|].
  rewrite authorizeUrl_shape.
  rewrite authorizeUrl_query;
    [reflexivity|reflexivity|eapply encodeState_ascii; eassumption|exact Hch|constructor].
Qed.

Lemma redirectToAuth0_query :
  includesChar 63 (upstreamHost Auth0 env) = false ->
  Auth0Handler.redirectToAuth0 random request oauthReqInfo env headers
  = inr (Redirect location hdrs) ->
  readsAuthorizeQuery Auth0 env oauthReqInfo verifier challenge location.
Proof.
  intros Hhost Hred. unfold readsAuthorizeQuery. cbn [upstreamHost] in Hhost.
  pose proof challenge_encoded as Henc.
  unfold Auth0Handler.redirectToAuth0 in Hred.
  rewrite Hver in Hred. cbn [bindE] in Hred.
  rewrite Hchal in Hred. cbn [bindE] in Hred.
  destruct (encodeState oauthReqInfo verifier) as [e|st] eqn:Hst; [discriminate Hred|].
  cbn [bindE] in Hred.
  destruct (isSet (AUTH0_DOMAIN env)); cbn [negb] in Hred; [|discriminate Hred].
  rewrite Henc in Hred. cbn [bindE] in Hred.
  assert (Hbase : includesChar 63 (js "https://" ++ str (AUTH0_DOMAIN env) ++ js "/authorize")
                  = false).
  { rewrite !includesChar_app, Hhost. reflexivity. }
  destruct (isSet (AUTH0_AUDIENCE env)).
  + destruct (encodeURIComponent (str (AUTH0_AUDIENCE env))) as [e|aud] eqn:Haud;
      [discriminate Hred|].
    cbn [bindE] in Hred. apply Redirect_location in Hred. rewrite <- Hred.
    exists st, [(js "audience", percentDecode aud)]. do 3 eexists.
    split; [reflexivity|]. split; [reflexivity|].
    rewrite authorizeUrl_shape_audience.
    rewrite authorizeUrl_query;
      [reflexivity|exact Hbase|eapply encodeState_ascii; eassumption|exact Hch|].
    constructor; [|constructor]. cbn [fst snd]. split; [reflexivity|].
    eapply encodeURIComponent_safe; eassumption.
  + apply Redirect_location in Hred. rewrite <- Hred.
    exists st, []. do 3 eexists. split; [reflexivity|]. split; [reflexivity|].
    rewrite authorizeUrl_shape.
    rewrite authorizeUrl_query;
      [reflexivity|exact Hbase|eapply encodeState_ascii; eassumption|exact Hch|constructor].
Qed.

Lemma redirectToKeycloak_query :
  includesChar 63 (upstreamHost Keycloak env) = false ->
  KeycloakHandler.redirectToKeycloak random request oauthReqInfo env headers
  = inr (Redirect location hdrs) ->
  readsAuthorizeQuery Keycloak env oauthReqInfo verifier challenge location.
Proof.
  intros Hhost Hred. unfold readsAuthorizeQuery. cbn [upstreamHost] in Hhost.
  pose proof challenge_encoded as Henc.
  unfold KeycloakHandler.redirectToKeycloak in Hred.
  rewrite Hver in Hred. cbn [bindE] in Hred.
  rewrite Hchal in Hred. cbn [bindE] in Hred.
  destruct (encodeState oauthReqInfo verifier) as [e|st] eqn:Hst; [discriminate Hred|].
  cbn [bindE] in Hred.
  destruct (isSet (KEYCLOAK_DOMAIN env)); cbn [negb] in Hred; [|discriminate Hred].
  destruct (isSet (KEYCLOAK_REALM env)); cbn [negb] in Hred; [|discriminate Hred].
  destruct (encodeURIComponent (str (KEYCLOAK_REALM env))) as [e|realm] eqn:Hrealm;
    [discriminate Hred|].
  cbn [bindE] in Hred. rewrite Henc in Hred. cbn [bindE] in Hred.
  apply Redirect_location in Hred. rewrite <- Hred.
  exists st, []. do 3 eexists. split; [reflexivity|]. split; [reflexivity|].
  rewrite authorizeUrl_shape.
  rewrite authorizeUrl_query;
    [reflexivity| |eapply encodeState_ascii; eassumption|exact Hch|constructor].
  rewrite !includesChar_app, Hhost.
  rewrite (querySafe_no 63 realm) by (eauto using encodeURIComponent_safe).
  reflexivity.
Qed.

Lemma redirectToCustomOAuth_query :
  includesChar 63 (upstreamHost Custom env) = false ->
  CustomOAuthHandler.redirectToCustomOAuth random request oauthReqInfo env headers
  = inr (Redirect location hdrs) ->
  readsAuthorizeQuery Custom env oauthReqInfo verifier challenge location.
Proof.
  intros Hhost Hred. unfold readsAuthorizeQuery. cbn [upstreamHost] in Hhost.
  pose proof challenge_encoded as Henc.
  unfold CustomOAuthHandler.redirectToCustomOAuth in Hred.
  rewrite Hver in Hred. cbn [bindE] in Hred.
  rewrite Hchal in Hred. cbn [bindE] in Hred.
  destruct (encodeState oauthReqInfo verifier) as [e|st] eqn:Hst; [discriminate Hred|].
  cbn [bindE] in Hred. rewrite Henc in Hred. cbn [bindE] in Hred.
  apply Redirect_location in Hred. rewrite <- Hred.
  exists st, []. do 3 eexists. split; [reflexivity|]. split; [reflexivity|].
  rewrite authorizeUrl_shape.
  rewrite authorizeUrl_query;
    [reflexivity| |eapply encodeState_ascii; eassumption|exact Hch|constructor].
  rewrite !includesChar_app, Hhost. reflexivity.
Qed.

End RedirectQuery.

(** C2, amended.  Of every authorize-time redirect of the four handlers at
    hand, the upstream URL has the query parameters [client_id],
    [redirect_uri], [scope], [state], [response_type], [code_challenge] and
    [code_challenge_method] (and [audience] for Auth0 when configured), none
    of them a parameter for the verifier; [code_challenge] is the SHA-256
    challenge of the verifier and [code_challenge_method] is [S256]; the
    verifier is carried inside [state], whose base64 text decodes to the
    request's members followed by [codeVerifier]. *)
Theorem C2_verifier_travels_inside_state (p : Provider) redirect
    (random : nat -> N) (request : Request) (oauthReqInfo : AuthRequest)
    (env : Env) (headers hdrs : list (jsstring * jsstring)) (location : jsstring) :
  redirectOf p = Some redirect ->
  includesChar 63 (upstreamHost p env) = false ->
  redirect random request oauthReqInfo env headers = inr (Redirect location hdrs) ->
  let verifier := base64url_nopad (Uint8Array 32 random) in
  let challenge := base64url_nopad (SHA256.digest (TextEncoder_encode verifier)) in
  generateCodeVerifier random = inr verifier
  /\ generateCodeChallenge verifier = inr challenge
  /\ map fst (parseQuery location) = authorizeParameters p env
  /\ lookup (js "code_verifier") (parseQuery location) = None
  /\ lookup (js "code_challenge") (parseQuery location) = Some challenge
  /\ lookup (js "code_challenge_method") (parseQuery location) = Some (js "S256")
  /\ exists st,
       encodeState oauthReqInfo verifier = inr st
       /\ lookup (js "state") (parseQuery location) = Some st
       /\ decodeState st = inr (stateObject oauthReqInfo verifier).
Proof.
  intros Hp Hhost Hred. cbv zeta.
  split; [apply generateCodeVerifier_eq|]. split; [apply generateCodeChallenge_eq|].
  assert (Hq : readsAuthorizeQuery p env oauthReqInfo
                 (base64url_nopad (Uint8Array 32 random))
                 (base64url_nopad (SHA256.digest (TextEncoder_encode
                    (base64url_nopad (Uint8Array 32 random)))))
                 location).
  { destruct p; inversion Hp; subst redirect.
    - eapply redirectToGoogle_query; eauto using generateCodeVerifier_eq,
        generateCodeChallenge_eq, base64url_nopad_safe.
    - eapply redirectToAuth0_query; eauto using generateCodeVerifier_eq,
        generateCodeChallenge_eq, base64url_nopad_safe.
    - eapply redirectToKeycloak_query; eauto using generateCodeVerifier_eq,
        generateCodeChallenge_eq, base64url_nopad_safe.
    - eapply redirectToCustomOAuth_query; eauto using generateCodeVerifier_eq,
        generateCodeChallenge_eq, base64url_nopad_safe. }
  revert Hq. generalize (base64url_nopad (SHA256.digest (TextEncoder_encode
                    (base64url_nopad (Uint8Array 32 random))))) as challenge.
  generalize (base64url_nopad (Uint8Array 32 random)) as verifier.
  intros verifier challenge (st & extra & a & b & c & Hst & Hextra & Hq).
  rewrite Hq. clear Hq.
  split.
  { unfold authorizeParameters. rewrite map_app. cbn [map fst app].
    repeat f_equal. exact Hextra. }
  assert (Hcv : lookup (js "code_verifier") extra = None).
  { destruct extra as [|[k v] extra']; [reflexivity|].
    destruct p; try discriminate Hextra.
    destruct (isSet (AUTH0_AUDIENCE env)); [|discriminate Hextra].
    cbn [map fst] in Hextra. inversion Hextra as [[Hk Hnil]].
    destruct extra'; [|discriminate Hnil]. reflexivity. }
  split; [cbn; exact Hcv|].
  split; [reflexivity|]. split; [reflexivity|].
  exists st. split; [exact Hst|]. split; [reflexivity|].
  now apply state_roundtrip.
Qed.

Lemma C2_witness :
  map fst (parseQuery sampleLocation) = authorizeParameters Google noEnv
  /\ lookup (js "code_verifier") (parseQuery sampleLocation) = None
  /\ exists st,
       lookup (js "state") (parseQuery sampleLocation) = Some st
       /\ decodeState st
          = inr (stateObject sampleAuthRequest (base64url_nopad (Uint8Array 32 sampleRandom))).
Proof.
  destruct (C2_verifier_travels_inside_state Google GoogleHandler.redirectToGoogle
              sampleRandom (getRequest "/google/authorize" [] []) sampleAuthRequest
              noEnv [] [] sampleLocation)
    as (_ & _ & Hnames & Hcv & _ & _ & st & _ & Hst & Hdec).
  - reflexivity.
  - reflexivity.
  - vm_compute. reflexivity.
  - split; [exact Hnames|]. split; [exact Hcv|]. exists st. split; assumption.
Defined.

(* ===================================================================== *)
(** * Further properties of the authorization core *)
(* ===================================================================== *)

(** ** The PKCE verifier *)

Lemma Uint8Array_length (n : nat) (random : nat -> N) :
  List.length (Uint8Array n random) = n.
Proof. unfold Uint8Array. now rewrite length_map, length_seq. Qed.

Lemma Uint8Array_bytes (n : nat) (random : nat -> N) :
  isBytes (Uint8Array n random) = true.
Proof.
  unfold isBytes, Uint8Array. apply forallb_forall. intros x Hx.
  apply in_map_iff in Hx. destruct Hx as [i [Hi _]]. subst x.
  apply N.leb_le. pose proof (N.mod_lt (random i) 256). lia.
Qed.

(** X1.  Whatever the random bytes, [generateCodeVerifier] returns a
    string of exactly 43 characters, each a letter, a digit, [-] or [_]:
    a verifier of the form RFC 7636 asks for. *)
Theorem X1_verifier_format (random : nat -> N) :
  exists verifier,
    generateCodeVerifier random = inr verifier
    /\ List.length verifier = 43%nat
    /\ forallb isUrlSafeChar verifier = true.
Proof.
  exists (base64url_nopad (Uint8Array 32 random)).
  split; [apply generateCodeVerifier_eq|]. split.
  - rewrite base64url_nopad_length, Uint8Array_length. reflexivity.
  - apply base64url_nopad_safe.
Qed.

Lemma b64urlchar_inj (n m : N) :
  n < 64 -> m < 64 -> b64urlchar n = b64urlchar m -> n = m.
Proof.
  assert (H : forall k, k < 64 ->
            (k < 26 /\ b64urlchar k = 65 + k)
            \/ (26 <= k < 52 /\ b64urlchar k = 97 + (k - 26))
            \/ (52 <= k < 62 /\ b64urlchar k = 48 + (k - 52))
            \/ (k = 62 /\ b64urlchar k = 45)
            \/ (k = 63 /\ b64urlchar k = 95)).
  { intros k Hk. unfold b64urlchar.
    destruct (k <? 26) eqn:A1; [apply N.ltb_lt in A1; auto|apply N.ltb_ge in A1].
    destruct (k <? 52) eqn:A2; [apply N.ltb_lt in A2; auto|apply N.ltb_ge in A2].
    destruct (k <? 62) eqn:A3; [apply N.ltb_lt in A3; auto 6|apply N.ltb_ge in A3].
    destruct (k =? 62) eqn:A4; [apply N.eqb_eq in A4; auto 6|apply N.eqb_neq in A4].
    right. right. right. right. split; [lia|reflexivity]. }
  intros Hn Hm E.
  destruct (H n Hn) as [[? R]|[[? R]|[[? R]|[[? R]|[? R]]]]];
  destruct (H m Hm) as [[? R']|[[? R']|[[? R']|[[? R']|[? R']]]]];
  rewrite R, R' in E; lia.
Qed.

Lemma cons_eq_inv {A} (x y : A) (l l' : list A) : x :: l = y :: l' -> x = y /\ l = l'.
Proof. intros H. injection H. auto. Qed.

Lemma inr_inj {E A} (a b : A) : @inr E A a = inr b -> a = b.
Proof. intros H. injection H. auto. Qed.

Lemma Some_inj {A} (a b : A) : Some a = Some b -> a = b.
Proof. intros H. injection H. auto. Qed.

(** Three bytes are determined by the four sextets they are cut into. *)
Lemma sextets_inj (x y z x' y' z' : N) :
  x / 4 = x' / 4 ->
  (x mod 4) * 16 + y / 16 = (x' mod 4) * 16 + y' / 16 ->
  (y mod 16) * 4 + z / 64 = (y' mod 16) * 4 + z' / 64 ->
  z mod 64 = z' mod 64 ->
  y <= 255 -> y' <= 255 -> z <= 255 -> z' <= 255 ->
  x = x' /\ y = y' /\ z = z'.
Proof.
  intros H1 H2 H3 H4 Hy Hy' Hz Hz'.
  generalize (N.div_mod x 4) (N.div_mod x' 4) (N.div_mod y 16) (N.div_mod y' 16)
    (N.div_mod z 64) (N.div_mod z' 64).
  generalize (N.mod_lt x 4) (N.mod_lt x' 4) (N.mod_lt y 16) (N.mod_lt y' 16)
    (N.mod_lt z 64) (N.mod_lt z' 64).
  revert H1 H2 H3 H4.
  generalize (x / 4) (x' / 4) (x mod 4) (x' mod 4) (y / 16) (y' / 16) (y mod 16) (y' mod 16)
    (z / 64) (z' / 64) (z mod 64) (z' mod 64).
  intros. lia.
Qed.

Lemma sextet_bounds (x y : N) :
  x <= 255 -> y <= 255 ->
  x / 4 < 64 /\ (x mod 4) * 16 + y / 16 < 64 /\ (x mod 16) * 4 + y / 64 < 64
  /\ x mod 64 < 64 /\ (x mod 4) * 16 < 64 /\ (x mod 16) * 4 < 64.
Proof.
  intros Hx Hy.
  generalize (N.div_mod x 4) (N.div_mod y 16) (N.div_mod y 64) (N.div_mod x 16).
  generalize (N.mod_lt x 4) (N.mod_lt y 16) (N.mod_lt y 64) (N.mod_lt x 16) (N.mod_lt x 64).
  generalize (x / 4) (x mod 4) (y / 16) (y mod 16) (y / 64) (y mod 64) (x mod 16) (x / 16)
    (x mod 64).
  intros. lia.
Qed.

(** Base64url without padding loses nothing of the bytes it encodes. *)
Lemma base64url_nopad_inj (a b : list N) :
  isBytes a = true -> isBytes b = true ->
  base64url_nopad a = base64url_nopad b -> a = b.
Proof.
  unfold isBytes. revert b.
  induction a as [|x|x y|x y z l IH] using list_ind3; intros b Ha Hb H.
  - destruct b as [|? [|? [|? ?]]]; [reflexivity|discriminate H..].
  - destruct b as [|x' [|? [|? ?]]]; try discriminate H.
    cbn [base64url_nopad] in H. cbn [forallb] in Ha, Hb.
    rewrite ?andb_true_iff, ?N.leb_le in *.
    destruct Ha as [Hx _], Hb as [Hx' _].
    destruct (sextet_bounds x 0 Hx) as (B1 & _ & _ & _ & B2 & _); [lia|].
    destruct (sextet_bounds x' 0 Hx') as (B1' & _ & _ & _ & B2' & _); [lia|].
    apply cons_eq_inv in H. destruct H as [H1 H].
    apply cons_eq_inv in H. destruct H as [H2 _].
    apply b64urlchar_inj in H1; [|assumption..].
    apply b64urlchar_inj in H2; [|assumption..].
    destruct (sextets_inj x 0 0 x' 0 0) as (E & _); try lia;
      try (change (0 / 16) with 0; rewrite !N.add_0_r; exact H2); try reflexivity.
    now rewrite E.
  - destruct b as [|x' [|y' [|? ?]]]; try discriminate H.
    cbn [base64url_nopad] in H. cbn [forallb] in Ha, Hb.
    rewrite ?andb_true_iff, ?N.leb_le in *.
    destruct Ha as (Hx & Hy & _), Hb as (Hx' & Hy' & _).
    destruct (sextet_bounds x y Hx Hy) as (B1 & B2 & _).
    destruct (sextet_bounds x' y' Hx' Hy') as (B1' & B2' & _).
    destruct (sextet_bounds y 0 Hy) as (_ & _ & _ & _ & _ & B3); [lia|].
    destruct (sextet_bounds y' 0 Hy') as (_ & _ & _ & _ & _ & B3'); [lia|].
    apply cons_eq_inv in H. destruct H as [H1 H].
    apply cons_eq_inv in H. destruct H as [H2 H].
    apply cons_eq_inv in H. destruct H as [H3 _].
    apply b64urlchar_inj in H1; [|assumption..].
    apply b64urlchar_inj in H2; [|assumption..].
    apply b64urlchar_inj in H3; [|assumption..].
    destruct (sextets_inj x y 0 x' y' 0) as (E1 & E2 & _); try lia; try assumption;
      try (change (0 / 64) with 0; rewrite !N.add_0_r; exact H3); try reflexivity.
    now rewrite E1, E2.
  - destruct b as [|x' [|y' [|z' l']]]; try discriminate H.
    cbn [base64url_nopad] in H. cbn [forallb] in Ha, Hb.
    rewrite ?andb_true_iff, ?N.leb_le in *.
    destruct Ha as (Hx & Hy & Hz & Hl), Hb as (Hx' & Hy' & Hz' & Hl').
    destruct (sextet_bounds x y Hx Hy) as (B1 & B2 & _).
    destruct (sextet_bounds x' y' Hx' Hy') as (B1' & B2' & _).
    destruct (sextet_bounds y z Hy Hz) as (_ & _ & B3 & _).
    destruct (sextet_bounds y' z' Hy' Hz') as (_ & _ & B3' & _).
    destruct (sextet_bounds z 0 Hz) as (_ & _ & _ & B4 & _); [lia|].
    destruct (sextet_bounds z' 0 Hz') as (_ & _ & _ & B4' & _); [lia|].
    apply cons_eq_inv in H. destruct H as [H1 H].
    apply cons_eq_inv in H. destruct H as [H2 H].
    apply cons_eq_inv in H. destruct H as [H3 H].
    apply cons_eq_inv in H. destruct H as [H4 H5].
    apply b64urlchar_inj in H1; [|assumption..].
    apply b64urlchar_inj in H2; [|assumption..].
    apply b64urlchar_inj in H3; [|assumption..].
    apply b64urlchar_inj in H4; [|assumption..].
    destruct (sextets_inj x y z x' y' z') as (E1 & E2 & E3); try assumption.
    rewrite E1, E2, E3. do 3 f_equal. apply IH; assumption.
Qed.

(** X2.  The verifier keeps all of the 32 random bytes: two draws that
    give the same verifier filled the array with the same bytes. *)
Theorem X2_verifier_keeps_the_draw (random random' : nat -> N) :
  generateCodeVerifier random = generateCodeVerifier random' ->
  Uint8Array 32 random = Uint8Array 32 random'.
Proof.
  rewrite !generateCodeVerifier_eq. intros H.
  apply base64url_nopad_inj; try apply Uint8Array_bytes.
  apply inr_inj in H. exact H.
Qed.

Lemma X2_witness :
  Uint8Array 32 sampleRandom = Uint8Array 32 (fun i => sampleRandom i + 256).
Proof.
  apply (X2_verifier_keeps_the_draw sampleRandom (fun i => sampleRandom i + 256)).
  vm_compute. reflexivity.
Defined.

(** ** From the authorize redirect to the token request *)

(** Case analysis on whatever a handler body branches on. *)
Ltac innermost scrutinee :=
  lazymatch scrutinee with
  | context [match _ with _ => _ end] => fail
  | _ => idtac
  end.

Ltac crunch :=
  repeat match goal with
    |- context [match ?scrutinee with _ => _ end] =>
      innermost scrutinee; destruct scrutinee eqn:?
  end.

Ltac open_handler :=
  cbv beta iota zeta delta
    [run GoogleHandler.callback Auth0Handler.callback KeycloakHandler.callback
     CustomOAuthHandler.callback bind lift ret return_ throw tryCatch doFetch doComplete
     Auth0Handler.onError KeycloakHandler.onError CustomOAuthHandler.onError fst snd].

Ltac enter_handler Hst Hid :=
  open_handler; rewrite Hst; cbn [getProp]; rewrite Hid; cbn [negb].

Lemma parseForm_fields (fields : list (jsstring * jsstring)) :
  fields <> [] ->
  parseForm (URLSearchParams_toString fields)
  = map (fun kv => (percentDecode (formEncode (fst kv)),
                    percentDecode (formEncode (snd kv)))) fields.
Proof.
  intros Hne.
  change (parseForm (URLSearchParams_toString fields))
    with (parseQuery ([] ++ 63 :: URLSearchParams_toString fields)).
  rewrite URLSearchParams_joinAmp.
  rewrite <- (map_map (fun kv : jsstring * jsstring =>
                         (formEncode (fst kv), formEncode (snd kv))) piece).
  rewrite parseQuery_pieces.
  - rewrite map_map. reflexivity.
  - reflexivity.
  - destruct fields; [contradiction|discriminate].
  - apply Forall_forall. intros kv Hin. apply in_map_iff in Hin.
    destruct Hin as [x [<- _]]. cbn [fst snd]. split; apply formEncode_safe.
Qed.

(** A string field of a form body is read back under its name, when name
    and value are ASCII and no earlier field has the name. *)
Lemma formBody_lookup (pre post : list (jsstring * jsstring)) (k v : jsstring) :
  Forall (fun kv => isAscii (fst kv) = true /\ jseqb k (fst kv) = false) pre ->
  isAscii k = true -> isAscii v = true ->
  lookup k (parseForm (URLSearchParams_toString (pre ++ (k, v) :: post))) = Some v.
Proof.
  intros Hpre Hk Hv.
  rewrite parseForm_fields by (destruct pre; discriminate).
  induction Hpre as [|[k' v'] pre [Hk' Hne] _ IH]; cbn [app map lookup fst snd].
  - rewrite (percentDecode_formEncode_ascii k Hk), jseqb_refl.
    now rewrite (percentDecode_formEncode_ascii v Hv).
  - cbn [fst snd] in Hk', Hne.
    rewrite (percentDecode_formEncode_ascii k' Hk'), Hne. exact IH.
Qed.

Lemma urlSafe_ascii (s : jsstring) : forallb isUrlSafeChar s = true -> isAscii s = true.
Proof.
  intros H. unfold isAscii. rewrite forallb_forall in *. intros c Hc.
  specialize (H c Hc). apply N.ltb_lt. unfold isUrlSafeChar, isAlnum in H.
  destruct (c <? 128) eqn:E; [apply N.ltb_lt; exact E|]. apply N.ltb_ge in E. exfalso.
  replace (c <=? 57) with false in H by (symmetry; apply N.leb_gt; lia).
  replace (c <=? 90) with false in H by (symmetry; apply N.leb_gt; lia).
  replace (c <=? 122) with false in H by (symmetry; apply N.leb_gt; lia).
  replace (c =? 45) with false in H by (symmetry; apply N.eqb_neq; lia).
  replace (c =? 95) with false in H by (symmetry; apply N.eqb_neq; lia).
  rewrite !andb_false_r in H. discriminate H.
Qed.

Lemma stateObject_clientId (r : AuthRequest) (v : jsstring) :
  getProp (js "clientId") (stateObject r v) = inr (Some (JStr (clientId r))).
Proof. reflexivity. Qed.

Lemma stateObject_codeVerifier (r : AuthRequest) (v : jsstring) :
  getProp (js "codeVerifier") (stateObject r v) = inr (Some (JStr v)).
Proof.
  unfold stateObject, AuthRequest_members, optMember. cbn [getProp].
  destruct (codeChallenge r), (codeChallengeMethod r); reflexivity.
Qed.

Ltac reads_token_body n Hascii :=
  try (destruct (isSet (KEYCLOAK_CLIENT_SECRET _)));
  unfold formBody; cbn [recordStrings app];
  rewrite ?ToString_envValue, ?ToString_strV, ?ToString_string; cbn [bindE];
  crunch; cbn [snd app]; do 3 eexists;
  (split; [reflexivity|]); (split; [reflexivity|]); (split; [reflexivity|]);
  (split; [reflexivity|]);
  (split; [ refine (formBody_lookup [] _ _ _ _ _ _); [constructor|reflexivity|reflexivity]
          | lazymatch n with
            | 4%nat => refine (formBody_lookup [_; _; _; _] _ _ _ _ _ _)
            | _ => refine (formBody_lookup [_; _; _; _; _] _ _ _ _ _ _)
            end;
            [repeat (constructor; [split; reflexivity|]); constructor
            |reflexivity|exact Hascii] ]).

(** A callback that is handed the state an authorize redirect encoded
    posts, as its first outbound call, a token request whose form body
    carries the verifier of that state. *)
Lemma callback_redeems_verifier (p : Provider) h (random : nat -> N) (w : World)
    (env : Env) (c : Request) (oauthReqInfo : AuthRequest)
    (verifier st url : jsstring) :
  callbackOf p = Some h ->
  generateCodeVerifier random = inr verifier ->
  encodeState oauthReqInfo verifier = inr st ->
  clientId oauthReqInfo <> [] ->
  req_query (js "state") c = Some st ->
  isSet (req_query (js "code") c) = true ->
  tokenEndpoint p env = Some url ->
  exists r rest body,
    snd (run (h w env c)) = Fetch r :: rest
    /\ fetch_method r = POST /\ fetch_url r = url
    /\ fetch_body r = Some body
    /\ lookup (js "grant_type") (parseForm body) = Some (js "authorization_code")
    /\ lookup (js "code_verifier") (parseForm body) = Some verifier.
Proof.
  intros Hh Hver Hst Hid Hq Hcode Hurl.
  assert (Hascii : isAscii verifier = true).
  { rewrite generateCodeVerifier_eq in Hver. apply inr_inj in Hver. rewrite <- Hver.
    apply urlSafe_ascii, base64url_nopad_safe. }
  clear Hver random.
  apply state_roundtrip in Hst.
  destruct p; inversion Hh; subst h; cbn [tokenEndpoint] in Hurl;
    open_handler; rewrite Hq; cbn [str]; rewrite Hst;
    rewrite stateObject_clientId, stateObject_codeVerifier;
    cbn [truthy]; destruct (clientId oauthReqInfo) as [|x cid]; try contradiction;
    cbn [negb]; rewrite Hcode; cbn [negb].
  - (* Google *)
    apply Some_inj in Hurl. rewrite <- Hurl. reads_token_body 5%nat Hascii.
  - (* Auth0 *)
    apply Some_inj in Hurl. rewrite <- Hurl. reads_token_body 5%nat Hascii.
  - (* Keycloak *)
    destruct (encodeURIComponent (str (KEYCLOAK_REALM env))) as [e|realm];
      [discriminate Hurl|].
    apply Some_inj in Hurl. rewrite <- Hurl. reads_token_body 4%nat Hascii.
  - (* Custom *)
    apply Some_inj in Hurl. rewrite <- Hurl. reads_token_body 4%nat Hascii.
Qed.

Lemma redirect_token_endpoint (p : Provider) redirect (random : nat -> N)
    (request : Request) (oauthReqInfo : AuthRequest) (env : Env)
    (headers : list (jsstring * jsstring)) (resp : Response) :
  redirectOf p = Some redirect ->
  redirect random request oauthReqInfo env headers = inr resp ->
  exists url, tokenEndpoint p env = Some url.
Proof.
  intros Hp Hred. destruct p; inversion Hp; subst redirect; cbn [tokenEndpoint];
    try (eexists; reflexivity).
  unfold KeycloakHandler.redirectToKeycloak in Hred.
  destruct (generateCodeVerifier random) as [e|v]; [discriminate Hred|].
  cbn [bindE] in Hred.
  destruct (generateCodeChallenge v) as [e|ch]; [discriminate Hred|].
  cbn [bindE] in Hred.
  destruct (encodeState oauthReqInfo v) as [e|st]; [discriminate Hred|].
  cbn [bindE] in Hred.
  destruct (isSet (KEYCLOAK_DOMAIN env)); [|discriminate Hred].
  destruct (isSet (KEYCLOAK_REALM env)); [|discriminate Hred].
  cbn [negb] in Hred.
  destruct (encodeURIComponent (str (KEYCLOAK_REALM env))); [discriminate Hred|].
  eexists. reflexivity.
Qed.

(** X3.  The PKCE pair is redeemed.  When a callback of one of the four
    handlers receives the [state] that the same handler's authorize
    redirect sent upstream, together with a [code], its first outbound call
    is the [POST] to the token endpoint, and the [code_verifier] of that
    form body is a verifier whose SHA-256 challenge is the [code_challenge]
    of the authorize URL. *)
Theorem X3_pkce_pair_is_redeemed (p : Provider) redirect h (random : nat -> N)
    (w : World) (env : Env) (request c : Request) (oauthReqInfo : AuthRequest)
    (headers hdrs : list (jsstring * jsstring)) (location : jsstring) :
  redirectOf p = Some redirect ->
  callbackOf p = Some h ->
  includesChar 63 (upstreamHost p env) = false ->
  clientId oauthReqInfo <> [] ->
  redirect random request oauthReqInfo env headers = inr (Redirect location hdrs) ->
  req_query (js "state") c = lookup (js "state") (parseQuery location) ->
  isSet (req_query (js "code") c) = true ->
  exists r rest body verifier challenge,
    snd (run (h w env c)) = Fetch r :: rest
    /\ tokenRequest p env r
    /\ fetch_body r = Some body
    /\ lookup (js "code_verifier") (parseForm body) = Some verifier
    /\ lookup (js "code_challenge") (parseQuery location) = Some challenge
    /\ generateCodeChallenge verifier = inr challenge.
Proof.
  intros Hp Hh Hhost Hid Hred Hstate Hcode.
  destruct (redirect_token_endpoint _ _ _ _ _ _ _ _ Hp Hred) as [url Hurl].
  pose proof (generateCodeVerifier_eq random) as Hver.
  pose proof (generateCodeChallenge_eq (base64url_nopad (Uint8Array 32 random))) as Hchal.
  pose proof (base64url_nopad_safe
                (SHA256.digest (TextEncoder_encode (base64url_nopad (Uint8Array 32 random)))))
    as Hsafe.
  revert Hver Hchal Hsafe.
  generalize (base64url_nopad
                (SHA256.digest (TextEncoder_encode (base64url_nopad (Uint8Array 32 random)))))
    as challenge.
  generalize (base64url_nopad (Uint8Array 32 random)) as verifier.
  intros verifier challenge Hver Hchal Hsafe.
  assert (Hq : readsAuthorizeQuery p env oauthReqInfo verifier challenge location).
  { destruct p; inversion Hp; subst redirect.
    - eapply redirectToGoogle_query; eauto.
    - eapply redirectToAuth0_query; eauto.
    - eapply redirectToKeycloak_query; eauto.
    - eapply redirectToCustomOAuth_query; eauto. }
  destruct Hq as (st & extra & a & b & d & Hst & _ & Hq).
  rewrite Hq in Hstate. change (req_query (js "state") c = Some st) in Hstate.
  destruct (callback_redeems_verifier p h random w env c oauthReqInfo verifier st url
              Hh Hver Hst Hid Hstate Hcode Hurl)
    as (r & rest & body & Htr & Hm & Hu & Hb & _ & Hcv).
  exists r, rest, body, verifier, challenge.
  split; [exact Htr|]. split; [split; [exact Hm|now rewrite Hu]|].
  split; [exact Hb|]. split; [exact Hcv|]. split; [|exact Hchal].
  rewrite Hq. reflexivity.
Qed.

Lemma X3_witness :
  exists r rest body verifier challenge,
    snd (run (GoogleHandler.callback (constWorld tokenDenied) noEnv returningCallback))
    = Fetch r :: rest
    /\ tokenRequest Google noEnv r
    /\ fetch_body r = Some body
    /\ lookup (js "code_verifier") (parseForm body) = Some verifier
    /\ lookup (js "code_challenge") (parseQuery sampleLocation) = Some challenge
    /\ generateCodeChallenge verifier = inr challenge.
Proof.
  apply (X3_pkce_pair_is_redeemed Google GoogleHandler.redirectToGoogle
           GoogleHandler.callback sampleRandom (constWorld tokenDenied) noEnv
           (getRequest "/google/authorize" [] []) returningCallback sampleAuthRequest
           [] [] sampleLocation).
  - reflexivity.
  - reflexivity.
  - reflexivity.
  - discriminate.
  - vm_compute. reflexivity.
  - vm_compute. reflexivity.
  - reflexivity.
Defined.

(** ** What a callback does, whatever the upstream answers *)

Lemma getProp_truthy (k : jsstring) (v : JsValue) (x : option JsValue) :
  getProp k v = inr x -> truthy x = true ->
  exists ms, v = JObj ms /\ truthy (lookup k ms) = true.
Proof.
  destruct v; cbn [getProp]; intros H Ht; try discriminate H;
    try (injection H as <-; discriminate Ht).
  injection H as <-. eauto.
Qed.

(** X4.  Whatever the request, the environment and the answers of the
    upstream, the outbound calls of a callback are, in this order and at
    most: one [POST] to the token endpoint, one [GET] to the userinfo
    endpoint, one completion of the authorization.  None is made unless the
    request has a [code] and a [state] that decodes to an object with a
    [clientId]. *)
Theorem X4_callback_trace (p : Provider) h (w : World) (env : Env) (c : Request) :
  callbackOf p = Some h ->
  callbackTrace p env (snd (run (h w env c)))
  /\ (snd (run (h w env c)) <> [] ->
      isSet (req_query (js "code") c) = true
      /\ exists members, validState c members).
Proof.
  intros Hh. unfold validState.
  destruct p; inversion Hh; subst h; open_handler; crunch;
    cbn [snd app callbackTrace].
  all: split; [try exact I|].
  all: try (intros Hne; exfalso; apply Hne; reflexivity).
  all: try (intros _; split; [apply negb_false_iff; assumption|];
            match goal with
            | H1 : getProp (js "clientId") ?v = inr ?x,
              H2 : negb (truthy ?x) = false |- _ =>
                apply negb_false_iff in H2;
                destruct (getProp_truthy _ _ _ H1 H2) as [ms [-> Hms]];
                exists ms; split; [reflexivity|exact Hms]
            end).
  all: unfold tokenRequest, userinfoRequest, tokenEndpoint, userinfoEndpoint;
    cbn [fetch_method fetch_url fetch_body];
    repeat match goal with H : encodeURIComponent _ = _ |- _ => rewrite H end;
    auto.
Qed.

Lemma X4_witness :
  callbackTrace Google noEnv
    (snd (run (GoogleHandler.callback (constWorld tokenDenied) noEnv
                 (sampleCallback "/google/callback"))))
  /\ (snd (run (GoogleHandler.callback (constWorld tokenDenied) noEnv
                  (sampleCallback "/google/callback"))) <> [] ->
      isSet (req_query (js "code") (sampleCallback "/google/callback")) = true
      /\ exists members, validState (sampleCallback "/google/callback") members).
Proof.
  apply (X4_callback_trace Google GoogleHandler.callback (constWorld tokenDenied) noEnv
           (sampleCallback "/google/callback")).
  reflexivity.
Defined.

(** X5.  Whatever the upstream answers, a callback that responds answers
    a text with status 400 or 500, or else a redirect without further
    headers, after the token request, the userinfo request and the
    completion of the authorization: the address the completion returned is
    an absolute URL, and the redirect goes to its serialisation, nowhere
    else. *)
Theorem X5_callback_response (p : Provider) h (w : World) (env : Env) (c : Request)
    (r : Response) (tr : list Effect) :
  callbackOf p = Some h ->
  run (h w env c) = (Responds r, tr) ->
  handlerResponse w r tr.
Proof.
  intros Hh.
  destruct p; inversion Hh; subst h; open_handler; unfold Response_redirect; crunch;
    intros Hrun; inversion Hrun; subst; cbn [handlerResponse app]; auto.
  all: split; [reflexivity|]; do 4 eexists; split; [reflexivity|split; eassumption].
Qed.

Lemma X5_witness :
  exists r1 r2 o,
    handlerResponse
      (scriptedWorld tokenOk (JObj [(js "email", JStr (js "john.doe@gmail.com"))]))
      (Redirect (js "https://app.example/cb?code=minted") [])
      [Fetch r1; Fetch r2; CompleteAuthorization o].
Proof.
  do 3 eexists.
  apply (X5_callback_response Google GoogleHandler.callback
           (scriptedWorld tokenOk (JObj [(js "email", JStr (js "john.doe@gmail.com"))]))
           noEnv (sampleCallback "/google/callback")).
  - reflexivity.
  - vm_compute. reflexivity.
Defined.

(** X6.  A [state] that decodes to a value without a truthy [clientId]
    (an empty object, an array, a number, a string) gets the 400 answer
    "Invalid state" before anything else is looked at, and no outbound
    call; a [state] that decodes to [null] ends the callback in an uncaught
    [TypeError] instead. *)
Theorem X6_invalid_state (p : Provider) h (w : World) (env : Env) (c : Request)
    (stateData : JsValue) (cid : option JsValue) :
  callbackOf p = Some h ->
  decodeState (str (req_query (js "state") c)) = inr stateData ->
  (stateData = JNull -> run (h w env c) = (Uncaught TypeError, []))
  /\ (getProp (js "clientId") stateData = inr cid -> truthy cid = false ->
      run (h w env c) = (Responds (Text (js "Invalid state") 400), [])).
Proof.
  intros Hh Hst. split.
  - intros ->. destruct p; inversion Hh; subst h; open_handler; rewrite Hst; reflexivity.
  - intros Hid Ht.
    destruct p; inversion Hh; subst h; open_handler; rewrite Hst, Hid, Ht; reflexivity.
Qed.

Lemma X6_witness :
  run (KeycloakHandler.callback (constWorld tokenOk) keycloakEnv
         (getRequest "/keycloak/callback" (js "?code=abc&state=e30=")
            [(js "code", js "abc"); (js "state", emptyObjectState)]))
  = (Responds (Text (js "Invalid state") 400), []).
Proof.
  apply (X6_invalid_state Keycloak KeycloakHandler.callback (constWorld tokenOk)
           keycloakEnv
           (getRequest "/keycloak/callback" (js "?code=abc&state=e30=")
              [(js "code", js "abc"); (js "state", emptyObjectState)])
           (JObj []) None).
  - reflexivity.
  - vm_compute. reflexivity.
  - reflexivity.
  - reflexivity.
Defined.

Ltac finish_token :=
  cbn [app]; eexists;
  (split; [reflexivity|]);
  unfold tokenRequest, tokenEndpoint; cbn [fetch_method fetch_url];
  repeat match goal with H : encodeURIComponent _ = _ |- _ => rewrite H end;
  auto.

(** Up to the token request: the state is read, the code is there, the
    form is written. *)
Ltac post_token Hst Hid Hcode Hrealm Hver :=
  enter_handler Hst Hid; rewrite Hcode; cbn [negb]; try rewrite Hrealm;
  try (destruct (isSet (KEYCLOAK_CLIENT_SECRET _)));
  write_form Hver.


(** The forged states: a [clientId] that is zero as a double is no
    [clientId], and the callback answers "Invalid state"; a [codeVerifier]
    that does not convert stops the Google callback in the [catch] of its
    token exchange, before any call. *)
Example forged_states :
  run (GoogleHandler.callback (constWorld tokenOk) noEnv
         (forgedCallback "/google/callback" tinyClientState))
  = (Responds (Text (js "Invalid state") 400), [])
  /\ run (GoogleHandler.callback (constWorld tokenOk) noEnv
            (forgedCallback "/google/callback" stubbornVerifierState))
     = (Responds (Text (js "Network error during authentication. Please try again.") 500),
        []).
Proof. vm_compute. split; reflexivity. Qed.


(** X8.  When the token request fails in transit (the [fetch] rejects), or
    the token endpoint answers 2xx with a body that is not JSON, the
    callback answers a 500 text: the error does not escape, and the token
    request is the only outbound call.  The state is one whose
    [codeVerifier] the form of the token request can carry. *)
Theorem X8_token_exchange_failure (p : Provider) h (w : World) (env : Env) (c : Request)
    (members : list (jsstring * JsValue)) :
  callbackOf p = Some h ->
  redeemableState c members ->
  isSet (req_query (js "code") c) = true ->
  tokenEndpoint p env <> None ->
  (forall r, fetch_method r = POST ->
     (exists e, fetch w r = inl e)
     \/ (exists resp e, fetch w r = inr resp /\ ok resp = true /\ json resp = inl e)) ->
  exists body r,
    run (h w env c) = (Responds (Text body 500), [Fetch r])
    /\ tokenRequest p env r.
Proof.
  intros Hh [[Hst Hid] [verifier Hver]] Hcode Hurl Hw.
  destruct p; inversion Hh; subst h; cbn [tokenEndpoint] in Hurl;
    try (destruct (encodeURIComponent (str (KEYCLOAK_REALM env))) as [e|realm] eqn:Hrealm;
         [contradiction|]);
    post_token Hst Hid Hcode Hrealm Hver;
    match goal with
    | |- context [fetch w ?r] =>
        destruct (Hw r eq_refl) as [[e He]|(resp & e & He & Hok & Hj)]; rewrite He
    end;
    rewrite ?Hok; cbn [negb]; rewrite ?Hj; crunch; eexists; finish_token.
Qed.

Lemma X8_witness :
  exists body r,
    run (CustomOAuthHandler.callback
           (answeringWorld (inl (Rejected (js "TypeError") (js "fetch failed")))
              (inr tokenOk))
           noEnv (sampleCallback "/custom/callback"))
    = (Responds (Text body 500), [Fetch r])
    /\ tokenRequest Custom noEnv r.
Proof.
  apply (X8_token_exchange_failure Custom CustomOAuthHandler.callback
           (answeringWorld (inl (Rejected (js "TypeError") (js "fetch failed")))
              (inr tokenOk))
           noEnv (sampleCallback "/custom/callback") sampleMembers).
  - reflexivity.
  - split; [split; [vm_compute; reflexivity|reflexivity]|].
    exists sampleVerifier. reflexivity.
  - reflexivity.
  - discriminate.
  - intros r Hr. left. eexists. cbn [answeringWorld fetch]. rewrite Hr. reflexivity.
Defined.

Ltac finish_both :=
  cbn [app]; do 2 eexists;
  (split; [reflexivity|]);
  unfold tokenRequest, userinfoRequest, tokenEndpoint, userinfoEndpoint;
  cbn [fetch_method fetch_url fetch_body fetch_headers];
  repeat match goal with H : encodeURIComponent _ = _ |- _ => rewrite H end;
  auto 6.

(** X9.  When the token exchange succeeds but the userinfo request fails
    (in transit, with a status outside 2xx, or with a body that is not
    JSON), the callback answers a 500 text and does not complete the
    authorization; the userinfo request carried, after "Bearer ", the text
    of the access token.  The state is one whose [codeVerifier] the form of
    the token request can carry, and the access token one that converts to
    a string. *)
Theorem X9_userinfo_failure (p : Provider) h (w : World) (env : Env) (c : Request)
    (members : list (jsstring * JsValue)) (tresp : HttpResponse)
    (tokenData : JsValue) (tok : option JsValue) (token : jsstring) :
  callbackOf p = Some h ->
  redeemableState c members ->
  isSet (req_query (js "code") c) = true ->
  tokenEndpoint p env <> None ->
  (forall r, fetch_method r = POST -> fetch w r = inr tresp) ->
  ok tresp = true -> json tresp = inr tokenData ->
  getProp (js "access_token") tokenData = inr tok -> truthy tok = true ->
  ToString tok = inr token ->
  (forall r, fetch_method r = GET ->
     (exists e, fetch w r = inl e)
     \/ (exists resp, fetch w r = inr resp
                      /\ (ok resp = false \/ exists e, json resp = inl e))) ->
  exists body r1 r2,
    run (h w env c) = (Responds (Text body 500), [Fetch r1; Fetch r2])
    /\ tokenRequest p env r1 /\ userinfoRequest p env r2
    /\ lookup (js "Authorization") (fetch_headers r2) = Some (js "Bearer " ++ token).
Proof.
  intros Hh [[Hst Hid] [verifier Hver]] Hcode Hurl Hw Hok Hj Htok Ht Htoken Hu.
  destruct p; inversion Hh; subst h; cbn [tokenEndpoint] in Hurl;
    try (destruct (encodeURIComponent (str (KEYCLOAK_REALM env))) as [e|realm] eqn:Hrealm;
         [contradiction|]);
    post_token Hst Hid Hcode Hrealm Hver;
    rewrite Hw by reflexivity; rewrite Hok; cbn [negb]; rewrite Hj, Htok, Ht; cbn [negb];
    unfold bearer; rewrite Htoken; cbn [bindE];
    match goal with
    | |- context [fetch w ?r] =>
        destruct (Hu r eq_refl) as [[e He]|(resp & He & [Hno|[e Hje]])]; rewrite He
    end;
    rewrite ?Hno; cbn [negb]; crunch; rewrite ?Hje in *; try discriminate;
    eexists; finish_both.
Qed.

Lemma X9_witness :
  exists body r1 r2,
    run (GoogleHandler.callback (answeringWorld (inr tokenOk) (inr tokenDenied)) noEnv
           (sampleCallback "/google/callback"))
    = (Responds (Text body 500), [Fetch r1; Fetch r2])
    /\ tokenRequest Google noEnv r1 /\ userinfoRequest Google noEnv r2
    /\ lookup (js "Authorization") (fetch_headers r2) = Some (js "Bearer tok-1").
Proof.
  apply (X9_userinfo_failure Google GoogleHandler.callback
           (answeringWorld (inr tokenOk) (inr tokenDenied)) noEnv
           (sampleCallback "/google/callback") sampleMembers tokenOk
           (JObj [(js "access_token", JStr (js "tok-1"))]) (Some (JStr (js "tok-1")))
           (js "tok-1")).
  - reflexivity.
  - split; [split; [vm_compute; reflexivity|reflexivity]|].
    exists sampleVerifier. reflexivity.
  - reflexivity.
  - discriminate.
  - intros r Hr. cbn [answeringWorld fetch]. rewrite Hr. reflexivity.
  - reflexivity.
  - reflexivity.
  - reflexivity.
  - reflexivity.
  - reflexivity.
  - intros r Hr. right. exists tokenDenied. cbn [answeringWorld fetch]. rewrite Hr.
    split; [reflexivity|left; reflexivity].
Defined.

(** ** The identity of Auth0 and of the generic OAuth server *)

Lemma auth0_loginOf_strings (nickname email sub : option jsstring) :
  Auth0Handler.loginOf (option_map JStr nickname) (option_map JStr email)
    (option_map JStr sub)
  = match auth0Login nickname email sub with
    | Some l => inr (Some (JStr l))
    | None => inl TypeError
    end.
Proof.
  unfold Auth0Handler.loginOf, auth0Login, localPart, subTail.
  destruct nickname as [[|a n]|]; cbn [option_map truthy nonEmpty]; try reflexivity;
    (destruct email as [e|]; cbn [option_map optSplitFirst splitFirst bindE orElse];
     [ destruct (hd [] (split 64 e)) as [|x l]; cbn [truthy nonEmpty]; try reflexivity |];
     (destruct sub as [s|]; cbn [option_map splitSecond bindE]; [|reflexivity];
      destruct (split 124 s) as [|s0 [|[|y t] r]]; reflexivity)).
Qed.

(** Up to the userinfo payload: both upstream calls are made and
    answered. *)
Ltac read_payload Hst Hid Hcode Hver Hpost Hok1 Hj1 Htok Htruthy Hbearer Hget Hok2 Hj2 :=
  enter_handler Hst Hid; rewrite Hcode; cbn [negb];
  write_form Hver;
  rewrite Hpost by reflexivity;
  rewrite Hok1; cbn [negb]; rewrite Hj1, Htok, Htruthy; cbn [negb];
  rewrite Hbearer;
  rewrite Hget by reflexivity;
  rewrite Hok2; cbn [negb]; rewrite Hj2; cbn [getProp].

(** X10.  For an Auth0 userinfo payload whose [nickname], [email] and
    [sub] are strings or absent, the login handed to the session issuer is
    the first that is present and not empty of [nickname], the local part
    of [email] and the second of the segments of [sub] cut at [|], else
    "unknown"; but when neither [nickname] nor the local part of [email]
    serves and [sub] is absent, the callback ends in an uncaught
    [TypeError] after the two upstream calls, without completing the
    authorization. *)
Theorem X10_auth0_login (w : World) (env : Env) (c : Request)
    (members payload : list (jsstring * JsValue))
    (nickname email sub : option jsstring) :
  redeemableState c members ->
  isSet (req_query (js "code") c) = true ->
  upstreamSucceeds w payload ->
  auth0Fields payload nickname email sub ->
  match auth0Login nickname email sub with
  | Some login =>
      exists r1 r2 o,
        snd (run (Auth0Handler.callback w env c))
        = [Fetch r1; Fetch r2; CompleteAuthorization o]
        /\ userId o = Some (JStr login)
        /\ lookup (js "login") (props o) = Some (Some (JStr login))
  | None =>
      exists r1 r2,
        run (Auth0Handler.callback w env c) = (Uncaught TypeError, [Fetch r1; Fetch r2])
  end.
Proof.
  intros [[Hst Hid] [verifier Hver]] Hcode
    (tresp & tokenData & tok & authorization & uresp
     & Hpost & Hok1 & Hj1 & Htok & Htruthy & Hbearer & Hget & Hok2 & Hj2)
    (Hn & Hem & Hsub).
  pose proof (auth0_loginOf_strings nickname email sub) as Hlogin.
  rewrite <- Hn, <- Hem, <- Hsub in Hlogin.
  read_payload Hst Hid Hcode Hver Hpost Hok1 Hj1 Htok Htruthy Hbearer Hget Hok2 Hj2.
  rewrite Hlogin.
  destruct (auth0Login nickname email sub) as [login|].
  - match goal with
    | |- context [completeAuthorization w ?o] =>
        destruct (completeAuthorization w o) as [err|target];
          [|destruct (Response_redirect w target)];
          (eexists; eexists; exists o; split; [reflexivity|split; reflexivity])
    end.
  - do 2 eexists. reflexivity.
Qed.

Lemma X10_witness :
  (exists r1 r2 o,
     snd (run (Auth0Handler.callback
                 (scriptedWorld tokenOk (JObj [(js "sub", JStr (js "auth0|abc123"))]))
                 noEnv (sampleCallback "/auth0/callback")))
     = [Fetch r1; Fetch r2; CompleteAuthorization o]
     /\ userId o = Some (JStr (js "abc123"))
     /\ lookup (js "login") (props o) = Some (Some (JStr (js "abc123"))))
  /\ (exists r1 r2,
        run (Auth0Handler.callback (scriptedWorld tokenOk (JObj [])) noEnv
               (sampleCallback "/auth0/callback"))
        = (Uncaught TypeError, [Fetch r1; Fetch r2])).
Proof.
  split.
  - apply (X10_auth0_login
             (scriptedWorld tokenOk (JObj [(js "sub", JStr (js "auth0|abc123"))]))
             noEnv (sampleCallback "/auth0/callback") sampleMembers
             [(js "sub", JStr (js "auth0|abc123"))] None None (Some (js "auth0|abc123"))).
    + split; [split; [vm_compute; reflexivity|reflexivity]|].
      exists sampleVerifier. reflexivity.
    + reflexivity.
    + apply scripted_succeeds.
    + repeat split.
  - apply (X10_auth0_login (scriptedWorld tokenOk (JObj [])) noEnv
             (sampleCallback "/auth0/callback") sampleMembers [] None None None).
    + split; [split; [vm_compute; reflexivity|reflexivity]|].
      exists sampleVerifier. reflexivity.
    + reflexivity.
    + apply scripted_succeeds.
    + repeat split.
Defined.

(** X11.  For a userinfo payload of the generic OAuth server whose
    [username] and [user_id] are strings or absent, and whose [scope] can
    be written (it is no array, or an array whose elements convert to
    strings), the identity handed to the session issuer is built from the
    first of the two that is present and not empty: it is the login (else
    "demo_user") and the display name (else "Demo User"), the e-mail
    address is the login followed by "@custom-oauth.local", the scope is
    that of the payload, an array joined by spaces, and the provider is
    "custom-oauth". *)
Theorem X11_custom_identity (w : World) (env : Env) (c : Request)
    (members payload : list (jsstring * JsValue)) (username user_id : option jsstring)
    (joinedScope : option JsValue) :
  redeemableState c members ->
  isSet (req_query (js "code") c) = true ->
  upstreamSucceeds w payload ->
  customFields payload username user_id ->
  CustomOAuthHandler.scopeProp (lookup (js "scope") payload) = inr joinedScope ->
  let login := orString (customIdentity username user_id) "demo_user" in
  exists r1 r2 o,
    snd (run (CustomOAuthHandler.callback w env c))
    = [Fetch r1; Fetch r2; CompleteAuthorization o]
    /\ userId o = Some (JStr login)
    /\ lookup (js "login") (props o) = Some (Some (JStr login))
    /\ lookup (js "email") (props o)
       = Some (Some (JStr (login ++ js "@custom-oauth.local")))
    /\ lookup (js "name") (props o)
       = Some (Some (JStr (orString (customIdentity username user_id) "Demo User")))
    /\ lookup (js "scope") (props o) = Some joinedScope
    /\ lookup (js "provider") (props o) = Some (Some (JStr (js "custom-oauth")))
    /\ metadata_label o
       = Some (JStr (orString (customIdentity username user_id) "Demo User")).
Proof.
  intros [[Hst Hid] [verifier Hver]] Hcode
    (tresp & tokenData & tok & authorization & uresp
     & Hpost & Hok1 & Hj1 & Htok & Htruthy & Hbearer & Hget & Hok2 & Hj2)
    (Hn & Hu) Hscope. cbv zeta.
  read_payload Hst Hid Hcode Hver Hpost Hok1 Hj1 Htok Htruthy Hbearer Hget Hok2 Hj2.
  rewrite Hn, Hu, Hscope.
  destruct username as [[|a u]|], user_id as [[|b i]|];
    cbn [option_map orElse truthy CustomOAuthHandler.localEmail ToString toStr bindE strV];
    match goal with
    | |- context [completeAuthorization w ?o] =>
        destruct (completeAuthorization w o) as [err|target];
          [|destruct (Response_redirect w target)];
          (eexists; eexists; exists o; split; [reflexivity|]); repeat split
    end.
Qed.

(** A numeric [user_id] is printed as the engine prints the double. *)
Example custom_numeric_user_id :
  exists r1 r2 o,
    snd (run (CustomOAuthHandler.callback
                (scriptedWorld tokenOk (JObj [(js "user_id", JNum 1234567890123456789 0)]))
                noEnv (sampleCallback "/custom/callback")))
    = [Fetch r1; Fetch r2; CompleteAuthorization o]
    /\ userId o = Some (JNum 1234567890123456789 0)
    /\ lookup (js "email") (props o)
       = Some (Some (JStr (js "1234567890123456800@custom-oauth.local"))).
Proof. do 3 eexists. vm_compute. repeat split. Qed.

Lemma X11_witness :
  exists r1 r2 o,
    snd (run (CustomOAuthHandler.callback
                (scriptedWorld tokenOk
                   (JObj [(js "user_id", JStr (js "u-17"));
                          (js "scope", JArr [JStr (js "read"); JStr (js "write")])]))
                noEnv (sampleCallback "/custom/callback")))
    = [Fetch r1; Fetch r2; CompleteAuthorization o]
    /\ userId o = Some (JStr (js "u-17"))
    /\ lookup (js "email") (props o) = Some (Some (JStr (js "u-17@custom-oauth.local")))
    /\ lookup (js "scope") (props o) = Some (Some (JStr (js "read write"))).
Proof.
  destruct (X11_custom_identity
              (scriptedWorld tokenOk
                 (JObj [(js "user_id", JStr (js "u-17"));
                        (js "scope", JArr [JStr (js "read"); JStr (js "write")])]))
              noEnv (sampleCallback "/custom/callback") sampleMembers
              [(js "user_id", JStr (js "u-17"));
               (js "scope", JArr [JStr (js "read"); JStr (js "write")])]
              None (Some (js "u-17")) (Some (JStr (js "read write"))))
    as (r1 & r2 & o & Htr & Hid & _ & Hem & _ & Hsc & _).
  - split; [split; [vm_compute; reflexivity|reflexivity]|].
    exists sampleVerifier. reflexivity.
  - reflexivity.
  - apply scripted_succeeds.
  - repeat split.
  - reflexivity.
  - exists r1, r2, o. repeat split; assumption.
Defined.

(** ** The root handlers, whatever the configuration *)

Ltac destruct_flag b :=
  innermost b;
  lazymatch type of b with
  | bool => destruct b eqn:?
  | option _ => destruct b eqn:?
  end.

Ltac split_bools :=
  repeat match goal with
    | |- context [match ?b with _ => _ end] => destruct_flag b
    | H : context [match ?b with _ => _ end] |- _ =>
        innermost b;
        lazymatch type of b with
        | bool => destruct b eqn:?
        end
    end.

Lemma configuredProviders_filter (env : Env) :
  configuredProviders env
  = map (fun p => (js (providerName p), js (providerPrefix p)))
        (filter (configured env) allProviders).
Proof.
  unfold configuredProviders, allProviders. cbn [filter configured].
  destruct (isSet (GITHUB_CLIENT_ID env)), (isSet (GOOGLE_CLIENT_ID env)),
    (isSet (AUTH0_DOMAIN env) && isSet (AUTH0_CLIENT_ID env)),
    (isSet (KEYCLOAK_DOMAIN env) && isSet (KEYCLOAK_CLIENT_ID env)),
    (isSet (CUSTOM_OAUTH_URL env)); reflexivity.
Qed.

Lemma dispatch_authorize (o : jsstring) (p : Provider) :
  dispatch Index.authRouter (getPath o (js (providerPrefix p) ++ js "/authorize"))
  = Some (ProviderAuthorize p)
  /\ dispatch IndexSentry.authRouter (getPath o (js (providerPrefix p) ++ js "/authorize"))
     = Some (ProviderAuthorize p).
Proof. destruct p; split; vm_compute; reflexivity. Qed.

Lemma dispatch_callback (o : jsstring) (p : Provider) :
  dispatch Index.authRouter (getPath o (js (providerPrefix p) ++ js "/callback"))
  = Some (ProviderCallback p).
Proof. destruct p; vm_compute; reflexivity. Qed.

(** X12.  The shared [/callback] of [index.ts] never sends the browser
    off the gateway: whatever the query and the configuration, it answers
    a 400 text or a redirect to [/<provider>/callback] on the origin of
    the request, with the query of the request unchanged, for one of the
    five providers; and that path is served by that provider's callback
    route. *)
Theorem X12_rootCallback_confined (env : Env) (c : Request) :
  (exists body, rootCallback env c = Text body 400)
  \/ (exists p,
        rootCallback env c
        = Redirect (origin c ++ js (providerPrefix p) ++ js "/callback" ++ URL_search c) []
        /\ dispatch Index.authRouter
             (getPath (origin c) (js (providerPrefix p) ++ js "/callback"))
           = Some (ProviderCallback p)).
Proof.
  assert (H : (exists body, rootCallback env c = Text body 400)
              \/ (exists p, rootCallback env c
                    = Redirect (origin c ++ js (providerPrefix p) ++ js "/callback"
                                ++ URL_search c) [])).
  { unfold rootCallback. rewrite configuredProviders_filter.
    unfold allProviders. cbn [filter configured].
    split_bools;
      first [ left; eexists; reflexivity
            | right; exists GitHub; reflexivity
            | right; exists Google; reflexivity
            | right; exists Auth0; reflexivity
            | right; exists Keycloak; reflexivity
            | right; exists Custom; reflexivity ]. }
  destruct H as [H|[p H]]; [left; exact H|right].
  exists p. split; [exact H|apply dispatch_callback].
Qed.

(** X13.  With exactly one provider configured, a callback that has a
    [code] and none of the hints the shared [/callback] looks for (no
    [iss], no [scope], no [authuser]) is sent on to that provider, whatever
    the length of the code. *)
Theorem X13_rootCallback_single_provider (env : Env) (c : Request) (p : Provider) :
  configuredProviders env = [(js (providerName p), js (providerPrefix p))] ->
  isSet (req_query (js "code") c) = true ->
  isSet (req_query (js "iss") c) = false ->
  isSet (req_query (js "scope") c) = false ->
  req_query (js "authuser") c = None ->
  rootCallback env c
  = Redirect (origin c ++ js (providerPrefix p) ++ js "/callback" ++ URL_search c) [].
Proof.
  intros Hp Hcode Hiss Hscope Hau.
  unfold rootCallback. rewrite Hp, Hcode, Hiss, Hscope, Hau.
  cbn [negb andb map snd]. rewrite ?andb_false_r.
  unfold configuredProviders in Hp.
  split_bools;
    try match goal with
      | H : _ && false = true |- _ => rewrite andb_false_r in H; discriminate H
      end;
    try discriminate Hp; destruct p; try discriminate Hp; reflexivity.
Qed.

Lemma X13_witness :
  rootCallback keycloakEnv (getRequest "/callback" (js "?code=abc") [(js "code", js "abc")])
  = Redirect (js "https://gateway.example/keycloak/callback?code=abc") [].
Proof.
  apply (X13_rootCallback_single_provider keycloakEnv
           (getRequest "/callback" (js "?code=abc") [(js "code", js "abc")]) Keycloak);
    reflexivity.
Defined.

Lemma split_pieces_plain (c : N) (s : jsstring) :
  Forall (fun p => includesChar c p = false) (split c s).
Proof.
  induction s as [|x s IH]; cbn [split].
  - constructor; [reflexivity|constructor].
  - destruct (x =? c) eqn:E.
    + constructor; [reflexivity|exact IH].
    + destruct (split c s) as [|q qs].
      * constructor; [|constructor]. unfold includesChar. cbn [existsb].
        now rewrite N.eqb_sym, E.
      * inversion IH as [|? ? Hq Hqs]; subst. constructor; [|assumption].
        unfold includesChar in *. cbn [existsb]. now rewrite N.eqb_sym, E.
Qed.

Lemma queryStringOf_plain (url : jsstring) : includesChar 63 (queryStringOf url) = false.
Proof.
  unfold queryStringOf. destruct (includesChar 63 url); [|reflexivity].
  pose proof (split_pieces_plain 63 url) as H.
  destruct (split 63 url) as [|a [|b l]]; try reflexivity.
  cbn [nth]. inversion H as [|? ? _ H']. now inversion H'.
Qed.

(** X14.  The root [/authorize] offers the configured providers and no
    other: with none it answers the 500 text; with one, a redirect to that
    provider's [/authorize], followed by [?] and the query string when
    there is one; with several, the selection page with one link per
    configured provider, in the fixed order GitHub, Google, Auth0,
    Keycloak, Custom OAuth.  The query string it passes on holds no [?],
    and every such path is served, in both entry points, by the [GET
    /authorize] route of the provider. *)
Theorem X14_rootAuthorize_offers_configured (env : Env) (c : Request) :
  let queryString := queryStringOf (req_url c) in
  includesChar 63 queryString = false
  /\ match filter (configured env) allProviders with
     | [] =>
         rootAuthorize env c
         = Text (js "No OAuth providers configured. Please check your environment variables.") 500
     | [p] =>
         rootAuthorize env c
         = Redirect (js (providerPrefix p) ++ js "/authorize"
                     ++ match queryString with [] => [] | _ => 63 :: queryString end) []
     | ps => rootAuthorize env c = SelectionPage (selectionLinks queryString ps)
     end
  /\ forall p,
       dispatch Index.authRouter
         (getPath (origin c) (js (providerPrefix p) ++ js "/authorize"))
       = Some (ProviderAuthorize p)
       /\ dispatch IndexSentry.authRouter
            (getPath (origin c) (js (providerPrefix p) ++ js "/authorize"))
          = Some (ProviderAuthorize p).
Proof.
  cbv zeta. split; [apply queryStringOf_plain|]. split.
  - unfold rootAuthorize. rewrite configuredProviders_filter.
    unfold allProviders. cbn [filter configured].
    destruct (isSet (GITHUB_CLIENT_ID env)), (isSet (GOOGLE_CLIENT_ID env)),
      (isSet (AUTH0_DOMAIN env) && isSet (AUTH0_CLIENT_ID env)),
      (isSet (KEYCLOAK_DOMAIN env) && isSet (KEYCLOAK_CLIENT_ID env)),
      (isSet (CUSTOM_OAUTH_URL env)); cbn [map snd fst]; try reflexivity.
  - intros p. apply dispatch_authorize.
Qed.

(** ** When the authorize redirect is issued *)

Lemma isBytes_app (a b : jsstring) : isBytes (a ++ b) = isBytes a && isBytes b.
Proof. apply forallb_app. Qed.

Lemma isBytes_cons (c : N) (s : jsstring) :
  (c <=? 255) = true -> isBytes (c :: s) = isBytes s.
Proof. intros H. unfold isBytes. cbn [forallb]. now rewrite H. Qed.

Lemma hexdigit_byte (n : N) : n < 16 -> (hexdigit n <=? 255) = true.
Proof. intros H. unfold hexdigit. apply N.leb_le. destruct (n <? 10); lia. Qed.

Lemma hex4_bytes (c : N) : c <= 255 -> isBytes (hex4 c) = true.
Proof.
  intros Hc. unfold hex4, isBytes. cbn [forallb].
  rewrite !hexdigit_byte; try reflexivity; try (apply N.mod_lt; lia).
  apply N.Div0.div_lt_upper_bound. lia.
Qed.

Lemma escapeUnit_bytes (c : N) : c <= 255 -> isBytes (escapeUnit c) = true.
Proof.
  intros Hc. unfold escapeUnit.
  repeat match goal with
    | |- context [if ?b then _ else _] => destruct b; [reflexivity|]
    end.
  destruct (c <? 32).
  - rewrite isBytes_app, hex4_bytes by exact Hc. reflexivity.
  - unfold isBytes. cbn [forallb]. rewrite andb_true_r. now apply N.leb_le.
Qed.

Lemma quoteBody_bytes (s : jsstring) : isBytes s = true -> isBytes (quoteBody s) = true.
Proof.
  unfold isBytes at 1. induction s as [|c s IH]; intros H; [reflexivity|].
  cbn [forallb] in H. apply andb_true_iff in H. destruct H as [Hc Hs].
  apply N.leb_le in Hc. cbn [quoteBody].
  replace (isHighSurrogate c) with false
    by (symmetry; unfold isHighSurrogate; apply andb_false_iff; left; apply N.leb_gt; lia).
  replace (isLowSurrogate c) with false
    by (symmetry; unfold isLowSurrogate; apply andb_false_iff; left; apply N.leb_gt; lia).
  rewrite isBytes_app, escapeUnit_bytes by exact Hc. now apply IH.
Qed.

Lemma quoteJSONString_bytes (s : jsstring) :
  isBytes s = true -> isBytes (quoteJSONString s) = true.
Proof.
  intros H. unfold quoteJSONString. rewrite !isBytes_app, quoteBody_bytes by exact H.
  reflexivity.
Qed.

Lemma joinItems_bytes (l : list jsstring) :
  forallb isBytes l = true -> isBytes (joinItems JSON_stringify (map JStr l)) = true.
Proof.
  induction l as [|s l IH]; intros H; [reflexivity|].
  cbn [forallb] in H. apply andb_true_iff in H. destruct H as [Hs Hl].
  cbn [map joinItems]. destruct l as [|s' l'].
  - cbn [map JSON_stringify]. now apply quoteJSONString_bytes.
  - change (map JStr (s' :: l')) with (JStr s' :: map JStr l').
    cbn [JSON_stringify]. rewrite !isBytes_app, quoteJSONString_bytes by exact Hs.
    cbn [andb]. change (isBytes [44]) with true. cbn [andb].
    apply IH, Hl.
Qed.

(** The JSON text of a request whose strings are bytes holds bytes only:
    [btoa] accepts it. *)
Lemma encodeState_latin1 (r : AuthRequest) (v : jsstring) :
  latin1Request r = true -> isBytes v = true ->
  exists st, encodeState r v = inr st.
Proof.
  unfold latin1Request. rewrite !andb_true_iff.
  intros [[[[[[H1 H2] H3] H4] H5] H6] H7] Hv.
  unfold encodeState. rewrite setMember_codeVerifier.
  unfold btoa.
  match goal with
  | |- context [forallb ?f ?t] =>
      change (forallb f t) with (isBytes t); assert (Hb : isBytes t = true)
  end.
  { unfold AuthRequest_members, optMember.
    destruct (codeChallenge r) as [cc|], (codeChallengeMethod r) as [cm|];
      cbn [app JSON_stringify joinMembers optBytes] in *;
      repeat first [ rewrite isBytes_app
                   | rewrite isBytes_cons by reflexivity
                   | rewrite quoteJSONString_bytes by (assumption || reflexivity)
                   | rewrite joinItems_bytes by assumption
                   | progress cbn [andb] ];
      reflexivity. }
  rewrite Hb. eexists. reflexivity.
Qed.

Lemma hasLoneSurrogate_encode (s : jsstring) :
  hasLoneSurrogate s = false -> exists out, encodeURIComponent s = inr out.
Proof. intros H. unfold encodeURIComponent. rewrite H. eexists. reflexivity. Qed.

Lemma redirect_succeeds (p : Provider) redirect (random : nat -> N) (request : Request)
    (oauthReqInfo : AuthRequest) (env : Env) :
  redirectOf p = Some redirect ->
  latin1Request oauthReqInfo = true ->
  redirectReady p env = true ->
  exists location, forall headers,
    redirect random request oauthReqInfo env headers = inr (Redirect location headers).
Proof.
  intros Hp Hreq Hready.
  pose proof (generateCodeVerifier_eq random) as Hver.
  pose proof (generateCodeChallenge_eq (base64url_nopad (Uint8Array 32 random))) as Hchal.
  pose proof (base64url_nopad_safe
                (SHA256.digest (TextEncoder_encode (base64url_nopad (Uint8Array 32 random)))))
    as Hsafe.
  pose proof (base64url_nopad_safe (Uint8Array 32 random)) as Hvsafe.
  revert Hver Hchal Hsafe Hvsafe.
  generalize (base64url_nopad
                (SHA256.digest (TextEncoder_encode (base64url_nopad (Uint8Array 32 random)))))
    as challenge.
  generalize (base64url_nopad (Uint8Array 32 random)) as verifier.
  intros verifier challenge Hver Hchal Hsafe Hvsafe.
  assert (Hvb : isBytes verifier = true)
    by (apply isAscii_bytes, urlSafe_ascii, Hvsafe).
  destruct (encodeState_latin1 oauthReqInfo verifier Hreq Hvb) as [st Hst].
  destruct (urlSafe_facts challenge Hsafe) as (Henc & _ & _).
  destruct p; inversion Hp; subst redirect; cbn [redirectReady] in Hready.
  - eexists. intros headers. unfold GoogleHandler.redirectToGoogle.
    rewrite Hver. cbn [bindE]. rewrite Hchal. cbn [bindE]. rewrite Hst. cbn [bindE].
    reflexivity.
  - apply andb_true_iff in Hready. destruct Hready as [Hd Ha].
    destruct (isSet (AUTH0_AUDIENCE env)) eqn:Haset; cbn [negb orb] in Ha.
    + apply negb_true_iff in Ha. destruct (hasLoneSurrogate_encode _ Ha) as [aud Haud].
      eexists. intros headers. unfold Auth0Handler.redirectToAuth0.
      rewrite Hver. cbn [bindE]. rewrite Hchal. cbn [bindE]. rewrite Hst. cbn [bindE].
      rewrite Hd. cbn [negb]. rewrite Henc. cbn [bindE]. rewrite Haset, Haud. cbn [bindE].
      reflexivity.
    + eexists. intros headers. unfold Auth0Handler.redirectToAuth0.
      rewrite Hver. cbn [bindE]. rewrite Hchal. cbn [bindE]. rewrite Hst. cbn [bindE].
      rewrite Hd. cbn [negb]. rewrite Henc. cbn [bindE]. rewrite Haset.
      reflexivity.
  - apply andb_true_iff in Hready. destruct Hready as [Hready Hr].
    apply andb_true_iff in Hready. destruct Hready as [Hd Hrealm].
    apply negb_true_iff in Hr. destruct (hasLoneSurrogate_encode _ Hr) as [realm Hre].
    eexists. intros headers. unfold KeycloakHandler.redirectToKeycloak.
    rewrite Hver. cbn [bindE]. rewrite Hchal. cbn [bindE]. rewrite Hst. cbn [bindE].
    rewrite Hd, Hrealm. cbn [negb].
    rewrite Hre. cbn [bindE]. rewrite Henc. cbn [bindE]. reflexivity.
  - eexists. intros headers. unfold CustomOAuthHandler.redirectToCustomOAuth.
    rewrite Hver. cbn [bindE]. rewrite Hchal. cbn [bindE]. rewrite Hst. cbn [bindE].
    rewrite Henc. cbn [bindE]. reflexivity.
Qed.

Lemma redirect_fails (p : Provider) redirect (random : nat -> N) (request : Request)
    (oauthReqInfo : AuthRequest) (env : Env) (headers : list (jsstring * jsstring)) :
  redirectOf p = Some redirect ->
  redirectReady p env = false ->
  exists e, redirect random request oauthReqInfo env headers = inl e.
Proof.
  intros Hp Hready.
  destruct p; inversion Hp; subst redirect; cbn [redirectReady] in Hready;
    try discriminate Hready.
  - unfold Auth0Handler.redirectToAuth0.
    destruct (generateCodeVerifier random) as [e|v]; [eexists; reflexivity|]. cbn [bindE].
    destruct (generateCodeChallenge v) as [e|ch]; [eexists; reflexivity|]. cbn [bindE].
    destruct (encodeState oauthReqInfo v) as [e|st]; [eexists; reflexivity|]. cbn [bindE].
    destruct (isSet (AUTH0_DOMAIN env)); cbn [negb andb] in *; [|eexists; reflexivity].
    destruct (encodeURIComponent ch) as [e|ech]; [eexists; reflexivity|]. cbn [bindE].
    destruct (isSet (AUTH0_AUDIENCE env)); cbn [negb orb] in Hready; [|discriminate Hready].
    apply negb_false_iff in Hready. unfold encodeURIComponent. rewrite Hready.
    eexists. reflexivity.
  - unfold KeycloakHandler.redirectToKeycloak.
    destruct (generateCodeVerifier random) as [e|v]; [eexists; reflexivity|]. cbn [bindE].
    destruct (generateCodeChallenge v) as [e|ch]; [eexists; reflexivity|]. cbn [bindE].
    destruct (encodeState oauthReqInfo v) as [e|st]; [eexists; reflexivity|]. cbn [bindE].
    destruct (isSet (KEYCLOAK_DOMAIN env)); cbn [negb andb] in *; [|eexists; reflexivity].
    destruct (isSet (KEYCLOAK_REALM env)); cbn [negb andb] in *; [|eexists; reflexivity].
    apply negb_false_iff in Hready. unfold encodeURIComponent at 1. rewrite Hready.
    eexists. reflexivity.
Qed.

(** X15.  For a request whose strings hold no character above U+00FF, a
    [redirectTo...] function answers the redirect, with the headers it was
    given and a location that does not depend on them, exactly when the
    environment has what the provider needs (nothing for Google and the
    generic server; the domain of Auth0 and an audience without lone
    surrogate; the domain and the realm of Keycloak, the realm without lone
    surrogate); otherwise it throws. *)
Theorem X15_redirect_needs (p : Provider) redirect (random : nat -> N) (request : Request)
    (oauthReqInfo : AuthRequest) (env : Env) :
  redirectOf p = Some redirect ->
  latin1Request oauthReqInfo = true ->
  if redirectReady p env then
    exists location, forall headers,
      redirect random request oauthReqInfo env headers = inr (Redirect location headers)
  else
    forall headers, exists e,
      redirect random request oauthReqInfo env headers = inl e.
Proof.
  intros Hp Hreq. destruct (redirectReady p env) eqn:Hready.
  - eapply redirect_succeeds; eassumption.
  - intros headers. eapply redirect_fails; eassumption.
Qed.

Lemma X15_witness :
  (exists location, forall headers,
     KeycloakHandler.redirectToKeycloak sampleRandom (getRequest "/keycloak/authorize" [] [])
       sampleAuthRequest keycloakEnv headers
     = inr (Redirect location headers))
  /\ (forall headers, exists e,
        KeycloakHandler.redirectToKeycloak sampleRandom
          (getRequest "/keycloak/authorize" [] []) sampleAuthRequest noEnv headers
        = inl e).
Proof.
  split.
  - apply (X15_redirect_needs Keycloak KeycloakHandler.redirectToKeycloak sampleRandom
             (getRequest "/keycloak/authorize" [] []) sampleAuthRequest keycloakEnv);
      reflexivity.
  - apply (X15_redirect_needs Keycloak KeycloakHandler.redirectToKeycloak sampleRandom
             (getRequest "/keycloak/authorize" [] []) sampleAuthRequest noEnv);
      reflexivity.
Defined.

(** X16.  The [/authorize] routes of a handler, for a request [parseAuthRequest]
    reads with a [clientId] and strings up to U+00FF, in an environment
    that has what the provider needs: [GET] answers the upstream redirect,
    without further headers, when the client was approved before, and the
    approval dialog when it was not; [POST] of the approval answers the
    same redirect, with the headers [parseRedirectApproval] returned. *)
Theorem X16_authorize_routes (p : Provider) redirect server (k : Consent)
    (random : nat -> N) (env : Env) (c : Request) (oauthReqInfo : AuthRequest) :
  redirectOf p = Some redirect ->
  serverOf p = Some server ->
  clientId oauthReqInfo <> [] ->
  latin1Request oauthReqInfo = true ->
  redirectReady p env = true ->
  exists location,
    (parseAuthRequest k c = inr oauthReqInfo ->
     clientIdAlreadyApproved k c (clientId oauthReqInfo) (COOKIE_ENCRYPTION_KEY k)
     = inr true ->
     getAuthorize redirect server k random env c = inr (Redirect location []))
    /\ (parseAuthRequest k c = inr oauthReqInfo ->
        clientIdAlreadyApproved k c (clientId oauthReqInfo) (COOKIE_ENCRYPTION_KEY k)
        = inr false ->
        getAuthorize redirect server k random env c
        = try! client <- lookupClient k (clientId oauthReqInfo) ;
          renderApprovalDialog k c client server oauthReqInfo)
    /\ (forall headers,
          parseRedirectApproval k c (COOKIE_ENCRYPTION_KEY k)
          = inr (Some oauthReqInfo, headers) ->
          postAuthorize redirect k random env c = inr (Redirect location headers)).
Proof.
  intros Hp Hs Hid Hreq Hready.
  destruct (redirect_succeeds p redirect random c oauthReqInfo env Hp Hreq Hready)
    as [location Hloc].
  exists location. split; [|split].
  - intros Hparse Happ. unfold getAuthorize. rewrite Hparse. cbn [bindE].
    destruct (clientId oauthReqInfo) as [|x cid] eqn:E; [contradiction|].
    rewrite Happ. cbn [bindE]. apply Hloc.
  - intros Hparse Happ. unfold getAuthorize. rewrite Hparse. cbn [bindE].
    destruct (clientId oauthReqInfo) as [|x cid] eqn:E; [contradiction|].
    rewrite Happ. reflexivity.
  - intros headers Hpost. unfold postAuthorize. rewrite Hpost. cbn [bindE fst snd].
    apply Hloc.
Qed.

Lemma X16_witness :
  getAuthorize GoogleHandler.redirectToGoogle
    {| server_description :=
         js "This is a demo MCP Remote Server using Google for authentication.";
       server_logo := js "https://developers.google.com/identity/images/g-logo.png";
       server_name := js "Cloudflare Google MCP Server" |}
    (sampleConsent true) sampleRandom noEnv (getRequest "/google/authorize" [] [])
  = inr (Redirect sampleLocation [])
  /\ postAuthorize GoogleHandler.redirectToGoogle (sampleConsent true) sampleRandom noEnv
       (getRequest "/google/authorize" [] [])
     = inr (Redirect sampleLocation [(js "Set-Cookie", js "approved=1")]).
Proof.
  destruct (X16_authorize_routes Google GoogleHandler.redirectToGoogle
              {| server_description :=
                   js "This is a demo MCP Remote Server using Google for authentication.";
                 server_logo := js "https://developers.google.com/identity/images/g-logo.png";
                 server_name := js "Cloudflare Google MCP Server" |}
              (sampleConsent true) sampleRandom noEnv
              (getRequest "/google/authorize" [] []) sampleAuthRequest)
    as (location & Hget & _ & Hpost).
  - reflexivity.
  - reflexivity.
  - discriminate.
  - reflexivity.
  - reflexivity.
  - specialize (Hget eq_refl eq_refl).
    specialize (Hpost [(js "Set-Cookie", js "approved=1")] eq_refl).
    assert (E : location = sampleLocation).
    { assert (H : getAuthorize GoogleHandler.redirectToGoogle
                    {| server_description :=
                         js "This is a demo MCP Remote Server using Google for authentication.";
                       server_logo :=
                         js "https://developers.google.com/identity/images/g-logo.png";
                       server_name := js "Cloudflare Google MCP Server" |}
                    (sampleConsent true) sampleRandom noEnv
                    (getRequest "/google/authorize" [] [])
                  = inr (Redirect sampleLocation [])) by (vm_compute; reflexivity).
      rewrite Hget in H. apply Redirect_location in H. exact H. }
    rewrite <- E. split; assumption.
Defined.

(* ===================================================================== *)
(** * Further properties of the tools *)
(* ===================================================================== *)

Import RegExp.
Import Types GmailUtils GmailTools.

(** ** The matcher finds the matches of a pattern *)

Lemma Match_Empty_inv x y : Match Empty x y -> y = x.
Proof. now inversion 1. Qed.

Lemma Match_Chars_inv member x y :
  Match (Chars member) x y ->
  exists ch rest, snd x = ch :: rest /\ member ch = true /\ y = (Some ch, rest).
Proof. inversion 1; subst. exists ch, rest. auto. Qed.

Lemma Match_Seq_inv a b x z :
  Match (Seq a b) x z -> exists y, Match a x y /\ Match b y z.
Proof. inversion 1; subst. eauto. Qed.

Lemma Match_Or_inv a b x y : Match (Or a b) x y -> Match a x y \/ Match b x y.
Proof. inversion 1; subst; auto. Qed.

Lemma Match_Star_inv g a x z :
  Match (Star g a) x z ->
  z = x \/ exists y, Match a x y /\ samePlace x y = false /\ Match (Star g a) y z.
Proof. inversion 1; subst; eauto. Qed.

Lemma Match_Upto_inv n a x z :
  Match (Upto n a) x z ->
  z = x \/ exists n' y, n = S n' /\ Match a x y /\ samePlace x y = false
                       /\ Match (Upto n' a) y z.
Proof. inversion 1; subst; [now left|right; eauto 8]. Qed.

Lemma Match_Bos_inv x y : Match Bos x y -> y = x /\ fst x = None.
Proof. inversion 1; subst. auto. Qed.

Lemma Match_Eos_inv x y : Match Eos x y -> y = x /\ snd x = [].
Proof. inversion 1; subst. auto. Qed.

Lemma Match_WordBoundary_inv x y :
  Match WordBoundary x y ->
  y = x /\ xorb (wordAt (fst x)) (wordAt (hd_error (snd x))) = true.
Proof. inversion 1; subst. auto. Qed.

Lemma after_app (p : option N) (m1 m2 : jsstring) :
  after p (m1 ++ m2) = after (after p m1) m2.
Proof. apply fold_left_app. Qed.

(** A match reads a piece of the input. *)
Lemma Match_span (r : Re) (x y : Position) :
  Match r x y -> exists m, snd x = m ++ snd y /\ fst y = after (fst x) m.
Proof.
  induction 1;
    try (exists []; split; reflexivity);
    try assumption.
  - exists [ch]. split; reflexivity.
  - destruct IHMatch1 as (m1 & E1 & F1), IHMatch2 as (m2 & E2 & F2).
    exists (m1 ++ m2). rewrite after_app, <- F1, <- F2, E1, E2, app_assoc. auto.
  - destruct IHMatch1 as (m1 & E1 & F1), IHMatch2 as (m2 & E2 & F2).
    exists (m1 ++ m2). rewrite after_app, <- F1, <- F2, E1, E2, app_assoc. auto.
  - destruct IHMatch1 as (m1 & E1 & F1), IHMatch2 as (m2 & E2 & F2).
    exists (m1 ++ m2). rewrite after_app, <- F1, <- F2, E1, E2, app_assoc. auto.
Qed.

Lemma Match_shorter (r : Re) (x y : Position) :
  Match r x y -> (List.length (snd y) <= List.length (snd x))%nat.
Proof.
  intros H. destruct (Match_span _ _ _ H) as (m & E & _).
  rewrite E, length_app. lia.
Qed.

Lemma Match_moves (r : Re) (x y : Position) :
  Match r x y -> samePlace x y = false ->
  (List.length (snd y) < List.length (snd x))%nat.
Proof.
  intros H N. pose proof (Match_shorter _ _ _ H).
  unfold samePlace in N. apply Nat.eqb_neq in N. lia.
Qed.

Lemma matcher_Star g a x c :
  matcher (Star g a) x c = starLoop g a c (List.length (snd x)) x.
Proof. reflexivity. Qed.

Lemma matcher_Upto n a x c : matcher (Upto n a) x c = uptoLoop a c n x.
Proof. reflexivity. Qed.

(** What the matcher finds is a match after which the continuation
    succeeds. *)
Lemma matcher_sound (r : Re) :
  forall x c z, matcher r x c = Some z -> exists y, Match r x y /\ c y = Some z.
Proof.
  induction r as [|member|a IHa b IHb|a IHa b IHb|g a IHa|n a IHa| | |];
    intros x c z H.
  - exists x. split; [constructor|exact H].
  - destruct x as [p [|ch rest]]; cbn in H; [discriminate|].
    destruct (member ch) eqn:M; [|discriminate].
    exists (Some ch, rest). split; [now constructor|exact H].
  - cbn in H. apply IHa in H. destruct H as (y & Hy & H).
    apply IHb in H. destruct H as (y' & Hy' & H).
    exists y'. split; [econstructor; eassumption|exact H].
  - cbn in H. destruct (matcher a x c) eqn:E.
    + apply IHa in E. destruct E as (y & Hy & E).
      exists y. split; [now apply MOrL|congruence].
    + apply IHb in H. destruct H as (y & Hy & E').
      exists y. split; [now apply MOrR|exact E'].
  - rewrite matcher_Star in H.
    remember (List.length (snd x)) as fuel eqn:F. clear F. revert x z H.
    induction fuel as [|fuel IH]; intros x z H.
    + exists x. split; [constructor|exact H].
    + cbn [starLoop] in H. fold (starLoop g a c) in H.
      assert (Hit : forall z', matcher a x
                (fun y => if samePlace x y then None else starLoop g a c fuel y) = Some z' ->
                exists y, Match (Star g a) x y /\ c y = Some z').
      { intros z' E. apply IHa in E. destruct E as (y & Hy & E).
        destruct (samePlace x y) eqn:S; [discriminate|].
        apply IH in E. destruct E as (y' & Hy' & E).
        exists y'. split; [eapply MStarS; eassumption|exact E]. }
      destruct g.
      * destruct (matcher a x _) eqn:E.
        -- injection H as <-. now apply Hit.
        -- exists x. split; [constructor|exact H].
      * destruct (c x) eqn:E.
        -- injection H as <-. exists x. split; [constructor|exact E].
        -- now apply Hit.
  - rewrite matcher_Upto in H. revert x z H.
    induction n as [|n IH]; intros x z H.
    + exists x. split; [constructor|exact H].
    + cbn [uptoLoop] in H. fold (uptoLoop a c) in H.
      destruct (matcher a x _) eqn:E.
      * injection H as <-. apply IHa in E. destruct E as (y & Hy & E).
        destruct (samePlace x y) eqn:S; [discriminate|].
        apply IH in E. destruct E as (y' & Hy' & E).
        exists y'. split; [eapply MUptoS; eassumption|exact E].
      * exists x. split; [constructor|exact H].
  - destruct x as [[p|] s]; cbn in H; [discriminate|].
    exists (None, s). split; [constructor|exact H].
  - destruct x as [p [|ch s]]; cbn in H; [|discriminate].
    exists (p, []). split; [constructor|exact H].
  - cbn in H. destruct (xorb _ _) eqn:X; [|discriminate].
    exists x. split; [now constructor|exact H].
Qed.

(** Where a match exists after which the continuation succeeds, the
    matcher finds one. *)
Lemma matcher_complete (r : Re) :
  forall x y c z, Match r x y -> c y = Some z -> exists z', matcher r x c = Some z'.
Proof.
  induction r as [|member|a IHa b IHb|a IHa b IHb|g a IHa|n a IHa| | |];
    intros x y c z M C.
  - apply Match_Empty_inv in M. subst. exists z. exact C.
  - apply Match_Chars_inv in M. destruct M as (ch & rest & E & Hm & ->).
    destruct x as [p s]. cbn in E. subst s. cbn. rewrite Hm. exists z. exact C.
  - apply Match_Seq_inv in M. destruct M as (y0 & Ma & Mb). cbn.
    destruct (IHb _ _ _ _ Mb C) as (z' & E).
    exact (IHa _ _ _ _ Ma E).
  - cbn. destruct (matcher a x c) eqn:E; [eexists; reflexivity|].
    apply Match_Or_inv in M. destruct M as [M|M].
    + destruct (IHa _ _ _ _ M C) as (z' & E'). congruence.
    + exact (IHb _ _ _ _ M C).
  - rewrite matcher_Star.
    assert (G : forall fuel x, (List.length (snd x) <= fuel)%nat ->
              Match (Star g a) x y -> exists z', starLoop g a c fuel x = Some z').
    { clear x M. induction fuel as [|fuel IH]; intros x L M;
        apply Match_Star_inv in M; destruct M as [->|(y0 & Ma & Hs & M)].
      - exists z. exact C.
      - pose proof (Match_moves _ _ _ Ma Hs). exfalso. unfold Position, jsstring in *. lia.
      - cbn [starLoop]. fold (starLoop g a c). destruct g.
        + destruct (matcher a x _); eexists; [reflexivity|exact C].
        + rewrite C. eexists; reflexivity.
      - cbn [starLoop]. fold (starLoop g a c).
        assert (E : exists z', matcher a x
                    (fun y => if samePlace x y then None else starLoop g a c fuel y)
                    = Some z').
        { pose proof (Match_moves _ _ _ Ma Hs).
          assert (L0 : (List.length (snd y0) <= fuel)%nat) by (unfold Position, jsstring in *; lia).
          destruct (IH y0 L0 M) as (z' & E).
          apply (IHa x y0 _ z' Ma). rewrite Hs. exact E. }
        destruct E as (z' & E). destruct g.
        + rewrite E. eexists; reflexivity.
        + destruct (c x); eexists; [reflexivity|exact E]. }
    apply G; [unfold Position, jsstring in *; lia|exact M].
  - rewrite matcher_Upto. revert x M.
    induction n as [|n IH]; intros x M;
      apply Match_Upto_inv in M; destruct M as [->|(n' & y0 & En & Ma & Hs & M)].
    + exists z. exact C.
    + discriminate En.
    + cbn [uptoLoop]. fold (uptoLoop a c).
      destruct (matcher a x _); eexists; [reflexivity|exact C].
    + injection En as <-. cbn [uptoLoop]. fold (uptoLoop a c).
      destruct (IH _ M) as (z' & E).
      destruct (IHa x y0 (fun y => if samePlace x y then None else uptoLoop a c n y)
                  z' Ma) as (z'' & E').
      { rewrite Hs. exact E. }
      rewrite E'. eexists; reflexivity.
  - apply Match_Bos_inv in M. destruct M as (-> & F).
    destruct x as [p s]. cbn in F. subst p. exists z. exact C.
  - apply Match_Eos_inv in M. destruct M as (-> & F).
    destruct x as [p s]. cbn in F. subst s. exists z. exact C.
  - apply Match_WordBoundary_inv in M. destruct M as (-> & F).
    cbn. rewrite F. exists z. exact C.
Qed.

Lemma matcher_None (r : Re) (x : Position) :
  matcher r x Some = None <-> (forall y, ~ Match r x y).
Proof.
  split.
  - intros H y M. destruct (matcher_complete r x y Some y M eq_refl) as (z & E).
    congruence.
  - intros H. destruct (matcher r x Some) eqn:E; [|reflexivity].
    apply matcher_sound in E. destruct E as (y & M & _). now apply H in M.
Qed.

(** ** Patterns by the texts they read *)

Ltac len_lia := unfold Position, jsstring in *; cbn [snd fst List.length] in *;
  rewrite ?length_app in *; cbn [List.length] in *; lia.

Lemma Spans_Empty : Spans Empty (fun m => m = []).
Proof.
  intros x y. split.
  - intros M. apply Match_Empty_inv in M. subst. exists []. auto.
  - intros (m & -> & E & F). destruct x as [p s], y as [q t]. cbn in *. subst.
    constructor.
Qed.

Lemma Spans_Chars member :
  Spans (Chars member) (fun m => exists ch, m = [ch] /\ member ch = true).
Proof.
  intros x y. split.
  - intros M. apply Match_Chars_inv in M. destruct M as (ch & rest & E & Hm & ->).
    exists [ch]. split; [eauto|]. split; [exact E|reflexivity].
  - intros (m & (ch & -> & Hm) & E & F). destruct x as [p s], y as [q t].
    cbn in *. subst. now constructor.
Qed.

Lemma Spans_Seq a b P Q :
  Spans a P -> Spans b Q ->
  Spans (Seq a b) (fun m => exists m1 m2, m = m1 ++ m2 /\ P m1 /\ Q m2).
Proof.
  intros Ha Hb x z. split.
  - intros M. apply Match_Seq_inv in M. destruct M as (y & Ma & Mb).
    apply Ha in Ma. apply Hb in Mb.
    destruct Ma as (m1 & P1 & E1 & F1), Mb as (m2 & Q2 & E2 & F2).
    exists (m1 ++ m2). split; [eauto|].
    rewrite after_app, <- F1, <- F2, E1, E2, app_assoc. auto.
  - intros (m & (m1 & m2 & -> & P1 & Q2) & E & F).
    apply MSeq with (y := (after (fst x) m1, m2 ++ snd z)).
    + apply Ha. exists m1. cbn. rewrite E, app_assoc. auto.
    + apply Hb. exists m2. cbn. rewrite F, after_app. auto.
Qed.

Lemma Spans_Or a b P Q :
  Spans a P -> Spans b Q -> Spans (Or a b) (fun m => P m \/ Q m).
Proof.
  intros Ha Hb x y. split.
  - intros M. apply Match_Or_inv in M. destruct M as [M|M].
    + apply Ha in M. destruct M as (m & ? & ?). exists m. auto.
    + apply Hb in M. destruct M as (m & ? & ?). exists m. auto.
  - intros (m & [Pm|Qm] & E).
    + apply MOrL, Ha. eauto.
    + apply MOrR, Hb. eauto.
Qed.

Lemma Match_Star_pieces g a P x z :
  Spans a P -> Match (Star g a) x z ->
  exists ms, Forall P ms /\ snd x = concat ms ++ snd z
             /\ fst z = after (fst x) (concat ms).
Proof.
  intros Ha M. remember (Star g a) as r eqn:R. revert R.
  induction M; intros R; try discriminate R.
  - exists []. auto.
  - injection R as -> ->. clear IHM1.
    destruct (IHM2 eq_refl) as (ms & F & E & A).
    apply Ha in M1. destruct M1 as (m1 & P1 & E1 & A1).
    exists (m1 :: ms). split; [now constructor|]. cbn [concat].
    rewrite after_app, <- A1, <- A, E1, E, app_assoc. auto.
Qed.

Lemma pieces_Match_Star g a P ms :
  Spans a P -> Forall P ms ->
  forall x z, snd x = concat ms ++ snd z -> fst z = after (fst x) (concat ms) ->
  Match (Star g a) x z.
Proof.
  intros Ha F. induction F as [|m1 ms P1 F IH]; intros x z E A.
  - destruct x as [p s], z as [q t]. cbn in *. subst. constructor.
  - cbn [concat] in E, A. destruct m1 as [|ch m1].
    + apply IH; assumption.
    + apply MStarS with (y := (after (fst x) (ch :: m1), concat ms ++ snd z)).
      * apply Ha. exists (ch :: m1). cbn [snd fst].
        split; [exact P1|]. split; [rewrite app_assoc; exact E|reflexivity].
      * unfold samePlace. apply Nat.eqb_neq. unfold Position, jsstring in *.
        cbn [snd]. rewrite E. len_lia.
      * apply IH; [reflexivity|]. cbn [fst]. rewrite A, after_app. reflexivity.
Qed.

Lemma Spans_Star g a P :
  Spans a P -> Spans (Star g a) (fun m => exists ms, m = concat ms /\ Forall P ms).
Proof.
  intros Ha x z. split.
  - intros M. destruct (Match_Star_pieces _ _ _ _ _ Ha M) as (ms & F & E & A).
    exists (concat ms). eauto.
  - intros (m & (ms & -> & F) & E & A). eapply pieces_Match_Star; eassumption.
Qed.

Lemma Match_Upto_pieces a P n x z :
  Spans a P -> Match (Upto n a) x z ->
  exists ms, Forall P ms /\ (List.length ms <= n)%nat
             /\ snd x = concat ms ++ snd z /\ fst z = after (fst x) (concat ms).
Proof.
  intros Ha M. remember (Upto n a) as r eqn:R. revert n R.
  induction M; intros k R; try discriminate R.
  - exists []. cbn. repeat split; auto. lia.
  - injection R as <- ->. clear IHM1.
    destruct (IHM2 _ eq_refl) as (ms & F & L & E & A).
    apply Ha in M1. destruct M1 as (m1 & P1 & E1 & A1).
    exists (m1 :: ms). split; [now constructor|]. cbn [concat List.length].
    rewrite after_app, <- A1, <- A, E1, E, app_assoc. repeat split; auto. lia.
Qed.

Lemma pieces_Match_Upto a P ms :
  Spans a P -> Forall P ms ->
  forall n x z, (List.length ms <= n)%nat ->
  snd x = concat ms ++ snd z -> fst z = after (fst x) (concat ms) ->
  Match (Upto n a) x z.
Proof.
  intros Ha F. induction F as [|m1 ms P1 F IH]; intros n x z L E A.
  - destruct x as [p s], z as [q t]. cbn in *. subst. constructor.
  - cbn [concat] in E, A. cbn [List.length] in L. destruct m1 as [|ch m1].
    + apply IH; [lia|assumption|assumption].
    + destruct n as [|n]; [lia|].
      apply MUptoS with (y := (after (fst x) (ch :: m1), concat ms ++ snd z)).
      * apply Ha. exists (ch :: m1). cbn [snd fst].
        split; [exact P1|]. split; [rewrite app_assoc; exact E|reflexivity].
      * unfold samePlace. apply Nat.eqb_neq. unfold Position, jsstring in *.
        cbn [snd]. rewrite E. len_lia.
      * apply IH; [lia|reflexivity|]. cbn [fst]. rewrite A, after_app. reflexivity.
Qed.

Lemma Spans_Upto n a P :
  Spans a P ->
  Spans (Upto n a)
        (fun m => exists ms, m = concat ms /\ Forall P ms /\ (List.length ms <= n)%nat).
Proof.
  intros Ha x z. split.
  - intros M. destruct (Match_Upto_pieces _ _ _ _ _ Ha M) as (ms & F & L & E & A).
    exists (concat ms). eauto 7.
  - intros (m & (ms & -> & F & L) & E & A). eapply pieces_Match_Upto; eassumption.
Qed.

Lemma Spans_ext a P Q : Spans a P -> (forall m, P m <-> Q m) -> Spans a Q.
Proof.
  intros Ha H x y. rewrite (Ha x y).
  split; intros (m & Pm & E); exists m; (split; [now apply H|exact E]).
Qed.

(** Pieces of one code unit each. *)
Lemma concat_singletons (member : N -> bool) (ms : list jsstring) :
  Forall (fun m => exists ch, m = [ch] /\ member ch = true) ms ->
  forallb member (concat ms) = true /\ List.length (concat ms) = List.length ms.
Proof.
  induction 1 as [|m ms (ch & -> & Hm) F [IH1 IH2]]; [auto|].
  cbn. rewrite Hm, IH1, IH2. auto.
Qed.

Lemma singletons_concat (member : N -> bool) (w : jsstring) :
  forallb member w = true ->
  exists ms, w = concat ms /\ List.length ms = List.length w
             /\ Forall (fun m => exists ch, m = [ch] /\ member ch = true) ms.
Proof.
  induction w as [|ch w IH]; intros H.
  - exists []. auto.
  - cbn in H. apply andb_true_iff in H. destruct H as [Hc H].
    destruct (IH H) as (ms & -> & L & F).
    exists ([ch] :: ms). cbn. rewrite L. repeat split; auto.
    constructor; eauto.
Qed.

Lemma Spans_Star_Chars g member :
  Spans (Star g (Chars member)) (fun m => forallb member m = true).
Proof.
  eapply Spans_ext; [apply Spans_Star, Spans_Chars|].
  intros m. split.
  - intros (ms & -> & F). now apply concat_singletons in F.
  - intros H. destruct (singletons_concat _ _ H) as (ms & -> & _ & F). eauto.
Qed.

Lemma Spans_Upto_Chars n member :
  Spans (Upto n (Chars member))
        (fun m => forallb member m = true /\ (List.length m <= n)%nat).
Proof.
  eapply Spans_ext; [apply Spans_Upto, Spans_Chars|].
  intros m. split.
  - intros (ms & -> & F & L). apply concat_singletons in F. destruct F as [F1 F2].
    split; [exact F1|]. rewrite F2. exact L.
  - intros [H L]. destruct (singletons_concat _ _ H) as (ms & -> & L' & F).
    exists ms. repeat split; auto. rewrite L'. exact L.
Qed.

Lemma Spans_plus_Chars member :
  Spans (plus (Chars member)) (fun m => m <> [] /\ forallb member m = true).
Proof.
  eapply Spans_ext; [apply Spans_Seq; [apply Spans_Chars|apply Spans_Star_Chars]|].
  intros m. split.
  - intros (m1 & m2 & -> & (ch & -> & Hc) & H). split; [discriminate|].
    cbn. now rewrite Hc, H.
  - intros [Hn H]. destruct m as [|ch m]; [contradiction|].
    cbn in H. apply andb_true_iff in H. destruct H as [Hc H].
    exists [ch], m. eauto.
Qed.

(** *** Searching *)

Lemma search_eq r prev s :
  search r prev s =
  match matcher r (prev, s) Some with
  | Some e => Some ([], e)
  | None =>
      match s with
      | [] => None
      | ch :: rest =>
          match search r (Some ch) rest with
          | Some (skipped, e) => Some (ch :: skipped, e)
          | None => None
          end
      end
  end.
Proof. destruct s; reflexivity. Qed.

Lemma search_None r : forall s prev,
  search r prev s = None <->
  (forall pre rest y, s = pre ++ rest -> ~ Match r (after prev pre, rest) y).
Proof.
  induction s as [|ch s IH]; intros prev; rewrite search_eq.
  - destruct (matcher r _ Some) eqn:E.
    + split; [discriminate|]. intros H. apply matcher_sound in E.
      destruct E as (y & M & _). exfalso. exact (H [] [] y eq_refl M).
    + split; [|reflexivity]. intros _ pre rest y S M.
      symmetry in S. apply app_eq_nil in S. destruct S as [-> ->].
      revert M. now apply matcher_None.
  - destruct (matcher r _ Some) eqn:E.
    + split; [discriminate|]. intros H. apply matcher_sound in E.
      destruct E as (y & M & _). exfalso. exact (H [] (ch :: s) y eq_refl M).
    + destruct (search r (Some ch) s) as [[skipped e]|] eqn:S.
      * split; [discriminate|]. intros H.
        assert (S' : search r (Some ch) s <> None) by congruence.
        exfalso. apply S'. apply IH. intros pre rest y Hs M.
        apply (H (ch :: pre) rest y); [now rewrite Hs|exact M].
      * split; [|reflexivity]. intros _ pre rest y Hs M.
        destruct pre as [|c pre].
        -- cbn in Hs. subst rest. revert M. now apply matcher_None.
        -- cbn in Hs. injection Hs as <- Hs.
           apply (proj1 (IH (Some ch)) S pre rest y Hs). exact M.
Qed.

Lemma search_Some r : forall s prev skipped e,
  search r prev s = Some (skipped, e) ->
  exists rest, s = skipped ++ rest /\ Match r (after prev skipped, rest) e.
Proof.
  induction s as [|ch s IH]; intros prev skipped e; rewrite search_eq.
  - destruct (matcher r _ Some) eqn:E; [|discriminate].
    intros H. injection H as <- <-. apply matcher_sound in E.
    destruct E as (y & M & Hy). injection Hy as ->. exists []. auto.
  - destruct (matcher r _ Some) eqn:E.
    + intros H. injection H as <- <-. apply matcher_sound in E.
      destruct E as (y & M & Hy). injection Hy as ->. exists (ch :: s). auto.
    + destruct (search r (Some ch) s) as [[sk e']|] eqn:S; [|discriminate].
      intros H. injection H as <- <-.
      destruct (IH _ _ _ S) as (rest & -> & M). exists rest. auto.
Qed.

Lemma test_true r s :
  test r s = true <->
  exists pre rest y, s = pre ++ rest /\ Match r (after None pre, rest) y.
Proof.
  unfold test. destruct (search r None s) as [[skipped e]|] eqn:S.
  - apply search_Some in S. destruct S as (rest & -> & M).
    split; [|reflexivity]. intros _. eauto.
  - split; [discriminate|]. intros (pre & rest & y & E & M).
    exfalso. exact (proj1 (search_None r s None) S pre rest y E M).
Qed.

Lemma test_Spans r P s :
  Spans r P ->
  (test r s = true <-> exists pre m post, s = pre ++ m ++ post /\ P m).
Proof.
  intros Hr. rewrite test_true. split.
  - intros (pre & rest & y & -> & M). apply Hr in M.
    destruct M as (m & Pm & E & _). cbn in E. exists pre, m, (snd y).
    rewrite E. auto.
  - intros (pre & m & post & -> & Pm).
    exists pre, (m ++ post), (after (after None pre) m, post).
    split; [reflexivity|]. apply Hr. exists m. auto.
Qed.

Lemma test_Chars member s : test (Chars member) s = existsb member s.
Proof.
  apply eq_true_iff_eq. rewrite (test_Spans _ _ _ (Spans_Chars member)), existsb_exists.
  split.
  - intros (pre & m & post & -> & ch & -> & Hm). exists ch. split; [|exact Hm].
    apply in_or_app. right. now left.
  - intros (ch & I & Hm). apply in_split in I. destruct I as (l1 & l2 & ->).
    exists l1, [ch], l2. eauto.
Qed.

(** A pattern that starts like another is found only where the other is. *)
Lemma test_Seq_start a b s : test (Seq a b) s = true -> test a s = true.
Proof.
  rewrite !test_true. intros (pre & rest & z & E & M).
  apply Match_Seq_inv in M. destruct M as (y & Ma & _). eauto.
Qed.

(** *** Replacing *)

Lemma replaceFrom_eq fuel r by_ prev s :
  replaceFrom (S fuel) r by_ prev s =
  match matcher r (prev, s) Some with
  | Some e =>
      if samePlace (prev, s) e then
        by_ ++ match s with
               | [] => []
               | ch :: rest => ch :: replaceFrom fuel r by_ (Some ch) rest
               end
      else by_ ++ replaceFrom fuel r by_ (fst e) (snd e)
  | None =>
      match s with
      | [] => []
      | ch :: rest => ch :: replaceFrom fuel r by_ (Some ch) rest
      end
  end.
Proof. reflexivity. Qed.

Lemma replaceFrom_none r by_ : forall s fuel prev,
  search r prev s = None -> replaceFrom fuel r by_ prev s = s.
Proof.
  induction s as [|ch s IH]; intros [|fuel] prev H; try reflexivity;
    rewrite search_eq in H; rewrite replaceFrom_eq.
  - destruct (matcher r _ Some); [discriminate|reflexivity].
  - destruct (matcher r _ Some); [discriminate|].
    destruct (search r (Some ch) s) as [[? ?]|] eqn:S; [discriminate|].
    now rewrite IH.
Qed.

Lemma replaceGlobal_none r by_ s : test r s = false -> replaceGlobal r by_ s = s.
Proof.
  unfold test, replaceGlobal. intros H. apply replaceFrom_none.
  destruct (search r None s); [discriminate|reflexivity].
Qed.

Lemma matcher_rest r x e :
  matcher r x Some = Some e -> exists m, snd x = m ++ snd e.
Proof.
  intros H. apply matcher_sound in H. destruct H as (y & M & Hy).
  injection Hy as ->. apply Match_span in M. destruct M as (m & E & _). eauto.
Qed.

Lemma replaceFrom_Forall (P : N -> Prop) r by_ :
  Forall P by_ ->
  forall fuel prev s, Forall P s -> Forall P (replaceFrom fuel r by_ prev s).
Proof.
  intros Hb. induction fuel as [|fuel IH]; intros prev s Hs; [exact Hs|].
  rewrite replaceFrom_eq.
  assert (Step : Forall P match s with
                          | [] => []
                          | ch :: rest => ch :: replaceFrom fuel r by_ (Some ch) rest
                          end).
  { destruct s as [|ch rest]; [constructor|].
    inversion Hs; subst. constructor; [assumption|]. now apply IH. }
  destruct (matcher r _ Some) as [e|] eqn:E; [|exact Step].
  destruct (samePlace _ e).
  - apply Forall_app. auto.
  - apply Forall_app. split; [exact Hb|]. apply IH.
    apply matcher_rest in E. destruct E as (m & E). cbn in E. rewrite E in Hs.
    apply Forall_app in Hs. tauto.
Qed.

Lemma replaceGlobal_Forall (P : N -> Prop) r by_ s :
  Forall P by_ -> Forall P s -> Forall P (replaceGlobal r by_ s).
Proof. intros. now apply replaceFrom_Forall. Qed.

(** Deleting the members of a class leaves none. *)
Lemma replaceFrom_Chars member : forall s fuel prev,
  (List.length s < fuel)%nat ->
  replaceFrom fuel (Chars member) [] prev s = filter (fun c => negb (member c)) s.
Proof.
  induction s as [|ch s IH]; intros [|fuel] prev L; try (cbn in L; lia).
  - reflexivity.
  - rewrite replaceFrom_eq. cbn [List.length] in L.
    change (matcher (Chars member) (prev, ch :: s) Some)
      with (if member ch then Some (Some ch, s) else None).
    cbn [filter]. destruct (member ch) eqn:M; cbn [negb].
    + change (samePlace (prev, ch :: s) (Some ch, s))
        with (Nat.eqb (S (List.length s)) (List.length s)).
      rewrite (proj2 (Nat.eqb_neq _ _)) by lia.
      cbn [app fst snd]. apply IH. lia.
    + rewrite IH by lia. reflexivity.
Qed.

Lemma replaceGlobal_Chars member s :
  replaceGlobal (Chars member) [] s = filter (fun c => negb (member c)) s.
Proof. apply replaceFrom_Chars. lia. Qed.

(** ** The checks of the subject *)

(** *** Literal patterns *)

Lemma Spans_classes (f : N -> N -> bool) (l : list N) :
  Spans (seq (map (fun c => Chars (f c)) l))
        (fun m => Forall2 (fun c ch => f c ch = true) l m).
Proof.
  induction l as [|c l IH].
  - eapply Spans_ext; [apply Spans_Empty|]. intros m. split.
    + intros ->. constructor.
    + now inversion 1.
  - destruct l as [|c' l].
    + eapply Spans_ext; [apply Spans_Chars|]. intros m. split.
      * intros (ch & -> & H). repeat constructor. exact H.
      * intros H. inversion H as [|? ch ? m' Hc H']; subst.
        inversion H'; subst. eauto.
    + eapply Spans_ext; [apply (Spans_Seq _ _ _ _ (Spans_Chars (f c)) IH)|].
      intros m. split.
      * intros (m1 & m2 & -> & (ch & -> & H) & F). now constructor.
      * intros H. inversion H as [|? ch ? m' Hc H']; subst.
        exists [ch], m'. eauto.
Qed.

Lemma Forall2_lower (l m : jsstring) :
  Forall2 (fun c ch => (lowerAscii ch =? lowerAscii c) = true) l m
  <-> map lowerAscii m = map lowerAscii l.
Proof.
  revert m. induction l as [|c l IH]; intros [|ch m]; split; intros H;
    try (now inversion H); try constructor; try discriminate H.
  - inversion H; subst. cbn. f_equal; [now apply N.eqb_eq|now apply IH].
  - cbn in H. injection H as H1 H2. now apply N.eqb_eq.
  - cbn in H. injection H as H1 H2. now apply IH.
Qed.

Lemma Spans_litI (w : string) :
  Spans (litI w) (fun m => map lowerAscii m = map lowerAscii (js w)).
Proof.
  eapply Spans_ext; [apply (Spans_classes (fun c x => lowerAscii x =? lowerAscii c))|].
  intros m. apply Forall2_lower.
Qed.

Lemma Forall2_same (l m : jsstring) :
  Forall2 (fun c ch => (c =? ch) = true) l m <-> m = l.
Proof.
  revert m. induction l as [|c l IH]; intros [|ch m]; split; intros H;
    try (now inversion H); try constructor; try discriminate H.
  - inversion H; subst. f_equal; [symmetry; now apply N.eqb_eq|now apply IH].
  - injection H as -> ->. apply N.eqb_refl.
  - injection H as -> ->. now apply IH.
Qed.

Lemma Spans_lit (w : string) : Spans (lit w) (fun m => m = js w).
Proof.
  eapply Spans_ext; [apply (Spans_classes N.eqb)|].
  intros m. apply Forall2_same.
Qed.

Lemma startsWith_spec (n s : jsstring) :
  startsWith n s = true <-> exists post, s = n ++ post.
Proof.
  revert s. induction n as [|a n IH]; intros s.
  - split; [exists s; reflexivity|reflexivity].
  - destruct s as [|b s]; cbn [startsWith].
    + split; [discriminate|]. intros (post & H). discriminate H.
    + rewrite andb_true_iff, IH, N.eqb_eq. split.
      * intros [-> (post & ->)]. exists post. reflexivity.
      * intros (post & H). injection H as -> ->. eauto.
Qed.

Lemma includes_spec (n s : jsstring) :
  includes n s = true <-> exists pre post, s = pre ++ n ++ post.
Proof.
  induction s as [|b s IH].
  - cbn [includes]. rewrite orb_false_r, startsWith_spec. split.
    + intros (post & H). exists [], post. exact H.
    + intros (pre & post & H). destruct pre; [eauto|discriminate H].
  - cbn [includes]. rewrite orb_true_iff, startsWith_spec, IH. split.
    + intros [(post & H)|(pre & post & ->)].
      * exists [], post. exact H.
      * exists (b :: pre), post. reflexivity.
    + intros (pre & post & H). destruct pre as [|c pre].
      * left. eauto.
      * right. injection H as -> ->. eauto.
Qed.

Lemma includesI_spec (w s : jsstring) :
  includesI w s = true <->
  exists pre m post, s = pre ++ m ++ post /\ map lowerAscii m = map lowerAscii w.
Proof.
  unfold includesI. rewrite includes_spec. split.
  - intros (pre & post & H). apply map_eq_app in H.
    destruct H as (pre' & r & -> & <- & H). apply map_eq_app in H.
    destruct H as (m & post' & -> & H & <-). eauto.
  - intros (pre & m & post & -> & H).
    exists (map lowerAscii pre), (map lowerAscii post).
    now rewrite !map_app, H.
Qed.

Lemma test_litI (w : string) (s : jsstring) : test (litI w) s = includesI (js w) s.
Proof.
  apply eq_true_iff_eq. rewrite (test_Spans _ _ _ (Spans_litI w)), includesI_spec.
  reflexivity.
Qed.

(** A sequence is found only where its first part is. *)
Lemma test_seq_start (a : Re) (l : list Re) (s : jsstring) :
  test (seq (a :: l)) s = true -> test a s = true.
Proof.
  destruct l as [|b l]; [auto|]. apply test_Seq_start.
Qed.

(** *** The event handler patterns *)

Lemma Spans_eventHandler :
  Spans GmailSecurity.eventHandler
    (fun m => exists o n w, m = o :: n :: w ++ [61]
                            /\ lowerAscii o = 111 /\ lowerAscii n = 110
                            /\ w <> [] /\ forallb isWordChar w = true).
Proof.
  eapply Spans_ext.
  - apply Spans_Seq; [apply (Spans_litI "on")|].
    apply Spans_Seq; [apply Spans_plus_Chars|apply Spans_Chars].
  - intros m. split.
    + intros (m1 & m2 & -> & H1 & w & m3 & -> & (Hn & Hw) & ch & -> & Hc).
      apply N.eqb_eq in Hc. subst ch.
      destruct m1 as [|o [|n [|? ?]]]; try discriminate H1.
      cbn in H1. injection H1 as Ho Hn'.
      exists o, n, w. auto.
    + intros (o & n & w & -> & Ho & Hn & Hw & Hf).
      exists [o; n], (w ++ [61]). split; [reflexivity|].
      split; [cbn; now rewrite Ho, Hn|].
      exists w, [61]. repeat split; auto. exists 61. auto.
Qed.

Lemma test_eventHandler (s : jsstring) :
  test GmailSecurity.eventHandler s = true <-> hasEventHandler s.
Proof.
  rewrite (test_Spans _ _ _ Spans_eventHandler). unfold hasEventHandler. split.
  - intros (pre & m & post & -> & o & n & w & -> & H).
    exists pre, o, n, w, post. split; [|exact H].
    cbn. now rewrite <- app_assoc.
  - intros (pre & o & n & w & post & -> & H).
    exists pre, (o :: n :: w ++ [61]), post. split; [|eauto].
    cbn. now rewrite <- app_assoc.
Qed.

Lemma blank_spec (s : jsstring) : blank s = false <-> trim s <> [].
Proof.
  unfold blank. destruct s as [|c s].
  - split; [discriminate|]. intros H. now contradiction H.
  - destruct (trim (c :: s)); split; try discriminate; auto.
    intros H. now contradiction H.
Qed.

Lemma lengthN_le (s : jsstring) (n : nat) :
  (N.of_nat n <? lengthN s) = false <-> (List.length s <= n)%nat.
Proof. unfold lengthN. rewrite N.ltb_ge. lia. Qed.

(** X18. [validateEmailSubject] accepts exactly the subjects that are not
    blank, have at most 998 code units and no control character, hold
    none of [javascript:], [data:], [vbscript:], [<script] and [<iframe]
    in any case of the letters, and no [on], word and [=] in a row. *)
Theorem X18_subject_accepted (subject : jsstring) :
  isValid (GmailSecurity.validateEmailSubject subject) = true <->
  trim subject <> []
  /\ (List.length subject <= 998)%nat
  /\ existsb isControl subject = false
  /\ (forall w, In w ["javascript:"; "data:"; "vbscript:"; "<script"; "<iframe"]%string ->
                includesI (js w) subject = false)
  /\ ~ hasEventHandler subject.
Proof.
  unfold GmailSecurity.validateEmailSubject.
  rewrite <- blank_spec, <- (lengthN_le subject 998), <- test_eventHandler.
  cbn [existsb GmailSecurity.maliciousPatterns].
  rewrite test_Chars, !test_litI, orb_false_r.
  change (N.of_nat 998) with 998.
  destruct (blank subject); cbn [isValid invalid];
    [split; [discriminate|intros (H & _); discriminate H]|].
  destruct (existsb isControl subject); cbn [orb isValid invalid];
    [split; [discriminate|intros (_ & _ & H & _); discriminate H]|].
  destruct (includesI (js "javascript:") subject) eqn:E1; cbn [orb isValid invalid];
    [split; [discriminate|intros (_ & _ & _ & H & _)];
     rewrite H in E1 by (cbn; auto); discriminate E1|].
  destruct (includesI (js "data:") subject) eqn:E2; cbn [orb isValid invalid];
    [split; [discriminate|intros (_ & _ & _ & H & _)];
     rewrite H in E2 by (cbn; auto); discriminate E2|].
  destruct (includesI (js "vbscript:") subject) eqn:E3; cbn [orb isValid invalid];
    [split; [discriminate|intros (_ & _ & _ & H & _)];
     rewrite H in E3 by (cbn; auto); discriminate E3|].
  destruct (includesI (js "<script") subject) eqn:E4; cbn [orb isValid invalid];
    [split; [discriminate|intros (_ & _ & _ & H & _)];
     rewrite H in E4 by (cbn; auto); discriminate E4|].
  destruct (includesI (js "<iframe") subject) eqn:E5; cbn [orb isValid invalid];
    [split; [discriminate|intros (_ & _ & _ & H & _)];
     rewrite H in E5 by (cbn; auto 10); discriminate E5|].
  destruct (test GmailSecurity.eventHandler subject) eqn:E6; cbn [isValid invalid].
  - split; [discriminate|]. intros (_ & _ & _ & _ & H). now contradiction H.
  - destruct (998 <? lengthN subject) eqn:E7; cbn [isValid invalid valid].
    + split; [discriminate|]. intros (_ & H & _). discriminate H.
    + split; [|reflexivity]. intros _. repeat split; auto.
      intros w [<-|[<-|[<-|[<-|[<-|[]]]]]]; assumption.
Qed.

(** ** The check of an address *)

Lemma SpansToEnd_Eos : SpansToEnd Eos (fun m => m = []).
Proof.
  intros x y. split.
  - intros M. apply Match_Eos_inv in M. destruct M as (-> & E). rewrite E. auto.
  - intros (E & F & A). destruct x as [p s], y as [q t]. cbn in *. subst.
    constructor.
Qed.

Lemma SpansToEnd_Seq a b P Q :
  Spans a P -> SpansToEnd b Q ->
  SpansToEnd (Seq a b) (fun m => exists m1 m2, m = m1 ++ m2 /\ P m1 /\ Q m2).
Proof.
  intros Ha Hb x z. split.
  - intros M. apply Match_Seq_inv in M. destruct M as (y & Ma & Mb).
    apply Ha in Ma. apply Hb in Mb.
    destruct Ma as (m1 & P1 & E1 & F1), Mb as (E2 & Q2 & F2).
    split; [exact E2|]. split.
    + exists m1, (snd y). auto.
    + rewrite E1, after_app, <- F1. exact F2.
  - intros (E & (m1 & m2 & Em & P1 & Q2) & F).
    apply MSeq with (y := (after (fst x) m1, m2)).
    + apply Ha. exists m1. auto.
    + apply Hb. cbn. rewrite F, Em, after_app. auto.
Qed.

Lemma SpansToEnd_ext a P Q :
  SpansToEnd a P -> (forall m, P m <-> Q m) -> SpansToEnd a Q.
Proof.
  intros Ha H x y. rewrite (Ha x y), (H (snd x)). reflexivity.
Qed.

Lemma after_Some (c : N) (m : jsstring) : after (Some c) m <> None.
Proof.
  revert c. induction m as [|d m IH]; intros c; [discriminate|]. apply IH.
Qed.

Lemma after_None (m : jsstring) : after None m = None -> m = [].
Proof.
  destruct m as [|c m]; [reflexivity|]. intros H. now apply after_Some in H.
Qed.

(** An anchored pattern is tried at the start only. *)
Lemma test_anchored (r : Re) (P : jsstring -> Prop) (t : jsstring) :
  SpansToEnd r P -> (test (Seq Bos r) t = true <-> P t).
Proof.
  intros Hr. rewrite test_true. split.
  - intros (pre & rest & y & -> & M).
    apply Match_Seq_inv in M. destruct M as (x & Mb & M).
    apply Match_Bos_inv in Mb. destruct Mb as (-> & F). cbn in F.
    apply after_None in F. subst pre. apply Hr in M. cbn in M. tauto.
  - intros Pt. exists [], t, (after None t, []). split; [reflexivity|].
    apply MSeq with (y := (None, t)); [constructor|].
    apply Hr. auto.
Qed.

Lemma Spans_opt a P : Spans a P -> Spans (opt a) (fun m => m = [] \/ P m).
Proof.
  intros Ha. eapply Spans_ext; [apply Spans_Upto, Ha|].
  intros m. split.
  - intros (ms & -> & F & L). destruct ms as [|m1 [|m2 ms]].
    + now left.
    + right. cbn. rewrite app_nil_r. now inversion F.
    + cbn in L. lia.
  - intros [->|Pm].
    + exists []. auto.
    + exists [m]. cbn. rewrite app_nil_r. auto.
Qed.

(** *** The pattern of an address *)

Lemma isLabel_single (a : N) : isLabel [a] = isAlnum a.
Proof.
  unfold isLabel, isLabelChar. cbn. destruct (isAlnum a); reflexivity.
Qed.

Lemma isLabel_long (a z : N) (mid : jsstring) :
  isLabel (a :: mid ++ [z])
  = isAlnum a && isAlnum z && forallb isLabelChar mid && (List.length mid <=? 61)%nat.
Proof.
  change (isLabel (a :: mid ++ [z]))
    with (isAlnum a && isAlnum (last ((a :: mid) ++ [z]) a)
          && forallb isLabelChar (a :: mid ++ [z])
          && (List.length (a :: mid ++ [z]) <=? 63)%nat).
  rewrite last_last. cbn [forallb List.length].
  rewrite forallb_app, length_app. cbn [forallb List.length].
  replace (S (List.length mid + 1) <=? 63)%nat with (List.length mid <=? 61)%nat
    by (apply eq_true_iff_eq; rewrite !Nat.leb_le; lia).
  unfold isLabelChar at 1 3.
  destruct (isAlnum a), (isAlnum z), (forallb isLabelChar mid); reflexivity.
Qed.

Lemma Spans_label : Spans GmailUtils.label (fun m => isLabel m = true).
Proof.
  eapply Spans_ext.
  - apply Spans_Seq; [apply Spans_Chars|].
    apply Spans_opt. apply Spans_Seq; [apply Spans_Upto_Chars|apply Spans_Chars].
  - intros m. split.
    + intros (m1 & m2 & -> & (a & -> & Ha) & [->|(mid & m3 & -> & (Hm & L) & z & -> & Hz)]).
      * cbn [app]. now rewrite isLabel_single.
      * cbn [app]. rewrite isLabel_long, Ha, Hz. fold isLabelChar in Hm. rewrite Hm.
        cbn. now apply Nat.leb_le.
    + intros H. destruct m as [|a t]; [discriminate H|].
      destruct (exists_last (l := a :: t) ltac:(discriminate)) as (l' & z & E).
      destruct t as [|b t].
      * rewrite isLabel_single in H. exists [a], [].
        split; [reflexivity|]. split; [eauto|now left].
      * destruct l' as [|a' mid]; [destruct t; discriminate E|].
        cbn in E. injection E as <- E. rewrite E in H.
        rewrite isLabel_long in H. rewrite !andb_true_iff in H.
        destruct H as [[[Ha Hz] Hm] L]. apply Nat.leb_le in L.
        exists [a], (mid ++ [z]). rewrite E. split; [reflexivity|].
        split; [eauto|]. right. exists mid, [z]. split; [reflexivity|].
        split; [split; assumption|eauto].
Qed.

Lemma joinDots_cons (l : jsstring) (ls : list jsstring) :
  joinDots (l :: ls) = l ++ concat (map (fun x => 46 :: x) ls).
Proof.
  revert l. induction ls as [|l' ls IH]; intros l.
  - cbn. now rewrite app_nil_r.
  - change (joinDots (l :: l' :: ls)) with (l ++ [46] ++ joinDots (l' :: ls)).
    rewrite IH. reflexivity.
Qed.

Lemma Spans_moreLabels :
  Spans (Star true (Seq (char 46) GmailUtils.label))
        (fun m => exists ls, m = concat (map (fun x => 46 :: x) ls)
                             /\ forallb isLabel ls = true).
Proof.
  eapply Spans_ext.
  - apply Spans_Star. apply Spans_Seq; [apply Spans_Chars|apply Spans_label].
  - intros m. split.
    + intros (ms & -> & F). induction F as [|m1 ms H F (ls & E & Hl)].
      * exists []. auto.
      * destruct H as (d & l & -> & (ch & -> & Hc) & Hl1).
        apply N.eqb_eq in Hc. subst ch.
        exists (l :: ls). cbn. rewrite E, Hl1, Hl. auto.
    + intros (ls & -> & H). exists (map (fun x => 46 :: x) ls). split; [reflexivity|].
      induction ls as [|l ls IH]; [constructor|].
      cbn in H. apply andb_true_iff in H. destruct H as [Hl H].
      constructor; [|now apply IH].
      exists [46], l. split; [reflexivity|]. split; [|exact Hl].
      exists 46. auto.
Qed.

Lemma test_emailPattern (t : jsstring) :
  test GmailUtils.emailPattern t = true <->
  exists local labels,
    t = local ++ [64] ++ joinDots labels
    /\ local <> [] /\ forallb GmailUtils.isLocalChar local = true
    /\ labels <> [] /\ forallb isLabel labels = true.
Proof.
  unfold GmailUtils.emailPattern. cbn [seq].
  rewrite test_anchored.
  2:{ apply SpansToEnd_Seq; [apply Spans_plus_Chars|].
      apply SpansToEnd_Seq; [apply Spans_Chars|].
      apply SpansToEnd_Seq; [apply Spans_label|].
      apply SpansToEnd_Seq; [apply Spans_moreLabels|apply SpansToEnd_Eos]. }
  split.
  - intros (local & m2 & -> & (Hn & Hl) & at_ & m3 & -> & (ch & -> & Hc)
            & l & m4 & -> & Hlab & more & m5 & -> & (ls & -> & Hls) & ->).
    apply N.eqb_eq in Hc. subst ch.
    exists local, (l :: ls). rewrite joinDots_cons, app_nil_r.
    repeat split; auto; [discriminate|]. cbn. now rewrite Hlab, Hls.
  - intros (local & labels & -> & Hn & Hl & Hne & Hls).
    destruct labels as [|l ls]; [contradiction|].
    cbn in Hls. apply andb_true_iff in Hls. destruct Hls as [Hlab Hls].
    rewrite joinDots_cons.
    exists local, ([64] ++ l ++ concat (map (fun x => 46 :: x) ls)).
    split; [reflexivity|]. split; [auto|].
    exists [64], (l ++ concat (map (fun x => 46 :: x) ls)).
    split; [reflexivity|]. split; [exists 64; auto|].
    exists l, (concat (map (fun x => 46 :: x) ls)).
    split; [reflexivity|]. split; [exact Hlab|].
    exists (concat (map (fun x => 46 :: x) ls)), [].
    split; [now rewrite app_nil_r|]. split; [eauto|reflexivity].
Qed.

(** X19. [validateEmailAddress] accepts exactly the addresses of at most
    254 code units that, once trimmed, are a local part of the allowed
    characters, one [@], and one or more labels with dots between
    them. *)
Theorem X19_address_accepted (email : jsstring) :
  isValid (GmailUtils.validateEmailAddress email) = true <->
  (List.length email <= 254)%nat
  /\ exists local labels,
       trim email = local ++ [64] ++ joinDots labels
       /\ local <> [] /\ forallb GmailUtils.isLocalChar local = true
       /\ labels <> [] /\ forallb isLabel labels = true.
Proof.
  unfold GmailUtils.validateEmailAddress.
  rewrite <- (lengthN_le email 254), <- test_emailPattern.
  change (N.of_nat 254) with 254.
  destruct (blank email) eqn:B; cbn [isValid invalid].
  - split; [discriminate|]. intros (_ & H).
    assert (Hb : trim email = []).
    { unfold blank in B. destruct email as [|c rest]; [reflexivity|].
      destruct (trim (c :: rest)); [reflexivity|discriminate B]. }
    rewrite Hb in H. discriminate H.
  - destruct (test GmailUtils.emailPattern (trim email)); cbn [negb isValid invalid].
    + destruct (254 <? lengthN email); cbn [isValid invalid valid].
      * split; [discriminate|]. intros (H & _). discriminate H.
      * split; auto.
    + split; [discriminate|]. intros (_ & H). discriminate H.
Qed.

(** ** Recipients, sanitizing and encoding *)

(** *** Recipients *)

Lemma firstInvalid_Some (emails : list jsstring) email validation :
  GmailUtils.firstInvalid emails = Some (email, validation) ->
  In email emails /\ validation = GmailUtils.validateEmailAddress email
  /\ isValid validation = false.
Proof.
  induction emails as [|e emails IH]; [discriminate|]. cbn [GmailUtils.firstInvalid].
  destruct (isValid (GmailUtils.validateEmailAddress e)) eqn:V.
  - intros H. destruct (IH H) as (I & E). split; [now right|exact E].
  - intros H. injection H as <- <-. split; [now left|]. auto.
Qed.

Lemma firstInvalid_None (emails : list jsstring) :
  GmailUtils.firstInvalid emails = None <->
  forallb (fun e => isValid (GmailUtils.validateEmailAddress e)) emails = true.
Proof.
  induction emails as [|e emails IH]; [split; reflexivity|].
  cbn [GmailUtils.firstInvalid forallb].
  destruct (isValid (GmailUtils.validateEmailAddress e)); [exact IH|].
  split; discriminate.
Qed.

Lemma recipientLimits_valid to cc bcc :
  isValid (GmailSecurity.validateRecipientLimits to cc bcc) = true <->
  (1 <= List.length to <= 25)%nat
  /\ (GmailSecurity.lengthOr0 cc <= 25)%nat
  /\ (GmailSecurity.lengthOr0 bcc <= 25)%nat
  /\ (List.length to + GmailSecurity.lengthOr0 cc + GmailSecurity.lengthOr0 bcc <= 50)%nat.
Proof.
  unfold GmailSecurity.validateRecipientLimits.
  destruct (Nat.ltb_spec 50 (List.length to + GmailSecurity.lengthOr0 cc
                             + GmailSecurity.lengthOr0 bcc));
    cbn [isValid invalid]; [split; [discriminate|lia]|].
  destruct (Nat.eqb_spec (List.length to) 0);
    cbn [isValid invalid]; [split; [discriminate|lia]|].
  destruct (Nat.ltb_spec 25 (List.length to));
    cbn [isValid invalid]; [split; [discriminate|lia]|].
  destruct (Nat.ltb_spec 25 (GmailSecurity.lengthOr0 cc));
    cbn [isValid invalid]; [split; [discriminate|lia]|].
  destruct (Nat.ltb_spec 25 (GmailSecurity.lengthOr0 bcc));
    cbn [isValid invalid valid]; [split; [discriminate|lia]|].
  split; [lia|reflexivity].
Qed.

Lemma allRecipients_length to cc bcc :
  List.length (allRecipients to cc bcc)
  = (List.length to + GmailSecurity.lengthOr0 cc + GmailSecurity.lengthOr0 bcc)%nat.
Proof.
  unfold allRecipients. rewrite !length_app.
  destruct cc, bcc; cbn [GmailSecurity.lengthOr0 List.length]; lia.
Qed.

(** X17. Past [validateRecipientLimits], the list that [sendEmail] hands
    to [validateEmailAddresses] has from 1 to 50 entries, so that this
    check fails on an address only, with the message that names it. *)
Theorem X17_addresses_after_limits (to : list jsstring) (cc bcc : option (list jsstring)) :
  isValid (GmailSecurity.validateRecipientLimits to cc bcc) = true ->
  (1 <= List.length (allRecipients to cc bcc) <= 50)%nat
  /\ (isValid (GmailUtils.validateEmailAddresses (allRecipients to cc bcc)) = false ->
      exists email,
        In email (allRecipients to cc bcc)
        /\ isValid (GmailUtils.validateEmailAddress email) = false
        /\ error (GmailUtils.validateEmailAddresses (allRecipients to cc bcc))
           = Some (jq "Invalid email '" ++ email ++ jq "': "
                   ++ str (error (GmailUtils.validateEmailAddress email)))).
Proof.
  intros V. apply recipientLimits_valid in V.
  pose proof (allRecipients_length to cc bcc) as L.
  split; [lia|].
  unfold GmailUtils.validateEmailAddresses.
  destruct (allRecipients to cc bcc) as [|e rest] eqn:A; [cbn in L; lia|].
  destruct (Nat.ltb_spec 100 (List.length (e :: rest))); [lia|].
  destruct (GmailUtils.firstInvalid (e :: rest)) as [[email validation]|] eqn:F;
    cbn [isValid invalid valid]; [|discriminate].
  intros _. apply firstInvalid_Some in F. destruct F as (I & -> & N).
  exists email. auto.
Qed.

(** *** Sanitizing *)

Lemma existsb_false_Forall {A} (f : A -> bool) (l : list A) :
  existsb f l = false <-> Forall (fun c => f c = false) l.
Proof.
  induction l as [|a l IH]; cbn [existsb].
  - split; [constructor|reflexivity].
  - rewrite orb_false_iff, IH. split.
    + intros [? ?]. now constructor.
    + inversion 1. auto.
Qed.

(** X20. What [sanitizeEmailContent] returns holds no control character
    but TAB, LF and CR. *)
Theorem X20_sanitized_no_control (content : jsstring) :
  existsb isStripped (GmailSecurity.sanitizeEmailContent content) = false.
Proof.
  apply existsb_false_Forall.
  unfold GmailSecurity.sanitizeEmailContent.
  cbn [fold_left GmailSecurity.sanitizers fst snd].
  do 6 (apply replaceGlobal_Forall;
        [apply existsb_false_Forall; vm_compute; reflexivity|]).
  rewrite replaceGlobal_Chars. apply Forall_forall. intros c I.
  apply filter_In in I. destruct I as [_ I]. now apply negb_true_iff.
Qed.

Lemma isStripped_isControl (c : N) :
  isStripped c = true -> isControl c = true.
Proof.
  unfold isStripped, isControl.
  rewrite !orb_true_iff, !andb_true_iff, !N.leb_le, !N.eqb_eq. lia.
Qed.

Lemma existsb_weaken {A} (f g : A -> bool) (l : list A) :
  (forall a, f a = true -> g a = true) -> existsb g l = false -> existsb f l = false.
Proof.
  intros H G. destruct (existsb f l) eqn:E; [|reflexivity].
  apply existsb_exists in E. destruct E as (a & I & F).
  assert (X : existsb g l = true) by (apply existsb_exists; eauto).
  congruence.
Qed.

Lemma test_seq_absent (a : Re) (l : list Re) (s : jsstring) :
  test a s = false -> test (seq (a :: l)) s = false.
Proof.
  intros H. destruct (test (seq (a :: l)) s) eqn:E; [|reflexivity].
  apply test_seq_start in E. congruence.
Qed.

Lemma eventHandlerSpaced_equals (s : jsstring) :
  test GmailSecurity.eventHandlerSpaced s = true -> existsb (N.eqb 61) s = true.
Proof.
  assert (S : Spans GmailSecurity.eventHandlerSpaced
                (fun m => exists m1 m2, m = m1 ++ m2 /\
                   map lowerAscii m1 = map lowerAscii (js "on") /\
                   exists m3 m4, m2 = m3 ++ m4 /\
                     (m3 <> [] /\ forallb isWordChar m3 = true) /\
                     exists m5 m6, m4 = m5 ++ m6 /\
                       forallb isTrimSpace m5 = true /\
                       exists ch, m6 = [ch] /\ (61 =? ch) = true)).
  { apply Spans_Seq; [apply (Spans_litI "on")|].
    apply Spans_Seq; [apply Spans_plus_Chars|].
    apply Spans_Seq; [apply Spans_Star_Chars|apply Spans_Chars]. }
  rewrite (test_Spans _ _ _ S).
  intros (pre & m & post & -> & m1 & m2 & -> & _ & m3 & m4 & -> & _
          & m5 & m6 & -> & _ & ch & -> & Hc).
  apply existsb_exists. exists ch. split; [|exact Hc].
  rewrite !in_app_iff. right. left. right. right. right. now left.
Qed.

Lemma subject_valid_tests (subject : jsstring) :
  isValid (GmailSecurity.validateEmailSubject subject) = true ->
  existsb (fun pattern => test pattern subject) GmailSecurity.maliciousPatterns = false.
Proof.
  unfold GmailSecurity.validateEmailSubject.
  destruct (blank subject); [discriminate|].
  destruct (existsb _ GmailSecurity.maliciousPatterns); [discriminate|reflexivity].
Qed.

Lemma sanitize_validated_subject (subject : jsstring) :
  isValid (GmailSecurity.validateEmailSubject subject) = true ->
  GmailSecurity.sanitizeEmailContent subject
  = replaceGlobal GmailSecurity.eventHandlerSpaced (js "on_event_removed=") subject.
Proof.
  intros V. apply subject_valid_tests in V.
  cbn [existsb GmailSecurity.maliciousPatterns] in V.
  rewrite !orb_false_iff in V.
  destruct V as (C & J & D & B & Sc & If & _).
  unfold GmailSecurity.sanitizeEmailContent.
  cbn [fold_left GmailSecurity.sanitizers fst snd].
  rewrite (replaceGlobal_none (Chars isStripped)).
  2:{ rewrite test_Chars in *.
      exact (existsb_weaken _ _ _ isStripped_isControl C). }
  rewrite (replaceGlobal_none (litI "javascript:")) by exact J.
  rewrite (replaceGlobal_none (litI "data:")) by exact D.
  rewrite (replaceGlobal_none (litI "vbscript:")) by exact B.
  rewrite (replaceGlobal_none (seq (litI "<script" :: _)))
    by (apply test_seq_absent; exact Sc).
  rewrite (replaceGlobal_none (GmailSecurity.openTag "iframe"))
    by (apply (test_seq_absent (litI "<iframe")); exact If).
  reflexivity.
Qed.

(** X21. On a subject that [validateEmailSubject] accepted, six of the
    seven steps of [sanitizeEmailContent] change nothing: what is sent is
    the subject with its [on], word, white space and [=] runs replaced;
    a subject without [=] is sent as it is. *)
Theorem X21_validated_subject_sanitized (subject : jsstring) :
  isValid (GmailSecurity.validateEmailSubject subject) = true ->
  GmailSecurity.sanitizeEmailContent subject
  = replaceGlobal GmailSecurity.eventHandlerSpaced (js "on_event_removed=") subject
  /\ (existsb (N.eqb 61) subject = false ->
      GmailSecurity.sanitizeEmailContent subject = subject).
Proof.
  intros V. pose proof (sanitize_validated_subject subject V) as E.
  split; [exact E|]. intros H. rewrite E. apply replaceGlobal_none.
  destruct (test GmailSecurity.eventHandlerSpaced subject) eqn:T; [|reflexivity].
  apply eventHandlerSpaced_equals in T. congruence.
Qed.

(** *** The encoded message *)

Lemma replaceFrom_char (c : N) (by_ : jsstring) : forall s fuel prev,
  (List.length s < fuel)%nat ->
  replaceFrom fuel (char c) by_ prev s = replaceAll c by_ s.
Proof.
  induction s as [|ch s IH]; intros [|fuel] prev L; try (cbn in L; lia).
  - rewrite replaceFrom_eq. reflexivity.
  - rewrite replaceFrom_eq. cbn [List.length] in L.
    change (matcher (char c) (prev, ch :: s) Some)
      with (if c =? ch then Some (Some ch, s) else None).
    cbn [replaceAll]. rewrite (N.eqb_sym ch c). destruct (c =? ch).
    + change (samePlace (prev, ch :: s) (Some ch, s))
        with (Nat.eqb (S (List.length s)) (List.length s)).
      rewrite (proj2 (Nat.eqb_neq _ _)) by lia.
      cbn [fst snd]. rewrite IH by lia. reflexivity.
    + rewrite IH by lia. reflexivity.
Qed.

Lemma replaceGlobal_char (c : N) (by_ s : jsstring) :
  replaceGlobal (char c) by_ s = replaceAll c by_ s.
Proof. apply replaceFrom_char. lia. Qed.

(** The pattern [=+$] reads a run of [=] that ends the input. *)
Lemma SpansToEnd_padding :
  SpansToEnd (seq [plus (char 61); Eos])
             (fun m => m <> [] /\ forallb (N.eqb 61) m = true).
Proof.
  eapply SpansToEnd_ext.
  - apply SpansToEnd_Seq; [apply Spans_plus_Chars|apply SpansToEnd_Eos].
  - intros m. split.
    + intros (m1 & m2 & -> & H & ->). now rewrite app_nil_r.
    + intros H. exists m, []. now rewrite app_nil_r.
Qed.

Lemma forallb_repeat (f : N -> bool) (c : N) (k : nat) :
  f c = true -> forallb f (repeat c k) = true.
Proof. intros H. induction k; cbn; [reflexivity|]. now rewrite H. Qed.

Lemma search_padding : forall u k prev,
  existsb (N.eqb 61) u = false ->
  match k with
  | O => search (seq [plus (char 61); Eos]) prev (u ++ repeat 61 k) = None
  | S _ => exists e, search (seq [plus (char 61); Eos]) prev (u ++ repeat 61 k)
                     = Some (u, e) /\ snd e = []
  end.
Proof.
  induction u as [|c u IH]; intros k prev H.
  - cbn [app]. destruct k as [|k]; rewrite search_eq;
      destruct (matcher (seq [plus (char 61); Eos]) _ Some) as [e|] eqn:E.
    + apply matcher_sound in E. destruct E as (y & M & _).
      apply SpansToEnd_padding in M. cbn in M. now destruct M as (_ & (N & _) & _).
    + reflexivity.
    + exists e. split; [reflexivity|].
      apply matcher_sound in E. destruct E as (y & M & Hy). injection Hy as ->.
      apply SpansToEnd_padding in M. tauto.
    + exfalso. revert E. rewrite matcher_None. intros E.
      apply (E (after prev (repeat 61 (S k)), [])).
      apply SpansToEnd_padding. cbn [fst snd]. split; [reflexivity|].
      split; [|reflexivity]. split; [discriminate|].
      now apply forallb_repeat.
  - cbn [existsb] in H. apply orb_false_iff in H. destruct H as [Hc H].
    cbn [app]. specialize (IH k (Some c) H).
    destruct k as [|k]; rewrite search_eq;
      destruct (matcher (seq [plus (char 61); Eos]) _ Some) as [e|] eqn:E.
    + exfalso. apply matcher_sound in E. destruct E as (y & M & _).
      apply SpansToEnd_padding in M. cbn [snd] in M.
      destruct M as (_ & (_ & F) & _). cbn [forallb] in F.
      rewrite Hc in F. discriminate F.
    + now rewrite IH.
    + exfalso. apply matcher_sound in E. destruct E as (y & M & _).
      apply SpansToEnd_padding in M. cbn [snd] in M.
      destruct M as (_ & (_ & F) & _). cbn [forallb] in F.
      rewrite Hc in F. discriminate F.
    + destruct IH as (e & -> & E'). exists e. auto.
Qed.

Lemma strip_padding (u : jsstring) (k : nat) :
  existsb (N.eqb 61) u = false ->
  replaceFirst (seq [plus (char 61); Eos]) [] (u ++ repeat 61 k) = u.
Proof.
  intros H. unfold replaceFirst. pose proof (search_padding u k None H) as S.
  destruct k as [|k].
  - rewrite S. cbn. apply app_nil_r.
  - destruct S as (e & -> & E). rewrite E. cbn. apply app_nil_r.
Qed.

Lemma swapped_b64char (n : N) (s : jsstring) :
  swapped (b64char n :: s) = b64urlchar n :: swapped s.
Proof.
  unfold swapped, b64char, b64urlchar.
  destruct (N.ltb_spec n 26); [|destruct (N.ltb_spec n 52); [|destruct (N.ltb_spec n 62)]].
  - cbn [replaceAll]. rewrite (proj2 (N.eqb_neq _ 43)) by lia.
    cbn [replaceAll]. rewrite (proj2 (N.eqb_neq _ 47)) by lia. reflexivity.
  - cbn [replaceAll]. rewrite (proj2 (N.eqb_neq _ 43)) by lia.
    cbn [replaceAll]. rewrite (proj2 (N.eqb_neq _ 47)) by lia. reflexivity.
  - cbn [replaceAll]. rewrite (proj2 (N.eqb_neq _ 43)) by lia.
    cbn [replaceAll]. rewrite (proj2 (N.eqb_neq _ 47)) by lia. reflexivity.
  - destruct (n =? 62); reflexivity.
Qed.

Lemma swapped_b64enc (bs : list N) :
  exists k, swapped (b64enc bs) = base64url_nopad bs ++ repeat 61 k.
Proof.
  induction bs as [|a|a b|a b c l [k IH]] using list_ind3.
  - exists 0%nat. reflexivity.
  - exists 2%nat. cbn [b64enc base64url_nopad]. now rewrite !swapped_b64char.
  - exists 1%nat. cbn [b64enc base64url_nopad]. now rewrite !swapped_b64char.
  - exists k. cbn [b64enc base64url_nopad]. now rewrite !swapped_b64char, IH.
Qed.

Lemma urlSafe_no_padding (s : jsstring) :
  forallb isUrlSafeChar s = true -> existsb (N.eqb 61) s = false.
Proof.
  intros H. destruct (existsb (N.eqb 61) s) eqn:E; [|reflexivity].
  apply existsb_exists in E. destruct E as (c & I & Hc).
  apply N.eqb_eq in Hc. subst c.
  rewrite forallb_forall in H. apply H in I. discriminate I.
Qed.

(** X22. The [raw] text that [createGmailMessage] returns is the base64url
    encoding, without padding, of the UTF-8 bytes of the MIME text; it is
    written in the URL-safe alphabet. *)
Theorem X22_raw_is_base64url (draw : GmailUtils.Draw) (message : GmailUtils.GmailMessage) :
  GmailUtils.createGmailMessage draw message
  = base64url_nopad (TextEncoder_encode (GmailUtils.mimeText draw message))
  /\ forallb isUrlSafeChar (GmailUtils.createGmailMessage draw message) = true.
Proof.
  assert (E : GmailUtils.createGmailMessage draw message
              = base64url_nopad (TextEncoder_encode (GmailUtils.mimeText draw message))).
  { unfold GmailUtils.createGmailMessage, GmailUtils.Buffer_base64.
    rewrite !replaceGlobal_char.
    destruct (swapped_b64enc (TextEncoder_encode (GmailUtils.mimeText draw message)))
      as (k & S).
    unfold swapped in S. rewrite S. apply strip_padding.
    apply urlSafe_no_padding, base64url_nopad_safe. }
  split; [exact E|]. rewrite E. apply base64url_nopad_safe.
Qed.

(** The text of a message with copies: every address of [cc] and of [bcc]
    is named in its header line. *)
Example mimeText_copies :
  GmailUtils.mimeText sampleDraw
    {| GmailUtils.to := [js "ada@example.org"];
       GmailUtils.cc := Some [js "c1@example.org"; js "c2@example.org"];
       GmailUtils.bcc := Some [js "b1@example.org"];
       GmailUtils.subject := js "Hello";
       GmailUtils.body := js "Hi";
       GmailUtils.isHtml := false |}
  = js "To: ada@example.org" ++ GmailUtils.CRLF
    ++ js "Cc: c1@example.org, c2@example.org" ++ GmailUtils.CRLF
    ++ js "Bcc: b1@example.org" ++ GmailUtils.CRLF
    ++ js "Subject: Hello" ++ GmailUtils.CRLF
    ++ js "MIME-Version: 1.0" ++ GmailUtils.CRLF
    ++ jq "Content-Type: multipart/mixed; boundary='boundary_1700000000000_k3j9x0q1z'"
    ++ GmailUtils.CRLF ++ GmailUtils.CRLF
    ++ js "--boundary_1700000000000_k3j9x0q1z" ++ GmailUtils.CRLF
    ++ js "Content-Type: text/plain; charset=UTF-8" ++ GmailUtils.CRLF
    ++ js "Content-Transfer-Encoding: quoted-printable" ++ GmailUtils.CRLF
    ++ GmailUtils.CRLF
    ++ js "Hi" ++ GmailUtils.CRLF ++ GmailUtils.CRLF
    ++ js "--boundary_1700000000000_k3j9x0q1z--".
Proof. vm_compute. reflexivity. Qed.

Lemma X17_witness :
  (1 <= List.length (allRecipients [js "ada@example.org"] None None) <= 50)%nat
  /\ (isValid (GmailUtils.validateEmailAddresses
                 (allRecipients [js "ada@example.org"] None None)) = false ->
      exists email,
        In email (allRecipients [js "ada@example.org"] None None)
        /\ isValid (GmailUtils.validateEmailAddress email) = false
        /\ error (GmailUtils.validateEmailAddresses
                    (allRecipients [js "ada@example.org"] None None))
           = Some (jq "Invalid email '" ++ email ++ jq "': "
                   ++ str (error (GmailUtils.validateEmailAddress email)))).
Proof.
  apply (X17_addresses_after_limits [js "ada@example.org"] None None).
  vm_compute. reflexivity.
Defined.

Lemma X21_witness :
  GmailSecurity.sanitizeEmailContent sampleSubject
  = replaceGlobal GmailSecurity.eventHandlerSpaced (js "on_event_removed=") sampleSubject
  /\ (existsb (N.eqb 61) sampleSubject = false ->
      GmailSecurity.sanitizeEmailContent sampleSubject = sampleSubject).
Proof.
  apply (X21_validated_subject_sanitized sampleSubject). vm_compute. reflexivity.
Defined.

(** ** The tools *)

Section SendEmail.

Variable w : World.
Variable toLowerCase : jsstring -> jsstring.
Variable draw : Draw.
Variable props : Props.
Variable a : SendEmailArgs.

Let request : FetchRequest := sendRequest draw (accessToken props) (sentMessage a).

(** Before the checks pass, the tool answers with an error and asks
    nothing of Gmail. *)
Lemma trySendEmail_refused :
  checksPass toLowerCase a = false ->
  exists message,
    trySendEmail w toLowerCase draw props a
    = (inr (createErrorResponse message None), []).
Proof.
  unfold checksPass, trySendEmail, allRecipients.
  destruct (isValid (GmailSecurity.validateRecipientLimits _ _ _));
    cbn [negb andb]; [|eauto].
  destruct (isValid (validateEmailAddresses _)); cbn [negb andb]; [|eauto].
  destruct (isValid (GmailSecurity.validateEmailSubject _)); cbn [negb andb]; [|eauto].
  destruct (isValid (GmailSecurity.validateEmailBody _)); cbn [negb andb]; [|eauto].
  destruct (Nat.leb_spec (List.length (GmailSecurity.detectPhishingIndicators
                            toLowerCase (arg_subject a) (arg_body a))) 2) as [L|L];
    [discriminate|].
  apply Nat.ltb_lt in L. rewrite L. eauto.
Qed.

(** Once they pass, it sends the sanitized message. *)
Lemma trySendEmail_sends :
  checksPass toLowerCase a = true ->
  trySendEmail w toLowerCase draw props a
  = match sendGmailMessage w draw (accessToken props) (sentMessage a) with
    | (inl thrown, tr) => (inl thrown, tr)
    | (inr result, tr) =>
        (match sentIds result with
         | inr (id, threadId) =>
             inr [{| content_text :=
                       sentText props a id threadId
                         (GmailSecurity.sanitizeEmailContent (arg_subject a))
                         (GmailSecurity.sanitizeEmailContent (arg_body a))
                         (GmailSecurity.detectPhishingIndicators toLowerCase
                            (arg_subject a) (arg_body a));
                     content_isError := None |}]
         | inl e => inl (Exception e)
         end, tr)
    end.
Proof.
  unfold checksPass, trySendEmail, allRecipients. rewrite !andb_true_iff.
  intros ((((V1 & V2) & V3) & V4) & V5).
  rewrite V1, V2, V3, V4. cbn [negb].
  apply Nat.leb_le in V5.
  rewrite (proj2 (Nat.ltb_ge _ _)) by exact V5.
  reflexivity.
Qed.

Lemma sendGmailMessage_trace (m : GmailMessage) :
  snd (sendGmailMessage w draw (accessToken props) m)
  = [Fetch (sendRequest draw (accessToken props) m)].
Proof. reflexivity. Qed.

Lemma sendEmail_refused :
  checksPass toLowerCase a = false ->
  exists message,
    sendEmail w toLowerCase draw props a
    = (inr (createErrorResponse message None), []).
Proof.
  intros H. destruct (trySendEmail_refused H) as (message & E).
  exists message. unfold sendEmail. now rewrite E.
Qed.

(** What [formatGmailError] makes of what an operation threw. *)
Lemma formatGmailError_worded (thrown : Thrown) :
  unworded thrown = false -> exists text, formatGmailError w thrown = inr text.
Proof.
  destruct thrown as [e|status message details]; [intros _; eexists; reflexivity|].
  unfold unworded, formatGmailError. cbn [existsb].
  destruct (status =? 400), (status =? 401), (status =? 403), (status =? 404),
    (status =? 429); cbn [orb negb andb]; try (intros _; eexists; reflexivity).
  destruct (ToString (orElse message (strV "Unknown error"))); [discriminate|].
  intros _. eexists. reflexivity.
Qed.

Lemma formatGmailError_throws (thrown : Thrown) :
  unworded thrown = true -> formatGmailError w thrown = inl TypeError.
Proof.
  destruct thrown as [e|status message details]; [discriminate|].
  unfold unworded, formatGmailError. cbn [existsb].
  destruct (status =? 400), (status =? 401), (status =? 403), (status =? 404),
    (status =? 429); cbn [orb negb andb]; try discriminate.
  destruct (ToString (orElse message (strV "Unknown error"))) as [e|text] eqn:T;
    [|discriminate].
  apply ToString_TypeError in T. now subst e.
Qed.

Lemma answerOf_refused (response : HttpResponse) :
  ok response = false -> exists thrown, answerOf response = inl thrown.
Proof.
  intros O. unfold answerOf. rewrite O. cbn [negb].
  destruct (failureMessage _ _); eexists; reflexivity.
Qed.

Lemma answerOf_ok (response : HttpResponse) :
  ok response = true ->
  answerOf response
  = match json response with
    | inr result => inr result
    | inl e => inl (Exception e)
    end.
Proof. intros O. unfold answerOf. now rewrite O. Qed.

(** The three ways in which the tool ends once the checks have passed. *)
Lemma sendEmail_sent :
  checksPass toLowerCase a = true ->
  snd (sendEmail w toLowerCase draw props a) = [Fetch request]
  /\ ((acknowledged w request
       /\ refusedUnworded w request = false
       /\ exists text,
            fst (sendEmail w toLowerCase draw props a)
            = inr [{| content_text := text; content_isError := None |}])
      \/ (~ acknowledged w request
          /\ refusedUnworded w request = false
          /\ exists message,
               fst (sendEmail w toLowerCase draw props a)
               = inr (createErrorResponse message None))
      \/ (~ acknowledged w request
          /\ refusedUnworded w request = true
          /\ fst (sendEmail w toLowerCase draw props a) = inl (Exception TypeError))).
Proof.
  intros H. unfold sendEmail. rewrite (trySendEmail_sends H).
  unfold sendGmailMessage, refusedUnworded, acknowledged. fold request.
  destruct (fetch w request) as [e|response] eqn:F.
  { split; [reflexivity|]. right. left. split; [|split; [reflexivity|]].
    - intros (r & d & i & X & _). discriminate X.
    - eexists. reflexivity. }
  destruct (ok response) eqn:O.
  2:{ destruct (answerOf_refused response O) as (thrown & A). rewrite A.
      destruct (unworded thrown) eqn:U.
      - rewrite (formatGmailError_throws thrown U).
        split; [reflexivity|]. right. right. split; [|split; reflexivity].
        intros (r & d & i & X & O' & _). injection X as <-. congruence.
      - destruct (formatGmailError_worded thrown U) as (text & T). rewrite T.
        split; [reflexivity|]. right. left. split; [|split; [reflexivity|]].
        + intros (r & d & i & X & O' & _). injection X as <-. congruence.
        + eexists. reflexivity. }
  rewrite (answerOf_ok response O).
  destruct (json response) as [e|data] eqn:J.
  { split; [reflexivity|]. right. left. split; [|split; [reflexivity|]].
    - intros (r & d & i & X & _ & J' & _). injection X as <-. congruence.
    - eexists. reflexivity. }
  destruct (sentIds data) as [e|[id threadId]] eqn:S.
  { split; [reflexivity|]. right. left. split; [|split; [reflexivity|]].
    - intros (r & d & i & X & _ & J' & S'). injection X as <-.
      rewrite J in J'. injection J' as <-. congruence.
    - eexists. reflexivity. }
  split; [reflexivity|]. left. split; [|split; [reflexivity|]].
  - exists response, data, (id, threadId). auto.
  - eexists. reflexivity.
Qed.

(** X23. [sendEmail] asks Gmail exactly when its five checks pass, and then
    once: the POST of the sanitized message to the send endpoint, under the
    access token of the user.  It answers whatever happens to that request,
    with one exception: a refusal that [formatGmailError] cannot word (a
    status without a text of its own, with a message that does not convert
    to a string) makes the [catch] of the tool throw a [TypeError]. *)
Theorem X23_sendEmail_requests :
  (if checksPass toLowerCase a
      && refusedUnworded w (sendRequest draw (accessToken props) (sentMessage a))
   then fst (sendEmail w toLowerCase draw props a) = inl (Exception TypeError)
   else exists answer, fst (sendEmail w toLowerCase draw props a) = inr answer)
  /\ snd (sendEmail w toLowerCase draw props a)
     = if checksPass toLowerCase a
       then [Fetch (sendRequest draw (accessToken props) (sentMessage a))]
       else [].
Proof.
  destruct (checksPass toLowerCase a) eqn:C; cbn [andb].
  - destruct (sendEmail_sent C)
      as (T & [(_ & U & text & E)|[(_ & U & message & E)|(_ & U & E)]]);
      fold request; rewrite U; (split; [|exact T]); rewrite E; eauto.
  - destruct (sendEmail_refused C) as (message & E). rewrite E. cbn. eauto.
Qed.

(** X24. [sendEmail] reports success exactly when the checks pass and
    Gmail acknowledged the message with an [id] and a [threadId] it could
    write; every other answer is flagged as an error. *)
Theorem X24_sendEmail_success :
  (forall answer,
     fst (sendEmail w toLowerCase draw props a) = inr answer ->
     isPlainAnswer answer \/ isErrorAnswer answer)
  /\ ((exists answer,
         fst (sendEmail w toLowerCase draw props a) = inr answer
         /\ isPlainAnswer answer)
      <-> checksPass toLowerCase a = true
          /\ acknowledged w (sendRequest draw (accessToken props) (sentMessage a))).
Proof.
  assert (D : forall message, ~ isPlainAnswer (createErrorResponse message None)).
  { intros message (text & E). discriminate E. }
  destruct (checksPass toLowerCase a) eqn:C.
  - destruct (sendEmail_sent C)
      as (_ & [(A & _ & text & E)|[(A & _ & message & E)|(A & _ & E)]]);
      fold request; rewrite E; split.
    + intros answer X. injection X as <-. left. eexists. reflexivity.
    + split; [intros _; auto|]. intros _. eexists. split; [reflexivity|].
      eexists. reflexivity.
    + intros answer X. injection X as <-. right. eexists. reflexivity.
    + split; [|intros (_ & A'); contradiction].
      intros (answer & X & P). injection X as <-. now apply D in P.
    + intros answer X. discriminate X.
    + split; [|intros (_ & A'); contradiction].
      intros (answer & X & _). discriminate X.
  - destruct (sendEmail_refused C) as (message & E). rewrite E. cbn [fst]. split.
    + intros answer X. injection X as <-. right. eexists. reflexivity.
    + split; [|intros (X & _); discriminate X].
      intros (answer & X & P). injection X as <-. now apply D in P.
Qed.

End SendEmail.

(** A refusal that cannot be worded: the tools throw. *)
Example tools_throw_on_unworded_refusal :
  sendEmail garblingWorld (fun s => s) sampleDraw sampleProps sampleMail
  = (inl (Exception TypeError),
     [Fetch (sendRequest sampleDraw (accessToken sampleProps) (sentMessage sampleMail))])
  /\ getEmailProfile garblingWorld sampleProps
     = (inl (Exception TypeError), [Fetch (profileRequest (accessToken sampleProps))]).
Proof. vm_compute. split; reflexivity. Qed.

(** X25. The subject of a message that passed the checks of [sendEmail]
    still holds no control character after sanitizing: its header line
    cannot be broken. *)
Theorem X25_sent_subject_one_line (toLowerCase : jsstring -> jsstring)
    (a : SendEmailArgs) :
  checksPass toLowerCase a = true ->
  existsb isControl (subject (sentMessage a)) = false.
Proof.
  unfold checksPass. rewrite !andb_true_iff. intros ((((_ & _) & V) & _) & _).
  cbn [subject sentMessage]. rewrite (sanitize_validated_subject _ V).
  apply subject_valid_tests in V.
  cbn [existsb GmailSecurity.maliciousPatterns] in V.
  apply orb_false_iff in V. destruct V as [V _]. rewrite test_Chars in V.
  apply existsb_false_Forall. apply replaceGlobal_Forall.
  - apply existsb_false_Forall. vm_compute. reflexivity.
  - now apply existsb_false_Forall.
Qed.

Section GetEmailProfile.

Variable w : World.
Variable props : Props.



End GetEmailProfile.

Lemma X25_witness :
  existsb isControl (subject (sentMessage sampleMail)) = false.
Proof.
  apply (X25_sent_subject_one_line (fun s => s) sampleMail). vm_compute. reflexivity.
Defined.

(** ** The check of the body *)

(** *** The patterns of the body *)

Lemma first_occurrence (c : N) (l : jsstring) :
  In c l -> exists x y, l = x ++ c :: y /\ forallb (fun d => negb (d =? c)) x = true.
Proof.
  induction l as [|d l IH]; [contradiction|]. intros I.
  destruct (N.eqb_spec d c) as [->|Hd].
  - exists [], l. auto.
  - destruct I as [->|I]; [contradiction|].
    destruct (IH I) as (x & y & -> & F). exists (d :: x), y.
    split; [reflexivity|]. cbn. rewrite F.
    now rewrite (proj2 (N.eqb_neq d c) Hd).
Qed.

Lemma lower_closing (m : jsstring) :
  map lowerAscii m = map lowerAscii (js ">") <-> m = [62].
Proof.
  split; [|now intros ->].
  destruct m as [|c [|d m]]; try discriminate. cbn. intros H. injection H as H.
  f_equal. unfold lowerAscii in H.
  destruct (N.leb_spec 65 c), (N.leb_spec c 90); cbn [andb] in H; lia.
Qed.

Lemma resplit (g post : jsstring) :
  exists x y, g ++ [62] ++ post = x ++ [62] ++ y ++ post
              /\ forallb (fun d => negb (d =? 62)) x = true.
Proof.
  destruct (first_occurrence 62 (g ++ [62])) as (x & y & E & Hx).
  { apply in_or_app. right. now left. }
  exists x, y. split; [|exact Hx].
  rewrite app_assoc, E, <- app_assoc. reflexivity.
Qed.

Lemma test_openTag (name : string) (s : jsstring) :
  test (GmailSecurity.openTag name) s = true
  <-> occurInOrder [js ("<" ++ name); js ">"] s.
Proof.
  assert (S : Spans (GmailSecurity.openTag name)
                (fun m => exists m1 r, m = m1 ++ r /\
                   map lowerAscii m1 = map lowerAscii (js ("<" ++ name)) /\
                   exists x r2, r = x ++ r2 /\
                     forallb (fun d => negb (d =? 62)) x = true /\
                     exists ch, r2 = [ch] /\ (62 =? ch) = true)).
  { apply Spans_Seq; [apply Spans_litI|].
    apply Spans_Seq; [apply Spans_Star_Chars|apply Spans_Chars]. }
  rewrite (test_Spans _ _ _ S). cbn [occurInOrder]. split.
  - intros (pre & m & post & -> & m1 & r & -> & H1 & x & r2 & -> & _ & ch & -> & Hc).
    apply N.eqb_eq in Hc. subst ch.
    exists pre, m1, (x ++ [62] ++ post). split; [now rewrite <- !app_assoc|].
    split; [exact H1|]. exists x, [62], post. auto.
  - intros (pre & m1 & post1 & -> & H1 & g & m2 & post & -> & H2 & _).
    apply (proj1 (lower_closing _)) in H2. subst m2.
    destruct (resplit g post) as (x & y & E & Hx). rewrite E.
    exists pre, (m1 ++ x ++ [62]), (y ++ post). split; [now rewrite <- !app_assoc|].
    exists m1, (x ++ [62]). split; [reflexivity|]. split; [exact H1|].
    exists x, [62]. split; [reflexivity|]. split; [exact Hx|]. exists 62. auto.
Qed.

Lemma forallb_true {A} (l : list A) : forallb (fun _ => true) l = true.
Proof. induction l; auto. Qed.

Lemma test_scriptBlock (s : jsstring) :
  test (seq [litI "<script"; Star true (notChar 62); char 62; Star true any;
             litI "</script>"]) s = true
  <-> occurInOrder [js "<script"; js ">"; js "</script>"] s.
Proof.
  assert (S : Spans (seq [litI "<script"; Star true (notChar 62); char 62;
                          Star true any; litI "</script>"])
                (fun m => exists m1 r, m = m1 ++ r /\
                   map lowerAscii m1 = map lowerAscii (js "<script") /\
                   exists x r2, r = x ++ r2 /\
                     forallb (fun d => negb (d =? 62)) x = true /\
                     exists c r3, r2 = c ++ r3 /\
                       (exists ch, c = [ch] /\ (62 =? ch) = true) /\
                       exists y m2, r3 = y ++ m2 /\
                         forallb (fun _ => true) y = true /\
                         map lowerAscii m2 = map lowerAscii (js "</script>"))).
  { apply Spans_Seq; [apply Spans_litI|].
    apply Spans_Seq; [apply Spans_Star_Chars|].
    apply Spans_Seq; [apply Spans_Chars|].
    apply Spans_Seq; [apply Spans_Star_Chars|apply Spans_litI]. }
  rewrite (test_Spans _ _ _ S). cbn [occurInOrder]. split.
  - intros (pre & m & post & -> & m1 & r & -> & H1 & x & r2 & -> & _
            & c & r3 & -> & (ch & -> & Hc) & y & m2 & -> & _ & H2).
    apply N.eqb_eq in Hc. subst ch.
    exists pre, m1, (x ++ [62] ++ y ++ m2 ++ post).
    split; [now rewrite <- !app_assoc|]. split; [exact H1|].
    exists x, [62], (y ++ m2 ++ post). split; [reflexivity|]. split; [reflexivity|].
    exists y, m2, post. auto.
  - intros (pre & m1 & post1 & -> & H1 & g & c & post2 & -> & Hc
            & y & m2 & post & -> & H2 & _).
    apply (proj1 (lower_closing _)) in Hc. subst c.
    destruct (resplit g (y ++ m2 ++ post)) as (x & y' & E & Hx). rewrite E.
    exists pre, (m1 ++ x ++ [62] ++ (y' ++ y) ++ m2), post.
    split; [now rewrite <- !app_assoc|].
    exists m1, (x ++ [62] ++ (y' ++ y) ++ m2). split; [reflexivity|].
    split; [exact H1|].
    exists x, ([62] ++ (y' ++ y) ++ m2). split; [reflexivity|]. split; [exact Hx|].
    exists [62], ((y' ++ y) ++ m2). split; [reflexivity|]. split; [exists 62; auto|].
    exists (y' ++ y), m2. split; [reflexivity|]. split; [apply forallb_true|exact H2].
Qed.

Lemma test_dataHtml (s : jsstring) :
  test (seq [litI "data:"; Star true space; litI "text/html"]) s = true
  <-> hasDataHtml s.
Proof.
  assert (S : Spans (seq [litI "data:"; Star true space; litI "text/html"])
                (fun m => exists m1 r, m = m1 ++ r /\
                   map lowerAscii m1 = map lowerAscii (js "data:") /\
                   exists ws m2, r = ws ++ m2 /\
                     forallb isTrimSpace ws = true /\
                     map lowerAscii m2 = map lowerAscii (js "text/html"))).
  { apply Spans_Seq; [apply Spans_litI|].
    apply Spans_Seq; [apply Spans_Star_Chars|apply Spans_litI]. }
  rewrite (test_Spans _ _ _ S). unfold hasDataHtml. split.
  - intros (pre & m & post & -> & m1 & r & -> & H1 & ws & m2 & -> & Hw & H2).
    exists pre, m1, ws, m2, post. split; [now rewrite <- !app_assoc|]. auto.
  - intros (pre & m1 & ws & m2 & post & -> & H1 & Hw & H2).
    exists pre, (m1 ++ ws ++ m2), post. split; [now rewrite <- !app_assoc|].
    exists m1, (ws ++ m2). split; [reflexivity|]. split; [exact H1|].
    exists ws, m2. auto.
Qed.

(** X27. [validateEmailBody] accepts exactly the bodies that are not
    blank and have at most 10485760 code units, in which [<script], [>]
    and [</script>] do not occur in this order, nor [<iframe], [<object],
    [<embed], [<applet] or [<form] with a [>] after it, nor [javascript:]
    or [vbscript:], nor [data:] with [text/html] after it and only white
    space between, in any case of the letters, and in which fewer than
    three of the five spam patterns are found. *)
Theorem X27_body_accepted (body : jsstring) :
  isValid (GmailSecurity.validateEmailBody body) = true <->
  trim body <> []
  /\ lengthN body <= 10485760
  /\ ~ occurInOrder [js "<script"; js ">"; js "</script>"] body
  /\ (forall tag, In tag ["iframe"; "object"; "embed"; "applet"; "form"]%string ->
                  ~ occurInOrder [js ("<" ++ tag); js ">"] body)
  /\ includesI (js "javascript:") body = false
  /\ includesI (js "vbscript:") body = false
  /\ ~ hasDataHtml body
  /\ (List.length (filter (fun pattern => test pattern body)
                     GmailSecurity.spamIndicators) < 3)%nat.
Proof.
  unfold GmailSecurity.validateEmailBody.
  rewrite <- blank_spec, <- test_scriptBlock, <- test_dataHtml.
  cbn [existsb GmailSecurity.suspiciousPatterns].
  rewrite !test_litI, orb_false_r.
  assert (T : forall tag, test (GmailSecurity.openTag tag) body = false
                          <-> ~ occurInOrder [js ("<" ++ tag); js ">"] body).
  { intros tag. rewrite <- test_openTag. destruct (test _ body); split; congruence. }
  destruct (blank body); cbn [isValid invalid];
    [split; [discriminate|intros (H & _); discriminate H]|].
  destruct (test (seq [litI "<script"; _; _; _; _]) body) eqn:E1;
    cbn [orb isValid invalid];
    [split; [discriminate|intros (_ & _ & H & _); exfalso; apply H; reflexivity]|].
  destruct (test (GmailSecurity.openTag "iframe") body) eqn:E2;
    cbn [orb isValid invalid];
    [split; [discriminate|intros (_ & _ & _ & H & _)];
     exfalso; apply (H "iframe"%string); [cbn; auto|now apply test_openTag]|].
  destruct (includesI (js "javascript:") body) eqn:E3; cbn [orb isValid invalid];
    [split; [discriminate|intros (_ & _ & _ & _ & H & _); discriminate H]|].
  destruct (test (seq [litI "data:"; _; _]) body) eqn:E4; cbn [orb isValid invalid];
    [split; [discriminate|intros (_ & _ & _ & _ & _ & _ & H & _); exfalso; apply H; reflexivity]|].
  destruct (includesI (js "vbscript:") body) eqn:E5; cbn [orb isValid invalid];
    [split; [discriminate|intros (_ & _ & _ & _ & _ & H & _); discriminate H]|].
  destruct (test (GmailSecurity.openTag "object") body) eqn:E6;
    cbn [orb isValid invalid];
    [split; [discriminate|intros (_ & _ & _ & H & _)];
     exfalso; apply (H "object"%string); [cbn; auto|now apply test_openTag]|].
  destruct (test (GmailSecurity.openTag "embed") body) eqn:E7;
    cbn [orb isValid invalid];
    [split; [discriminate|intros (_ & _ & _ & H & _)];
     exfalso; apply (H "embed"%string); [cbn; auto|now apply test_openTag]|].
  destruct (test (GmailSecurity.openTag "applet") body) eqn:E8;
    cbn [orb isValid invalid];
    [split; [discriminate|intros (_ & _ & _ & H & _)];
     exfalso; apply (H "applet"%string); [cbn; auto|now apply test_openTag]|].
  destruct (test (GmailSecurity.openTag "form") body) eqn:E9;
    cbn [orb isValid invalid];
    [split; [discriminate|intros (_ & _ & _ & H & _)];
     exfalso; apply (H "form"%string); [cbn; auto 10|now apply test_openTag]|].
  destruct (N.ltb_spec 10485760 (lengthN body)) as [L|L]; cbn [isValid invalid].
  { split; [discriminate|]. intros (_ & H & _). lia. }
  destruct (Nat.leb_spec 3 (List.length (filter (fun pattern => test pattern body)
                                           GmailSecurity.spamIndicators))) as [Sp|Sp];
    cbn [isValid invalid valid].
  { split; [discriminate|]. intros (_ & _ & _ & _ & _ & _ & _ & H). lia. }
  split; [|reflexivity]. intros _.
  split; [reflexivity|]. split; [exact L|]. split; [discriminate|].
  split.
  { intros tag [<-|[<-|[<-|[<-|[<-|[]]]]]]; now apply T. }
  split; [reflexivity|]. split; [reflexivity|]. split; [discriminate|exact Sp].
Qed.

(** ** Refusals, and the checks of the GitHub tools *)

(** *** What the tool says when Gmail refuses *)

Lemma failureMessage_defined (errorData : JsValue) (text : jsstring) :
  errorData <> JNull -> exists message, failureMessage errorData text = inr message.
Proof.
  intros N. unfold failureMessage.
  destruct errorData as [|b|m e|s|items|members]; [contradiction| ..];
    cbn [getProp bindE]; try (eexists; reflexivity).
  destruct (lookup (js "error") members) as [[|b|m e|s|items|ms]|];
    cbn [getProp bindE]; eexists; reflexivity.
Qed.

Lemma formatGmailError_fixed (w : World) (status : N) (m : option JsValue) (d : JsValue) :
  In status [400; 401; 403; 404; 429] ->
  exists text,
    formatGmailError w (ApiFailure status None JNull) = inr text
    /\ formatGmailError w (ApiFailure status m d) = inr text.
Proof.
  intros [<-|[<-|[<-|[<-|[<-|[]]]]]]; eexists; split; reflexivity.
Qed.

(** X28. When the checks pass and Gmail refuses the message, [sendEmail]
    ends as its [catch] does on the refusal: it answers with the text
    [formatGmailError] has for it, and throws where that function throws.
    For the statuses 400, 401, 403, 404 and 429 the text is a fixed one,
    whatever the body of the refusal; but a body that is the JSON text
    [null] makes the tool report a failed operation with the message of the
    engine's TypeError instead. *)
Theorem X28_sendEmail_refusal (w : World) (toLowerCase : jsstring -> jsstring)
    (draw : Draw) (props : Props) (a : SendEmailArgs) (response : HttpResponse) :
  checksPass toLowerCase a = true ->
  fetch w (sendRequest draw (accessToken props) (sentMessage a)) = inr response ->
  ok response = false ->
  (json response = inr JNull ->
   fst (sendEmail w toLowerCase draw props a)
   = inr (createErrorResponse
            (js "Failed to send email: Gmail operation failed: "
             ++ engineMessage w TypeError) None))
  /\ (json response <> inr JNull ->
      (exists message details,
         fst (sendEmail w toLowerCase draw props a)
         = caught w (ApiFailure (status response) message details))
      /\ (In (status response) [400; 401; 403; 404; 429] ->
          exists text,
            formatGmailError w (ApiFailure (status response) None JNull) = inr text
            /\ fst (sendEmail w toLowerCase draw props a)
               = inr (createErrorResponse (js "Failed to send email: " ++ text) None))).
Proof.
  intros C F O. unfold sendEmail. rewrite (trySendEmail_sends w toLowerCase draw props a C).
  unfold sendGmailMessage, answerOf. rewrite F, O. cbn [negb]. split.
  - intros ->. reflexivity.
  - intros N.
    assert (E : exists message details,
                match json response with
                | inr data => data
                | inl _ => JObj []
                end = details
                /\ failureMessage details (statusText response) = inr message).
    { destruct (json response) as [e|data].
      - eexists. exists (JObj []). split; reflexivity.
      - destruct (failureMessage_defined data (statusText response)) as (m & E).
        { intros ->. now apply N. }
        exists m, data. auto. }
    destruct E as (message & details & -> & ->). cbn [fst]. split.
    + exists message, details. reflexivity.
    + intros I.
      destruct (formatGmailError_fixed w _ message details I) as (text & T0 & T).
      exists text. split; [exact T0|]. now rewrite T.
Qed.

Lemma X28_witness :
  (json {| status := 401; statusText := js "Unauthorized"; text := inr (js "no");
           json := inl SyntaxError |} = inr JNull ->
   fst (sendEmail refusingWorld (fun s => s) sampleDraw sampleProps sampleMail)
   = inr (createErrorResponse
            (js "Failed to send email: Gmail operation failed: "
             ++ engineMessage refusingWorld TypeError) None))
  /\ (json {| status := 401; statusText := js "Unauthorized"; text := inr (js "no");
              json := inl SyntaxError |} <> inr JNull ->
      (exists message details,
         fst (sendEmail refusingWorld (fun s => s) sampleDraw sampleProps sampleMail)
         = caught refusingWorld (ApiFailure 401 message details))
      /\ (In 401 [400; 401; 403; 404; 429] ->
          exists text,
            formatGmailError refusingWorld (ApiFailure 401 None JNull) = inr text
            /\ fst (sendEmail refusingWorld (fun s => s) sampleDraw sampleProps sampleMail)
               = inr (createErrorResponse (js "Failed to send email: " ++ text) None))).
Proof.
  apply (X28_sendEmail_refusal refusingWorld (fun s => s) sampleDraw sampleProps
           sampleMail
           {| status := 401; statusText := js "Unauthorized"; text := inr (js "no");
              json := inl SyntaxError |}).
  - vm_compute. reflexivity.
  - reflexivity.
  - reflexivity.
Defined.

(** *** The checks of the GitHub tools *)

Lemma trimStart_spaces (ws r : jsstring) :
  forallb isTrimSpace ws = true -> trimStart (ws ++ r) = trimStart r.
Proof.
  induction ws as [|c ws IH]; intros H; [reflexivity|].
  cbn in H. apply andb_true_iff in H. destruct H as [Hc H].
  cbn [app trimStart]. rewrite Hc. now apply IH.
Qed.

Lemma trimStart_decompose (s : jsstring) :
  exists ws, s = ws ++ trimStart s /\ forallb isTrimSpace ws = true.
Proof.
  induction s as [|c s (ws & E & H)].
  - exists []. auto.
  - cbn [trimStart]. destruct (isTrimSpace c) eqn:Hc.
    + exists (c :: ws). cbn. rewrite Hc, H. split; [now rewrite <- E|reflexivity].
    + exists []. auto.
Qed.

Lemma forallb_rev {A} (f : A -> bool) (l : list A) :
  forallb f (rev l) = forallb f l.
Proof.
  induction l as [|a l IH]; [reflexivity|].
  cbn. rewrite forallb_app, IH. cbn. rewrite andb_true_r. apply andb_comm.
Qed.

Lemma trim_decompose (s : jsstring) :
  exists ws1 ws2, s = ws1 ++ trim s ++ ws2
                  /\ forallb isTrimSpace ws1 = true /\ forallb isTrimSpace ws2 = true.
Proof.
  destruct (trimStart_decompose s) as (ws1 & E1 & H1).
  destruct (trimStart_decompose (rev (trimStart s))) as (ws2 & E2 & H2).
  exists ws1, (rev ws2). unfold trim. rewrite forallb_rev.
  split; [|auto]. rewrite <- rev_app_distr, <- E2, rev_involutive. exact E1.
Qed.

Lemma trim_core (ws1 ws2 t : jsstring) :
  forallb isTrimSpace ws1 = true -> forallb isTrimSpace ws2 = true ->
  t <> [] -> isTrimSpace (hd 0 t) = false -> isTrimSpace (last t 0) = false ->
  trim (ws1 ++ t ++ ws2) = t.
Proof.
  intros H1 H2 Ht Hf Hl. unfold trim. rewrite (trimStart_spaces _ _ H1).
  destruct t as [|c t']; [contradiction|]. cbn [hd] in Hf.
  cbn [app trimStart]. rewrite Hf.
  change (c :: t' ++ ws2) with ((c :: t') ++ ws2).
  rewrite rev_app_distr, (trimStart_spaces (rev ws2)) by now rewrite forallb_rev.
  destruct (exists_last (l := c :: t') ltac:(discriminate)) as (l' & z & E).
  rewrite E in *. rewrite last_last in Hl. rewrite rev_app_distr.
  cbn [rev app trimStart]. rewrite Hl.
  change (z :: rev l') with (rev [z] ++ rev l').
  rewrite <- rev_app_distr, rev_involutive. reflexivity.
Qed.

Lemma Spans_repoPattern_core :
  SpansToEnd (seq [plus (Chars GitHubUtils.isRepoChar); char 47;
                   plus (Chars GitHubUtils.isRepoChar); Eos])
    (fun m => exists owner name,
                m = owner ++ [47] ++ name
                /\ owner <> [] /\ forallb GitHubUtils.isRepoChar owner = true
                /\ name <> [] /\ forallb GitHubUtils.isRepoChar name = true).
Proof.
  eapply SpansToEnd_ext.
  - apply SpansToEnd_Seq; [apply Spans_plus_Chars|].
    apply SpansToEnd_Seq; [apply Spans_Chars|].
    apply SpansToEnd_Seq; [apply Spans_plus_Chars|apply SpansToEnd_Eos].
  - intros m. split.
    + intros (owner & r & -> & (Ho & Fo) & c & r2 & -> & (ch & -> & Hc)
              & name & e & -> & (Hn & Fn) & ->).
      apply N.eqb_eq in Hc. subst ch. exists owner, name.
      rewrite app_nil_r. auto.
    + intros (owner & name & -> & Ho & Fo & Hn & Fn).
      exists owner, ([47] ++ name). split; [reflexivity|]. split; [auto|].
      exists [47], name. split; [reflexivity|]. split; [exists 47; auto|].
      exists name, []. rewrite app_nil_r. auto.
Qed.

Lemma test_repoPattern (t : jsstring) :
  test GitHubUtils.repoPattern t = true <->
  exists owner name,
    t = owner ++ [47] ++ name
    /\ owner <> [] /\ forallb GitHubUtils.isRepoChar owner = true
    /\ name <> [] /\ forallb GitHubUtils.isRepoChar name = true.
Proof. apply (test_anchored _ _ t Spans_repoPattern_core). Qed.

Lemma repoChar_not_space (c : N) :
  GitHubUtils.isRepoChar c = true -> isTrimSpace c = false /\ (c =? 47) = false.
Proof.
  unfold GitHubUtils.isRepoChar, isAlnum, isTrimSpace.
  rewrite !orb_true_iff, !andb_true_iff, !N.leb_le, !N.eqb_eq.
  intros H. split.
  - rewrite !orb_false_iff, !andb_false_iff, !N.leb_gt, !N.eqb_neq. lia.
  - apply N.eqb_neq. lia.
Qed.

Lemma space_not_slash (ws : jsstring) :
  forallb isTrimSpace ws = true -> includesChar 47 ws = false.
Proof.
  unfold includesChar. induction ws as [|c ws IH]; [reflexivity|].
  cbn [forallb existsb]. intros H.
  apply andb_true_iff in H. destruct H as [Hc H]. rewrite (IH H), orb_false_r.
  apply N.eqb_neq. intros <-. discriminate Hc.
Qed.

Lemma repoChars_no_slash (l : jsstring) :
  forallb GitHubUtils.isRepoChar l = true -> includesChar 47 l = false.
Proof.
  unfold includesChar. induction l as [|c l IH]; [reflexivity|].
  cbn [forallb existsb]. intros H.
  apply andb_true_iff in H. destruct H as [Hc H]. rewrite (IH H), orb_false_r.
  apply repoChar_not_space in Hc. rewrite N.eqb_sym. tauto.
Qed.

(** X29. [validateRepositoryFormat] accepts exactly the texts that are,
    between white space, an owner, one [/] and a name, both non-empty and
    of letters, digits, [.], [_] and [-]; its two checks on the pieces of
    [repo.split('/')] reject nothing that passed the pattern.  The two
    pieces, which [getRepositoryInfo] hands on, are the owner with the
    white space before it and the name with the white space after it. *)
Theorem X29_repository_accepted (repo : jsstring) :
  isValid (GitHubUtils.validateRepositoryFormat repo) = true <->
  exists ws1 owner name ws2,
    repo = ws1 ++ owner ++ [47] ++ name ++ ws2
    /\ forallb isTrimSpace ws1 = true /\ forallb isTrimSpace ws2 = true
    /\ owner <> [] /\ forallb GitHubUtils.isRepoChar owner = true
    /\ name <> [] /\ forallb GitHubUtils.isRepoChar name = true
    /\ split 47 repo = [ws1 ++ owner; name ++ ws2].
Proof.
  assert (Sp : forall ws1 owner name ws2,
             forallb isTrimSpace ws1 = true -> forallb isTrimSpace ws2 = true ->
             forallb GitHubUtils.isRepoChar owner = true ->
             forallb GitHubUtils.isRepoChar name = true ->
             split 47 (ws1 ++ owner ++ [47] ++ name ++ ws2)
             = [ws1 ++ owner; name ++ ws2]).
  { intros ws1 owner name ws2 H1 H2 Fo Fn.
    rewrite app_assoc. change ([47] ++ name ++ ws2) with (47 :: name ++ ws2).
    rewrite split_at_sep, split_no_sep; [reflexivity| |]; rewrite includesChar_app.
    - now rewrite (repoChars_no_slash name Fn), (space_not_slash ws2 H2).
    - now rewrite (space_not_slash ws1 H1), (repoChars_no_slash owner Fo). }
  unfold GitHubUtils.validateRepositoryFormat. split.
  - destruct (blank repo); [discriminate|].
    destruct (test GitHubUtils.repoPattern (trim repo)) eqn:T; [|discriminate].
    intros _. apply test_repoPattern in T.
    destruct T as (owner & name & E & Ho & Fo & Hn & Fn).
    destruct (trim_decompose repo) as (ws1 & ws2 & R & H1 & H2).
    exists ws1, owner, name, ws2. rewrite E in R.
    assert (R' : repo = ws1 ++ owner ++ [47] ++ name ++ ws2)
      by (rewrite R at 1; now rewrite <- !app_assoc).
    repeat split; auto. rewrite R' at 1. now apply Sp.
  - intros (ws1 & owner & name & ws2 & -> & H1 & H2 & Ho & Fo & Hn & Fn & S).
    assert (T : trim (ws1 ++ owner ++ [47] ++ name ++ ws2) = owner ++ [47] ++ name).
    { replace (ws1 ++ owner ++ [47] ++ name ++ ws2)
        with (ws1 ++ (owner ++ [47] ++ name) ++ ws2) by now rewrite <- !app_assoc.
      apply (trim_core ws1 ws2); auto.
      - destruct owner; discriminate.
      - destruct owner as [|c owner]; [contradiction|]. cbn in Fo |- *.
        apply andb_true_iff in Fo. now apply repoChar_not_space.
      - destruct (exists_last Hn) as (l' & z & ->).
        rewrite !app_assoc, last_last. rewrite forallb_app in Fn. cbn in Fn.
        rewrite andb_true_r in Fn. apply andb_true_iff in Fn.
        now apply repoChar_not_space. }
    assert (B : blank (ws1 ++ owner ++ [47] ++ name ++ ws2) = false).
    { apply blank_spec. rewrite T. destruct owner; discriminate. }
    rewrite B, T.
    rewrite (proj2 (test_repoPattern (owner ++ [47] ++ name)))
      by (exists owner, name; auto).
    cbn [negb]. rewrite S.
    destruct owner as [|c owner]; [contradiction|].
    destruct name as [|d name]; [contradiction|].
    destruct ws1; reflexivity.
Qed.

Lemma query_valid_tests (query : jsstring) :
  isValid (GitHubSecurity.validateSearchQuery query) = true ->
  existsb (fun pattern => test pattern query) GitHubSecurity.maliciousPatterns = false.
Proof.
  unfold GitHubSecurity.validateSearchQuery.
  destruct (blank query); [discriminate|].
  destruct (existsb _ GitHubSecurity.maliciousPatterns); [discriminate|reflexivity].
Qed.

(** X30. [validateSearchQuery] of the GitHub tools accepts exactly the
    queries that are not blank, have at most 256 code units, no control
    character, neither [<] nor [>], and none of [javascript:], [data:] and
    [vbscript:] in any case of the letters; [sanitizeGitHubContent] leaves
    every query it accepts as it is. *)
Theorem X30_query_accepted (query : jsstring) :
  (isValid (GitHubSecurity.validateSearchQuery query) = true <->
   trim query <> []
   /\ (List.length query <= 256)%nat
   /\ existsb isControl query = false
   /\ existsb (fun c => (c =? 60) || (c =? 62)) query = false
   /\ (forall w, In w ["javascript:"; "data:"; "vbscript:"]%string ->
                 includesI (js w) query = false))
  /\ (isValid (GitHubSecurity.validateSearchQuery query) = true ->
      GitHubSecurity.sanitizeGitHubContent query = query).
Proof.
  split.
  - unfold GitHubSecurity.validateSearchQuery.
    rewrite <- blank_spec, <- (lengthN_le query 256).
    cbn [existsb GitHubSecurity.maliciousPatterns].
    rewrite !test_Chars, !test_litI, orb_false_r.
    change (N.of_nat 256) with 256.
    destruct (blank query); cbn [isValid invalid];
      [split; [discriminate|intros (H & _); discriminate H]|].
    destruct (existsb isControl query); cbn [orb isValid invalid];
      [split; [discriminate|intros (_ & _ & H & _); discriminate H]|].
    destruct (existsb (fun c => (c =? 60) || (c =? 62)) query);
      cbn [orb isValid invalid];
      [split; [discriminate|intros (_ & _ & _ & H & _); discriminate H]|].
    destruct (includesI (js "javascript:") query) eqn:E1; cbn [orb isValid invalid];
      [split; [discriminate|intros (_ & _ & _ & _ & H)];
       rewrite H in E1 by (cbn; auto); discriminate E1|].
    destruct (includesI (js "data:") query) eqn:E2; cbn [orb isValid invalid];
      [split; [discriminate|intros (_ & _ & _ & _ & H)];
       rewrite H in E2 by (cbn; auto); discriminate E2|].
    destruct (includesI (js "vbscript:") query) eqn:E3; cbn [orb isValid invalid];
      [split; [discriminate|intros (_ & _ & _ & _ & H)];
       rewrite H in E3 by (cbn; auto); discriminate E3|].
    destruct (256 <? lengthN query); cbn [isValid invalid valid].
    + split; [discriminate|]. intros (_ & H & _). discriminate H.
    + split; [|reflexivity]. intros _. repeat split; auto.
      intros w [<-|[<-|[<-|[]]]]; assumption.
  - intros V. apply query_valid_tests in V.
    cbn [existsb GitHubSecurity.maliciousPatterns] in V.
    rewrite !orb_false_iff in V. destruct V as (C & _ & J & D & B & _).
    unfold GitHubSecurity.sanitizeGitHubContent.
    cbn [fold_left GitHubSecurity.sanitizers fst snd].
    rewrite (replaceGlobal_none (Chars isStripped)).
    2:{ rewrite test_Chars in *.
        exact (existsb_weaken _ _ _ isStripped_isControl C). }
    rewrite (replaceGlobal_none (litI "javascript:")) by exact J.
    rewrite (replaceGlobal_none (litI "data:")) by exact D.
    now rewrite (replaceGlobal_none (litI "vbscript:")) by exact B.
Qed.

